(** * charrain: the rain matrix engine of [src/charrain.c]

    A shallow embedding of the cell codec, the bounds-checked grid accessors,
    the glitch mutator and the spawn/advance state machine, together with the
    properties the specification states about them.  A second part covers the
    rest of the engine, the renderer [mat_print], the clamping and defaulting
    of the factors of the command line, the delay between frames, the start-up
    sequence and one iteration of the main loop, with properties read off the
    code.

    Modelling conventions.
    - C integers are [Z].  A conversion to [uint8_t], [uint16_t] or [size_t]
      is written out as a reduction modulo [2^8], [2^16] or [2^64]; a function
      with a [uint8_t] or [uint16_t] parameter converts its argument on entry,
      as the C call does.  [int] arithmetic is done in [Z]: signed overflow is
      undefined in C and does not occur for grids with fewer than [2^31] cells.
    - [float] is IEEE-754 binary32 with round-to-nearest-even, taken from the
      Standard Library's executable specification [SpecFloat] at precision 24
      and maximal exponent 128.
    - [rand()] reads the next element of a sequence [rand_seq : nat -> Z]
      fixed by [srand]; the position in the sequence is threaded explicitly.
    - A computation that performs an access outside the cell buffer, divides
      by zero or converts a float that has no integer value returns [None].
    - What is written to [stdout] is the list of the bytes written. *)

From Stdlib Require Import ZArith Lia Bool List.
From Stdlib Require Import Floats.SpecFloat.
From stdpp Require Import base tactics option list.

Local Open Scope Z_scope.

(** ** Fixed-width integers *)

Definition uint8 (z : Z) : Z := z mod 2 ^ 8.
Definition uint16 (z : Z) : Z := z mod 2 ^ 16.
Definition size_t (z : Z) : Z := z mod 2 ^ 64.

(** ** Constants of the source *)

Definition BITMASK_ASCII : Z := 0x00FF.
Definition BITMASK_STATE : Z := 0x0300.
Definition BITMASK_TSIZE : Z := 0xFC00.

Definition STATE_NONE : Z := 0.
Definition STATE_DROP : Z := 1.
Definition STATE_TAIL : Z := 2.

Definition TSIZE_MIN : Z := 8.
Definition TSIZE_MAX : Z := 63.

Definition ASCII_MIN : Z := 32.
Definition ASCII_MAX : Z := 126.

(** [colors] has six entries, so [NUM_COLORS] is [6]. *)
Definition colors : list Z := [231; 48; 41; 35; 29; 238].
Definition NUM_COLORS : Z := Z.of_nat (length colors).

(** ** Cell codec *)

Definition val_new (ascii state tsize : Z) : Z :=
  let ascii := uint8 ascii in
  let state := uint8 state in
  let tsize := uint8 tsize in
  uint16 (Z.lor (Z.lor (Z.land BITMASK_TSIZE (Z.shiftl tsize 10))
                       (Z.land BITMASK_STATE (Z.shiftl state 8)))
                ascii).

Definition val_get_ascii (value : Z) : Z :=
  uint8 (Z.land (uint16 value) BITMASK_ASCII).

Definition val_get_state (value : Z) : Z :=
  uint8 (Z.shiftr (Z.land (uint16 value) BITMASK_STATE) 8).

Definition val_get_tsize (value : Z) : Z :=
  uint8 (Z.shiftr (Z.land (uint16 value) BITMASK_TSIZE) 10).

(** ** Single-precision arithmetic

    The operations of the source on [float]: conversion from an integer,
    product, quotient, [ceil], and the conversions back to [int] and to
    [size_t], which truncate toward zero and are undefined when the truncated
    value does not fit the target type. *)

Module F32.

Definition prec : Z := 24.
Definition emax : Z := 128.

Definition of_Z (z : Z) : spec_float := binary_normalize prec emax z 0 false.
Definition mul (x y : spec_float) : spec_float := SFmul prec emax x y.
Definition div (x y : spec_float) : spec_float := SFdiv prec emax x y.

(** The float [m * 2^e], rounded when [m] has more than 24 bits. *)
Definition make (m e : Z) : spec_float := binary_normalize prec emax m e false.

(** Integer part of the magnitude [m * 2^e]. *)
Definition mag_floor (m : positive) (e : Z) : Z :=
  if 0 <=? e then Z.pos m * 2 ^ e else Z.pos m / 2 ^ (- e).

(** Least integer not below the magnitude [m * 2^e]. *)
Definition mag_ceil (m : positive) (e : Z) : Z :=
  if 0 <=? e then Z.pos m * 2 ^ e else - ((- Z.pos m) / 2 ^ (- e)).

Definition trunc (x : spec_float) : option Z :=
  match x with
  | S754_zero _ => Some 0
  | S754_finite s m e => Some (if s then - mag_floor m e else mag_floor m e)
  | _ => None
  end.

Definition floor (x : spec_float) : option Z :=
  match x with
  | S754_zero _ => Some 0
  | S754_finite s m e => Some (if s then - mag_ceil m e else mag_floor m e)
  | _ => None
  end.

Definition ceil (x : spec_float) : option Z :=
  match x with
  | S754_zero _ => Some 0
  | S754_finite s m e => Some (if s then - mag_floor m e else mag_ceil m e)
  | _ => None
  end.

Definition in_range (lo hi : Z) (z : Z) : option Z :=
  if (lo <=? z) && (z <=? hi) then Some z else None.

Definition to_int (x : spec_float) : option Z :=
  trunc x ≫= in_range (- 2 ^ 31) (2 ^ 31 - 1).

Definition to_size_t (x : spec_float) : option Z :=
  trunc x ≫= in_range 0 (2 ^ 64 - 1).

(** [(int) ceil(x)]: [ceil] is taken in double precision, where every
    single-precision value is exact. *)
Definition ceil_to_int (x : spec_float) : option Z :=
  ceil x ≫= in_range (- 2 ^ 31) (2 ^ 31 - 1).

End F32.

(** ** The matrix *)

Record matrix_s := Matrix {
  data : list Z;            (* cell buffer, row-major *)
  cols : Z;                 (* number of columns *)
  rows : Z;                 (* number of rows *)
  drop_count : Z;           (* current number of drops *)
  drop_ratio : spec_float   (* desired ratio of drops *)
}.

Definition set_data (d : list Z) (mat : matrix_s) : matrix_s :=
  Matrix d (cols mat) (rows mat) (drop_count mat) (drop_ratio mat).

Definition set_drop_count (n : Z) (mat : matrix_s) : matrix_s :=
  Matrix (data mat) (cols mat) (rows mat) n (drop_ratio mat).

(** [mat->data[i]] as an rvalue and as an assignment target: [None] when [i]
    is not an index of the buffer. *)
Definition load (mat : matrix_s) (i : Z) : option Z :=
  if i <? 0 then None else data mat !! Z.to_nat i.

Definition store (mat : matrix_s) (i : Z) (v : Z) : option matrix_s :=
  if (0 <=? i) && (i <? Z.of_nat (length (data mat)))
  then Some (set_data (<[Z.to_nat i := v]> (data mat)) mat)
  else None.

Definition mat_idx (mat : matrix_s) (row col : Z) : Z := row * cols mat + col.

Definition mat_get_value (mat : matrix_s) (row col : Z) : option Z :=
  if rows mat <=? row then Some 0
  else if cols mat <=? col then Some 0
  else load mat (mat_idx mat row col).

Definition mat_get_ascii (mat : matrix_s) (row col : Z) : option Z :=
  val_get_ascii <$> mat_get_value mat row col.

Definition mat_get_state (mat : matrix_s) (row col : Z) : option Z :=
  val_get_state <$> mat_get_value mat row col.

Definition mat_get_tsize (mat : matrix_s) (row col : Z) : option Z :=
  val_get_tsize <$> mat_get_value mat row col.

(** The [uint8_t] that [mat_set_value] returns is discarded by every caller;
    the model returns the updated matrix only. *)
Definition mat_set_value (mat : matrix_s) (row col value : Z) : option matrix_s :=
  if rows mat <=? row then Some mat
  else if cols mat <=? col then Some mat
  else store mat (mat_idx mat row col) (uint16 value).

Definition mat_set_ascii (mat : matrix_s) (row col ascii : Z) : option matrix_s :=
  value ← mat_get_value mat row col;
  mat_set_value mat row col
    (val_new ascii (val_get_state value) (val_get_tsize value)).

Definition mat_set_state (mat : matrix_s) (row col state : Z) : option matrix_s :=
  let state := uint8 state in
  value ← mat_get_value mat row col;
  let tsize := if state =? STATE_NONE then 0 else val_get_tsize value in
  mat_set_value mat row col (val_new (val_get_ascii value) state tsize).

Definition mat_set_tsize (mat : matrix_s) (row col tsize : Z) : option matrix_s :=
  value ← mat_get_value mat row col;
  mat_set_value mat row col
    (val_new (val_get_ascii value) (val_get_state value) tsize).

(** ** Placing cells and drops *)

Definition mat_put_cell_drop (mat : matrix_s) (row col tsize : Z) : option matrix_s :=
  mat ← mat_set_state mat row col STATE_DROP;
  mat_set_tsize mat row col tsize.

(** [ceil((NUM_COLORS-1) * intensity)] with [intensity = tnext / tsize]. *)
Definition tail_color (tsize tnext : Z) : option Z :=
  let intensity := F32.div (F32.of_Z tnext) (F32.of_Z tsize) in
  F32.ceil_to_int (F32.mul (F32.of_Z (NUM_COLORS - 1)) intensity).

Definition mat_put_cell_tail (mat : matrix_s) (row col tsize tnext : Z)
  : option matrix_s :=
  color ← tail_color tsize tnext;
  mat ← mat_set_state mat row col STATE_TAIL;
  mat_set_tsize mat row col color.

(** The loop of [mat_add_drop]; [n] is the number of iterations left, that is
    [tsize + 1 - i]. *)
Fixpoint add_drop_loop (n : nat) (mat : matrix_s) (i row col tsize : Z)
  : option matrix_s :=
  match n with
  | O => Some mat
  | S n' =>
      if row <? 0 then Some mat
      else if rows mat <=? row then add_drop_loop n' mat (i + 1) (row - 1) col tsize
      else if i =? 0 then
        mat ← mat_put_cell_drop mat row col tsize;
        add_drop_loop n' (set_drop_count (size_t (drop_count mat + 1)) mat)
                      (i + 1) (row - 1) col tsize
      else
        mat ← mat_put_cell_tail mat row col tsize i;
        add_drop_loop n' mat (i + 1) (row - 1) col tsize
  end.

Definition mat_add_drop (mat : matrix_s) (row col tsize : Z) : option matrix_s :=
  add_drop_loop (Z.to_nat (tsize + 1)) mat 0 row col tsize.

(** ** Operations that draw random numbers *)

Definition RAND_MAX : Z := 2147483647.

Section Engine.

(** The sequence of values [rand()] returns after [srand]. *)
Variable rand_seq : nat -> Z.

Definition rand (k : nat) : Z * nat := (rand_seq k, S k).

(** C's [%] on [int] truncates toward zero and is undefined for a zero
    divisor. *)
Definition c_rem (a b : Z) : option Z :=
  if b =? 0 then None else Some (Z.rem a b).

Definition rand_int (min max : Z) (k : nat) : option (Z * nat) :=
  let '(r, k) := rand k in
  x ← c_rem r ((max + 1) - min);
  Some (min + x, k).

Definition rand_int_mincap (min max : Z) (k : nat) : option (Z * nat) :=
  let '(r, k) := rand k in
  r ← c_rem r max;
  Some (if r <? min then min else r, k).

Definition rand_ascii (k : nat) : option (Z * nat) :=
  '(r, k) ← rand_int_mincap ASCII_MIN ASCII_MAX k;
  Some (uint8 r, k).

(** *** Glitch *)

Fixpoint glitch_loop (n : nat) (mat : matrix_s) (k : nat)
  : option (matrix_s * nat) :=
  match n with
  | O => Some (mat, k)
  | S n' =>
      let '(r, k) := rand k in
      row ← c_rem r (rows mat);
      let '(r, k) := rand k in
      col ← c_rem r (cols mat);
      '(ascii, k) ← rand_ascii k;
      mat ← mat_set_ascii mat row col ascii;
      glitch_loop n' mat k
  end.

(** Number of draws of [mat_glitch]: [num = fraction * size] converted to
    [int]. *)
Definition glitch_num (mat : matrix_s) (fraction : spec_float) : option Z :=
  let size := rows mat * cols mat in
  F32.to_int (F32.mul fraction (F32.of_Z size)).

Definition mat_glitch (mat : matrix_s) (fraction : spec_float) (k : nat)
  : option (matrix_s * nat) :=
  num ← glitch_num mat fraction;
  glitch_loop (Z.to_nat num) mat k.

(** *** Rain on the whole matrix (after a resize) *)

Fixpoint rain_loop (n : nat) (mat : matrix_s) (k : nat)
  : option (matrix_s * nat) :=
  match n with
  | O => Some (mat, k)
  | S n' =>
      '(c, k) ← rand_int 0 (cols mat - 1) k;
      '(r, k) ← rand_int 0 (rows mat - 1) k;
      '(tsize, k) ← rand_int TSIZE_MIN TSIZE_MAX k;
      mat ← mat_add_drop mat r c tsize;
      rain_loop n' mat k
  end.

Definition mat_rain (mat : matrix_s) (k : nat) : option (matrix_s * nat) :=
  num ← F32.to_int (F32.mul (F32.of_Z (cols mat * rows mat)) (drop_ratio mat));
  rain_loop (Z.to_nat num) mat k.

(** *** Moving a column down one row *)

(** The locals of [mat_mov_col] that live across iterations. *)
Record mov_locals := MovLocals {
  tail_size : Z;
  tail_seen : Z;
  state : Z
}.

(** The loop of [mat_mov_col] from [row = n - 1] down to [row = 0]. *)
Fixpoint mov_col_loop (n : nat) (mat : matrix_s) (col : Z) (l : mov_locals)
  : option (matrix_s * mov_locals) :=
  match n with
  | O => Some (mat, l)
  | S n' =>
      let row := Z.of_nat n' in
      value ← mat_get_value mat row col;
      let state := val_get_state value in
      let tsize := val_get_tsize value in
      if state =? STATE_NONE then
        mov_col_loop n' mat col (MovLocals (tail_size l) (tail_seen l) state)
      else
        mat ← mat_set_state mat (row + 1) col state;
        mat ← mat_set_tsize mat (row + 1) col tsize;
        mat ← mat_set_state mat row col STATE_NONE;
        mat ← mat_set_tsize mat row col 0;
        let l' :=
          if state =? STATE_DROP then MovLocals tsize 0 state
          else if (state =? STATE_TAIL) && (0 <? tail_size l)
          then MovLocals (tail_size l) (uint8 (tail_seen l + 1)) state
          else MovLocals (tail_size l) (tail_seen l) state in
        mov_col_loop n' mat col l'
  end.

(** Returns the matrix and [dropped], 1 when a DROP fell off the bottom. *)
Definition mat_mov_col (mat : matrix_s) (col : Z) : option (matrix_s * Z) :=
  bottom ← mat_get_state mat (rows mat - 1) col;
  let dropped := if bottom =? STATE_DROP then 1 else 0 in
  '(mat, l) ← mov_col_loop (Z.to_nat (rows mat)) mat col
                 (MovLocals 0 0 STATE_NONE);
  mat ← (if negb (state l =? STATE_NONE) && (tail_seen l <? tail_size l)
         then mat_put_cell_tail mat 0 col (tail_size l) (tail_seen l + 1)
         else Some mat);
  Some (mat, dropped).

(** *** One tick *)

Definition drops_desired (mat : matrix_s) : option Z :=
  F32.to_size_t (F32.mul (F32.of_Z (cols mat * rows mat)) (drop_ratio mat)).

Definition drops_missing (mat : matrix_s) : option Z :=
  desired ← drops_desired mat;
  Some (size_t (desired - drop_count mat)).

Definition drops_to_add (mat : matrix_s) : option Z :=
  missing ← drops_missing mat;
  F32.to_size_t (F32.div (F32.of_Z missing) (F32.of_Z (rows mat))).

(** The spawn loop of [mat_update], [n] iterations. *)
Fixpoint spawn_loop (n : nat) (mat : matrix_s) (k : nat)
  : option (matrix_s * nat) :=
  match n with
  | O => Some (mat, k)
  | S n' =>
      '(col, k) ← rand_int 0 (cols mat - 1) k;
      '(tsize, k) ← rand_int TSIZE_MIN TSIZE_MAX k;
      mat ← mat_add_drop mat 0 col tsize;
      spawn_loop n' mat k
  end.

(** The advance loop of [mat_update] over the columns [col .. cols - 1];
    [n] is the number of columns left. *)
Fixpoint advance_loop (n : nat) (mat : matrix_s) (col : Z) : option matrix_s :=
  match n with
  | O => Some mat
  | S n' =>
      '(mat, dropped) ← mat_mov_col mat col;
      advance_loop n' (set_drop_count (size_t (drop_count mat - dropped)) mat)
                   (col + 1)
  end.

Definition mat_update_spawn (mat : matrix_s) (k : nat) : option (matrix_s * nat) :=
  to_add ← drops_to_add mat;
  spawn_loop (Z.to_nat (to_add + 1)) mat k.

Definition mat_update_advance (mat : matrix_s) : option matrix_s :=
  advance_loop (Z.to_nat (cols mat)) mat 0.

Definition mat_update (mat : matrix_s) (k : nat) : option (matrix_s * nat) :=
  '(mat, k) ← mat_update_spawn mat k;
  mat ← mat_update_advance mat;
  Some (mat, k).

(** *** Filling the matrix *)

Fixpoint fill_cols (n : nat) (mat : matrix_s) (r c : Z) (k : nat)
  : option (matrix_s * nat) :=
  match n with
  | O => Some (mat, k)
  | S n' =>
      mat ← mat_set_state mat r c STATE_NONE;
      '(ascii, k) ← rand_ascii k;
      mat ← mat_set_ascii mat r c ascii;
      fill_cols n' mat r (c + 1) k
  end.

Fixpoint fill_rows (n : nat) (mat : matrix_s) (r : Z) (k : nat)
  : option (matrix_s * nat) :=
  match n with
  | O => Some (mat, k)
  | S n' =>
      '(mat, k) ← fill_cols (Z.to_nat (cols mat)) mat r 0 k;
      fill_rows n' mat (r + 1) k
  end.

Definition mat_fill (mat : matrix_s) (k : nat) : option (matrix_s * nat) :=
  fill_rows (Z.to_nat (rows mat)) mat 0 k.

End Engine.

(** [mat_init]: [block] is the buffer [realloc] returns, [None] when the
    allocation fails.  The request is for [sizeof(mat->data) * rows * cols]
    bytes, four sixteen-bit cells per cell of the grid on a 64-bit target. *)
Definition mat_init (mat : matrix_s) (rows cols : Z) (drop_ratio : spec_float)
    (block : option (list Z)) : Z * matrix_s :=
  match block with
  | None => (-1, set_data [] mat)
  | Some d => (0, Matrix d (uint16 cols) (uint16 rows) 0 drop_ratio)
  end.

(** ** Clamping a factor *)

(** [x > y] on floats: false when either side is not a number. *)
Definition SFgtb (x y : spec_float) : bool :=
  match SFcompare x y with Some Gt => true | _ => false end.

(** [cap_float]: the value [*val] holds on return. *)
Definition cap_float (val min max : spec_float) : spec_float :=
  if SFltb val min then min
  else if SFgtb val max then max
  else val.

(** ** The factors of the command line *)

(** Constants of type [double] and their conversion to [float]. *)
Module F64.

Definition prec : Z := 53.
Definition emax : Z := 1024.

Definition of_Z (z : Z) : spec_float := binary_normalize prec emax z 0 false.
Definition div (x y : spec_float) : spec_float := SFdiv prec emax x y.

(** The [double] nearest to the decimal fraction [n / d], which is the value
    of the constant written in decimal. *)
Definition decimal (n d : Z) : spec_float := div (of_Z n) (of_Z d).

Definition to_float (x : spec_float) : spec_float :=
  match x with
  | S754_finite s m e =>
      binary_normalize F32.prec F32.emax (if s then Z.neg m else Z.pos m) e false
  | _ => x
  end.

End F64.

Definition ERROR_FACTOR_MIN : spec_float := F64.decimal 1 100.
Definition ERROR_FACTOR_MAX : spec_float := F64.decimal 10 100.
Definition ERROR_FACTOR_DEF : spec_float := F64.decimal 2 100.

Definition DROPS_FACTOR_MIN : spec_float := F64.decimal 1 100.
Definition DROPS_FACTOR_MAX : spec_float := F64.decimal 10 100.
Definition DROPS_FACTOR_DEF : spec_float := F64.decimal 1 10000.

Definition SPEED_FACTOR_MIN : spec_float := F64.decimal 1 100.
Definition SPEED_FACTOR_MAX : spec_float := F64.decimal 100 100.
Definition SPEED_FACTOR_DEF : spec_float := F64.decimal 10 100.

(** The fields keep their names inside the module: [rand] is also the name of
    the random number generator. *)
Module Opts.

Record options_s := Options {
  speed : spec_float;    (* speed factor *)
  drops : spec_float;    (* drops ratio / factor *)
  error : spec_float;    (* error ratio / factor *)
  rand : Z;              (* seed for rand() *)
  bg_color : Z;          (* custom background color *)
  bg_set : bool;         (* set background color *)
  help : bool;           (* show help and exit *)
  version : bool         (* show version and exit *)
}.

End Opts.

(** [x == 0.0] *)
Definition is_zero (x : spec_float) : bool := SFeqb x (S754_zero false).

(** The options as [main] uses them once the command line is parsed and
    neither the help nor the version is asked for: a factor left at zero takes
    its default, every factor is capped to its range, and a zero seed is
    replaced by the current time [now]. *)
Definition main_options (opts : Opts.options_s) (now : Z) : Opts.options_s :=
  let speed := if is_zero (Opts.speed opts)
               then F64.to_float SPEED_FACTOR_DEF else Opts.speed opts in
  let drops := if is_zero (Opts.drops opts)
               then F64.to_float DROPS_FACTOR_DEF else Opts.drops opts in
  let error := if is_zero (Opts.error opts)
               then F64.to_float ERROR_FACTOR_DEF else Opts.error opts in
  let rand := if Opts.rand opts =? 0 then now else Opts.rand opts in
  Opts.Options
    (cap_float speed (F64.to_float SPEED_FACTOR_MIN) (F64.to_float SPEED_FACTOR_MAX))
    (cap_float drops (F64.to_float DROPS_FACTOR_MIN) (F64.to_float DROPS_FACTOR_MAX))
    (cap_float error (F64.to_float ERROR_FACTOR_MIN) (F64.to_float ERROR_FACTOR_MAX))
    rand (Opts.bg_color opts) (Opts.bg_set opts) (Opts.help opts)
    (Opts.version opts).

(** The delay of a frame in nanoseconds, as [main] computes it from the
    speed factor: [less] is the product in single precision converted to
    [int], and the difference is taken in [int]. *)
Definition main_delay (speed : spec_float) : option Z :=
  less ← F32.to_int (F32.mul (F32.of_Z 90000000) speed);
  F32.in_range (- 2 ^ 31) (2 ^ 31 - 1) (100000000 - less).

(** ** Printing the matrix

    The bytes written to [stdout], as a list of values of [unsigned char]. *)

(** The digits [printf] writes for a [uint8_t] under [%hhu]. *)
Definition print_uint8 (n : Z) : list Z :=
  if n <? 10 then [48 + n]
  else if n <? 100 then [48 + n / 10; 48 + n mod 10]
  else [48 + n / 100; 48 + (n / 10) mod 10; 48 + n mod 10].

(** [color_fg]: the escape character, the characters of 38;5; between an
    opening bracket and the colour in decimal, and the letter m. *)
Definition color_fg (color : Z) : list Z :=
  [27; 91; 51; 56; 59; 53; 59] ++ print_uint8 (uint8 color) ++ [109].

(** The bytes [mat_print] writes for one cell; [None] when the tail size of a
    TAIL cell is no index of [colors]. *)
Definition print_cell (value : Z) : option (list Z) :=
  let state := val_get_state value in
  if state =? STATE_NONE then Some [32]
  else if state =? STATE_DROP then
    color ← colors !! 0%nat;
    Some (color_fg color ++ [val_get_ascii value])
  else if state =? STATE_TAIL then
    color ← colors !! Z.to_nat (val_get_tsize value);
    Some (color_fg color ++ [val_get_ascii value])
  else Some [].

(** The loop of [mat_print] from cell [i] on, [n] cells left. *)
Fixpoint print_loop (n : nat) (mat : matrix_s) (i : Z) : option (list Z) :=
  match n with
  | O => Some []
  | S n' =>
      value ← load mat i;
      out ← print_cell value;
      rest ← print_loop n' mat (i + 1);
      Some (out ++ rest)
  end.

Definition mat_print (mat : matrix_s) : option (list Z) :=
  print_loop (Z.to_nat (size_t (cols mat * rows mat))) mat 0.

(** [cli_clear]: the escape character, an opening bracket and the letter H,
    which puts the cursor back to the top left. *)
Definition cli_clear (rows : Z) : list Z := [27; 91; 72].

(** One iteration of the loop of [main] when no resize is pending: the frame
    is printed, then the matrix is glitched and updated.  The result is the
    bytes written, the matrix and the position in the random sequence. *)
Definition main_iteration (rand_seq : nat -> Z) (error : spec_float)
    (mat : matrix_s) (k : nat) : option (list Z * matrix_s * nat) :=
  let out := cli_clear (rows mat) in
  frame ← mat_print mat;
  '(mat, k) ← mat_glitch rand_seq mat error k;
  '(mat, k) ← mat_update rand_seq mat k;
  Some (out ++ frame, mat, k).

(** ** Predicates used in the statements *)

(** The grid has positive dimensions that fit [uint16_t], and the buffer holds
    at least one cell per grid position. *)
Definition wf (mat : matrix_s) : Prop :=
  0 < rows mat < 2 ^ 16 /\ 0 < cols mat < 2 ^ 16 /\
  rows mat * cols mat <= Z.of_nat (length (data mat)).

Definition in_grid (mat : matrix_s) (row col : Z) : Prop :=
  0 <= row < rows mat /\ 0 <= col < cols mat.

(** Position of cell [(row, col)] in the buffer. *)
Definition idx (mat : matrix_s) (row col : Z) : nat :=
  Z.to_nat (mat_idx mat row col).

(** What the three field setters do to the word of a cell. *)
Definition cell_set_ascii (ascii v : Z) : Z :=
  val_new ascii (val_get_state v) (val_get_tsize v).

Definition cell_set_state (state v : Z) : Z :=
  val_new (val_get_ascii v) (uint8 state)
          (if uint8 state =? STATE_NONE then 0 else val_get_tsize v).

Definition cell_set_tsize (tsize v : Z) : Z :=
  val_new (val_get_ascii v) (val_get_state v) tsize.

(** A NONE cell carries no tail size. *)
Definition cell_ok (v : Z) : Prop :=
  val_get_state v = STATE_NONE -> val_get_tsize v = 0.

(** The cells of the grid: the first [rows * cols] words of the buffer. *)
Definition cells (mat : matrix_s) : list Z :=
  take (Z.to_nat (rows mat * cols mat)) (data mat).

(** The matrix with the word of cell [(row, col)] replaced by [w]. *)
Definition put (mat : matrix_s) (row col w : Z) : matrix_s :=
  set_data (<[idx mat row col := w]> (data mat)) mat.

(** Quotient rounded up. *)
Definition ceil_div (a b : Z) : Z := - ((- a) / b).

Definition tail_color_ok (tsize tnext : Z) : bool :=
  match tail_color tsize tnext with
  | Some c => c =? ceil_div ((NUM_COLORS - 1) * tnext) tsize
  | None => false
  end.

(** The words [mat_put_cell_drop] and [mat_put_cell_tail] leave in a cell
    that held [v]. *)
Definition drop_cell (tsize v : Z) : Z :=
  cell_set_tsize tsize (cell_set_state STATE_DROP v).

Definition tail_cell (color v : Z) : Z :=
  cell_set_tsize color (cell_set_state STATE_TAIL v).

(** The character [rand_ascii] makes of one value of [rand()]. *)
Definition ascii_of_rand (r : Z) : Z :=
  uint8 (let x := Z.rem r ASCII_MAX in if x <? ASCII_MIN then ASCII_MIN else x).

(** The remainders [rand() % ASCII_MAX] from which [rand_ascii] makes the
    character [v]. *)
Definition draws_giving (v : Z) : list Z :=
  filter (fun x => ascii_of_rand x = v) (seqZ 0 ASCII_MAX).

(** The word [mat_fill] leaves in a cell that held [v]. *)
Definition fill_cell (ascii v : Z) : Z :=
  cell_set_ascii ascii (cell_set_state STATE_NONE v).

(** [d'] is [d] with the [n] words from position [s] on filled, the word at
    position [s + j] with the character made of draw [k + j]. *)
Definition filled (rand_seq : nat -> Z) (d d' : list Z) (s n k : nat) : Prop :=
  length d' = length d /\
  forall i : nat,
    d' !! i =
      if decide (s <= i < s + n)%nat
      then fill_cell (ascii_of_rand (rand_seq (k + (i - s))%nat)) <$> d !! i
      else d !! i.

(** A word with the state and the tail size of [v]. *)
Definition same_state_tsize (v v' : Z) : Prop :=
  val_get_state v' = val_get_state v /\ val_get_tsize v' = val_get_tsize v.

(** The position [mat_glitch] draws in its draw number [j], the draws starting
    at position [k] of the random sequence. *)
Definition glitch_target (rand_seq : nat -> Z) (mat : matrix_s) (k j : nat) : nat :=
  idx mat (Z.rem (rand_seq (k + 3 * j)%nat) (rows mat))
          (Z.rem (rand_seq (k + 3 * j + 1)%nat) (cols mat)).

(** A step from word [v] to word [v'] that keeps a well-formed cell
    well-formed. *)
Definition ok_step (v v' : Z) : Prop := cell_ok v -> cell_ok v'.

(** [mat'] has the shape of [mat] and every well-formed cell of [mat] is
    well-formed in [mat']. *)
Definition keeps_ok (mat mat' : matrix_s) : Prop :=
  rows mat' = rows mat /\ cols mat' = cols mat /\
  Forall2 ok_step (data mat) (data mat').

(** The invariant: in every cell of the grid, state NONE implies tail size 0. *)
Definition grid_ok (mat : matrix_s) : Prop := Forall cell_ok (cells mat).

(** The words [mat_mov_col] leaves in the cell a trace leaves and in the cell
    it enters. *)
Definition cleared_cell (v : Z) : Z :=
  cell_set_tsize 0 (cell_set_state STATE_NONE v).

Definition moved_cell (state tsize v : Z) : Z :=
  cell_set_tsize tsize (cell_set_state state v).

(** Sum of [f lo], [f (lo + 1)], ..., [n] terms. *)
Fixpoint sum_range (f : Z -> Z) (lo : Z) (n : nat) : Z :=
  match n with
  | O => 0
  | S n' => f lo + sum_range f (lo + 1) n'
  end.

Definition is_drop (mat : matrix_s) (row col : Z) : bool :=
  bool_decide (mat_get_state mat row col = Some STATE_DROP).

Definition drop_at (mat : matrix_s) (row col : Z) : Z :=
  if is_drop mat row col then 1 else 0.

(** Number of DROP cells in a row and in the whole grid. *)
Definition row_drops (mat : matrix_s) (row : Z) : Z :=
  sum_range (drop_at mat row) 0 (Z.to_nat (cols mat)).

Definition count_drops (mat : matrix_s) : Z :=
  sum_range (row_drops mat) 0 (Z.to_nat (rows mat)).

(** Integer part of [m * 2^e]. *)
Definition scaled_floor (m e : Z) : Z :=
  if 0 <=? e then m * 2 ^ e else m / 2 ^ (- e).

(** The matrices the program can hold: the matrix is filled at start-up and
    after a resize, then rained on, glitched and updated; a drop may be placed
    anywhere in a column of the grid. *)
Inductive reachable (rand_seq : nat -> Z) : matrix_s -> Prop :=
  | reach_fill mat k mat' k' :
      wf mat -> mat_fill rand_seq mat k = Some (mat', k') ->
      reachable rand_seq mat'
  | reach_rain mat k mat' k' :
      reachable rand_seq mat -> mat_rain rand_seq mat k = Some (mat', k') ->
      reachable rand_seq mat'
  | reach_glitch mat fraction k mat' k' :
      reachable rand_seq mat ->
      mat_glitch rand_seq mat fraction k = Some (mat', k') ->
      reachable rand_seq mat'
  | reach_update mat k mat' k' :
      reachable rand_seq mat -> mat_update rand_seq mat k = Some (mat', k') ->
      reachable rand_seq mat'
  | reach_advance mat mat' :
      reachable rand_seq mat -> mat_update_advance mat = Some mat' ->
      reachable rand_seq mat'
  | reach_add_drop mat row col tsize mat' :
      reachable rand_seq mat ->
      0 <= col < cols mat -> 0 <= tsize <= TSIZE_MAX ->
      mat_add_drop mat row col tsize = Some mat' ->
      reachable rand_seq mat'.

(** A 10x1 grid, and the same grid with a drop of tail length 3 placed at
    row 5. *)
Definition grid_10x1 (v0 v1 v2 v3 v4 v5 v6 v7 v8 v9 dc : Z) (ratio : spec_float)
  : matrix_s :=
  Matrix [v0; v1; v2; v3; v4; v5; v6; v7; v8; v9] 1 10 dc ratio.

Definition placed_10x1 (v0 v1 v2 v3 v4 v5 v6 v7 v8 v9 dc : Z) (ratio : spec_float)
  : matrix_s :=
  Matrix [v0; v1; tail_cell 5 v2; tail_cell 4 v3; tail_cell 2 v4;
          drop_cell 3 v5; v6; v7; v8; v9] 1 10 (size_t (dc + 1)) ratio.

(** The target as the specification words it: the exact product
    [rows * cols * drop_ratio] rounded to the nearest integer, halves up.  To
    be compared with [drops_desired], which is what the source computes. *)
Definition spec_target (mat : matrix_s) : option Z :=
  let n := rows mat * cols mat in
  match drop_ratio mat with
  | S754_zero _ => Some 0
  | S754_finite s m e =>
      let x := if s then - (n * Z.pos m) else n * Z.pos m in
      Some (if 0 <=? e then x * 2 ^ e
            else (2 * x + 2 ^ (- e)) / (2 * 2 ^ (- e)))
  | _ => None
  end.

(** The count as the specification words it: the integer part, rounded down,
    of the exact product [fraction * rows * cols].  To be compared with
    [glitch_num], which is what the source computes. *)
Definition spec_glitch_count (mat : matrix_s) (fraction : spec_float) : option Z :=
  let n := rows mat * cols mat in
  match fraction with
  | S754_zero _ => Some 0
  | S754_finite s m e =>
      Some (scaled_floor (if s then - (n * Z.pos m) else n * Z.pos m) e)
  | _ => None
  end.

(** The word [mat_add_drop] leaves in the cell [i] rows above the drop, which
    held [v]. *)
Definition trace_cell (tsize i v : Z) : Z :=
  if i =? 0 then drop_cell tsize v
  else tail_cell (ceil_div ((NUM_COLORS - 1) * i) tsize) v.

(** The word of a cell after the trace it held has moved on. *)
Definition vacated (v : Z) : Z :=
  if val_get_state v =? STATE_NONE then v else cleared_cell v.

(** The word of a cell holding [cur] after the cell above it, which held
    [above], has been moved into it. *)
Definition landed (above cur : Z) : Z :=
  if val_get_state above =? STATE_NONE then cur
  else moved_cell (val_get_state above) (val_get_tsize above) cur.

(** The locals of [mat_mov_col] after the loop has visited a cell holding
    [v]. *)
Definition mov_locals_step (l : mov_locals) (v : Z) : mov_locals :=
  let state := val_get_state v in
  let tsize := val_get_tsize v in
  if state =? STATE_NONE then MovLocals (tail_size l) (tail_seen l) state
  else if state =? STATE_DROP then MovLocals tsize 0 state
  else if (state =? STATE_TAIL) && (0 <? tail_size l)
  then MovLocals (tail_size l) (uint8 (tail_seen l + 1)) state
  else MovLocals (tail_size l) (tail_seen l) state.

(** The locals after the loop has visited the cells holding [vs], listed from
    the top row down, starting at the bottom. *)
Definition mov_locals_scan (l : mov_locals) (vs : list Z) : mov_locals :=
  foldr (fun v acc => mov_locals_step acc v) l vs.

(** The words of column [col], from the top row down. *)
Definition column (mat : matrix_s) (col : Z) : list Z :=
  (fun r : nat => default 0 (data mat !! idx mat (Z.of_nat r) col))
    <$> seq 0 (Z.to_nat (rows mat)).

(** The word [mat_mov_col] leaves in the top cell of a column: the cell is
    vacated, and becomes a tail cell when the locals say that the tail of
    the last drop seen is not complete. *)
Definition top_cell (l : mov_locals) (v : Z) : Z :=
  if negb (state l =? STATE_NONE) && (tail_seen l <? tail_size l)
  then tail_cell (ceil_div ((NUM_COLORS - 1) * (tail_seen l + 1)) (tail_size l))
                 (vacated v)
  else vacated v.

(** Every cell of the grid satisfies [P]. *)
Definition grid_all (P : Z -> Prop) (mat : matrix_s) : Prop :=
  forall r c v, in_grid mat r c -> data mat !! idx mat r c = Some v -> P v.

(** A cell [mat_print] can show: its state is NONE, DROP or TAIL, and a TAIL
    cell carries the index of a tail colour. *)
Definition cell_shown (v : Z) : Prop :=
  (val_get_state v = STATE_NONE \/ val_get_state v = STATE_DROP \/
   val_get_state v = STATE_TAIL) /\
  (val_get_state v = STATE_TAIL -> 1 <= val_get_tsize v <= NUM_COLORS - 1).

(** [mat] is well-formed and [mat_print] can show each of its cells. *)
Definition shown (mat : matrix_s) : Prop := wf mat /\ grid_all cell_shown mat.

(** [mat] has the shape and the characters of [mat0]. *)
Definition same_chars (mat0 mat : matrix_s) : Prop :=
  rows mat = rows mat0 /\ cols mat = cols mat0 /\
  forall r c, in_grid mat0 r c ->
    mat_get_ascii mat r c = mat_get_ascii mat0 r c.

(** [mat] is well-formed and has the shape and the characters of [mat0]. *)
Definition keeps_chars (mat0 mat : matrix_s) : Prop :=
  wf mat /\ same_chars mat0 mat.

(** [mat] is well-formed and every cell of the grid holds a character that
    [rand_ascii] can return. *)
Definition printable (mat : matrix_s) : Prop :=
  wf mat /\
  forall r c, in_grid mat r c ->
    exists a, mat_get_ascii mat r c = Some a /\ ASCII_MIN <= a < ASCII_MAX.

(** What [j] steps of [shr_1] keep of [M]: the bits from [j] upward, the bit
    below them, and whether any lower bit is set. *)
Definition shifted (M j : Z) (mrs : shr_record) : Prop :=
  0 <= shr_m mrs /\
  exists t,
    2 * M = (2 * shr_m mrs + Z.b2z (shr_r mrs)) * 2 ^ j + 2 * t /\
    0 <= 2 * t < 2 ^ j /\
    (shr_s mrs = true <-> 0 < t).

(** * Properties *)

(** *** The packed word, field by field *)

Section Codec.

Lemma lor_disjoint_add (hi lo k : Z) :
  0 <= k -> 0 <= lo < 2 ^ k -> Z.lor (Z.shiftl hi k) lo = hi * 2 ^ k + lo.
Proof.
  intros Hk Hlo.
  rewrite <- Z.shiftl_mul_pow2 by lia.
  assert (Hdis : Z.land (Z.shiftl hi k) lo = 0).
  { apply Z.bits_inj'. intros n Hn.
    rewrite Z.land_spec, Z.bits_0.
    destruct (Z.lt_ge_cases n k) as [Hlt | Hge].
    - rewrite Z.shiftl_spec_low by lia. reflexivity.
    - rewrite <- (Z.mod_small lo (2 ^ k)) by lia.
      rewrite Z.mod_pow2_bits_high by lia.
      apply andb_false_r. }
  rewrite Z.add_nocarry_lxor by exact Hdis.
  symmetry. apply Z.lxor_lor. exact Hdis.
Qed.

Lemma mask_tsize_shift (t : Z) :
  Z.land BITMASK_TSIZE (Z.shiftl t 10) = Z.shiftl (t mod 2 ^ 6) 10.
Proof.
  change BITMASK_TSIZE with (Z.shiftl (Z.ones 6) 10).
  rewrite <- Z.shiftl_land, Z.land_comm, Z.land_ones by lia.
  reflexivity.
Qed.

Lemma mask_state_shift (s : Z) :
  Z.land BITMASK_STATE (Z.shiftl s 8) = Z.shiftl (s mod 2 ^ 2) 8.
Proof.
  change BITMASK_STATE with (Z.shiftl (Z.ones 2) 8).
  rewrite <- Z.shiftl_land, Z.land_comm, Z.land_ones by lia.
  reflexivity.
Qed.

(** The word built by [val_new] is the sum of its three fields. *)
Lemma val_new_fields (c s a : Z) :
  val_new c s a = (a mod 64) * 1024 + (s mod 4) * 256 + c mod 256.
Proof.
  unfold val_new, uint8, uint16.
  rewrite mask_tsize_shift, mask_state_shift.
  change (2 ^ 8) with 256. change (2 ^ 6) with 64. change (2 ^ 2) with 4.
  assert (Ha : (a mod 256) mod 64 = a mod 64) by (Z.div_mod_to_equations; lia).
  assert (Hs : (s mod 256) mod 4 = s mod 4) by (Z.div_mod_to_equations; lia).
  rewrite Ha, Hs.
  pose proof (Z.mod_pos_bound a 64).
  pose proof (Z.mod_pos_bound s 4).
  pose proof (Z.mod_pos_bound c 256).
  rewrite <- Z.lor_assoc.
  rewrite (lor_disjoint_add (s mod 4) (c mod 256) 8)
    by (change (2 ^ 8) with 256; lia).
  change (2 ^ 8) with 256.
  rewrite lor_disjoint_add by (change (2 ^ 10) with 1024; lia).
  change (2 ^ 10) with 1024. change (2 ^ 16) with 65536.
  rewrite Z.mod_small by lia. lia.
Qed.

(** Reading a field of a sixteen-bit word is a division and a remainder. *)
Lemma val_get_ascii_arith (v : Z) : val_get_ascii v = v mod 256.
Proof.
  unfold val_get_ascii, uint8, uint16.
  change BITMASK_ASCII with (Z.ones 8).
  rewrite Z.land_ones by lia.
  change (2 ^ 8) with 256. change (2 ^ 16) with 65536.
  Z.div_mod_to_equations; lia.
Qed.

Lemma val_get_state_arith (v : Z) : val_get_state v = (v / 256) mod 4.
Proof.
  unfold val_get_state, uint8, uint16.
  rewrite Z.shiftr_land.
  change (Z.shiftr BITMASK_STATE 8) with (Z.ones 2).
  rewrite Z.land_ones, Z.shiftr_div_pow2 by lia.
  change (2 ^ 8) with 256. change (2 ^ 16) with 65536. change (2 ^ 2) with 4.
  Z.div_mod_to_equations; lia.
Qed.

Lemma val_get_tsize_arith (v : Z) : val_get_tsize v = (v / 1024) mod 64.
Proof.
  unfold val_get_tsize, uint8, uint16.
  rewrite Z.shiftr_land.
  change (Z.shiftr BITMASK_TSIZE 10) with (Z.ones 6).
  rewrite Z.land_ones, Z.shiftr_div_pow2 by lia.
  change (2 ^ 8) with 256. change (2 ^ 16) with 65536. change (2 ^ 6) with 64.
  change (2 ^ 10) with 1024.
  Z.div_mod_to_equations; lia.
Qed.

Lemma val_get_ascii_new (c s a : Z) : val_get_ascii (val_new c s a) = c mod 256.
Proof.
  rewrite val_get_ascii_arith, val_new_fields.
  pose proof (Z.mod_pos_bound a 64). pose proof (Z.mod_pos_bound s 4).
  pose proof (Z.mod_pos_bound c 256).
  Z.div_mod_to_equations; lia.
Qed.

Lemma val_get_state_new (c s a : Z) : val_get_state (val_new c s a) = s mod 4.
Proof.
  rewrite val_get_state_arith, val_new_fields.
  pose proof (Z.mod_pos_bound a 64). pose proof (Z.mod_pos_bound s 4).
  pose proof (Z.mod_pos_bound c 256).
  Z.div_mod_to_equations; lia.
Qed.

Lemma val_get_tsize_new (c s a : Z) : val_get_tsize (val_new c s a) = a mod 64.
Proof.
  rewrite val_get_tsize_arith, val_new_fields.
  pose proof (Z.mod_pos_bound a 64). pose proof (Z.mod_pos_bound s 4).
  pose proof (Z.mod_pos_bound c 256).
  Z.div_mod_to_equations; lia.
Qed.

End Codec.

(** C10: the codec is total and truncating.  For every eight-bit character,
    state and tail size, [val_new] yields a word from which
    [val_get_state] reads the state modulo 4, [val_get_tsize] the tail size
    modulo 64 and [val_get_ascii] the character itself. *)
Theorem val_codec_truncates (c s a : Z) :
  0 <= c < 256 -> 0 <= s < 256 -> 0 <= a < 256 ->
  val_get_state (val_new c s a) = s mod 4 /\
  val_get_tsize (val_new c s a) = a mod 64 /\
  val_get_ascii (val_new c s a) = c.
Proof.
  intros Hc Hs Ha.
  rewrite val_get_state_new, val_get_tsize_new, val_get_ascii_new.
  rewrite (Z.mod_small c 256) by lia.
  auto.
Qed.

Lemma val_codec_truncates_witness :
  val_get_state (val_new 200 7 130) = 7 mod 4 /\
  val_get_tsize (val_new 200 7 130) = 130 mod 64 /\
  val_get_ascii (val_new 200 7 130) = 200.
Proof. apply (val_codec_truncates 200 7 130); lia. Defined.

(** C7: the codec round-trips on valid triples.  For a character in
    [32,126], a state among NONE, DROP and TAIL and a tail size in [0,63],
    decoding the encoded cell gives back the three fields. *)
Theorem val_codec_roundtrip (c s a : Z) :
  ASCII_MIN <= c <= ASCII_MAX ->
  s = STATE_NONE \/ s = STATE_DROP \/ s = STATE_TAIL ->
  0 <= a <= TSIZE_MAX ->
  val_get_ascii (val_new c s a) = c /\
  val_get_state (val_new c s a) = s /\
  val_get_tsize (val_new c s a) = a.
Proof.
  unfold ASCII_MIN, ASCII_MAX, STATE_NONE, STATE_DROP, STATE_TAIL, TSIZE_MAX.
  intros Hc Hs Ha.
  rewrite val_get_state_new, val_get_tsize_new, val_get_ascii_new.
  rewrite (Z.mod_small c 256), (Z.mod_small a 64) by lia.
  repeat split; trivial.
  destruct Hs as [-> | [-> | ->]]; reflexivity.
Qed.

Lemma val_codec_roundtrip_witness :
  val_get_ascii (val_new 126 STATE_TAIL 63) = 126 /\
  val_get_state (val_new 126 STATE_TAIL 63) = STATE_TAIL /\
  val_get_tsize (val_new 126 STATE_TAIL 63) = 63.
Proof.
  apply (val_codec_roundtrip 126 STATE_TAIL 63);
    unfold ASCII_MIN, ASCII_MAX, TSIZE_MAX; [lia | auto | lia].
Defined.

(** ** Grid accessors *)

Section Accessors.

Implicit Types (mat : matrix_s) (row col : Z).

Lemma mat_get_value_out mat row col :
  rows mat <= row \/ cols mat <= col -> mat_get_value mat row col = Some 0.
Proof.
  intros H. unfold mat_get_value.
  destruct (Z.leb_spec (rows mat) row); [reflexivity|].
  destruct (Z.leb_spec (cols mat) col); [reflexivity|lia].
Qed.

Lemma mat_set_value_out mat row col value :
  rows mat <= row \/ cols mat <= col -> mat_set_value mat row col value = Some mat.
Proof.
  intros H. unfold mat_set_value.
  destruct (Z.leb_spec (rows mat) row); [reflexivity|].
  destruct (Z.leb_spec (cols mat) col); [reflexivity|lia].
Qed.

Lemma idx_lt mat row col :
  wf mat -> in_grid mat row col ->
  0 <= mat_idx mat row col < rows mat * cols mat /\
  (idx mat row col < length (data mat))%nat.
Proof.
  intros (Hr & Hc & Hlen) [Hrow Hcol]. unfold idx, mat_idx.
  split; [nia|].
  apply Nat2Z.inj_lt. rewrite Z2Nat.id by nia. nia.
Qed.

Lemma idx_inj mat row col row' col' :
  in_grid mat row col -> in_grid mat row' col' ->
  idx mat row col = idx mat row' col' -> row = row' /\ col = col'.
Proof.
  intros [Hrow Hcol] [Hrow' Hcol'] Heq. unfold idx, mat_idx in Heq.
  apply Z2Nat.inj in Heq; [|nia|nia].
  assert (row = row') by nia. subst. lia.
Qed.

Lemma mat_get_value_in mat row col :
  wf mat -> in_grid mat row col ->
  mat_get_value mat row col = data mat !! idx mat row col /\
  is_Some (data mat !! idx mat row col).
Proof.
  intros Hwf Hin. destruct (idx_lt _ _ _ Hwf Hin) as [Hi Hlt].
  destruct Hin as [Hrow Hcol]. unfold mat_get_value, load.
  destruct (Z.leb_spec (rows mat) row); [lia|].
  destruct (Z.leb_spec (cols mat) col); [lia|].
  destruct (Z.ltb_spec (mat_idx mat row col) 0); [lia|].
  split; [reflexivity|]. apply lookup_lt_is_Some_2. exact Hlt.
Qed.

Lemma mat_set_value_in mat row col value :
  wf mat -> in_grid mat row col ->
  mat_set_value mat row col value =
    Some (set_data (<[idx mat row col := uint16 value]> (data mat)) mat).
Proof.
  intros Hwf Hin. destruct (idx_lt _ _ _ Hwf Hin) as [Hi Hlt].
  pose proof Hwf as (_ & _ & Hlen).
  destruct Hin as [Hrow Hcol]. unfold mat_set_value, store.
  destruct (Z.leb_spec (rows mat) row); [lia|].
  destruct (Z.leb_spec (cols mat) col); [lia|].
  destruct (Z.leb_spec 0 (mat_idx mat row col)); [|lia].
  destruct (Z.ltb_spec (mat_idx mat row col) (Z.of_nat (length (data mat))));
    [reflexivity|lia].
Qed.

End Accessors.

(** C5 (as amended): for every coordinate with [row >= rows] or
    [col >= cols], [mat_get_value] returns the zero cell and
    [mat_set_value] leaves the matrix unchanged.  Negative coordinates are not
    checked by the accessors; the callers never pass them. *)
Theorem out_of_range_high_is_neutral (mat : matrix_s) (row col value : Z) :
  rows mat <= row \/ cols mat <= col ->
  mat_get_value mat row col = Some 0 /\
  mat_set_value mat row col value = Some mat.
Proof.
  intros H. split.
  - apply mat_get_value_out, H.
  - apply mat_set_value_out, H.
Qed.

Lemma out_of_range_high_is_neutral_witness :
  let mat := Matrix [65; 322; 67; 68] 2 2 0 (F32.make 1 (-4)) in
  mat_get_value mat 2 (-1) = Some 0 /\ mat_set_value mat 2 (-1) 97 = Some mat.
Proof.
  intros mat. apply (out_of_range_high_is_neutral mat 2 (-1) 97).
  left. simpl. lia.
Defined.

(** C5 as stated fails for a negative column: on a 2x2 grid the coordinate
    [(1, -1)] lies outside the bounds, yet reading it returns the DROP cell at
    [(0, 1)] and writing it overwrites that cell. *)
Lemma negative_column_aliases_cell :
  ~ (forall (mat : matrix_s) (row col value : Z),
        wf mat ->
        row < 0 \/ col < 0 \/ rows mat <= row \/ cols mat <= col ->
        mat_get_value mat row col = Some 0 /\
        mat_set_value mat row col value = Some mat).
Proof.
  intros H.
  destruct (H (Matrix [65; 322; 67; 68] 2 2 0 (F32.make 1 (-4))) 1 (-1) 97)
    as [Hget _].
  - unfold wf. simpl. lia.
  - right. left. lia.
  - vm_compute in Hget. discriminate Hget.
Qed.

(** ** The field setters, cell by cell *)

Section Setters.

Implicit Types (mat : matrix_s) (row col v : Z).

Lemma val_get_state_range v : 0 <= val_get_state v < 4.
Proof. rewrite val_get_state_arith. apply Z.mod_pos_bound. lia. Qed.

Lemma val_get_tsize_range v : 0 <= val_get_tsize v < 64.
Proof. rewrite val_get_tsize_arith. apply Z.mod_pos_bound. lia. Qed.

Lemma val_get_ascii_range v : 0 <= val_get_ascii v < 256.
Proof. rewrite val_get_ascii_arith. apply Z.mod_pos_bound. lia. Qed.

Lemma uint16_val_new c s a : uint16 (val_new c s a) = val_new c s a.
Proof. unfold val_new, uint16. apply Z.mod_mod. lia. Qed.

Lemma state_cell_set_ascii a v :
  val_get_state (cell_set_ascii a v) = val_get_state v.
Proof.
  unfold cell_set_ascii. rewrite val_get_state_new.
  apply Z.mod_small, val_get_state_range.
Qed.

Lemma tsize_cell_set_ascii a v :
  val_get_tsize (cell_set_ascii a v) = val_get_tsize v.
Proof.
  unfold cell_set_ascii. rewrite val_get_tsize_new.
  apply Z.mod_small, val_get_tsize_range.
Qed.

Lemma ascii_cell_set_ascii a v : val_get_ascii (cell_set_ascii a v) = a mod 256.
Proof. unfold cell_set_ascii. apply val_get_ascii_new. Qed.

Lemma state_cell_set_state s v : val_get_state (cell_set_state s v) = s mod 4.
Proof.
  unfold cell_set_state, uint8. rewrite val_get_state_new.
  change (2 ^ 8) with 256. Z.div_mod_to_equations; lia.
Qed.

Lemma tsize_cell_set_state s v :
  val_get_tsize (cell_set_state s v) =
    if uint8 s =? STATE_NONE then 0 else val_get_tsize v.
Proof.
  unfold cell_set_state. rewrite val_get_tsize_new.
  destruct (uint8 s =? STATE_NONE); [reflexivity|].
  apply Z.mod_small, val_get_tsize_range.
Qed.

Lemma ascii_cell_set_state s v :
  val_get_ascii (cell_set_state s v) = val_get_ascii v.
Proof.
  unfold cell_set_state. rewrite val_get_ascii_new.
  apply Z.mod_small, val_get_ascii_range.
Qed.

Lemma state_cell_set_tsize t v :
  val_get_state (cell_set_tsize t v) = val_get_state v.
Proof.
  unfold cell_set_tsize. rewrite val_get_state_new.
  apply Z.mod_small, val_get_state_range.
Qed.

Lemma tsize_cell_set_tsize t v : val_get_tsize (cell_set_tsize t v) = t mod 64.
Proof. unfold cell_set_tsize. apply val_get_tsize_new. Qed.

Lemma ascii_cell_set_tsize t v :
  val_get_ascii (cell_set_tsize t v) = val_get_ascii v.
Proof.
  unfold cell_set_tsize. rewrite val_get_ascii_new.
  apply Z.mod_small, val_get_ascii_range.
Qed.

(** *** [put] *)

Lemma wf_put mat row col w : wf mat -> wf (put mat row col w).
Proof.
  unfold wf, put. simpl. rewrite length_insert. trivial.
Qed.

Lemma idx_put mat row col w row' col' :
  idx (put mat row col w) row' col' = idx mat row' col'.
Proof. reflexivity. Qed.

Lemma lookup_put_eq mat row col w :
  wf mat -> in_grid mat row col ->
  data (put mat row col w) !! idx mat row col = Some w.
Proof.
  intros Hwf Hin. simpl. apply list_lookup_insert_eq.
  apply (idx_lt _ _ _ Hwf Hin).
Qed.

Lemma lookup_put_ne mat row col w (i : nat) :
  i <> idx mat row col -> data (put mat row col w) !! i = data mat !! i.
Proof. intros Hne. simpl. apply list_lookup_insert_ne. congruence. Qed.

Lemma put_put mat row col w w' :
  put (put mat row col w) row col w' = put mat row col w'.
Proof.
  unfold put, set_data, idx, mat_idx. simpl.
  rewrite list_insert_insert_eq. reflexivity.
Qed.

(** *** The setters on a cell of the grid and above its bounds *)

Lemma mat_set_ascii_in mat row col a v :
  wf mat -> in_grid mat row col -> data mat !! idx mat row col = Some v ->
  mat_set_ascii mat row col a = Some (put mat row col (cell_set_ascii a v)).
Proof.
  intros Hwf Hin Hv. unfold mat_set_ascii.
  destruct (mat_get_value_in _ _ _ Hwf Hin) as [-> _]. rewrite Hv. simpl.
  rewrite mat_set_value_in by assumption.
  unfold cell_set_ascii. rewrite uint16_val_new. reflexivity.
Qed.

Lemma mat_set_state_in mat row col s v :
  wf mat -> in_grid mat row col -> data mat !! idx mat row col = Some v ->
  mat_set_state mat row col s = Some (put mat row col (cell_set_state s v)).
Proof.
  intros Hwf Hin Hv. unfold mat_set_state.
  destruct (mat_get_value_in _ _ _ Hwf Hin) as [-> _]. rewrite Hv. simpl.
  rewrite mat_set_value_in by assumption.
  unfold cell_set_state. rewrite uint16_val_new. reflexivity.
Qed.

Lemma mat_set_tsize_in mat row col t v :
  wf mat -> in_grid mat row col -> data mat !! idx mat row col = Some v ->
  mat_set_tsize mat row col t = Some (put mat row col (cell_set_tsize t v)).
Proof.
  intros Hwf Hin Hv. unfold mat_set_tsize.
  destruct (mat_get_value_in _ _ _ Hwf Hin) as [-> _]. rewrite Hv. simpl.
  rewrite mat_set_value_in by assumption.
  unfold cell_set_tsize. rewrite uint16_val_new. reflexivity.
Qed.

Lemma mat_set_state_out mat row col s :
  rows mat <= row \/ cols mat <= col -> mat_set_state mat row col s = Some mat.
Proof.
  intros H. unfold mat_set_state. rewrite mat_get_value_out by exact H.
  simpl. apply mat_set_value_out, H.
Qed.

Lemma mat_set_tsize_out mat row col t :
  rows mat <= row \/ cols mat <= col -> mat_set_tsize mat row col t = Some mat.
Proof.
  intros H. unfold mat_set_tsize. rewrite mat_get_value_out by exact H.
  simpl. apply mat_set_value_out, H.
Qed.

(** *** Cells written by a drop and by a tail *)

Lemma mat_put_cell_drop_in mat row col t v :
  wf mat -> in_grid mat row col -> data mat !! idx mat row col = Some v ->
  mat_put_cell_drop mat row col t =
    Some (put mat row col (drop_cell t v)).
Proof.
  intros Hwf Hin Hv. unfold mat_put_cell_drop.
  rewrite (mat_set_state_in _ _ _ _ v) by assumption. simpl.
  rewrite (mat_set_tsize_in _ _ _ _ (cell_set_state STATE_DROP v)).
  - rewrite put_put. reflexivity.
  - apply wf_put, Hwf.
  - exact Hin.
  - rewrite idx_put. apply lookup_put_eq; assumption.
Qed.

Lemma mat_put_cell_tail_in mat row col t i color v :
  wf mat -> in_grid mat row col -> data mat !! idx mat row col = Some v ->
  tail_color t i = Some color ->
  mat_put_cell_tail mat row col t i =
    Some (put mat row col (tail_cell color v)).
Proof.
  intros Hwf Hin Hv Hc. unfold mat_put_cell_tail. rewrite Hc. simpl.
  rewrite (mat_set_state_in _ _ _ _ v) by assumption. simpl.
  rewrite (mat_set_tsize_in _ _ _ _ (cell_set_state STATE_TAIL v)).
  - rewrite put_put. reflexivity.
  - apply wf_put, Hwf.
  - exact Hin.
  - rewrite idx_put. apply lookup_put_eq; assumption.
Qed.

End Setters.

(** ** Tail colours *)

(** On every tail length the six-bit field can hold, the single-precision
    computation of [mat_put_cell_tail] agrees with the exact rounded-up
    quotient. *)
Lemma tail_color_exact (tsize tnext : Z) :
  1 <= tnext <= tsize -> tsize <= TSIZE_MAX ->
  tail_color tsize tnext = Some (ceil_div ((NUM_COLORS - 1) * tnext) tsize).
Proof.
  intros Hi HL.
  assert (Hall : forallb (fun L => forallb (tail_color_ok L) (seqZ 1 L))
                         (seqZ 1 TSIZE_MAX) = true) by (vm_compute; reflexivity).
  rewrite forallb_forall in Hall.
  assert (HinL : In tsize (seqZ 1 TSIZE_MAX)).
  { apply list_elem_of_In, elem_of_seqZ. unfold TSIZE_MAX in *. lia. }
  specialize (Hall _ HinL). rewrite forallb_forall in Hall.
  assert (Hini : In tnext (seqZ 1 tsize)).
  { apply list_elem_of_In, elem_of_seqZ. lia. }
  specialize (Hall _ Hini). unfold tail_color_ok in Hall.
  destruct (tail_color tsize tnext) as [c|]; [|discriminate].
  apply Z.eqb_eq in Hall. congruence.
Qed.

Lemma tail_color_range (tsize tnext : Z) :
  1 <= tnext <= tsize -> tsize <= TSIZE_MAX ->
  exists c, tail_color tsize tnext = Some c /\ 1 <= c <= NUM_COLORS - 1.
Proof.
  intros Hi HL. eexists. split; [apply tail_color_exact; assumption|].
  unfold ceil_div. change (NUM_COLORS - 1) with 5.
  unfold TSIZE_MAX in HL. Z.div_mod_to_equations. nia.
Qed.

(** ** Placement of a drop *)

Lemma add_drop_loop_S n mat i row col tsize :
  add_drop_loop (S n) mat i row col tsize =
    if row <? 0 then Some mat
    else if rows mat <=? row then add_drop_loop n mat (i + 1) (row - 1) col tsize
    else if i =? 0 then
      mat ← mat_put_cell_drop mat row col tsize;
      add_drop_loop n (set_drop_count (size_t (drop_count mat + 1)) mat)
                    (i + 1) (row - 1) col tsize
    else
      mat ← mat_put_cell_tail mat row col tsize i;
      add_drop_loop n mat (i + 1) (row - 1) col tsize.
Proof. reflexivity. Qed.

Lemma state_drop_cell t v : val_get_state (drop_cell t v) = STATE_DROP.
Proof.
  unfold drop_cell. rewrite state_cell_set_tsize, state_cell_set_state.
  reflexivity.
Qed.

Lemma state_tail_cell c v : val_get_state (tail_cell c v) = STATE_TAIL.
Proof.
  unfold tail_cell. rewrite state_cell_set_tsize, state_cell_set_state.
  reflexivity.
Qed.

Lemma tsize_drop_cell t v : val_get_tsize (drop_cell t v) = t mod 64.
Proof. apply tsize_cell_set_tsize. Qed.

Lemma tsize_tail_cell c v : val_get_tsize (tail_cell c v) = c mod 64.
Proof. apply tsize_cell_set_tsize. Qed.

Lemma ascii_drop_cell t v : val_get_ascii (drop_cell t v) = val_get_ascii v.
Proof.
  unfold drop_cell. rewrite ascii_cell_set_tsize. apply ascii_cell_set_state.
Qed.

Lemma ascii_tail_cell c v : val_get_ascii (tail_cell c v) = val_get_ascii v.
Proof.
  unfold tail_cell. rewrite ascii_cell_set_tsize. apply ascii_cell_set_state.
Qed.

Ltac wf_tac :=
  unfold wf; cbn [rows cols data put set_data set_drop_count];
  rewrite ?length_insert; cbn [length]; lia.

Ltac grid_tac :=
  unfold in_grid; cbn [rows cols put set_data set_drop_count]; lia.

Ltac color_tac := apply tail_color_exact; unfold TSIZE_MAX; lia.

Section Placement.

Local Opaque cell_set_tsize cell_set_state val_get_state val_get_tsize
      tail_color mat_put_cell_drop mat_put_cell_tail drop_cell tail_cell.

Variables (v0 v1 v2 v3 v4 v5 v6 v7 v8 v9 dc : Z) (ratio : spec_float).

Lemma mat_add_drop_10x1 :
  mat_add_drop (grid_10x1 v0 v1 v2 v3 v4 v5 v6 v7 v8 v9 dc ratio) 5 0 3
    = Some (placed_10x1 v0 v1 v2 v3 v4 v5 v6 v7 v8 v9 dc ratio).
Proof.
  unfold mat_add_drop, grid_10x1, placed_10x1.
  change (Z.to_nat (3 + 1)) with 4%nat.
  rewrite add_drop_loop_S. cbn [rows].
  change (5 <? 0) with false. change (10 <=? 5) with false.
  change (0 =? 0) with true. cbv iota.
  erewrite mat_put_cell_drop_in; [|wf_tac|grid_tac|reflexivity].
  cbn [mbind option_bind].
  rewrite add_drop_loop_S. cbn [rows set_drop_count put set_data cols].
  change (5 - 1 <? 0) with false. change (10 <=? 5 - 1) with false.
  change (0 + 1 =? 0) with false. cbv iota.
  erewrite mat_put_cell_tail_in; [|wf_tac|grid_tac|reflexivity|color_tac].
  cbn [mbind option_bind].
  rewrite add_drop_loop_S. cbn [rows set_drop_count put set_data cols].
  change (5 - 1 - 1 <? 0) with false. change (10 <=? 5 - 1 - 1) with false.
  change (0 + 1 + 1 =? 0) with false. cbv iota.
  erewrite mat_put_cell_tail_in; [|wf_tac|grid_tac|reflexivity|color_tac].
  cbn [mbind option_bind].
  rewrite add_drop_loop_S. cbn [rows set_drop_count put set_data cols].
  change (5 - 1 - 1 - 1 <? 0) with false.
  change (10 <=? 5 - 1 - 1 - 1) with false.
  change (0 + 1 + 1 + 1 =? 0) with false. cbv iota.
  erewrite mat_put_cell_tail_in; [|wf_tac|grid_tac|reflexivity|color_tac].
  cbn [mbind option_bind add_drop_loop].
  reflexivity.
Qed.

Lemma placed_value (r : Z) (w : Z) :
  data (placed_10x1 v0 v1 v2 v3 v4 v5 v6 v7 v8 v9 dc ratio) !! Z.to_nat r
    = Some w ->
  0 <= r < 10 ->
  mat_get_value (placed_10x1 v0 v1 v2 v3 v4 v5 v6 v7 v8 v9 dc ratio) r 0
    = Some w.
Proof.
  intros Hw Hr. unfold mat_get_value, load, mat_idx, placed_10x1 in *.
  cbn [rows cols data] in *.
  destruct (Z.leb_spec 10 r); [lia|].
  change (1 <=? 0) with false. cbv iota.
  destruct (Z.ltb_spec (r * 1 + 0) 0); [lia|].
  replace (r * 1 + 0) with r by lia. exact Hw.
Qed.

End Placement.

(** C3: placement is deterministic.  On a 10x1 grid whose cells are all NONE,
    placing a drop at row 5, column 0 with tail length 3 yields a DROP cell at
    row 5 and TAIL cells at rows 4, 3 and 2; the tail cell at step [i] has
    colour index [ceil((NUM_COLORS - 1) * i / 3)], which lies in
    [0, NUM_COLORS - 1] and grows strictly from row 4 to row 2.  The other
    rows stay NONE and [drop_count] grows by one. *)
Theorem place_drop_10x1 (d : list Z) (dc : Z) (ratio : spec_float) :
  length d = 10%nat ->
  Forall (fun v => val_get_state v = STATE_NONE) d ->
  exists mat',
    mat_add_drop (Matrix d 1 10 dc ratio) 5 0 3 = Some mat' /\
    mat_get_state mat' 5 0 = Some STATE_DROP /\
    (forall i, 1 <= i <= 3 ->
       mat_get_state mat' (5 - i) 0 = Some STATE_TAIL /\
       mat_get_tsize mat' (5 - i) 0 =
         Some (ceil_div ((NUM_COLORS - 1) * i) 3) /\
       0 <= ceil_div ((NUM_COLORS - 1) * i) 3 <= NUM_COLORS - 1) /\
    (forall i j, 1 <= i -> i < j -> j <= 3 ->
       ceil_div ((NUM_COLORS - 1) * i) 3 < ceil_div ((NUM_COLORS - 1) * j) 3) /\
    (forall r, 0 <= r < 10 -> r < 2 \/ 5 < r ->
       mat_get_state mat' r 0 = Some STATE_NONE) /\
    drop_count mat' = size_t (dc + 1).
Proof.
  intros Hlen Hall.
  destruct d as [|v0 [|v1 [|v2 [|v3 [|v4 [|v5 [|v6 [|v7 [|v8 [|v9 [|? ?]]]]]]]]]]];
    try discriminate Hlen.
  exists (placed_10x1 v0 v1 v2 v3 v4 v5 v6 v7 v8 v9 dc ratio).
  split; [apply mat_add_drop_10x1|].
  assert (Hget : forall r w,
             data (placed_10x1 v0 v1 v2 v3 v4 v5 v6 v7 v8 v9 dc ratio)
               !! Z.to_nat r = Some w ->
             0 <= r < 10 ->
             mat_get_value (placed_10x1 v0 v1 v2 v3 v4 v5 v6 v7 v8 v9 dc ratio)
                           r 0 = Some w).
  { intros r w. apply placed_value. }
  split; [|split; [|split; [|split]]].
  - unfold mat_get_state. rewrite (Hget 5 (drop_cell 3 v5)) by (reflexivity || lia).
    cbn [fmap option_fmap option_map]. rewrite state_drop_cell. reflexivity.
  - intros i Hi.
    assert (Hcase : i = 1 \/ i = 2 \/ i = 3) by lia.
    unfold mat_get_state, mat_get_tsize.
    destruct Hcase as [-> | [-> | ->]].
    + rewrite (Hget (5 - 1) (tail_cell 2 v4)) by (reflexivity || lia).
      cbn [fmap option_fmap option_map].
      rewrite state_tail_cell, tsize_tail_cell. vm_compute. intuition discriminate.
    + rewrite (Hget (5 - 2) (tail_cell 4 v3)) by (reflexivity || lia).
      cbn [fmap option_fmap option_map].
      rewrite state_tail_cell, tsize_tail_cell. vm_compute. intuition discriminate.
    + rewrite (Hget (5 - 3) (tail_cell 5 v2)) by (reflexivity || lia).
      cbn [fmap option_fmap option_map].
      rewrite state_tail_cell, tsize_tail_cell. vm_compute. intuition discriminate.
  - intros i j Hi Hij Hj.
    assert (Hcase : (i = 1 /\ j = 2) \/ (i = 1 /\ j = 3) \/ (i = 2 /\ j = 3)) by lia.
    destruct Hcase as [[-> ->] | [[-> ->] | [-> ->]]]; reflexivity.
  - intros r Hr Hout.
    apply Forall_forall with (x := nth (Z.to_nat r) [v0; v1; v2; v3; v4; v5; v6; v7; v8; v9] 0) in Hall.
    + assert (Hcase : r = 0 \/ r = 1 \/ r = 6 \/ r = 7 \/ r = 8 \/ r = 9) by lia.
      unfold mat_get_state.
      destruct Hcase as [-> | [-> | [-> | [-> | [-> | ->]]]]];
        (erewrite Hget; [|reflexivity|lia]);
        cbn [fmap option_fmap option_map]; f_equal; exact Hall.
    + apply list_elem_of_In, nth_In. cbn [length]. lia.
  - reflexivity.
Qed.

Lemma place_drop_10x1_witness :
  exists mat',
    mat_add_drop (Matrix (replicate 10 65) 1 10 0 (F32.make 1 (-4))) 5 0 3
      = Some mat' /\
    mat_get_state mat' 5 0 = Some STATE_DROP /\
    (forall i, 1 <= i <= 3 ->
       mat_get_state mat' (5 - i) 0 = Some STATE_TAIL /\
       mat_get_tsize mat' (5 - i) 0 =
         Some (ceil_div ((NUM_COLORS - 1) * i) 3) /\
       0 <= ceil_div ((NUM_COLORS - 1) * i) 3 <= NUM_COLORS - 1) /\
    (forall i j, 1 <= i -> i < j -> j <= 3 ->
       ceil_div ((NUM_COLORS - 1) * i) 3 < ceil_div ((NUM_COLORS - 1) * j) 3) /\
    (forall r, 0 <= r < 10 -> r < 2 \/ 5 < r ->
       mat_get_state mat' r 0 = Some STATE_NONE) /\
    drop_count mat' = size_t (0 + 1).
Proof.
  apply (place_drop_10x1 (replicate 10 65) 0 (F32.make 1 (-4))).
  - reflexivity.
  - repeat constructor.
Defined.

(** ** Filling the matrix *)

Section Fill.

Variable rand_seq : nat -> Z.

Lemma rand_ascii_eq (k : nat) :
  rand_ascii rand_seq k = Some (ascii_of_rand (rand_seq k), S k).
Proof. reflexivity. Qed.

Lemma filled_nil (d : list Z) (s k : nat) : filled rand_seq d d s 0 k.
Proof.
  split; [reflexivity|]. intros i.
  destruct (decide (s <= i < s + 0)%nat); [lia|reflexivity].
Qed.

Lemma filled_app (d d1 d2 : list Z) (s n n' k : nat) :
  filled rand_seq d d1 s n k ->
  filled rand_seq d1 d2 (s + n) n' (k + n) ->
  filled rand_seq d d2 s (n + n') k.
Proof.
  intros [Hl1 H1] [Hl2 H2]. split; [congruence|]. intros i.
  rewrite H2, H1.
  destruct (decide (s + n <= i < s + n + n')%nat) as [Hin2|Hout2];
    destruct (decide (s <= i < s + n)%nat) as [Hin1|Hout1];
    destruct (decide (s <= i < s + (n + n'))%nat) as [Hin|Hout];
    try lia; try reflexivity.
  replace (k + n + (i - (s + n)))%nat with (k + (i - s))%nat by lia.
  reflexivity.
Qed.

Lemma filled_one (mat : matrix_s) (r c v : Z) (k : nat) :
  wf mat -> in_grid mat r c -> data mat !! idx mat r c = Some v ->
  filled rand_seq (data mat)
    (data (put mat r c (fill_cell (ascii_of_rand (rand_seq k)) v)))
    (idx mat r c) 1 k.
Proof.
  intros Hwf Hin Hv. split.
  - simpl. apply length_insert.
  - intros i. destruct (decide (idx mat r c <= i < idx mat r c + 1)%nat) as [Hi|Hi].
    + assert (i = idx mat r c) as -> by lia.
      rewrite lookup_put_eq by assumption. rewrite Hv.
      replace (k + (idx mat r c - idx mat r c))%nat with k by lia. reflexivity.
    + apply lookup_put_ne. lia.
Qed.

Lemma fill_cols_spec (n : nat) : forall (mat : matrix_s) (r c : Z) (k : nat),
  wf mat -> 0 <= r < rows mat -> 0 <= c -> c + Z.of_nat n <= cols mat ->
  exists mat',
    fill_cols rand_seq n mat r c k = Some (mat', (k + n)%nat) /\
    rows mat' = rows mat /\ cols mat' = cols mat /\
    drop_count mat' = drop_count mat /\ drop_ratio mat' = drop_ratio mat /\
    filled rand_seq (data mat) (data mat') (idx mat r c) n k.
Proof.
  induction n as [|n IH]; intros mat r c k Hwf Hr Hc Hn.
  - exists mat. cbn [fill_cols]. rewrite Nat.add_0_r.
    repeat split; try reflexivity. apply filled_nil.
  - assert (Hin : in_grid mat r c) by (unfold in_grid; lia).
    destruct (mat_get_value_in _ _ _ Hwf Hin) as [_ [v Hv]].
    cbn [fill_cols].
    rewrite (mat_set_state_in _ _ _ _ v) by assumption.
    cbn [mbind option_bind]. rewrite rand_ascii_eq. cbn [mbind option_bind].
    rewrite (mat_set_ascii_in _ _ _ _ (cell_set_state STATE_NONE v));
      [|apply wf_put, Hwf|exact Hin|rewrite idx_put; apply lookup_put_eq; assumption].
    cbn [mbind option_bind]. rewrite put_put.
    set (mat1 := put mat r c (cell_set_ascii (ascii_of_rand (rand_seq k))
                                  (cell_set_state STATE_NONE v))).
    destruct (IH mat1 r (c + 1) (S k)) as (mat' & Hrun & Hrows & Hcols & Hdc & Hdr & Hfill);
      [apply wf_put, Hwf|exact Hr|lia|cbn [rows cols mat1 put set_data]; lia|].
    exists mat'. rewrite Hrun.
    split; [f_equal; f_equal; lia|].
    split; [exact Hrows|]. split; [exact Hcols|].
    split; [exact Hdc|]. split; [exact Hdr|].
    change (S n) with (1 + n)%nat.
    apply filled_app with (d1 := data mat1).
    + apply filled_one; assumption.
    + replace (idx mat r c + 1)%nat with (idx mat1 r (c + 1)).
      * replace (k + 1)%nat with (S k) by lia. exact Hfill.
      * unfold idx, mat_idx. cbn [cols mat1 put set_data].
        destruct Hwf as (? & ? & ?).
        replace (r * cols mat + (c + 1)) with (r * cols mat + c + 1) by lia.
        rewrite Z2Nat.inj_add by nia. reflexivity.
Qed.

Lemma fill_rows_spec (n : nat) : forall (mat : matrix_s) (r : Z) (k : nat),
  wf mat -> 0 <= r -> r + Z.of_nat n <= rows mat ->
  exists mat',
    fill_rows rand_seq n mat r k
      = Some (mat', (k + n * Z.to_nat (cols mat))%nat) /\
    rows mat' = rows mat /\ cols mat' = cols mat /\
    drop_count mat' = drop_count mat /\ drop_ratio mat' = drop_ratio mat /\
    filled rand_seq (data mat) (data mat') (idx mat r 0)
           (n * Z.to_nat (cols mat)) k.
Proof.
  induction n as [|n IH]; intros mat r k Hwf Hr Hn.
  - exists mat. cbn [fill_rows]. rewrite Nat.add_0_r.
    repeat split; try reflexivity. apply filled_nil.
  - cbn [fill_rows].
    destruct (fill_cols_spec (Z.to_nat (cols mat)) mat r 0 k)
      as (mat1 & Hrun1 & Hrows1 & Hcols1 & Hdc1 & Hdr1 & Hfill1);
      [exact Hwf|lia|lia|destruct Hwf as (? & ? & ?); lia|].
    rewrite Hrun1. cbn [mbind option_bind].
    assert (Hwf1 : wf mat1).
    { destruct Hwf as (? & ? & ?). destruct Hfill1 as [Hlen _].
      unfold wf. rewrite Hrows1, Hcols1, Hlen. auto. }
    destruct (IH mat1 (r + 1) (k + Z.to_nat (cols mat))%nat)
      as (mat' & Hrun & Hrows & Hcols & Hdc & Hdr & Hfill);
      [exact Hwf1|lia|lia|].
    exists mat'. rewrite Hrun, Hcols1.
    split; [f_equal; f_equal; lia|].
    split; [congruence|]. split; [congruence|].
    split; [congruence|]. split; [congruence|].
    replace (S n * Z.to_nat (cols mat))%nat
      with (Z.to_nat (cols mat) + n * Z.to_nat (cols mat))%nat by lia.
    apply filled_app with (d1 := data mat1); [exact Hfill1|].
    replace (idx mat r 0 + Z.to_nat (cols mat))%nat with (idx mat1 (r + 1) 0).
    + rewrite Hcols1 in Hfill. exact Hfill.
    + unfold idx, mat_idx. rewrite Hcols1.
      destruct Hwf as (? & ? & ?).
      replace ((r + 1) * cols mat + 0) with (r * cols mat + 0 + cols mat) by lia.
      rewrite Z2Nat.inj_add by nia. reflexivity.
Qed.

Lemma mat_fill_spec (mat : matrix_s) (k : nat) :
  wf mat ->
  exists mat',
    mat_fill rand_seq mat k
      = Some (mat', (k + Z.to_nat (rows mat * cols mat))%nat) /\
    rows mat' = rows mat /\ cols mat' = cols mat /\
    drop_count mat' = drop_count mat /\ drop_ratio mat' = drop_ratio mat /\
    filled rand_seq (data mat) (data mat') 0
           (Z.to_nat (rows mat * cols mat)) k.
Proof.
  intros Hwf. unfold mat_fill.
  destruct (fill_rows_spec (Z.to_nat (rows mat)) mat 0 k)
    as (mat' & Hrun & Hrows & Hcols & Hdc & Hdr & Hfill);
    [exact Hwf|lia|destruct Hwf as (? & ? & ?); lia|].
  exists mat'. rewrite Hrun.
  assert (Hmul : (Z.to_nat (rows mat) * Z.to_nat (cols mat))%nat
                 = Z.to_nat (rows mat * cols mat)).
  { destruct Hwf as (? & ? & ?). rewrite Z2Nat.inj_mul by lia. reflexivity. }
  rewrite Hmul in *.
  repeat (split; [assumption || reflexivity|]).
  exact Hfill.
Qed.
End Fill.


Lemma ascii_of_rand_clamp (r : Z) :
  ascii_of_rand r = Z.max ASCII_MIN (Z.rem r ASCII_MAX) /\
  ASCII_MIN <= ascii_of_rand r <= ASCII_MAX.
Proof.
  unfold ascii_of_rand, uint8, ASCII_MIN, ASCII_MAX.
  pose proof (Z.rem_bound_abs r 126 ltac:(lia)) as Hb.
  change (Z.abs 126) with 126 in Hb.
  set (x := Z.rem r 126) in *. clearbody x.
  destruct (Z.ltb_spec x 32).
  - change (32 mod 2 ^ 8) with 32. lia.
  - rewrite Z.mod_small by (change (2 ^ 8) with 256; lia). lia.
Qed.

(** The character 126 is never drawn. *)
Lemma ascii_of_rand_below_max (r : Z) : ascii_of_rand r < ASCII_MAX.
Proof.
  unfold ascii_of_rand, uint8, ASCII_MIN, ASCII_MAX.
  pose proof (Z.rem_bound_abs r 126 ltac:(lia)) as Hb.
  change (Z.abs 126) with 126 in Hb.
  set (x := Z.rem r 126) in *. clearbody x.
  destruct (Z.ltb_spec x 32).
  - change (32 mod 2 ^ 8) with 32. lia.
  - rewrite Z.mod_small by (change (2 ^ 8) with 256; lia). lia.
Qed.

(** C6 (as amended): after [mat_fill] every cell of the grid has state NONE
    and tail size 0, and its character is the larger of 32 and
    [rand() % 126], one draw per cell in row-major order; the character lies
    in [32,126].  The draw is not uniform: every remainder below 32 gives the
    character 32. *)
Theorem mat_fill_cells (rand_seq : nat -> Z) (mat : matrix_s) (k : nat) :
  wf mat ->
  exists mat',
    mat_fill rand_seq mat k
      = Some (mat', (k + Z.to_nat (rows mat * cols mat))%nat) /\
    forall row col, in_grid mat row col ->
      let r := rand_seq (k + idx mat row col)%nat in
      mat_get_state mat' row col = Some STATE_NONE /\
      mat_get_tsize mat' row col = Some 0 /\
      mat_get_ascii mat' row col = Some (Z.max ASCII_MIN (Z.rem r ASCII_MAX)) /\
      ASCII_MIN <= Z.max ASCII_MIN (Z.rem r ASCII_MAX) <= ASCII_MAX.
Proof.
  intros Hwf.
  destruct (mat_fill_spec rand_seq mat k Hwf)
    as (mat' & Hrun & Hrows & Hcols & _ & _ & Hlen & Hfill).
  exists mat'. split; [exact Hrun|].
  intros row col Hin r.
  assert (Hwf' : wf mat').
  { destruct Hwf as (? & ? & ?). unfold wf. rewrite Hrows, Hcols, Hlen. auto. }
  assert (Hin' : in_grid mat' row col) by (unfold in_grid; rewrite Hrows, Hcols; exact Hin).
  destruct (mat_get_value_in _ _ _ Hwf' Hin') as [Hget _].
  destruct (mat_get_value_in _ _ _ Hwf Hin) as [_ [v Hv]].
  destruct (idx_lt _ _ _ Hwf Hin) as [Hi _].
  assert (Hidx : idx mat' row col = idx mat row col)
    by (unfold idx, mat_idx; rewrite Hcols; reflexivity).
  unfold mat_get_state, mat_get_tsize, mat_get_ascii.
  rewrite Hget, Hidx, Hfill.
  destruct (decide (0 <= idx mat row col
                    < 0 + Z.to_nat (rows mat * cols mat))%nat) as [_|Hout].
  2:{ exfalso. apply Hout. unfold idx. lia. }
  rewrite Hv. cbn [fmap option_fmap option_map].
  rewrite Nat.sub_0_r. fold r. clearbody r. unfold fill_cell.
  rewrite state_cell_set_ascii, state_cell_set_state.
  rewrite tsize_cell_set_ascii, tsize_cell_set_state.
  rewrite ascii_cell_set_ascii.
  destruct (ascii_of_rand_clamp r) as [Heq Hrange].
  rewrite <- Heq.
  set (a := ascii_of_rand r) in *. clearbody a.
  unfold ASCII_MIN, ASCII_MAX in *.
  rewrite (Z.mod_small a 256) by lia.
  repeat split; try reflexivity; apply Hrange.
Qed.

Lemma mat_fill_cells_witness :
  exists mat',
    mat_fill (fun n => Z.of_nat n * 40) (Matrix [0; 1023; 65535; 7] 2 2 0 (F32.make 1 (-4))) 0
      = Some (mat', 4%nat) /\
    mat_get_ascii mat' 1 1 = Some 120.
Proof.
  destruct (mat_fill_cells (fun n => Z.of_nat n * 40)
              (Matrix [0; 1023; 65535; 7] 2 2 0 (F32.make 1 (-4))) 0)
    as (mat' & Hrun & Hcells).
  - unfold wf. cbn [rows cols data length]. lia.
  - exists mat'. split; [exact Hrun|].
    destruct (Hcells 1 1) as (_ & _ & Hascii & _).
    + unfold in_grid. cbn [rows cols]. lia.
    + exact Hascii.
Defined.

(** C6 as stated fails: of the 126 equally likely remainders of a draw, 33
    give the character 32 and a single one gives the character 33, so the
    characters of [32,126] are not equally likely. *)
Lemma fill_character_not_uniform :
  ~ (forall v w, ASCII_MIN <= v <= ASCII_MAX -> ASCII_MIN <= w <= ASCII_MAX ->
       length (draws_giving v) = length (draws_giving w)).
Proof.
  intros H. specialize (H 32 33).
  unfold ASCII_MIN, ASCII_MAX in H.
  specialize (H ltac:(lia) ltac:(lia)).
  vm_compute in H. discriminate H.
Qed.

(** ** Facts about single-precision rounding *)

Section FloatFacts.

Lemma digits2_pos_bounds (p : positive) :
  2 ^ (Z.pos (digits2_pos p) - 1) <= Z.pos p < 2 ^ Z.pos (digits2_pos p).
Proof.
  induction p as [p IH|p IH|]; cbn [digits2_pos].
  - rewrite Pos2Z.inj_succ.
    replace (Z.succ (Z.pos (digits2_pos p)) - 1)
      with (Z.succ (Z.pos (digits2_pos p) - 1)) by lia.
    rewrite !Z.pow_succ_r by lia. lia.
  - rewrite Pos2Z.inj_succ.
    replace (Z.succ (Z.pos (digits2_pos p)) - 1)
      with (Z.succ (Z.pos (digits2_pos p) - 1)) by lia.
    rewrite !Z.pow_succ_r by lia. lia.
  - cbn. lia.
Qed.

Lemma Zdigits2_le (m k : Z) : 0 <= k -> 0 <= m < 2 ^ k -> 0 <= Zdigits2 m <= k.
Proof.
  intros Hk Hm. destruct m as [|p|p]; cbn [Zdigits2]; [lia| |lia].
  pose proof (digits2_pos_bounds p) as [Hlo _].
  split; [lia|].
  destruct (Z.le_gt_cases (Z.pos (digits2_pos p)) k) as [|Hgt]; [assumption|].
  exfalso.
  assert (2 ^ k <= 2 ^ (Z.pos (digits2_pos p) - 1))
    by (apply Z.pow_le_mono_r; lia).
  lia.
Qed.

Lemma iter_pos_ind {A : Type} (f : A -> A) (P : A -> Prop) :
  (forall x, P x -> P (f x)) -> forall n x, P x -> P (SpecFloat.iter_pos f n x).
Proof.
  intros Hf. induction n as [n IH|n IH|]; intros x Hx; cbn [SpecFloat.iter_pos]; auto.
Qed.

Lemma shr_1_le (M : Z) (mrs : shr_record) :
  0 <= shr_m mrs <= M -> 0 <= shr_m (shr_1 mrs) <= M.
Proof.
  destruct mrs as [m r s]. cbn [shr_m]. intros Hm.
  destruct m as [|[p|p|]|p]; cbn [shr_1 shr_m]; lia.
Qed.

Lemma shr_le (mrs : shr_record) (e n : Z) :
  0 <= shr_m mrs ->
  0 <= shr_m (fst (shr mrs e n)) <= shr_m mrs /\
  (snd (shr mrs e n) = e \/ snd (shr mrs e n) = e + n).
Proof.
  intros Hm. destruct n as [|p|p]; cbn [shr fst snd]; [lia| |lia].
  split; [|right; reflexivity].
  apply (iter_pos_ind shr_1 (fun x => 0 <= shr_m x <= shr_m mrs));
    [apply shr_1_le|lia].
Qed.

Lemma shr_m_of_loc (m : Z) (l : location) : shr_m (shr_record_of_loc m l) = m.
Proof. destruct l as [|[]]; reflexivity. Qed.

Lemma shr_fexp_le (m e k : Z) (l : location) :
  0 <= k -> 0 <= m < 2 ^ k ->
  0 <= shr_m (fst (shr_fexp F32.prec F32.emax m e l)) <= m /\
  snd (shr_fexp F32.prec F32.emax m e l) <= Z.max e (Z.max (k + e - 24) (-149)).
Proof.
  intros Hk Hm. unfold shr_fexp.
  pose proof (Zdigits2_le m k Hk Hm) as Hd.
  destruct (shr_le (shr_record_of_loc m l) e
             (fexp F32.prec F32.emax (Zdigits2 m + e) - e)) as [Hle He];
    [rewrite shr_m_of_loc; lia|].
  rewrite shr_m_of_loc in Hle. split; [exact Hle|].
  unfold fexp, emin, F32.prec, F32.emax in *. lia.
Qed.

Lemma round_nearest_even_le (m : Z) (l : location) :
  m <= round_nearest_even m l <= m + 1.
Proof.
  destruct l as [|[]]; cbn [round_nearest_even]; try lia.
  destruct (Z.even m); lia.
Qed.

(** Rounding a non-negative mantissa of at most 64 bits at a non-positive
    exponent gives a zero or a finite number. *)
Lemma binary_round_aux_class (s : bool) (m e : Z) (l : location) :
  0 <= m < 2 ^ 64 -> e <= 0 ->
  (exists z, binary_round_aux F32.prec F32.emax s m e l = S754_zero z) \/
  (exists m' e', binary_round_aux F32.prec F32.emax s m e l = S754_finite s m' e').
Proof.
  intros Hm He. unfold binary_round_aux.
  destruct (shr_fexp_le m e 64 l ltac:(lia) Hm) as [Hm1 He1].
  destruct (shr_fexp F32.prec F32.emax m e l) as [mrs1 e1]. cbn [fst snd] in *.
  pose proof (round_nearest_even_le (shr_m mrs1) (loc_of_shr_record mrs1)) as Hr.
  set (m2 := round_nearest_even (shr_m mrs1) (loc_of_shr_record mrs1)) in *.
  destruct (shr_fexp_le m2 e1 65 loc_Exact ltac:(lia)) as [Hm3 He3].
  { change (2 ^ 65) with (2 * 2 ^ 64). lia. }
  destruct (shr_fexp F32.prec F32.emax m2 e1 loc_Exact) as [mrs3 e3].
  cbn [fst snd] in *.
  destruct (shr_m mrs3) as [|p|p]; [left; eauto| |lia].
  right. unfold F32.emax, F32.prec.
  destruct (Z.leb_spec e3 (128 - 24)); [eauto|lia].
Qed.

Lemma digits2_pos_iter_xO (m : positive) (d : positive) :
  Z.pos (Pos.iter xO m d) = Z.pos m * 2 ^ Z.pos d.
Proof.
  revert m. induction d as [|d IH] using Pos.peano_ind; intros m.
  - cbn. lia.
  - rewrite Pos.iter_succ, Pos2Z.inj_succ, Z.pow_succ_r by lia.
    rewrite Pos2Z.inj_xO, IH. lia.
Qed.

Lemma of_Z_class (z : Z) :
  0 <= z < 2 ^ 64 ->
  (exists s, F32.of_Z z = S754_zero s) \/
  (exists m e, F32.of_Z z = S754_finite false m e).
Proof.
  intros Hz. unfold F32.of_Z, binary_normalize.
  destruct z as [|p|p]; [left; eauto| |lia].
  unfold binary_round.
  destruct (shl_align p 0 (fexp F32.prec F32.emax (Z.pos (digits2_pos p) + 0)))
    as [mz ez] eqn:Hal.
  apply binary_round_aux_class.
  - unfold shl_align in Hal.
    pose proof (digits2_pos_bounds p) as [Hlo Hhi].
    destruct (fexp F32.prec F32.emax (Z.pos (digits2_pos p) + 0) - 0)
      as [|d|d] eqn:Hd; injection Hal as <- <-; try lia.
    rewrite digits2_pos_iter_xO.
    unfold fexp, emin, F32.prec, F32.emax in Hd.
    assert (Hdd : Z.pos d = 24 - Z.pos (digits2_pos p)) by lia.
    assert (Z.pos p * 2 ^ Z.pos d < 2 ^ Z.pos (digits2_pos p) * 2 ^ Z.pos d).
    { apply Z.mul_lt_mono_pos_r; [apply Z.pow_pos_nonneg; lia|lia]. }
    rewrite <- Z.pow_add_r in H by lia.
    replace (Z.pos (digits2_pos p) + Z.pos d) with 24 in H by lia.
    change (2 ^ 64) with (2 ^ 24 * 2 ^ 40). lia.
  - unfold shl_align in Hal.
    destruct (fexp F32.prec F32.emax (Z.pos (digits2_pos p) + 0) - 0)
      as [|d|d] eqn:Hd; injection Hal as <- <-; lia.
Qed.

End FloatFacts.

Lemma mag_floor_nonneg (m : positive) (e : Z) : 0 <= F32.mag_floor m e.
Proof.
  unfold F32.mag_floor. destruct (Z.leb_spec 0 e).
  - apply Z.mul_nonneg_nonneg; [lia|apply Z.pow_nonneg; lia].
  - apply Z.div_pos; [lia|apply Z.pow_pos_nonneg; lia].
Qed.

Lemma mag_ceil_nonneg (m : positive) (e : Z) : 0 <= F32.mag_ceil m e.
Proof.
  unfold F32.mag_ceil. destruct (Z.leb_spec 0 e).
  - apply Z.mul_nonneg_nonneg; [lia|apply Z.pow_nonneg; lia].
  - assert (0 < 2 ^ (- e)) by (apply Z.pow_pos_nonneg; lia).
    assert ((- Z.pos m) / 2 ^ (- e) <= 0); [|lia].
    apply Z.div_le_upper_bound; lia.
Qed.

(** Truncation toward zero and rounding down give the same number of loop
    iterations: they agree on non-negative values and are both non-positive
    on negative ones. *)
Lemma to_int_floor (x : spec_float) (num : Z) :
  F32.to_int x = Some num ->
  exists fl, F32.floor x = Some fl /\ Z.to_nat num = Z.to_nat fl.
Proof.
  unfold F32.to_int, F32.in_range. intros H.
  destruct x as [s|s| |s m e]; cbn [F32.trunc mbind option_bind] in H;
    try discriminate H.
  - exists 0. split; [reflexivity|].
    destruct ((- 2 ^ 31 <=? 0) && (0 <=? 2 ^ 31 - 1)); congruence.
  - pose proof (mag_floor_nonneg m e). pose proof (mag_ceil_nonneg m e).
    cbn [F32.floor]. eexists. split; [reflexivity|].
    destruct s.
    + destruct ((- 2 ^ 31 <=? - F32.mag_floor m e)
                && (- F32.mag_floor m e <=? 2 ^ 31 - 1)); [|discriminate H].
      injection H as <-. lia.
    + destruct ((- 2 ^ 31 <=? F32.mag_floor m e)
                && (F32.mag_floor m e <=? 2 ^ 31 - 1)); [|discriminate H].
      injection H as <-. reflexivity.
Qed.

(** ** Glitch *)

Lemma Forall2_put (P : Z -> Z -> Prop) (mat : matrix_s) (row col v w : Z) :
  (forall x, P x x) ->
  data mat !! idx mat row col = Some v -> P v w ->
  Forall2 P (data mat) (data (put mat row col w)).
Proof.
  intros Hrefl Hv HP. apply Forall2_same_length_lookup_2.
  - simpl. rewrite length_insert. reflexivity.
  - intros i x y Hx Hy. simpl in Hy.
    destruct (decide (i = idx mat row col)) as [->|Hne].
    + rewrite list_lookup_insert_eq in Hy by (eapply lookup_lt_Some; eassumption).
      rewrite Hv in Hx. injection Hx as <-. injection Hy as <-. exact HP.
    + rewrite list_lookup_insert_ne in Hy by congruence.
      rewrite Hx in Hy. injection Hy as <-. apply Hrefl.
Qed.

Lemma same_state_tsize_refl v : same_state_tsize v v.
Proof. split; reflexivity. Qed.

Lemma same_state_tsize_trans v1 v2 v3 :
  same_state_tsize v1 v2 -> same_state_tsize v2 v3 -> same_state_tsize v1 v3.
Proof. intros [? ?] [? ?]. split; congruence. Qed.

Lemma same_state_tsize_set_ascii a v : same_state_tsize v (cell_set_ascii a v).
Proof. split; [apply state_cell_set_ascii|apply tsize_cell_set_ascii]. Qed.

Section Glitch.

Variable rand_seq : nat -> Z.
Hypothesis rand_range : forall n, 0 <= rand_seq n <= RAND_MAX.

Lemma c_rem_rand (n : nat) (b : Z) :
  0 < b -> c_rem (rand_seq n) b = Some (Z.rem (rand_seq n) b) /\
           0 <= Z.rem (rand_seq n) b < b.
Proof.
  intros Hb. unfold c_rem.
  destruct (Z.eqb_spec b 0); [lia|].
  split; [reflexivity|].
  apply Z.rem_bound_pos; [apply rand_range|lia].
Qed.

Lemma glitch_loop_spec (n : nat) : forall (mat : matrix_s) (k : nat),
  wf mat ->
  exists mat',
    glitch_loop rand_seq n mat k = Some (mat', (k + 3 * n)%nat) /\
    rows mat' = rows mat /\ cols mat' = cols mat /\
    drop_count mat' = drop_count mat /\ drop_ratio mat' = drop_ratio mat /\
    Forall2 same_state_tsize (data mat) (data mat') /\
    forall i : nat,
      (forall j : nat, (j < n)%nat -> i <> glitch_target rand_seq mat k j) ->
      data mat' !! i = data mat !! i.
Proof.
  induction n as [|n IH]; intros mat k Hwf.
  - exists mat. cbn [glitch_loop]. rewrite Nat.add_0_r.
    repeat split; try reflexivity.
    apply Forall2_same_length_lookup_2; [reflexivity|].
    intros i x y Hx Hy. rewrite Hx in Hy. injection Hy as <-.
    apply same_state_tsize_refl.
  - pose proof Hwf as (Hrows & Hcols & _).
    destruct (c_rem_rand k (rows mat)) as [Hrow Hrowb]; [lia|].
    destruct (c_rem_rand (S k) (cols mat)) as [Hcol Hcolb]; [lia|].
    set (row := Z.rem (rand_seq k) (rows mat)) in *.
    set (col := Z.rem (rand_seq (S k)) (cols mat)) in *.
    assert (Hin : in_grid mat row col) by (unfold in_grid; lia).
    destruct (mat_get_value_in _ _ _ Hwf Hin) as [_ [v Hv]].
    cbn [glitch_loop]. unfold rand at 1. rewrite Hrow. cbn [mbind option_bind].
    unfold rand at 1. rewrite Hcol. cbn [mbind option_bind].
    rewrite rand_ascii_eq. cbn [mbind option_bind].
    rewrite (mat_set_ascii_in _ _ _ _ v) by assumption. cbn [mbind option_bind].
    set (mat1 := put mat row col _).
    destruct (IH mat1 (S (S (S k))))
      as (mat' & Hrun & Hrows' & Hcols' & Hdc & Hdr & Hall & Hframe);
      [apply wf_put, Hwf|].
    exists mat'. rewrite Hrun.
    split; [f_equal; f_equal; lia|].
    split; [exact Hrows'|]. split; [exact Hcols'|].
    split; [exact Hdc|]. split; [exact Hdr|].
    split.
    + eapply Forall2_trans; [apply same_state_tsize_trans| |exact Hall].
      apply (Forall2_put _ _ _ _ v); [apply same_state_tsize_refl|exact Hv|].
      apply same_state_tsize_set_ascii.
    + intros i Hi. rewrite Hframe.
      * apply lookup_put_ne. specialize (Hi 0%nat ltac:(lia)).
        unfold glitch_target in Hi.
        replace (k + 3 * 0)%nat with k in Hi by lia.
        replace (k + 1)%nat with (S k) in Hi by lia. exact Hi.
      * intros j Hj. specialize (Hi (S j) ltac:(lia)).
        unfold glitch_target in *. cbn [rows cols mat1 put set_data].
        replace (S (S (S k)) + 3 * j)%nat with (k + 3 * S j)%nat by lia.
        exact Hi.
Qed.
Lemma glitch_target_grid (mat : matrix_s) (k j : nat) :
  wf mat ->
  (glitch_target rand_seq mat k j < Z.to_nat (rows mat * cols mat))%nat.
Proof.
  intros Hwf. pose proof Hwf as (Hrows & Hcols & _).
  destruct (c_rem_rand (k + 3 * j) (rows mat)) as [_ Hr]; [lia|].
  destruct (c_rem_rand (k + 3 * j + 1) (cols mat)) as [_ Hc]; [lia|].
  unfold glitch_target, idx.
  destruct (idx_lt mat (Z.rem (rand_seq (k + 3 * j)%nat) (rows mat))
              (Z.rem (rand_seq (k + 3 * j + 1)%nat) (cols mat)) Hwf) as [Hi _];
    [unfold in_grid; lia|].
  lia.
Qed.

(** The last draw that selects a cell decides its character. *)
Lemma glitch_loop_written (n : nat) : forall (mat mat' : matrix_s) (k k' j : nat),
  wf mat ->
  glitch_loop rand_seq n mat k = Some (mat', k') ->
  (j < n)%nat ->
  (forall j' : nat, (j < j' < n)%nat ->
     glitch_target rand_seq mat k j' <> glitch_target rand_seq mat k j) ->
  exists v',
    data mat' !! glitch_target rand_seq mat k j = Some v' /\
    val_get_ascii v' = ascii_of_rand (rand_seq (k + 3 * j + 2)).
Proof.
  induction n as [|n IH]; intros mat mat' k k' j Hwf Hrun Hj Hlast; [lia|].
  pose proof Hwf as (Hrows & Hcols & _).
  destruct (c_rem_rand k (rows mat)) as [Hrow Hrowb]; [lia|].
  destruct (c_rem_rand (S k) (cols mat)) as [Hcol Hcolb]; [lia|].
  set (row := Z.rem (rand_seq k) (rows mat)) in *.
  set (col := Z.rem (rand_seq (S k)) (cols mat)) in *.
  assert (Hin : in_grid mat row col) by (unfold in_grid; lia).
  destruct (mat_get_value_in _ _ _ Hwf Hin) as [_ [v Hv]].
  cbn [glitch_loop] in Hrun. unfold rand at 1 in Hrun. rewrite Hrow in Hrun.
  cbn [mbind option_bind] in Hrun.
  unfold rand at 1 in Hrun. rewrite Hcol in Hrun. cbn [mbind option_bind] in Hrun.
  rewrite rand_ascii_eq in Hrun. cbn [mbind option_bind] in Hrun.
  rewrite (mat_set_ascii_in _ _ _ _ v) in Hrun by assumption.
  cbn [mbind option_bind] in Hrun.
  set (a := ascii_of_rand (rand_seq (S (S k)))) in *.
  set (mat1 := put mat row col (cell_set_ascii a v)) in *.
  assert (Hwf1 : wf mat1) by apply wf_put, Hwf.
  assert (Hshift : forall i : nat,
            glitch_target rand_seq mat1 (S (S (S k))) i
            = glitch_target rand_seq mat k (S i)).
  { intros i. unfold glitch_target. cbn [rows cols mat1 put set_data].
    replace (S (S (S k)) + 3 * i)%nat with (k + 3 * S i)%nat by lia.
    reflexivity. }
  assert (Hfirst : glitch_target rand_seq mat k 0 = idx mat row col).
  { unfold glitch_target.
    replace (k + 3 * 0)%nat with k by lia.
    replace (k + 1)%nat with (S k) by lia. reflexivity. }
  destruct j as [|j].
  - (* the first draw is the last one on its cell *)
    destruct (glitch_loop_spec n mat1 (S (S (S k))) Hwf1)
      as (m & Hrun' & _ & _ & _ & _ & _ & Hframe).
    rewrite Hrun' in Hrun. injection Hrun as <- _.
    exists (cell_set_ascii a v). split.
    + rewrite Hframe.
      * rewrite Hfirst. apply lookup_put_eq; assumption.
      * intros i Hi. rewrite Hshift. intros Heq.
        apply (Hlast (S i)); [lia|]. symmetry. exact Heq.
    + rewrite ascii_cell_set_ascii.
      replace (k + 3 * 0 + 2)%nat with (S (S k)) by lia. fold a.
      unfold a, ascii_of_rand, uint8. change (2 ^ 8) with 256.
      apply Z.mod_mod. lia.
  - destruct (IH mat1 mat' (S (S (S k))) k' j Hwf1 Hrun ltac:(lia)) as (v' & Hv' & Ha).
    + intros j' Hj'. rewrite !Hshift. apply Hlast. lia.
    + exists v'. rewrite Hshift in Hv'. split; [exact Hv'|].
      rewrite Ha. f_equal. f_equal. lia.
Qed.

End Glitch.

(** C9 (as amended): [mat_glitch] performs as many draws as the
    single-precision product [fraction * (rows * cols)], rounded as the
    multiplication rounds it and then rounded down, says (none when it is
    negative), each draw taking three values of [rand()].  A draw selects the
    cell at row [rand() % rows] and column [rand() % cols]; the last draw that
    selects a cell leaves in it the character [rand_ascii] makes of the third
    value.  Every cell keeps its state and tail size, [drop_count] is
    unchanged, and a cell that no draw selects keeps its whole word.  With a
    zero fraction the matrix is returned as it is. *)
Theorem mat_glitch_frame (rand_seq : nat -> Z) (mat : matrix_s)
    (fraction : spec_float) (k : nat) (num : Z) :
  (forall n, 0 <= rand_seq n <= RAND_MAX) ->
  wf mat ->
  glitch_num mat fraction = Some num ->
  (exists mat' fl,
     F32.floor (F32.mul fraction (F32.of_Z (rows mat * cols mat))) = Some fl /\
     mat_glitch rand_seq mat fraction k
       = Some (mat', (k + 3 * Z.to_nat fl)%nat) /\
     rows mat' = rows mat /\ cols mat' = cols mat /\
     drop_count mat' = drop_count mat /\ drop_ratio mat' = drop_ratio mat /\
     Forall2 same_state_tsize (data mat) (data mat') /\
     (forall i : nat,
        (forall j : nat, (j < Z.to_nat fl)%nat ->
                         i <> glitch_target rand_seq mat k j) ->
        data mat' !! i = data mat !! i) /\
     (forall j : nat, (j < Z.to_nat fl)%nat ->
        (glitch_target rand_seq mat k j < Z.to_nat (rows mat * cols mat))%nat /\
        ((forall j' : nat, (j < j' < Z.to_nat fl)%nat ->
            glitch_target rand_seq mat k j' <> glitch_target rand_seq mat k j) ->
         exists v',
           data mat' !! glitch_target rand_seq mat k j = Some v' /\
           val_get_ascii v' = ascii_of_rand (rand_seq (k + 3 * j + 2)%nat)))) /\
  (forall s, mat_glitch rand_seq mat (S754_zero s) k = Some (mat, k)).
Proof.
  intros Hrand Hwf Hnum. split.
  - destruct (to_int_floor _ _ Hnum) as (fl & Hfl & Hnat).
    destruct (glitch_loop_spec rand_seq Hrand (Z.to_nat fl) mat k Hwf)
      as (mat' & Hrun & Hrows & Hcols & Hdc & Hdr & Hall & Hframe).
    exists mat', fl. split; [exact Hfl|].
    split.
    { unfold mat_glitch. rewrite Hnum. cbn [mbind option_bind].
      rewrite Hnat. exact Hrun. }
    split; [exact Hrows|]. split; [exact Hcols|]. split; [exact Hdc|].
    split; [exact Hdr|]. split; [exact Hall|]. split; [exact Hframe|].
    intros j Hj. split.
    + apply glitch_target_grid; assumption.
    + intros Hlast.
      apply (glitch_loop_written rand_seq Hrand (Z.to_nat fl) mat mat' k
               (k + 3 * Z.to_nat fl) j Hwf Hrun Hj Hlast).
  - intros s. unfold mat_glitch, glitch_num.
    destruct (of_Z_class (rows mat * cols mat)) as [[z Hz]|(m & e & Hfin)].
    + destruct Hwf as (? & ? & ?). change (2 ^ 64) with (2 ^ 16 * 2 ^ 16 * 2 ^ 32).
      nia.
    + rewrite Hz. reflexivity.
    + rewrite Hfin. reflexivity.
Qed.

Lemma mat_glitch_frame_witness :
  exists mat',
    mat_glitch (fun n => 100 + Z.of_nat n mod 50)
               (Matrix [65; 322; 67; 68] 2 2 1 (F32.make 1 (-4)))
               (F32.make 1 (-1)) 0
      = Some (mat', 6%nat) /\
    drop_count mat' = 1 /\
    (exists v', data mat' !! 1%nat = Some v' /\ val_get_ascii v' = 102 /\
                val_get_state v' = STATE_DROP) /\
    (exists v', data mat' !! 2%nat = Some v' /\ val_get_ascii v' = 105) /\
    data mat' !! 0%nat = Some 65 /\ data mat' !! 3%nat = Some 68.
Proof.
  destruct (mat_glitch_frame (fun n => 100 + Z.of_nat n mod 50)
              (Matrix [65; 322; 67; 68] 2 2 1 (F32.make 1 (-4)))
              (F32.make 1 (-1)) 0 2)
    as [(mat' & fl & Hfl & Hrun & _ & _ & Hdc & _ & Hall & Hframe & Hdraw) _].
  - intros n. cbv beta. unfold RAND_MAX.
    pose proof (Z.mod_pos_bound (Z.of_nat n) 50 ltac:(lia)). lia.
  - unfold wf. cbn [rows cols data length]. lia.
  - vm_compute. reflexivity.
  - assert (Hfl2 : fl = 2) by (vm_compute in Hfl; congruence).
    subst fl. change (Z.to_nat 2) with 2%nat in *.
    exists mat'. split; [exact Hrun|]. split; [exact Hdc|].
    assert (H0 : glitch_target (fun n => 100 + Z.of_nat n mod 50)
                   (Matrix [65; 322; 67; 68] 2 2 1 (F32.make 1 (-4))) 0 0 = 1%nat)
      by (vm_compute; reflexivity).
    assert (H1 : glitch_target (fun n => 100 + Z.of_nat n mod 50)
                   (Matrix [65; 322; 67; 68] 2 2 1 (F32.make 1 (-4))) 0 1 = 2%nat)
      by (vm_compute; reflexivity).
    assert (Hne : forall (i j : nat), i <> 1%nat -> i <> 2%nat -> (j < 2)%nat ->
              i <> glitch_target (fun n => 100 + Z.of_nat n mod 50)
                     (Matrix [65; 322; 67; 68] 2 2 1 (F32.make 1 (-4))) 0 j).
    { intros i j Hi1 Hi2 Hj. destruct j as [|[|j]]; [rewrite H0|rewrite H1|lia];
        assumption. }
    split; [|split; [|split]].
    + destruct (Hdraw 0%nat ltac:(lia)) as [_ Hw].
      destruct Hw as (v' & Hv' & Ha).
      { intros j' Hj'. replace j' with 1%nat by lia. rewrite H0, H1. lia. }
      rewrite H0 in Hv'. exists v'. split; [exact Hv'|]. split; [exact Ha|].
      destruct (Forall2_lookup_lr _ _ _ 1%nat 322 v' Hall eq_refl Hv') as [Hs _].
      exact Hs.
    + destruct (Hdraw 1%nat ltac:(lia)) as [_ Hw].
      destruct Hw as (v' & Hv' & Ha); [intros j' Hj'; lia|].
      rewrite H1 in Hv'. exists v'. split; [exact Hv'|exact Ha].
    + rewrite Hframe; [reflexivity|]. intros j Hj. apply Hne; [lia|lia|exact Hj].
    + rewrite Hframe; [reflexivity|]. intros j Hj. apply Hne; [lia|lia|exact Hj].
Defined.

(** C9 as stated fails: on a 25x80 grid with the single-precision fraction
    0.01, which is [10737418 * 2^-30], the exact product is 19.9999995..., of
    integer part 19; the single-precision product rounds to 20, and the code
    makes 20 draws, sixty values of [rand()]. *)
Lemma glitch_count_is_rounded :
  ~ (forall (rand_seq : nat -> Z) (mat : matrix_s) (fraction : spec_float)
            (k : nat) (count : Z),
       (forall n, 0 <= rand_seq n <= RAND_MAX) ->
       wf mat ->
       spec_glitch_count mat fraction = Some count ->
       exists mat',
         mat_glitch rand_seq mat fraction k
           = Some (mat', (k + 3 * Z.to_nat count)%nat)).
Proof.
  intros H.
  destruct (H (fun n => Z.of_nat n mod 97)
              (Matrix (replicate 2000 65) 80 25 0 (F32.make 1 (-4)))
              (S754_finite false 10737418 (-30)) 0%nat 19)
    as (mat' & Hrun).
  - intros n. cbv beta. unfold RAND_MAX.
    pose proof (Z.mod_pos_bound (Z.of_nat n) 97 ltac:(lia)). lia.
  - unfold wf. cbn [rows cols data]. rewrite length_replicate. lia.
  - vm_compute. reflexivity.
  - vm_compute in Hrun. discriminate Hrun.
Qed.

(** ** Well-formed cells are preserved *)

Section Ok.

Lemma ok_step_refl v : ok_step v v.
Proof. intros H. exact H. Qed.

Lemma ok_step_trans v1 v2 v3 : ok_step v1 v2 -> ok_step v2 v3 -> ok_step v1 v3.
Proof. unfold ok_step. auto. Qed.

Lemma keeps_ok_refl mat : keeps_ok mat mat.
Proof.
  repeat split. apply Forall2_same_length_lookup_2; [reflexivity|].
  intros i x y Hx Hy. rewrite Hx in Hy. injection Hy as <-. apply ok_step_refl.
Qed.

Lemma keeps_ok_trans m1 m2 m3 : keeps_ok m1 m2 -> keeps_ok m2 m3 -> keeps_ok m1 m3.
Proof.
  intros (Hr1 & Hc1 & H1) (Hr2 & Hc2 & H2).
  split; [congruence|]. split; [congruence|].
  eapply Forall2_trans; [apply ok_step_trans|exact H1|exact H2].
Qed.

Lemma keeps_ok_put mat row col v w :
  data mat !! idx mat row col = Some v -> ok_step v w ->
  keeps_ok mat (put mat row col w).
Proof.
  intros Hv Hw. repeat split.
  apply (Forall2_put _ _ _ _ v); [apply ok_step_refl|exact Hv|exact Hw].
Qed.

Lemma keeps_ok_set_drop_count mat n : keeps_ok mat (set_drop_count n mat).
Proof. exact (keeps_ok_refl mat). Qed.

Lemma keeps_ok_wf mat mat' : keeps_ok mat mat' -> wf mat -> wf mat'.
Proof.
  intros (Hr & Hc & Hall) (? & ? & ?). unfold wf.
  rewrite Hr, Hc, <- (Forall2_length _ _ _ Hall). auto.
Qed.

Lemma keeps_ok_grid_ok mat mat' : keeps_ok mat mat' -> grid_ok mat -> grid_ok mat'.
Proof.
  intros (Hr & Hc & Hall) Hok. unfold grid_ok, cells in *.
  rewrite Hr, Hc.
  apply Forall_lookup. intros i y Hy.
  apply lookup_take_Some in Hy as [Hy Hi].
  destruct (Forall2_lookup_r _ _ _ _ _ Hall Hy) as (x & Hx & Hstep).
  apply Hstep. eapply Forall_lookup_1; [exact Hok|].
  apply lookup_take_Some. split; [exact Hx|exact Hi].
Qed.

Lemma cell_ok_drop_cell t v : cell_ok (drop_cell t v).
Proof. unfold cell_ok. rewrite state_drop_cell. discriminate. Qed.

Lemma cell_ok_tail_cell c v : cell_ok (tail_cell c v).
Proof. unfold cell_ok. rewrite state_tail_cell. discriminate. Qed.

Lemma cell_ok_cleared_cell v : cell_ok (cleared_cell v).
Proof. intros _. unfold cleared_cell. rewrite tsize_cell_set_tsize. reflexivity. Qed.

Lemma state_moved_cell s t v : 0 <= s < 4 -> val_get_state (moved_cell s t v) = s.
Proof.
  intros Hs. unfold moved_cell.
  rewrite state_cell_set_tsize, state_cell_set_state. apply Z.mod_small. lia.
Qed.

Lemma cell_ok_moved_cell s t v : 0 < s < 4 -> cell_ok (moved_cell s t v).
Proof.
  intros Hs. unfold cell_ok. rewrite state_moved_cell by lia.
  unfold STATE_NONE. lia.
Qed.

Lemma cell_ok_set_ascii a v : cell_ok v -> cell_ok (cell_set_ascii a v).
Proof.
  unfold cell_ok. rewrite state_cell_set_ascii, tsize_cell_set_ascii. auto.
Qed.

Lemma cell_ok_fill_cell a v : cell_ok (fill_cell a v).
Proof.
  unfold cell_ok, fill_cell. intros _.
  rewrite tsize_cell_set_ascii, tsize_cell_set_state. reflexivity.
Qed.

Lemma state_cleared_cell v : val_get_state (cleared_cell v) = STATE_NONE.
Proof.
  unfold cleared_cell. rewrite state_cell_set_tsize, state_cell_set_state.
  reflexivity.
Qed.

End Ok.

Lemma idx_cols (mat mat' : matrix_s) (r c : Z) :
  cols mat' = cols mat -> idx mat' r c = idx mat r c.
Proof. intros H. unfold idx, mat_idx. rewrite H. reflexivity. Qed.

Lemma idx_ne_row (mat : matrix_s) (r r' c : Z) :
  0 < cols mat -> 0 <= c < cols mat -> 0 <= r -> 0 <= r' -> r <> r' ->
  idx mat r c <> idx mat r' c.
Proof.
  intros Hc Hcol Hr Hr' Hne Heq. unfold idx, mat_idx in Heq.
  apply Z2Nat.inj in Heq; nia.
Qed.

Section MovCol.

Variable col : Z.

Lemma mov_col_loop_spec (n : nat) : forall (mat : matrix_s) (l : mov_locals),
  wf mat -> 0 <= col < cols mat -> Z.of_nat n <= rows mat ->
  (Z.of_nat n < rows mat ->
   exists v, data mat !! idx mat (Z.of_nat n) col = Some v /\
             val_get_state v = STATE_NONE) ->
  0 <= tail_size l <= 63 -> 0 <= tail_seen l ->
  exists mat' l',
    mov_col_loop n mat col l = Some (mat', l') /\
    rows mat' = rows mat /\ cols mat' = cols mat /\
    drop_count mat' = drop_count mat /\ drop_ratio mat' = drop_ratio mat /\
    keeps_ok mat mat' /\
    (forall i : nat,
       (forall r, 0 <= r <= Z.of_nat n -> r < rows mat -> i <> idx mat r col) ->
       data mat' !! i = data mat !! i) /\
    (forall r v, 0 <= r < Z.of_nat n -> r + 1 < rows mat ->
       data mat !! idx mat r col = Some v ->
       exists v', data mat' !! idx mat (r + 1) col = Some v' /\
                  val_get_state v' = val_get_state v) /\
    (0 < Z.of_nat n ->
       exists v', data mat' !! idx mat 0 col = Some v' /\
                  val_get_state v' = STATE_NONE) /\
    0 <= tail_size l' <= 63 /\ 0 <= tail_seen l' /\
    (n = 0%nat -> l' = l) /\
    (0 < Z.of_nat n ->
       exists v0, data mat !! idx mat 0 col = Some v0 /\
                  state l' = val_get_state v0).
Proof.
  induction n as [|n IH]; intros mat l Hwf Hcol Hn Habove Hts Hseen.
  - exists mat, l. cbn [mov_col_loop].
    split; [reflexivity|]. repeat (split; [reflexivity|]).
    split; [apply keeps_ok_refl|].
    split; [reflexivity|].
    split; [intros; lia|]. split; [lia|].
    split; [exact Hts|]. split; [exact Hseen|].
    split; [reflexivity|lia].
  - pose proof Hwf as (Hrows & Hcols & Hlen).
    set (row := Z.of_nat n) in *.
    assert (Hrowdef : row = Z.of_nat n) by reflexivity.
    assert (HSn : Z.of_nat (S n) = row + 1) by lia.
    assert (Hrow : 0 <= row < rows mat) by lia.
    assert (Hin : in_grid mat row col) by (unfold in_grid; lia).
    destruct (mat_get_value_in _ _ _ Hwf Hin) as [Hget [v Hv]].
    cbn [mov_col_loop]. fold row. rewrite Hget, Hv. cbn [mbind option_bind].
    pose proof (val_get_state_range v) as Hst.
    pose proof (val_get_tsize_range v) as Htsz.
    destruct (Z.eqb_spec (val_get_state v) STATE_NONE) as [Hnone|Hsome].
    + (* the cell is empty: nothing moves *)
      destruct (IH mat (MovLocals (tail_size l) (tail_seen l) (val_get_state v)))
        as (mat' & l' & Hrun & Hr' & Hc' & Hdc & Hdr & Hok & Hframe & Hshift
            & Htop & Hts' & Hseen' & Hl0 & Hstate);
        [exact Hwf|exact Hcol|lia|intros _; eauto|exact Hts|exact Hseen|].
      exists mat', l'. split; [exact Hrun|].
      repeat (split; [assumption|]).
      split.
      { intros i Hi. apply Hframe. intros r Hr Hr2. apply Hi; lia. }
      split.
      { intros r w Hr Hr1 Hw.
        destruct (Z.eq_dec r row) as [->|Hne].
        - destruct Habove as (va & Hva & Hsa); [lia|].
          replace (Z.of_nat (S n)) with (row + 1) in Hva by lia.
          exists va. rewrite Hframe.
          + split; [exact Hva|]. rewrite Hv in Hw. injection Hw as <-. congruence.
          + intros r Hr0 Hr2. apply idx_ne_row; lia.
        - apply Hshift; [lia|lia|exact Hw]. }
      split.
      { intros _. destruct n as [|n'].
        - cbn [mov_col_loop] in Hrun. injection Hrun as <- <-.
          exists v. split; [exact Hv|exact Hnone].
        - apply Htop. lia. }
      split; [exact Hts'|]. split; [exact Hseen'|]. split; [discriminate|].
      intros _. destruct n as [|n'].
      * exists v. split; [exact Hv|]. rewrite (Hl0 eq_refl). reflexivity.
      * apply Hstate. lia.
    + (* the cell moves down one row *)
      unfold STATE_NONE in Hsome.
      set (st := val_get_state v) in *. set (ts := val_get_tsize v) in *.
      set (l1 := if st =? STATE_DROP then MovLocals ts 0 st
                 else if (st =? STATE_TAIL) && (0 <? tail_size l)
                      then MovLocals (tail_size l) (uint8 (tail_seen l + 1)) st
                      else MovLocals (tail_size l) (tail_seen l) st).
      assert (Hl1 : 0 <= tail_size l1 <= 63 /\ 0 <= tail_seen l1 /\ state l1 = st).
      { unfold l1. destruct (st =? STATE_DROP); [cbn; lia|].
        destruct ((st =? STATE_TAIL) && (0 <? tail_size l)); cbn; [|lia].
        split; [lia|]. split; [|reflexivity].
        unfold uint8. apply Z.mod_pos_bound. lia. }
      destruct Hl1 as (Hts1 & Hseen1 & Hst1).
      (* the matrix after the four assignments *)
      assert (Hmove : exists mat1,
                 (forall k : matrix_s -> option (matrix_s * mov_locals),
                    (mat_set_state mat (row + 1) col st ≫= fun m =>
                     mat_set_tsize m (row + 1) col ts ≫= fun m =>
                     mat_set_state m row col STATE_NONE ≫= fun m =>
                     mat_set_tsize m row col 0 ≫= k) = k mat1) /\
                 rows mat1 = rows mat /\ cols mat1 = cols mat /\
                 drop_count mat1 = drop_count mat /\
                 drop_ratio mat1 = drop_ratio mat /\
                 keeps_ok mat mat1 /\
                 data mat1 !! idx mat row col = Some (cleared_cell v) /\
                 (row + 1 < rows mat ->
                  exists v1, data mat1 !! idx mat (row + 1) col
                             = Some (moved_cell st ts v1)) /\
                 (forall i : nat, i <> idx mat row col ->
                    (row + 1 < rows mat -> i <> idx mat (row + 1) col) ->
                    data mat1 !! i = data mat !! i)).
      { destruct (Z.lt_ge_cases (row + 1) (rows mat)) as [Hlt|Hge].
        - assert (Hin1 : in_grid mat (row + 1) col) by (unfold in_grid; lia).
          destruct (mat_get_value_in _ _ _ Hwf Hin1) as [_ [v1 Hv1]].
          assert (Hne : idx mat (row + 1) col <> idx mat row col)
            by (apply idx_ne_row; lia).
          pose (m1 := put mat (row + 1) col (moved_cell st ts v1)).
          assert (Hwf1 : wf m1) by (apply wf_put, Hwf).
          assert (Hv' : data m1 !! idx m1 row col = Some v).
          { unfold m1. rewrite idx_put, lookup_put_ne by congruence.
            exact Hv. }
          exists (put m1 row col (cleared_cell v)). split.
          { intros k.
            rewrite (mat_set_state_in _ _ _ _ v1) by assumption.
            cbn [mbind option_bind].
            rewrite (mat_set_tsize_in _ _ _ _ (cell_set_state st v1));
              [|apply wf_put, Hwf|exact Hin1
               |rewrite idx_put; apply lookup_put_eq; assumption].
            cbn [mbind option_bind]. rewrite put_put.
            fold (moved_cell st ts v1). fold m1.
            rewrite (mat_set_state_in m1 _ _ _ v) by assumption.
            cbn [mbind option_bind].
            rewrite (mat_set_tsize_in _ _ _ _ (cell_set_state STATE_NONE v));
              [|apply wf_put, Hwf1|exact Hin
               |rewrite idx_put; apply lookup_put_eq; assumption].
            rewrite put_put. reflexivity. }
          repeat (split; [reflexivity|]).
          split.
          { apply keeps_ok_trans with (m2 := m1).
            - apply (keeps_ok_put mat (row + 1) col v1); [exact Hv1|].
              intros _. apply cell_ok_moved_cell. lia.
            - apply (keeps_ok_put m1 row col v); [exact Hv'|].
              intros _. apply cell_ok_cleared_cell. }
          split.
          { change (idx mat row col) with (idx m1 row col).
            apply lookup_put_eq; assumption. }
          split.
          { intros _. exists v1.
            rewrite lookup_put_ne by exact Hne.
            apply lookup_put_eq; assumption. }
          intros i Hi Hi1.
          rewrite lookup_put_ne by exact Hi.
          apply lookup_put_ne. apply Hi1. exact Hlt.
        - exists (put mat row col (cleared_cell v)). split.
          { intros k.
            rewrite mat_set_state_out by lia. cbn [mbind option_bind].
            rewrite mat_set_tsize_out by lia. cbn [mbind option_bind].
            rewrite (mat_set_state_in _ _ _ _ v) by assumption.
            cbn [mbind option_bind].
            rewrite (mat_set_tsize_in _ _ _ _ (cell_set_state STATE_NONE v));
              [|apply wf_put, Hwf|exact Hin
               |rewrite idx_put; apply lookup_put_eq; assumption].
            rewrite put_put. reflexivity. }
          repeat (split; [reflexivity|]).
          split.
          { apply (keeps_ok_put _ _ _ v); [exact Hv|].
            intros _. apply cell_ok_cleared_cell. }
          split; [apply lookup_put_eq; assumption|].
          split; [lia|].
          intros i Hi _. apply lookup_put_ne. exact Hi. }
      destruct Hmove as (mat1 & Hrun1 & Hr1 & Hc1 & Hdc1 & Hdr1 & Hok1 & Hclr
                         & Hmoved & Hframe1).
      assert (Hwf1 : wf mat1) by (eapply keeps_ok_wf; eassumption).
      assert (Hidx : forall r c, idx mat1 r c = idx mat r c)
        by (intros; apply idx_cols; exact Hc1).
      destruct (IH mat1 l1)
        as (mat' & l' & Hrun & Hr' & Hc' & Hdc & Hdr & Hok & Hframe & Hshift
            & Htop & Hts' & Hseen' & Hl0 & Hstate);
        [exact Hwf1|lia|lia| |exact Hts1|exact Hseen1|].
      { intros _. exists (cleared_cell v). rewrite Hidx.
        split; [exact Hclr|apply state_cleared_cell]. }
      rewrite Hr1 in *. rewrite Hc1 in *.
      setoid_rewrite Hidx in Hframe. setoid_rewrite Hidx in Hshift.
      setoid_rewrite Hidx in Htop. setoid_rewrite Hidx in Hstate.
      exists mat', l'. split.
      { etransitivity; [|exact Hrun].
        apply (Hrun1 (fun m => mov_col_loop n m col l1)). }
      split; [exact Hr'|]. split; [exact Hc'|].
      split; [congruence|]. split; [congruence|].
      split; [eapply keeps_ok_trans; eassumption|].
      split.
      { intros i Hi. rewrite Hframe.
        - apply Hframe1.
          + apply Hi; lia.
          + intros Hlt. apply Hi; lia.
        - intros r Hr0 Hr2. apply Hi; lia. }
      split.
      { intros r w Hr Hr2 Hw.
        destruct (Z.eq_dec r row) as [->|Hne].
        - destruct (Hmoved Hr2) as (v1 & Hv1).
          exists (moved_cell st ts v1). rewrite Hframe.
          + split; [exact Hv1|]. rewrite Hv in Hw. injection Hw as <-.
            apply state_moved_cell. exact Hst.
          + intros r Hr0 Hr3. apply idx_ne_row; lia.
        - apply Hshift; [lia|lia|].
          rewrite Hframe1; [exact Hw| |intros _]; apply idx_ne_row; lia. }
      split.
      { intros _. destruct n as [|n'].
        - cbn [mov_col_loop] in Hrun. injection Hrun as <- <-.
          exists (cleared_cell v).
          split; [exact Hclr|apply state_cleared_cell].
        - apply Htop. lia. }
      split; [exact Hts'|]. split; [exact Hseen'|]. split; [discriminate|].
      intros _. destruct n as [|n'].
      * exists v. split; [exact Hv|]. rewrite (Hl0 eq_refl). exact Hst1.
      * destruct Hstate as (v0 & Hv0 & Hs0); [lia|].
        exists v0. split; [|exact Hs0].
        rewrite <- Hv0. symmetry.
        apply Hframe1; [|intros _]; apply idx_ne_row; lia.
Qed.

Lemma mat_mov_col_spec (mat : matrix_s) :
  wf mat -> 0 <= col < cols mat ->
  exists mat' vb,
    data mat !! idx mat (rows mat - 1) col = Some vb /\
    mat_mov_col mat col
      = Some (mat', if val_get_state vb =? STATE_DROP then 1 else 0) /\
    rows mat' = rows mat /\ cols mat' = cols mat /\
    drop_count mat' = drop_count mat /\ drop_ratio mat' = drop_ratio mat /\
    keeps_ok mat mat' /\
    (forall i : nat,
       (forall r, 0 <= r < rows mat -> i <> idx mat r col) ->
       data mat' !! i = data mat !! i) /\
    (forall r v, 0 <= r -> r + 1 < rows mat ->
       data mat !! idx mat r col = Some v ->
       exists v', data mat' !! idx mat (r + 1) col = Some v' /\
                  val_get_state v' = val_get_state v) /\
    (exists v', data mat' !! idx mat 0 col = Some v' /\
                (val_get_state v' = STATE_NONE \/ val_get_state v' = STATE_TAIL)).
Proof.
  intros Hwf Hcol. pose proof Hwf as (Hrows & Hcols & Hlen).
  assert (Hinb : in_grid mat (rows mat - 1) col) by (unfold in_grid; lia).
  destruct (mat_get_value_in _ _ _ Hwf Hinb) as [Hgetb [vb Hvb]].
  destruct (mov_col_loop_spec (Z.to_nat (rows mat)) mat (MovLocals 0 0 STATE_NONE))
    as (mat1 & l1 & Hrun & Hr1 & Hc1 & Hdc1 & Hdr1 & Hok1 & Hframe1 & Hshift1
        & Htop1 & Hts1 & Hseen1 & _ & Hstate1);
    [exact Hwf|exact Hcol|lia|lia|cbn; lia|cbn; lia|].
  rewrite Z2Nat.id in * by lia.
  destruct Htop1 as (v0' & Hv0' & Hs0'); [lia|].
  assert (Hwf1 : wf mat1) by (eapply keeps_ok_wf; eassumption).
  assert (Hin0 : in_grid mat1 0 col) by (unfold in_grid; lia).
  assert (Hidx : forall r c, idx mat1 r c = idx mat r c)
    by (intros; apply idx_cols; exact Hc1).
  unfold mat_mov_col, mat_get_state. rewrite Hgetb, Hvb.
  cbn [fmap option_fmap option_map mbind option_bind]. rewrite Hrun.
  cbn [mbind option_bind].
  destruct (negb (state l1 =? STATE_NONE) && (tail_seen l1 <? tail_size l1))
    eqn:Hcond.
  - apply andb_true_iff in Hcond as [_ Hlt]. apply Z.ltb_lt in Hlt.
    destruct (tail_color_range (tail_size l1) (tail_seen l1 + 1))
      as (c & Hc & _); [lia|unfold TSIZE_MAX; lia|].
    rewrite (mat_put_cell_tail_in _ _ _ _ _ c v0');
      [|exact Hwf1|exact Hin0|rewrite Hidx; exact Hv0'|exact Hc].
    cbn [mbind option_bind].
    exists (put mat1 0 col (tail_cell c v0')), vb.
    split; [reflexivity|]. split; [reflexivity|].
    split; [exact Hr1|]. split; [exact Hc1|].
    split; [exact Hdc1|]. split; [exact Hdr1|].
    split.
    { eapply keeps_ok_trans; [exact Hok1|].
      apply (keeps_ok_put mat1 0 col v0'); [rewrite Hidx; exact Hv0'|].
      intros _. apply cell_ok_tail_cell. }
    split.
    { intros i Hi. rewrite lookup_put_ne by (rewrite Hidx; apply Hi; lia).
      apply Hframe1. intros r Hr0 Hr2. apply Hi. lia. }
    split.
    { intros r v Hr Hr2 Hv.
      destruct (Hshift1 r v) as (v' & Hv' & Hs'); [lia|lia|exact Hv|].
      exists v'. split; [|exact Hs'].
      rewrite lookup_put_ne; [exact Hv'|].
      rewrite Hidx. apply idx_ne_row; lia. }
    exists (tail_cell c v0'). split.
    + rewrite <- Hidx. apply lookup_put_eq; assumption.
    + right. apply state_tail_cell.
  - exists mat1, vb.
    split; [reflexivity|]. split; [reflexivity|].
    split; [exact Hr1|]. split; [exact Hc1|].
    split; [exact Hdc1|]. split; [exact Hdr1|].
    split; [exact Hok1|].
    split.
    { intros i Hi. apply Hframe1. intros r Hr0 Hr2. apply Hi. lia. }
    split.
    { intros r v Hr Hr2 Hv. apply (Hshift1 r v); [lia|lia|exact Hv]. }
    exists v0'. split; [exact Hv0'|]. left. exact Hs0'.
Qed.

End MovCol.

(** ** The advance phase *)

Section Sums.

Lemma sum_range_ext (f g : Z -> Z) (n : nat) : forall lo,
  (forall x, lo <= x < lo + Z.of_nat n -> f x = g x) ->
  sum_range f lo n = sum_range g lo n.
Proof.
  induction n as [|n IH]; intros lo H; cbn [sum_range]; [reflexivity|].
  rewrite (H lo) by lia. rewrite (IH (lo + 1)); [reflexivity|].
  intros x Hx. apply H. lia.
Qed.

Lemma sum_range_zero (f : Z -> Z) (n : nat) : forall lo,
  (forall x, lo <= x < lo + Z.of_nat n -> f x = 0) -> sum_range f lo n = 0.
Proof.
  induction n as [|n IH]; intros lo H; cbn [sum_range]; [reflexivity|].
  rewrite (H lo) by lia. rewrite (IH (lo + 1)); [reflexivity|].
  intros x Hx. apply H. lia.
Qed.

Lemma sum_range_shift (f : Z -> Z) (n : nat) : forall lo,
  sum_range f (lo + 1) n = sum_range (fun x => f (x + 1)) lo n.
Proof.
  induction n as [|n IH]; intros lo; cbn [sum_range]; [reflexivity|].
  rewrite IH. reflexivity.
Qed.

Lemma sum_range_last (f : Z -> Z) (n : nat) : forall lo,
  sum_range f lo (S n) = sum_range f lo n + f (lo + Z.of_nat n).
Proof.
  induction n as [|n IH]; intros lo.
  - cbn [sum_range]. replace (lo + Z.of_nat 0) with lo by lia. lia.
  - change (sum_range f lo (S (S n))) with (f lo + sum_range f (lo + 1) (S n)).
    rewrite IH. cbn [sum_range].
    replace (lo + 1 + Z.of_nat n) with (lo + Z.of_nat (S n)) by lia. lia.
Qed.

End Sums.

Section Advance.

Implicit Types (mat : matrix_s).

(** The state of a cell of the grid as the accessor reads it. *)
Lemma mat_get_state_in mat row col v :
  wf mat -> in_grid mat row col -> data mat !! idx mat row col = Some v ->
  mat_get_state mat row col = Some (val_get_state v).
Proof.
  intros Hwf Hin Hv. unfold mat_get_state.
  destruct (mat_get_value_in _ _ _ Hwf Hin) as [-> _]. rewrite Hv. reflexivity.
Qed.

Lemma drop_at_in mat row col v :
  wf mat -> in_grid mat row col -> data mat !! idx mat row col = Some v ->
  drop_at mat row col = if val_get_state v =? STATE_DROP then 1 else 0.
Proof.
  intros Hwf Hin Hv. unfold drop_at, is_drop.
  rewrite (mat_get_state_in _ _ _ v) by assumption.
  destruct (Z.eqb_spec (val_get_state v) STATE_DROP) as [->|Hne].
  - rewrite bool_decide_eq_true_2; reflexivity.
  - rewrite bool_decide_eq_false_2; [reflexivity|congruence].
Qed.

Lemma idx_ne_col mat r r' c c' :
  wf mat -> in_grid mat r c -> in_grid mat r' c' -> c <> c' ->
  idx mat r c <> idx mat r' c'.
Proof.
  intros Hwf Hin Hin' Hne Heq.
  destruct (idx_inj _ _ _ _ _ Hin Hin' Heq). congruence.
Qed.

Lemma size_t_sub_idemp (a b : Z) : size_t (size_t a - b) = size_t (a - b).
Proof. unfold size_t. apply Zminus_mod_idemp_l. Qed.

Lemma advance_loop_spec (n : nat) : forall mat col,
  wf mat -> 0 <= col -> col + Z.of_nat n = cols mat ->
  exists mat',
    advance_loop n mat col = Some mat' /\
    rows mat' = rows mat /\ cols mat' = cols mat /\
    drop_ratio mat' = drop_ratio mat /\
    keeps_ok mat mat' /\
    size_t (drop_count mat')
      = size_t (drop_count mat - sum_range (drop_at mat (rows mat - 1)) col n) /\
    ((0 < n)%nat -> drop_count mat' = size_t (drop_count mat')) /\
    (forall r c, in_grid mat r c -> c < col ->
       data mat' !! idx mat r c = data mat !! idx mat r c) /\
    (forall r c v, col <= c < cols mat -> 0 <= r -> r + 1 < rows mat ->
       data mat !! idx mat r c = Some v ->
       exists v', data mat' !! idx mat (r + 1) c = Some v' /\
                  val_get_state v' = val_get_state v) /\
    (forall c, col <= c < cols mat ->
       exists v', data mat' !! idx mat 0 c = Some v' /\
                  (val_get_state v' = STATE_NONE \/
                   val_get_state v' = STATE_TAIL)).
Proof.
  induction n as [|n IH]; intros mat col Hwf Hcol Hn.
  - exists mat. cbn [advance_loop sum_range].
    split; [reflexivity|]. repeat (split; [reflexivity|]).
    split; [apply keeps_ok_refl|].
    split; [f_equal; lia|]. split; [lia|].
    split; [reflexivity|]. split; intros; lia.
  - pose proof Hwf as (Hrows & Hcols & Hlen).
    destruct (mat_mov_col_spec col mat Hwf ltac:(lia))
      as (mat1 & vb & Hvb & Hrun1 & Hr1 & Hc1 & Hdc1 & Hdr1 & Hok1 & Hframe1
          & Hshift1 & Htop1).
    cbn [advance_loop]. rewrite Hrun1. cbn [mbind option_bind].
    set (d := if val_get_state vb =? STATE_DROP then 1 else 0) in *.
    set (mat2 := set_drop_count (size_t (drop_count mat1 - d)) mat1).
    assert (Hwf1 : wf mat1) by (eapply keeps_ok_wf; eassumption).
    assert (Hwf2 : wf mat2) by exact Hwf1.
    destruct (IH mat2 (col + 1))
      as (mat' & Hrun & Hr' & Hc' & Hdr' & Hok' & Hdc' & _ & Hframe & Hshift
          & Htop);
      [exact Hwf2|lia|cbn [cols mat2 set_drop_count]; lia|].
    assert (Hgrid : forall r c, in_grid mat r c -> in_grid mat2 r c).
    { unfold in_grid. cbn [rows cols mat2 set_drop_count]. intros r c.
      rewrite Hr1, Hc1. trivial. }
    cbn [rows cols drop_ratio drop_count data mat2 set_drop_count] in *.
    assert (Hidx : forall r c, idx mat2 r c = idx mat r c)
      by (intros; apply idx_cols; exact Hc1).
    rewrite Hr1, Hc1 in *.
    setoid_rewrite Hidx in Hframe. setoid_rewrite Hidx in Hshift.
    setoid_rewrite Hidx in Htop.
    assert (Hother : forall r c, in_grid mat r c -> c <> col ->
               data mat1 !! idx mat r c = data mat !! idx mat r c).
    { intros r c Hin Hne. apply Hframe1. intros r' Hr0.
      apply idx_ne_col; [exact Hwf|exact Hin|unfold in_grid; lia|exact Hne]. }
    exists mat'. split; [exact Hrun|].
    split; [exact Hr'|]. split; [exact Hc'|]. split; [congruence|].
    split; [eapply keeps_ok_trans; [exact Hok1|exact Hok']|].
    split.
    { rewrite Hdc'. cbn [sum_range].
      rewrite size_t_sub_idemp, Hdc1.
      rewrite (drop_at_in mat (rows mat - 1) col vb);
        [|exact Hwf|unfold in_grid; lia|exact Hvb].
      fold d. f_equal.
      rewrite (sum_range_ext (drop_at mat2 (rows mat - 1))
                             (drop_at mat (rows mat - 1))); [lia|].
      intros c Hc. unfold drop_at, is_drop.
      assert (Hinc : in_grid mat (rows mat - 1) c) by (unfold in_grid; lia).
      destruct (mat_get_value_in _ _ _ Hwf Hinc) as [_ [w Hw]].
      rewrite (mat_get_state_in mat _ _ w) by assumption.
      rewrite (mat_get_state_in mat2 _ _ w);
        [reflexivity|exact Hwf2|apply Hgrid, Hinc|].
      rewrite Hidx. cbn [data mat2 set_drop_count].
      rewrite Hother; [exact Hw|exact Hinc|lia]. }
    split.
    { intros _. destruct n as [|n'].
      - cbn [advance_loop] in Hrun. injection Hrun as <-.
        cbn [drop_count mat2 set_drop_count]. unfold size_t.
        symmetry. apply Z.mod_mod. lia.
      - destruct (IH mat2 (col + 1)) as (mat'' & Hrun'' & _ & _ & _ & _ & _ & Hred & _);
          [exact Hwf2|lia|cbn [cols mat2 set_drop_count]; lia|].
        rewrite Hrun in Hrun''. injection Hrun'' as <-. apply Hred. lia. }
    split.
    { intros r c Hin Hlt. rewrite Hframe; [|apply Hgrid, Hin|lia].
      apply Hother; [exact Hin|lia]. }
    split.
    { intros r c v Hc Hr Hr2 Hv.
      destruct (Z.eq_dec c col) as [->|Hne].
      - destruct (Hshift1 r v Hr Hr2 Hv) as (v' & Hv' & Hs').
        exists v'. split; [|exact Hs'].
        rewrite Hframe; [exact Hv'|apply Hgrid; unfold in_grid; lia|lia].
      - apply Hshift; [lia|exact Hr|exact Hr2|].
        rewrite Hother; [exact Hv|unfold in_grid; lia|exact Hne]. }
    intros c Hc.
    destruct (Z.eq_dec c col) as [->|Hne].
    + destruct Htop1 as (v' & Hv' & Hs').
      exists v'. split; [|exact Hs'].
      rewrite Hframe; [exact Hv'|apply Hgrid; unfold in_grid; lia|lia].
    + apply Htop. lia.
Qed.

(** After the advance phase every row below the top holds the states of the
    row above it, and the top row holds no DROP. *)
Lemma advance_states mat mat' :
  wf mat -> mat_update_advance mat = Some mat' ->
  wf mat' /\ rows mat' = rows mat /\ cols mat' = cols mat /\
  (forall r c, in_grid mat r c -> 0 < r ->
     mat_get_state mat' r c = mat_get_state mat (r - 1) c) /\
  (forall c, 0 <= c < cols mat ->
     mat_get_state mat' 0 c = Some STATE_NONE \/
     mat_get_state mat' 0 c = Some STATE_TAIL).
Proof.
  intros Hwf Hrun. pose proof Hwf as (Hrows & Hcols & Hlen).
  destruct (advance_loop_spec (Z.to_nat (cols mat)) mat 0 Hwf)
    as (m & Hrun' & Hr & Hc & _ & Hok & _ & _ & _ & Hshift & Htop); [lia|lia|].
  unfold mat_update_advance in Hrun. rewrite Hrun' in Hrun.
  injection Hrun as <-.
  assert (Hwf' : wf m) by (eapply keeps_ok_wf; eassumption).
  assert (Hidx : forall r c, idx m r c = idx mat r c)
    by (intros; apply idx_cols; exact Hc).
  split; [exact Hwf'|]. split; [exact Hr|]. split; [exact Hc|]. split.
  - intros r c [Hr0 Hc0] Hpos.
    assert (Hin1 : in_grid mat (r - 1) c) by (unfold in_grid; lia).
    destruct (mat_get_value_in _ _ _ Hwf Hin1) as [_ [v Hv]].
    destruct (Hshift (r - 1) c v) as (v' & Hv' & Hs'); [lia|lia|lia|exact Hv|].
    replace (r - 1 + 1) with r in Hv' by lia.
    rewrite (mat_get_state_in mat _ _ v) by assumption.
    rewrite (mat_get_state_in m _ _ v');
      [congruence|exact Hwf'|unfold in_grid; lia|rewrite Hidx; exact Hv'].
  - intros c Hc0. destruct (Htop c) as (v' & Hv' & Hs'); [lia|].
    rewrite (mat_get_state_in m _ _ v');
      [|exact Hwf'|unfold in_grid; lia|rewrite Hidx; exact Hv'].
    destruct Hs' as [-> | ->]; auto.
Qed.

End Advance.

(** The advance phase on any grid: [drop_count] goes down by the number of
    DROP cells of the bottom row, and so does the number of DROP cells. *)
Lemma advance_counts (mat : matrix_s) :
  wf mat ->
  exists mat',
    mat_update_advance mat = Some mat' /\
    rows mat' = rows mat /\ cols mat' = cols mat /\
    length (data mat') = length (data mat) /\
    drop_count mat' = size_t (drop_count mat - row_drops mat (rows mat - 1)) /\
    (forall r c, in_grid mat r c ->
       mat_get_state mat' r c = Some STATE_DROP <->
       0 < r /\ mat_get_state mat (r - 1) c = Some STATE_DROP) /\
    count_drops mat' = count_drops mat - row_drops mat (rows mat - 1).
Proof.
  intros Hwf. pose proof Hwf as (Hrows & Hcols & Hlen).
  destruct (advance_loop_spec (Z.to_nat (cols mat)) mat 0 Hwf)
    as (mat' & Hrun & Hr & Hc & _ & Hok & Hdc & Hred & _); [lia|lia|].
  assert (Hadv : mat_update_advance mat = Some mat') by exact Hrun.
  destruct (advance_states mat mat' Hwf Hadv) as (Hwf' & _ & _ & Hshift & Htop).
  fold (row_drops mat (rows mat - 1)) in Hdc.
  rewrite <- Hred in Hdc by lia.
  exists mat'. split; [exact Hadv|]. split; [exact Hr|]. split; [exact Hc|].
  split.
  { destruct Hok as (_ & _ & Hall). symmetry. eapply Forall2_length, Hall. }
  split; [exact Hdc|].
  assert (Hdrop0 : forall c, 0 <= c < cols mat -> drop_at mat' 0 c = 0).
  { intros c Hc0. unfold drop_at, is_drop.
    rewrite bool_decide_eq_false_2; [reflexivity|].
    destruct (Htop c Hc0) as [-> | ->]; discriminate. }
  split.
  - intros r c Hin. destruct (Z.eq_dec r 0) as [->|Hne].
    + split; [|lia]. intros HD. destruct Hin as [_ Hc0].
      destruct (Htop c Hc0) as [H0 | H0]; rewrite H0 in HD; discriminate.
    + assert (0 < r) by (destruct Hin; lia).
      rewrite Hshift by assumption. tauto.
  - unfold count_drops. rewrite Hr.
    destruct (Z.to_nat (rows mat)) as [|k] eqn:Hk; [lia|].
    rewrite (sum_range_last (row_drops mat)).
    replace (0 + Z.of_nat k) with (rows mat - 1) by lia.
    cbn [sum_range].
    assert (Hrow0 : row_drops mat' 0 = 0).
    { unfold row_drops. rewrite Hc. apply sum_range_zero.
      intros c Hc0. apply Hdrop0. lia. }
    rewrite Hrow0, sum_range_shift.
    rewrite (sum_range_ext (fun x => row_drops mat' (x + 1)) (row_drops mat));
      [lia|].
    intros r Hr0. unfold row_drops. rewrite Hc.
    apply sum_range_ext. intros c Hc0. unfold drop_at, is_drop.
    rewrite Hshift by (unfold in_grid; lia).
    replace (r + 1 - 1) with r by lia. reflexivity.
Qed.

Lemma sum_range_nonneg (f : Z -> Z) (n : nat) : forall lo,
  (forall x, 0 <= f x) -> 0 <= sum_range f lo n.
Proof.
  induction n as [|n IH]; intros lo H; cbn [sum_range]; [lia|].
  specialize (IH (lo + 1) H). specialize (H lo). lia.
Qed.

Lemma count_drops_nonneg (mat : matrix_s) : 0 <= count_drops mat.
Proof.
  unfold count_drops. apply sum_range_nonneg. intros r.
  unfold row_drops. apply sum_range_nonneg. intros c.
  unfold drop_at. destruct (is_drop mat r c); lia.
Qed.

(** The advance phase keeps an exact [drop_count] exact: the count can only
    drift in the spawn phase. *)
Lemma advance_keeps_exact_count (mat mat' : matrix_s) :
  wf mat -> drop_count mat = count_drops mat -> count_drops mat < 2 ^ 64 ->
  mat_update_advance mat = Some mat' ->
  drop_count mat' = count_drops mat'.
Proof.
  intros Hwf Hexact Hsmall Hrun.
  destruct (advance_counts mat Hwf)
    as (m & Hrun' & _ & _ & _ & Hdc & _ & Hcount).
  rewrite Hrun' in Hrun. injection Hrun as <-.
  pose proof (count_drops_nonneg m) as Hm.
  assert (0 <= row_drops mat (rows mat - 1)).
  { unfold row_drops. apply sum_range_nonneg. intros c.
    unfold drop_at. destruct (is_drop mat (rows mat - 1) c); lia. }
  rewrite Hdc, Hexact, <- Hcount. unfold size_t. apply Z.mod_small. lia.
Qed.

(** C4: when the bottom row holds a single DROP cell, the advance phase of a
    tick decrements [drop_count] by exactly one (modulo [2^64], hence by one
    whenever the count is positive).  Afterwards the DROP cells of the grid
    are exactly the DROP cells of the rows above the bottom, each one row
    lower: the drop that was in the bottom row has left no DROP cell, the
    buffer has kept its size, and the grid holds one DROP cell less. *)
Theorem advance_exits_bottom_drop (mat : matrix_s) :
  wf mat -> row_drops mat (rows mat - 1) = 1 ->
  exists mat',
    mat_update_advance mat = Some mat' /\
    rows mat' = rows mat /\ cols mat' = cols mat /\
    length (data mat') = length (data mat) /\
    drop_count mat' = size_t (drop_count mat - 1) /\
    (0 < drop_count mat < 2 ^ 64 -> drop_count mat' = drop_count mat - 1) /\
    (forall r c, in_grid mat r c ->
       mat_get_state mat' r c = Some STATE_DROP <->
       0 < r /\ mat_get_state mat (r - 1) c = Some STATE_DROP) /\
    count_drops mat' = count_drops mat - 1.
Proof.
  intros Hwf Hone.
  destruct (advance_counts mat Hwf)
    as (mat' & Hrun & Hr & Hc & Hlen & Hdc & Hshift & Hcount).
  rewrite Hone in Hdc, Hcount.
  exists mat'. repeat (split; [assumption|]).
  split.
  - intros Hpos. rewrite Hdc. unfold size_t. apply Z.mod_small. lia.
  - split; [exact Hshift|exact Hcount].
Qed.

Lemma advance_exits_bottom_drop_witness :
  exists mat',
    mat_update_advance
      (Matrix [65; 66; 1601; 67; 2369; 68] 2 3 1 (F32.make 1 (-4))) = Some mat' /\
    drop_count mat' = 0 /\ count_drops mat' = 0.
Proof.
  destruct (advance_exits_bottom_drop
              (Matrix [65; 66; 1601; 67; 2369; 68] 2 3 1 (F32.make 1 (-4))))
    as (mat' & Hrun & _ & _ & _ & Hdc & _ & _ & Hcount).
  - unfold wf. cbn [rows cols data length]. lia.
  - vm_compute. reflexivity.
  - exists mat'. split; [exact Hrun|]. split; [exact Hdc|exact Hcount].
Defined.

(** ** Rounding of quotients *)

Section Round.

Lemma Zdigits2_eq (z d : Z) : 2 ^ (d - 1) <= z < 2 ^ d -> 0 < d -> Zdigits2 z = d.
Proof.
  intros Hz Hd.
  assert (0 < 2 ^ (d - 1)) by (apply Z.pow_pos_nonneg; lia).
  destruct z as [|p|p]; try lia. cbn [Zdigits2].
  pose proof (digits2_pos_bounds p) as [Hlo Hhi].
  set (x := Z.pos (digits2_pos p)) in *.
  assert (0 < x) by (unfold x; lia).
  destruct (Z.lt_trichotomy x d) as [Hlt|[Heq|Hgt]]; [|exact Heq|].
  - assert (2 ^ x <= 2 ^ (d - 1)) by (apply Z.pow_le_mono_r; lia). lia.
  - assert (2 ^ d <= 2 ^ (x - 1)) by (apply Z.pow_le_mono_r; lia). lia.
Qed.

Lemma loc_of_shr_record_of_loc (m : Z) (l : location) :
  loc_of_shr_record (shr_record_of_loc m l) = l.
Proof. destruct l as [|[]]; reflexivity. Qed.

(** A mantissa of 24 bits is not shifted. *)
Lemma shr_fexp_24 (m e : Z) (l : location) :
  2 ^ 23 <= m < 2 ^ 24 -> -149 <= e ->
  shr_fexp F32.prec F32.emax m e l = (shr_record_of_loc m l, e).
Proof.
  intros Hm He. unfold shr_fexp.
  rewrite (Zdigits2_eq m 24) by (change (24 - 1) with 23; lia).
  unfold fexp, emin, F32.prec, F32.emax.
  replace (Z.max (24 + e - 24) (3 - 128 - 24) - e) with 0 by lia.
  reflexivity.
Qed.

(** A mantissa of 25 bits is shifted by one bit. *)
Lemma shr_fexp_25 (m e : Z) (l : location) :
  2 ^ 24 <= m < 2 ^ 25 -> -149 <= e ->
  shr_fexp F32.prec F32.emax m e l = (shr_1 (shr_record_of_loc m l), e + 1).
Proof.
  intros Hm He. unfold shr_fexp.
  rewrite (Zdigits2_eq m 25) by (change (25 - 1) with 24; lia).
  unfold fexp, emin, F32.prec, F32.emax.
  replace (Z.max (25 + e - 24) (3 - 128 - 24) - e) with 1 by lia.
  reflexivity.
Qed.

Lemma scaled_floor_carry (e : Z) :
  scaled_floor (2 ^ 23) (e + 1) = scaled_floor (2 ^ 24) e.
Proof.
  unfold scaled_floor.
  destruct (Z.leb_spec 0 e) as [He|He].
  - destruct (Z.leb_spec 0 (e + 1)); [|lia].
    rewrite Z.pow_add_r by lia. change (2 ^ 24) with (2 ^ 23 * 2 ^ 1). lia.
  - destruct (Z.leb_spec 0 (e + 1)) as [He1|He1].
    + assert (e = -1) as -> by lia. reflexivity.
    + replace (- e) with (1 + - (e + 1)) by lia.
      rewrite Z.pow_add_r by lia. change (2 ^ 24) with (2 ^ 1 * 2 ^ 23).
      rewrite Z.div_mul_cancel_l; [reflexivity| |lia].
      apply Z.pow_nonzero; lia.
Qed.

(** The second half of [binary_round_aux]: a rounded mantissa of 24 bits,
    or [2^24] after a carry, is packed without loss. *)
Lemma round_finish (m1 e : Z) :
  2 ^ 23 <= m1 <= 2 ^ 24 -> -149 <= e <= 103 ->
  exists f,
    (let '(mrs, e') := shr_fexp F32.prec F32.emax m1 e loc_Exact in
     match shr_m mrs with
     | Z0 => S754_zero false
     | Zpos m => if e' <=? F32.emax - F32.prec
                 then S754_finite false m e' else S754_infinity false
     | Zneg _ => S754_nan
     end) = f /\
    F32.trunc f = Some (scaled_floor m1 e) /\
    (m1 < 2 ^ 24 -> f = S754_finite false (Z.to_pos m1) e).
Proof.
  intros Hm He.
  destruct (Z.eq_dec m1 (2 ^ 24)) as [Hcarry|Hno].
  - rewrite Hcarry. rewrite shr_fexp_25 by lia.
    cbn [shr_record_of_loc].
    change (2 ^ 24) with (Z.pos (xO (Pos.pow 2 23))) at 1.
    cbn [shr_1 shr_m].
    unfold F32.emax, F32.prec.
    destruct (Z.leb_spec (e + 1) (128 - 24)); [|lia].
    eexists. split; [reflexivity|]. split; [|lia].
    cbn [F32.trunc]. f_equal.
    change (F32.mag_floor (2 ^ 23) (e + 1)) with (scaled_floor (2 ^ 23) (e + 1)).
    apply scaled_floor_carry.
  - rewrite shr_fexp_24 by lia. rewrite shr_m_of_loc.
    destruct m1 as [|p|p]; try lia.
    unfold F32.emax, F32.prec.
    destruct (Z.leb_spec e (128 - 24)); [|lia].
    eexists. split; [reflexivity|]. split; reflexivity.
Qed.

(** Rounding a 24-bit mantissa. *)
Lemma binary_round_aux_24 (m e : Z) (l : location) :
  2 ^ 23 <= m < 2 ^ 24 -> -149 <= e <= 103 ->
  exists f,
    binary_round_aux F32.prec F32.emax false m e l = f /\
    F32.trunc f = Some (scaled_floor (round_nearest_even m l) e) /\
    (l = loc_Exact -> f = S754_finite false (Z.to_pos m) e).
Proof.
  intros Hm He. unfold binary_round_aux.
  rewrite shr_fexp_24 by lia.
  rewrite loc_of_shr_record_of_loc, shr_m_of_loc.
  pose proof (round_nearest_even_le m l) as Hr.
  destruct (round_finish (round_nearest_even m l) e) as (f & Hf & Ht & Hex);
    [lia|lia|].
  exists f. split; [exact Hf|]. split; [exact Ht|].
  intros ->. cbn [round_nearest_even] in *. apply Hex. lia.
Qed.

(** Rounding a 25-bit mantissa: one bit is shifted out, and the mantissa
    is incremented only when that bit was set. *)
Lemma binary_round_aux_25 (q e : Z) (l : location) :
  2 ^ 24 <= q < 2 ^ 25 -> -149 <= e <= 102 ->
  exists f m1,
    binary_round_aux F32.prec F32.emax false q e l = f /\
    F32.trunc f = Some (scaled_floor m1 (e + 1)) /\
    q / 2 <= m1 <= q / 2 + 1 /\
    (m1 = q / 2 + 1 -> Z.odd q = true).
Proof.
  intros Hq He. unfold binary_round_aux.
  rewrite shr_fexp_25 by lia.
  set (mrs := shr_1 (shr_record_of_loc q l)).
  assert (Hmrs : shr_m mrs = q / 2 /\
                 (round_nearest_even (shr_m mrs) (loc_of_shr_record mrs)
                  = q / 2 + 1 -> Z.odd q = true)).
  { unfold mrs. destruct q as [|[p|p|]|p]; try lia.
    - (* odd *)
      replace (Z.pos p~1 / 2) with (Z.pos p)
        by (rewrite Pos2Z.inj_xI; apply Z.div_unique with 1; lia).
      split; [destruct l as [|[]]; reflexivity|reflexivity].
    - (* even *)
      replace (Z.pos p~0 / 2) with (Z.pos p)
        by (rewrite Pos2Z.inj_xO; apply Z.div_unique with 0; lia).
      split; [destruct l as [|[]]; reflexivity|].
      destruct l as [|[]]; cbn; lia. }
  destruct Hmrs as [Hm Hodd].
  pose proof (round_nearest_even_le (shr_m mrs) (loc_of_shr_record mrs)) as Hr.
  set (m1 := round_nearest_even (shr_m mrs) (loc_of_shr_record mrs)) in *.
  assert (2 ^ 24 <= 2 * (q / 2) + 1 /\ 2 * (q / 2) < 2 ^ 25) as [Hlo Hhi].
  { pose proof (Z.div_mod q 2 ltac:(lia)).
    pose proof (Z.mod_pos_bound q 2 ltac:(lia)). lia. }
  destruct (round_finish m1 (e + 1)) as (f & Hf & Ht & _);
    [change (2 ^ 24) with (2 * 2 ^ 23) in *; change (2 ^ 25) with (2 * (2 * 2 ^ 23)) in *; lia|lia|].
  exists f, m1. split; [exact Hf|]. split; [exact Ht|].
  split; [lia|exact Hodd].
Qed.

Lemma new_location_round_up (b r q : Z) :
  round_nearest_even q (new_location b r) = q + 1 -> b <= 2 * r.
Proof.
  unfold new_location, new_location_even, new_location_odd.
  destruct (Z.even b); destruct (Z.eqb_spec r 0) as [->|Hr];
    cbn [round_nearest_even]; try lia.
  - destruct (Z.compare_spec (2 * r) b); cbn [round_nearest_even]; try lia.
  - destruct (Z.compare_spec (2 * r + 1) b); cbn [round_nearest_even]; lia.
Qed.

(** Small integers convert exactly: the mantissa is the integer shifted
    left to 24 bits. *)
Lemma of_Z_exact (z : Z) :
  0 < z < 2 ^ 24 ->
  exists s,
    0 <= s <= 23 /\ 2 ^ 23 <= z * 2 ^ s < 2 ^ 24 /\
    F32.of_Z z = S754_finite false (Z.to_pos (z * 2 ^ s)) (- s).
Proof.
  intros Hz. destruct z as [|p|p]; try lia.
  pose proof (digits2_pos_bounds p) as [Hlo Hhi].
  destruct (Zdigits2_le (Z.pos p) 24 ltac:(lia) ltac:(lia)) as [_ Hd].
  cbn [Zdigits2] in Hd.
  set (d := Z.pos (digits2_pos p)) in *.
  assert (Hdpos : 0 < d) by (unfold d; lia).
  exists (24 - d).
  assert (Hrange : 2 ^ 23 <= Z.pos p * 2 ^ (24 - d) < 2 ^ 24).
  { assert (Hp : 0 < 2 ^ (24 - d)) by (apply Z.pow_pos_nonneg; lia).
    replace (2 ^ 23) with (2 ^ (d - 1) * 2 ^ (24 - d))
      by (rewrite <- Z.pow_add_r by lia; f_equal; lia).
    replace (2 ^ 24) with (2 ^ d * 2 ^ (24 - d))
      by (rewrite <- Z.pow_add_r by lia; f_equal; lia).
    split; [apply Z.mul_le_mono_nonneg_r; lia|apply Z.mul_lt_mono_pos_r; lia]. }
  split; [lia|]. split; [exact Hrange|].
  unfold F32.of_Z, binary_normalize, binary_round.
  assert (Hal : shl_align p 0 (fexp F32.prec F32.emax (Z.pos (digits2_pos p) + 0))
                = (Z.to_pos (Z.pos p * 2 ^ (24 - d)), - (24 - d))).
  { unfold shl_align, fexp, emin, F32.prec, F32.emax. fold d.
    replace (Z.max (d + 0 - 24) (3 - 128 - 24)) with (d - 24) by lia.
    destruct (d - 24 - 0) as [|x|x] eqn:Hx; try lia.
    - replace (24 - d) with 0 by lia. rewrite Z.mul_1_r. reflexivity.
    - f_equal; [|lia].
      apply Pos2Z.inj. rewrite digits2_pos_iter_xO.
      rewrite Z2Pos.id by lia. f_equal. f_equal. lia. }
  rewrite Hal.
  rewrite Z2Pos.id by lia.
  destruct (binary_round_aux_24 (Z.pos p * 2 ^ (24 - d)) (- (24 - d)) loc_Exact)
    as (f & Hf & _ & Hex); [exact Hrange|lia|].
  rewrite Hf. apply Hex. reflexivity.
Qed.

(** The quotient of two 24-bit mantissas before rounding. *)
Lemma SFdiv_core_binary_24 (ma ea mb eb : Z) :
  2 ^ 23 <= ma < 2 ^ 24 -> 2 ^ 23 <= mb < 2 ^ 24 ->
  -23 <= ea <= 0 -> -23 <= eb <= 0 ->
  SFdiv_core_binary F32.prec F32.emax ma ea mb eb =
    ((ma * 2 ^ 24) / mb, ea - eb - 24,
     new_location mb ((ma * 2 ^ 24) mod mb)).
Proof.
  intros Hma Hmb Hea Heb. unfold SFdiv_core_binary.
  rewrite (Zdigits2_eq ma 24), (Zdigits2_eq mb 24)
    by (change (24 - 1) with 23; lia).
  unfold fexp, emin, F32.prec, F32.emax.
  replace (Z.min (Z.max (24 + ea - (24 + eb) - 24) (3 - 128 - 24)) (ea - eb))
    with (ea - eb - 24) by lia.
  replace (ea - eb - (ea - eb - 24)) with 24 by lia.
  rewrite Z.shiftl_mul_pow2 by lia.
  unfold Z.div, Z.modulo.
  destruct (Z.div_eucl (ma * 2 ^ 24) mb) as [q r]. reflexivity.
Qed.

(** The rounded quotient never reaches the next integer: were [q + 1] a
    multiple of [P], the divisor would be both at least and less than a
    power of two. *)
Lemma quotient_below_next (a b S P q r : Z) :
  0 < a < 2 ^ 24 -> 0 < b -> 0 < S -> 0 < P ->
  q * (b * S) + r = a * S * P -> 0 <= r < b * S ->
  (2 ^ 23 <= q /\ b * S <= 2 * r) \/ 2 ^ 24 <= q ->
  (q + 1) mod P <> 0.
Proof.
  intros Ha Hb HS HP Heq Hr Hq Hdiv.
  apply Z.mod_divide in Hdiv; [|lia]. destruct Hdiv as [j Hj].
  set (u := a * P - q * b).
  assert (Hru : r = S * u) by (unfold u; lia).
  assert (Hu : 0 <= u < b) by nia.
  set (t := j * b - a).
  assert (Hut : u = b - P * t) by (unfold u, t; nia).
  assert (Ht : 1 <= t) by nia.
  assert (HbP : P <= b) by nia.
  assert (Hqb : q * b <= a * P) by (unfold u in Hu; lia).
  destruct Hq as [[Hq Hhalf]|Hq].
  - assert (2 * P <= b) by nia.
    assert (2 ^ 23 * b <= a * P) by nia.
    change (2 ^ 24) with (2 * 2 ^ 23) in Ha. nia.
  - assert (2 ^ 24 * b <= a * P) by nia. nia.
Qed.

Lemma div_succ_same (q P : Z) :
  0 < P -> 0 <= q -> (q + 1) mod P <> 0 -> (q + 1) / P = q / P.
Proof.
  intros HP Hq Hne.
  pose proof (Z.div_mod (q + 1) P ltac:(lia)) as H1.
  pose proof (Z.mod_pos_bound (q + 1) P HP) as H2.
  apply Z.div_unique with ((q + 1) mod P - 1); lia.
Qed.

(** The integer part of the single-precision quotient of two integers
    below [2^24] is their integer quotient. *)
Lemma div_trunc (a b : Z) :
  0 <= a < 2 ^ 24 -> 0 < b < 2 ^ 24 ->
  F32.trunc (F32.div (F32.of_Z a) (F32.of_Z b)) = Some (a / b).
Proof.
  intros Ha Hb.
  destruct (of_Z_exact b Hb) as (sb & Hsb & HB & ->).
  destruct (Z.eq_dec a 0) as [->|Hapos].
  { reflexivity. }
  destruct (of_Z_exact a ltac:(lia)) as (sa & Hsa & HA & ->).
  unfold F32.div, SFdiv. rewrite !Z2Pos.id by lia.
  rewrite SFdiv_core_binary_24 by lia.
  cbn [xorb].
  set (A := a * 2 ^ sa) in *. set (B := b * 2 ^ sb) in *.
  set (q := A * 2 ^ 24 / B). set (r := (A * 2 ^ 24) mod B).
  set (k := 24 + sa - sb).
  replace (- sa - - sb - 24) with (- k) by (unfold k; lia).
  assert (Hk : 1 <= k <= 47) by (unfold k; lia).
  assert (HP : 0 < 2 ^ k) by (apply Z.pow_pos_nonneg; lia).
  assert (HS : 0 < 2 ^ sb) by (apply Z.pow_pos_nonneg; lia).
  assert (Hqr : q * B + r = A * 2 ^ 24 /\ 0 <= r < B).
  { unfold q, r. pose proof (Z.div_mod (A * 2 ^ 24) B ltac:(lia)).
    pose proof (Z.mod_pos_bound (A * 2 ^ 24) B ltac:(lia)). lia. }
  destruct Hqr as [Hqr Hr].
  assert (HAk : A * 2 ^ 24 = a * 2 ^ sb * 2 ^ k).
  { unfold A, k. rewrite <- !Z.mul_assoc, <- !Z.pow_add_r by lia.
    f_equal. f_equal. lia. }
  assert (Hq : 2 ^ 23 <= q < 2 ^ 25).
  { split.
    - apply Z.div_le_lower_bound; [lia|].
      change (2 ^ 24) with (2 * 2 ^ 23) in *. nia.
    - apply Z.div_lt_upper_bound; [lia|].
      change (2 ^ 24) with (2 * 2 ^ 23) in *.
      change (2 ^ 25) with (4 * 2 ^ 23). nia. }
  assert (Hfloor : q / 2 ^ k = a / b).
  { unfold q. rewrite Z.div_div by lia. rewrite HAk. unfold B.
    rewrite <- Z.mul_assoc. rewrite <- (Z.mul_assoc b).
    apply Z.div_mul_cancel_r; [lia|].
    apply Z.neq_mul_0. lia. }
  assert (Hnext : (2 ^ 23 <= q /\ B <= 2 * r) \/ 2 ^ 24 <= q ->
                  (q + 1) / 2 ^ k = a / b).
  { intros Hc. rewrite <- Hfloor. apply div_succ_same; [lia|lia|].
    apply (quotient_below_next a b (2 ^ sb) (2 ^ k) q r);
      [lia|lia|lia|lia| | |exact Hc].
    - fold B. rewrite Hqr, HAk. reflexivity.
    - exact Hr. }
  destruct (Z.lt_ge_cases q (2 ^ 24)) as [Hlow|Hhigh].
  - destruct (binary_round_aux_24 q (- k) (new_location B r))
      as (f & -> & -> & _); [lia|lia|].
    f_equal. unfold scaled_floor.
    destruct (Z.leb_spec 0 (- k)); [lia|].
    rewrite Z.opp_involutive.
    pose proof (round_nearest_even_le q (new_location B r)) as Hrne.
    destruct (Z.eq_dec (round_nearest_even q (new_location B r)) (q + 1))
      as [Hup|Hsame].
    + rewrite Hup. apply Hnext. left. split; [lia|].
      eapply new_location_round_up. exact Hup.
    + replace (round_nearest_even q (new_location B r)) with q by lia.
      exact Hfloor.
  - destruct (binary_round_aux_25 q (- k) (new_location B r))
      as (f & m1 & -> & -> & Hm1 & Hodd); [lia|lia|].
    f_equal.
    assert (Hsf : forall m, scaled_floor m (- k + 1) = m / 2 ^ (k - 1)).
    { intros m. unfold scaled_floor.
      destruct (Z.leb_spec 0 (- k + 1)).
      - replace (- k + 1) with 0 by lia. replace (k - 1) with 0 by lia.
        rewrite Z.div_1_r. lia.
      - f_equal. f_equal. lia. }
    rewrite Hsf.
    assert (Hpow : 2 ^ k = 2 * 2 ^ (k - 1)).
    { rewrite <- Z.pow_succ_r by lia. f_equal. lia. }
    assert (HP1 : 0 < 2 ^ (k - 1)) by (apply Z.pow_pos_nonneg; lia).
    destruct (Z.eq_dec m1 (q / 2 + 1)) as [Hup|Hsame].
    + specialize (Hodd Hup).
      assert (Hq2 : q + 1 = 2 * m1).
      { rewrite Z.odd_spec in Hodd. destruct Hodd as [h ->].
        rewrite Hup. replace ((2 * h + 1) / 2) with h; [lia|].
        apply Z.div_unique with 1; lia. }
      rewrite <- (Hnext (or_intror Hhigh)), Hq2, Hpow.
      symmetry. apply Z.div_mul_cancel_l; lia.
    + replace m1 with (q / 2) by lia.
      rewrite <- Hfloor, Hpow, <- Z.div_div by lia. reflexivity.
Qed.

End Round.

(** ** Every operation keeps NONE cells without a tail size *)

Section Preservation.

Variable rand_seq : nat -> Z.
Hypothesis rand_range : forall n, 0 <= rand_seq n <= RAND_MAX.

Lemma add_drop_loop_keeps (n : nat) : forall mat i row col tsize,
  wf mat -> 0 <= col < cols mat -> 0 <= i -> tsize <= TSIZE_MAX ->
  i + Z.of_nat n = tsize + 1 ->
  exists mat', add_drop_loop n mat i row col tsize = Some mat' /\
               keeps_ok mat mat'.
Proof.
  induction n as [|n IH]; intros mat i row col tsize Hwf Hcol Hi Hts Hn.
  - exists mat. split; [reflexivity|apply keeps_ok_refl].
  - rewrite add_drop_loop_S.
    destruct (Z.ltb_spec row 0) as [Hneg|Hpos].
    { exists mat. split; [reflexivity|apply keeps_ok_refl]. }
    destruct (Z.leb_spec (rows mat) row) as [Hhigh|Hlow].
    { apply IH; [exact Hwf|exact Hcol|lia|exact Hts|lia]. }
    assert (Hin : in_grid mat row col) by (unfold in_grid; lia).
    destruct (mat_get_value_in _ _ _ Hwf Hin) as [_ [v Hv]].
    destruct (Z.eqb_spec i 0) as [->|Hne].
    + rewrite (mat_put_cell_drop_in _ _ _ _ v) by assumption.
      cbn [mbind option_bind].
      set (mat1 := set_drop_count _ (put mat row col (drop_cell tsize v))).
      assert (Hok1 : keeps_ok mat mat1).
      { apply (keeps_ok_put mat row col v); [exact Hv|].
        intros _. apply cell_ok_drop_cell. }
      destruct (IH mat1 (0 + 1) (row - 1) col tsize) as (mat' & Hrun & Hok);
        [eapply keeps_ok_wf; eassumption|exact Hcol|lia|exact Hts|lia|].
      exists mat'. split; [exact Hrun|].
      eapply keeps_ok_trans; eassumption.
    + destruct (tail_color_range tsize i) as (c & Hc & _); [lia|exact Hts|].
      rewrite (mat_put_cell_tail_in _ _ _ _ _ c v) by assumption.
      cbn [mbind option_bind].
      assert (Hok1 : keeps_ok mat (put mat row col (tail_cell c v))).
      { apply (keeps_ok_put mat row col v); [exact Hv|].
        intros _. apply cell_ok_tail_cell. }
      destruct (IH (put mat row col (tail_cell c v)) (i + 1) (row - 1) col tsize)
        as (mat' & Hrun & Hok);
        [eapply keeps_ok_wf; eassumption|exact Hcol|lia|exact Hts|lia|].
      exists mat'. split; [exact Hrun|].
      eapply keeps_ok_trans; eassumption.
Qed.

Lemma mat_add_drop_keeps mat row col tsize :
  wf mat -> 0 <= col < cols mat -> 0 <= tsize <= TSIZE_MAX ->
  exists mat', mat_add_drop mat row col tsize = Some mat' /\ keeps_ok mat mat'.
Proof.
  intros Hwf Hcol Hts. unfold mat_add_drop.
  apply add_drop_loop_keeps; [exact Hwf|exact Hcol|lia|lia|lia].
Qed.

Lemma rand_int_range (min max : Z) (k : nat) :
  min <= max ->
  exists x, rand_int rand_seq min max k = Some (x, S k) /\ min <= x <= max.
Proof.
  intros Hle. unfold rand_int, rand.
  destruct (c_rem_rand rand_seq rand_range k (max + 1 - min)) as [-> Hb]; [lia|].
  cbn [mbind option_bind]. eexists. split; [reflexivity|lia].
Qed.

Lemma spawn_loop_keeps (n : nat) : forall mat k,
  wf mat ->
  exists mat', spawn_loop rand_seq n mat k = Some (mat', (k + 2 * n)%nat) /\
               keeps_ok mat mat'.
Proof.
  induction n as [|n IH]; intros mat k Hwf.
  - exists mat. cbn [spawn_loop]. rewrite Nat.add_0_r.
    split; [reflexivity|apply keeps_ok_refl].
  - pose proof Hwf as (Hrows & Hcols & _). cbn [spawn_loop].
    destruct (rand_int_range 0 (cols mat - 1) k) as (col & -> & Hcol); [lia|].
    cbn [mbind option_bind].
    destruct (rand_int_range TSIZE_MIN TSIZE_MAX (S k)) as (ts & -> & Hts);
      [unfold TSIZE_MIN, TSIZE_MAX; lia|].
    cbn [mbind option_bind].
    destruct (mat_add_drop_keeps mat 0 col ts) as (mat1 & -> & Hok1);
      [exact Hwf|lia|unfold TSIZE_MIN in Hts; lia|].
    cbn [mbind option_bind].
    destruct (IH mat1 (S (S k))) as (mat' & Hrun & Hok);
      [eapply keeps_ok_wf; eassumption|].
    exists mat'. split; [rewrite Hrun; f_equal; f_equal; lia|].
    eapply keeps_ok_trans; eassumption.
Qed.

Lemma rain_loop_keeps (n : nat) : forall mat k,
  wf mat ->
  exists mat', rain_loop rand_seq n mat k = Some (mat', (k + 3 * n)%nat) /\
               keeps_ok mat mat'.
Proof.
  induction n as [|n IH]; intros mat k Hwf.
  - exists mat. cbn [rain_loop]. rewrite Nat.add_0_r.
    split; [reflexivity|apply keeps_ok_refl].
  - pose proof Hwf as (Hrows & Hcols & _). cbn [rain_loop].
    destruct (rand_int_range 0 (cols mat - 1) k) as (col & -> & Hcol); [lia|].
    cbn [mbind option_bind].
    destruct (rand_int_range 0 (rows mat - 1) (S k)) as (row & -> & Hrow); [lia|].
    cbn [mbind option_bind].
    destruct (rand_int_range TSIZE_MIN TSIZE_MAX (S (S k))) as (ts & -> & Hts);
      [unfold TSIZE_MIN, TSIZE_MAX; lia|].
    cbn [mbind option_bind].
    destruct (mat_add_drop_keeps mat row col ts) as (mat1 & -> & Hok1);
      [exact Hwf|lia|unfold TSIZE_MIN in Hts; lia|].
    cbn [mbind option_bind].
    destruct (IH mat1 (S (S (S k)))) as (mat' & Hrun & Hok);
      [eapply keeps_ok_wf; eassumption|].
    exists mat'. split; [rewrite Hrun; f_equal; f_equal; lia|].
    eapply keeps_ok_trans; eassumption.
Qed.

Lemma ok_step_same_state_tsize v v' : same_state_tsize v v' -> ok_step v v'.
Proof. intros [Hs Ht] Hok. unfold cell_ok in *. rewrite Hs, Ht. exact Hok. Qed.

Lemma mat_update_keeps mat k mat' k' :
  wf mat -> mat_update rand_seq mat k = Some (mat', k') -> keeps_ok mat mat'.
Proof.
  intros Hwf Hrun. unfold mat_update, mat_update_spawn in Hrun.
  destruct (drops_to_add mat) as [to_add|]; [|discriminate Hrun].
  cbn [mbind option_bind] in Hrun.
  destruct (spawn_loop_keeps (Z.to_nat (to_add + 1)) mat k Hwf)
    as (mat1 & Hspawn & Hok1).
  rewrite Hspawn in Hrun. cbn [mbind option_bind] in Hrun.
  assert (Hwf1 : wf mat1) by (eapply keeps_ok_wf; eassumption).
  destruct (advance_loop_spec (Z.to_nat (cols mat1)) mat1 0 Hwf1)
    as (mat2 & Hadv & _ & _ & _ & Hok2 & _);
    [lia|destruct Hwf1 as (_ & ? & _); lia|].
  unfold mat_update_advance in Hrun. rewrite Hadv in Hrun.
  cbn [mbind option_bind] in Hrun. injection Hrun as <- <-.
  eapply keeps_ok_trans; eassumption.
Qed.

Lemma mat_update_advance_keeps mat mat' :
  wf mat -> mat_update_advance mat = Some mat' -> keeps_ok mat mat'.
Proof.
  intros Hwf Hrun.
  destruct (advance_loop_spec (Z.to_nat (cols mat)) mat 0 Hwf)
    as (m & Hadv & _ & _ & _ & Hok & _);
    [lia|destruct Hwf as (_ & ? & _); lia|].
  unfold mat_update_advance in Hrun. rewrite Hadv in Hrun.
  injection Hrun as <-. exact Hok.
Qed.

(** With a defined loop bound a tick returns. *)
Lemma mat_update_total mat k :
  wf mat -> is_Some (drops_to_add mat) ->
  is_Some (mat_update rand_seq mat k).
Proof.
  intros Hwf [to_add Hadd]. unfold mat_update, mat_update_spawn.
  rewrite Hadd. cbn [mbind option_bind].
  destruct (spawn_loop_keeps (Z.to_nat (to_add + 1)) mat k Hwf)
    as (mat1 & -> & Hok1).
  cbn [mbind option_bind].
  assert (Hwf1 : wf mat1) by (eapply keeps_ok_wf; eassumption).
  destruct (advance_loop_spec (Z.to_nat (cols mat1)) mat1 0 Hwf1)
    as (mat2 & Hadv & _);
    [lia|destruct Hwf1 as (_ & ? & _); lia|].
  unfold mat_update_advance. rewrite Hadv. cbn [mbind option_bind]. eauto.
Qed.

Lemma mat_rain_keeps mat k mat' k' :
  wf mat -> mat_rain rand_seq mat k = Some (mat', k') -> keeps_ok mat mat'.
Proof.
  intros Hwf Hrun. unfold mat_rain in Hrun.
  destruct (F32.to_int _) as [num|]; [|discriminate Hrun].
  cbn [mbind option_bind] in Hrun.
  destruct (rain_loop_keeps (Z.to_nat num) mat k Hwf) as (mat1 & Hrain & Hok).
  rewrite Hrain in Hrun. injection Hrun as <- <-. exact Hok.
Qed.

Lemma mat_glitch_keeps mat fraction k mat' k' :
  wf mat -> mat_glitch rand_seq mat fraction k = Some (mat', k') ->
  keeps_ok mat mat'.
Proof.
  intros Hwf Hrun. unfold mat_glitch in Hrun.
  destruct (glitch_num mat fraction) as [num|]; [|discriminate Hrun].
  cbn [mbind option_bind] in Hrun.
  destruct (glitch_loop_spec rand_seq rand_range (Z.to_nat num) mat k Hwf)
    as (mat1 & Hloop & Hr & Hc & _ & _ & Hall & _).
  rewrite Hloop in Hrun. injection Hrun as <- <-.
  split; [exact Hr|]. split; [exact Hc|].
  eapply Forall2_impl; [exact Hall|]. apply ok_step_same_state_tsize.
Qed.

Lemma mat_fill_grid_ok mat k mat' k' :
  wf mat -> mat_fill rand_seq mat k = Some (mat', k') -> wf mat' /\ grid_ok mat'.
Proof.
  intros Hwf Hrun.
  destruct (mat_fill_spec rand_seq mat k Hwf)
    as (m & Hrun' & Hr & Hc & _ & _ & Hlen & Hfill).
  rewrite Hrun' in Hrun. injection Hrun as <- _.
  split.
  - destruct Hwf as (? & ? & ?). unfold wf. rewrite Hr, Hc, Hlen. auto.
  - unfold grid_ok, cells. rewrite Hr, Hc. apply Forall_lookup.
    intros i w Hw. apply lookup_take_Some in Hw as [Hw Hi].
    rewrite Hfill in Hw.
    destruct (decide (0 <= i < 0 + Z.to_nat (rows mat * cols mat))%nat); [|lia].
    destruct (data mat !! i) as [v|]; [|discriminate Hw].
    injection Hw as <-. apply cell_ok_fill_cell.
Qed.

Lemma reachable_wf_ok mat : reachable rand_seq mat -> wf mat /\ grid_ok mat.
Proof.
  induction 1 as [mat k mat' k' Hwf Hrun
                 |mat k mat' k' _ [Hwf Hok] Hrun
                 |mat fraction k mat' k' _ [Hwf Hok] Hrun
                 |mat k mat' k' _ [Hwf Hok] Hrun
                 |mat mat' _ [Hwf Hok] Hrun
                 |mat row col tsize mat' _ [Hwf Hok] Hcol Hts Hrun].
  - eapply mat_fill_grid_ok; eassumption.
  - pose proof (mat_rain_keeps _ _ _ _ Hwf Hrun) as Hk.
    split; [eapply keeps_ok_wf|eapply keeps_ok_grid_ok]; eassumption.
  - pose proof (mat_glitch_keeps _ _ _ _ _ Hwf Hrun) as Hk.
    split; [eapply keeps_ok_wf|eapply keeps_ok_grid_ok]; eassumption.
  - pose proof (mat_update_keeps _ _ _ _ Hwf Hrun) as Hk.
    split; [eapply keeps_ok_wf|eapply keeps_ok_grid_ok]; eassumption.
  - pose proof (mat_update_advance_keeps _ _ Hwf Hrun) as Hk.
    split; [eapply keeps_ok_wf|eapply keeps_ok_grid_ok]; eassumption.
  - destruct (mat_add_drop_keeps mat row col tsize Hwf Hcol Hts)
      as (m & Hrun' & Hk).
    rewrite Hrun' in Hrun. injection Hrun as <-.
    split; [eapply keeps_ok_wf|eapply keeps_ok_grid_ok]; eassumption.
Qed.

End Preservation.

(** ** The spawn phase *)

Section Spawn.

Variable rand_seq : nat -> Z.
Hypothesis rand_range : forall n, 0 <= rand_seq n <= RAND_MAX.

(** A drop placed in the top row: the cell becomes a DROP whatever it held
    and [drop_count] grows by one; the tail lies above the grid. *)
Lemma mat_add_drop_top (mat : matrix_s) (col tsize v : Z) :
  wf mat -> 0 <= col < cols mat -> 0 <= tsize ->
  data mat !! idx mat 0 col = Some v ->
  mat_add_drop mat 0 col tsize =
    Some (set_drop_count (size_t (drop_count mat + 1))
                         (put mat 0 col (drop_cell tsize v))).
Proof.
  intros Hwf Hcol Hts Hv. pose proof Hwf as (Hrows & _ & _).
  unfold mat_add_drop.
  replace (Z.to_nat (tsize + 1)) with (S (Z.to_nat tsize)) by lia.
  rewrite add_drop_loop_S.
  change (0 <? 0) with false. cbv iota.
  destruct (Z.leb_spec (rows mat) 0); [lia|].
  change (0 =? 0) with true. cbv iota.
  rewrite (mat_put_cell_drop_in _ _ _ _ v);
    [|exact Hwf|unfold in_grid; lia|exact Hv].
  cbn [mbind option_bind].
  destruct (Z.to_nat tsize) as [|n]; [reflexivity|].
  rewrite add_drop_loop_S. change (0 - 1 <? 0) with true. reflexivity.
Qed.

Lemma size_t_add_idemp (a b : Z) : size_t (size_t a + b) = size_t (a + b).
Proof. unfold size_t. apply Zplus_mod_idemp_l. Qed.

Lemma spawn_loop_spec (n : nat) : forall mat k,
  wf mat ->
  exists mat',
    spawn_loop rand_seq n mat k = Some (mat', (k + 2 * n)%nat) /\
    rows mat' = rows mat /\ cols mat' = cols mat /\
    drop_ratio mat' = drop_ratio mat /\
    length (data mat') = length (data mat) /\
    size_t (drop_count mat') = size_t (drop_count mat + Z.of_nat n) /\
    ((0 < n)%nat -> drop_count mat' = size_t (drop_count mat')) /\
    (forall i : nat, (Z.to_nat (cols mat) <= i)%nat ->
       data mat' !! i = data mat !! i).
Proof.
  induction n as [|n IH]; intros mat k Hwf.
  - exists mat. cbn [spawn_loop]. rewrite Nat.add_0_r.
    split; [reflexivity|]. repeat (split; [reflexivity|]).
    split; [f_equal; lia|]. split; [lia|reflexivity].
  - pose proof Hwf as (Hrows & Hcols & _). cbn [spawn_loop].
    destruct (rand_int_range rand_seq rand_range 0 (cols mat - 1) k)
      as (col & -> & Hcol); [lia|].
    cbn [mbind option_bind].
    destruct (rand_int_range rand_seq rand_range TSIZE_MIN TSIZE_MAX (S k))
      as (ts & -> & Hts); [unfold TSIZE_MIN, TSIZE_MAX; lia|].
    cbn [mbind option_bind].
    assert (Hin : in_grid mat 0 col) by (unfold in_grid; lia).
    destruct (mat_get_value_in _ _ _ Hwf Hin) as [_ [v Hv]].
    rewrite (mat_add_drop_top mat col ts v);
      [|exact Hwf|lia|unfold TSIZE_MIN in Hts; lia|exact Hv].
    cbn [mbind option_bind].
    set (mat1 := set_drop_count _ (put mat 0 col (drop_cell ts v))).
    assert (Hwf1 : wf mat1) by (apply wf_put, Hwf).
    destruct (IH mat1 (S (S k)) Hwf1)
      as (mat' & Hrun & Hr & Hc & Hdr & Hlen & Hdc & Hred & Hframe).
    exists mat'. split; [rewrite Hrun; f_equal; f_equal; lia|].
    split; [exact Hr|]. split; [exact Hc|]. split; [exact Hdr|].
    split.
    { rewrite Hlen. cbn [data mat1 set_drop_count put set_data].
      apply length_insert. }
    split.
    { rewrite Hdc. cbn [drop_count mat1 set_drop_count].
      rewrite size_t_add_idemp. f_equal. lia. }
    split.
    { intros _. destruct n as [|n'].
      - cbn [spawn_loop] in Hrun. injection Hrun as <- _.
        cbn [drop_count mat1 set_drop_count]. unfold size_t.
        symmetry. apply Z.mod_mod. lia.
      - apply Hred. lia. }
    intros i Hi. rewrite Hframe by exact Hi.
    cbn [data mat1 set_drop_count]. apply lookup_put_ne.
    unfold idx, mat_idx. lia.
Qed.

End Spawn.

(** C2 (as amended): the target is the single-precision product
    [rows * cols * drop_ratio] truncated to an integer (not rounded).  When
    [drop_count] does not exceed the target and fewer than [2^24] drops are
    missing, the spawn phase of a tick attempts exactly
    [floor ((target - drop_count) / rows) + 1] drops: it takes two values of
    [rand()] per attempt, adds one to [drop_count] per attempt and writes to
    the top row only. *)
Theorem spawn_attempts (rand_seq : nat -> Z) (mat : matrix_s) (k : nat)
    (target : Z) :
  (forall n, 0 <= rand_seq n <= RAND_MAX) ->
  wf mat ->
  drops_desired mat = Some target ->
  0 <= drop_count mat <= target ->
  target - drop_count mat < 2 ^ 24 ->
  exists mat',
    mat_update_spawn rand_seq mat k
      = Some (mat', (k + 2 * Z.to_nat ((target - drop_count mat) / rows mat + 1))%nat) /\
    drop_count mat'
      = size_t (drop_count mat + ((target - drop_count mat) / rows mat + 1)) /\
    rows mat' = rows mat /\ cols mat' = cols mat /\
    length (data mat') = length (data mat) /\
    forall i : nat, (Z.to_nat (cols mat) <= i)%nat ->
      data mat' !! i = data mat !! i.
Proof.
  intros Hrand Hwf Htarget Hdc Hsmall.
  pose proof Hwf as (Hrows & Hcols & _).
  set (missing := target - drop_count mat) in *.
  assert (Hq : 0 <= missing / rows mat) by (apply Z.div_pos; lia).
  assert (Hqle : missing / rows mat <= missing).
  { apply Z.div_le_upper_bound; [lia|]. nia. }
  assert (Hadd : drops_to_add mat = Some (missing / rows mat)).
  { unfold drops_to_add, drops_missing. rewrite Htarget.
    cbn [mbind option_bind]. fold missing.
    unfold size_t. rewrite Z.mod_small by lia.
    unfold F32.to_size_t. rewrite div_trunc;
      [|lia|change (2 ^ 24) with (2 ^ 16 * 2 ^ 8); lia].
    cbn [mbind option_bind]. unfold F32.in_range.
    destruct (Z.leb_spec 0 (missing / rows mat)); [|lia].
    destruct (Z.leb_spec (missing / rows mat) (2 ^ 64 - 1)); [reflexivity|lia]. }
  destruct (spawn_loop_spec rand_seq Hrand (Z.to_nat (missing / rows mat + 1)) mat k Hwf)
    as (mat' & Hrun & Hr & Hc & _ & Hlen & Hcount & Hred & Hframe).
  exists mat'. split.
  { unfold mat_update_spawn. rewrite Hadd. exact Hrun. }
  split.
  { rewrite Hred by lia. rewrite Hcount. f_equal. lia. }
  repeat (split; [assumption|]). exact Hframe.
Qed.

Lemma spawn_attempts_witness :
  exists mat',
    mat_update_spawn (fun n => (5 + 16 * Z.of_nat n) mod 1024)
                     (Matrix (replicate 48 65) 16 3 0 (F32.make 1 (-4))) 0
      = Some (mat', 4%nat) /\
    drop_count mat' = 2.
Proof.
  destruct (spawn_attempts (fun n => (5 + 16 * Z.of_nat n) mod 1024)
              (Matrix (replicate 48 65) 16 3 0 (F32.make 1 (-4))) 0 3)
    as (mat' & Hrun & Hdc & _).
  - intros n. cbv beta. unfold RAND_MAX.
    pose proof (Z.mod_pos_bound (5 + 16 * Z.of_nat n) 1024 ltac:(lia)). lia.
  - unfold wf. cbn [rows cols data]. rewrite length_replicate. lia.
  - vm_compute. reflexivity.
  - cbn [drop_count]. lia.
  - cbn [drop_count]. lia.
  - exists mat'. split; [exact Hrun|exact Hdc].
Defined.

(** C2 as stated fails: on a 24x80 grid with drop ratio [101 * 2^-13] the
    product is 23.67..., which rounds to 24 and truncates to 23.  Rounding
    gives [floor (24 / 24) + 1 = 2] attempts, four values of [rand()]; the
    code makes one attempt. *)
Lemma spawn_target_is_truncated :
  ~ (forall (rand_seq : nat -> Z) (mat : matrix_s) (k : nat) (target : Z),
       (forall n, 0 <= rand_seq n <= RAND_MAX) ->
       wf mat ->
       spec_target mat = Some target ->
       drop_count mat < target ->
       exists mat',
         mat_update_spawn rand_seq mat k
           = Some (mat', (k + 2 * Z.to_nat ((target - drop_count mat) / rows mat + 1))%nat)).
Proof.
  intros H.
  destruct (H (fun n => Z.of_nat n mod 97)
              (Matrix (replicate 1920 65) 80 24 0 (F32.make 101 (-13))) 0%nat 24)
    as (mat' & Hrun).
  - intros n. cbv beta. unfold RAND_MAX.
    pose proof (Z.mod_pos_bound (Z.of_nat n) 97 ltac:(lia)). lia.
  - unfold wf. cbn [rows cols data]. rewrite length_replicate. lia.
  - vm_compute. reflexivity.
  - cbn [drop_count]. lia.
  - vm_compute in Hrun. discriminate Hrun.
Qed.

(** When [drop_count] exceeds the target the subtraction wraps around in
    [size_t]: on a 24x80 grid with ratio 0.01 (target 19) and 20 counted drops
    the spawn loop is set to run more than [7 * 10^17] times. *)
Lemma spawn_deficit_wraps :
  drops_desired (Matrix (replicate 1920 65) 80 24 20 (F32.make 10737418 (-30)))
    = Some 19 /\
  drops_missing (Matrix (replicate 1920 65) 80 24 20 (F32.make 10737418 (-30)))
    = Some (2 ^ 64 - 1) /\
  drops_to_add (Matrix (replicate 1920 65) 80 24 20 (F32.make 10737418 (-30)))
    = Some 768614359311056896.
Proof. vm_compute. auto. Qed.

(** Beyond [2^24] missing drops the conversion to [float] rounds: with 4097
    rows and [16781311 = 4096 * 4097 - 1] drops missing the loop bound is 4096,
    one more than the integer quotient. *)
Lemma spawn_quotient_rounds_above_2_24 :
  drops_missing (Matrix [] 65535 4097 1 (F32.make 8388736 (-27)))
    = Some 16781311 /\
  drops_to_add (Matrix [] 65535 4097 1 (F32.make 8388736 (-27))) = Some 4096 /\
  16781311 / 4097 = 4095.
Proof. vm_compute. auto. Qed.

(** A drop placed on a DROP cell of the top row is counted although the grid
    holds no more DROP cells than before. *)
Lemma add_drop_on_drop_overcounts (mat : matrix_s) (col tsize : Z) :
  wf mat -> 0 <= col < cols mat -> 0 <= tsize ->
  mat_get_state mat 0 col = Some STATE_DROP ->
  exists mat',
    mat_add_drop mat 0 col tsize = Some mat' /\
    drop_count mat' = size_t (drop_count mat + 1) /\
    count_drops mat' = count_drops mat.
Proof.
  intros Hwf Hcol Hts Hdrop. pose proof Hwf as (Hrows & Hcols & _).
  assert (Hin : in_grid mat 0 col) by (unfold in_grid; lia).
  destruct (mat_get_value_in _ _ _ Hwf Hin) as [_ [v Hv]].
  rewrite (mat_add_drop_top mat col tsize v) by assumption.
  eexists. split; [reflexivity|]. split; [reflexivity|].
  set (mat' := set_drop_count _ (put mat 0 col (drop_cell tsize v))).
  assert (Hwf' : wf mat') by (apply wf_put, Hwf).
  unfold count_drops, row_drops. cbn [rows cols mat' set_drop_count put set_data].
  apply sum_range_ext. intros r Hr. apply sum_range_ext. intros c Hc.
  unfold drop_at, is_drop.
  assert (Hrc : in_grid mat r c) by (unfold in_grid; lia).
  destruct (mat_get_value_in _ _ _ Hwf Hrc) as [_ [w Hw]].
  destruct (decide (idx mat r c = idx mat 0 col)) as [Heq|Hne].
  - destruct (idx_inj _ _ _ _ _ Hrc Hin Heq) as [-> ->].
    rewrite Hdrop.
    rewrite (mat_get_state_in mat' 0 col (drop_cell tsize v));
      [rewrite state_drop_cell; reflexivity|exact Hwf'|exact Hin|].
    change (data mat' !! idx mat' 0 col)
      with (data (put mat 0 col (drop_cell tsize v)) !! idx mat 0 col).
    apply lookup_put_eq; assumption.
  - rewrite (mat_get_state_in mat r c w) by assumption.
    rewrite (mat_get_state_in mat' r c w); [reflexivity|exact Hwf'|exact Hrc|].
    change (idx mat' r c) with (idx mat r c).
    cbn [data mat' set_drop_count]. rewrite lookup_put_ne by exact Hne. exact Hw.
Qed.

(** C1: the code breaks the invariant.  On a 3x16 grid of NONE cells with
    [drop_count = 0] and drop ratio 1/16 the spawn phase makes two attempts;
    when both draw column 5 the tick ends with a single DROP cell and
    [drop_count = 2]. *)
Theorem double_spawn_overcounts :
  count_drops (Matrix (replicate 48 65) 16 3 0 (F32.make 1 (-4))) = 0 /\
  exists mat',
    mat_update (fun n => (5 + 16 * Z.of_nat n) mod 1024)
               (Matrix (replicate 48 65) 16 3 0 (F32.make 1 (-4))) 0
      = Some (mat', 4%nat) /\
    drop_count mat' = 2 /\ count_drops mat' = 1.
Proof.
  split; [vm_compute; reflexivity|].
  eexists. split; [vm_compute; reflexivity|].
  split; vm_compute; reflexivity.
Qed.

Lemma mat_get_tsize_in (mat : matrix_s) (row col v : Z) :
  wf mat -> in_grid mat row col -> data mat !! idx mat row col = Some v ->
  mat_get_tsize mat row col = Some (val_get_tsize v).
Proof.
  intros Hwf Hin Hv. unfold mat_get_tsize.
  destruct (mat_get_value_in _ _ _ Hwf Hin) as [-> _]. rewrite Hv. reflexivity.
Qed.

(** C8: in every reachable matrix a cell whose state is NONE has tail size 0.
    The reachable matrices are those obtained from a filled matrix by rain,
    glitch, update, advance and drop placement, so each of these operations
    preserves the invariant; and setting the state of a cell to NONE resets
    its tail size to 0. *)
Theorem none_cells_have_no_tsize (rand_seq : nat -> Z) (mat : matrix_s) :
  (forall n, 0 <= rand_seq n <= RAND_MAX) ->
  reachable rand_seq mat ->
  (forall row col, in_grid mat row col ->
     mat_get_state mat row col = Some STATE_NONE ->
     mat_get_tsize mat row col = Some 0) /\
  (forall row col, in_grid mat row col ->
     exists mat',
       mat_set_state mat row col STATE_NONE = Some mat' /\
       mat_get_state mat' row col = Some STATE_NONE /\
       mat_get_tsize mat' row col = Some 0).
Proof.
  intros Hrand Hreach.
  destruct (reachable_wf_ok rand_seq Hrand mat Hreach) as [Hwf Hok].
  split.
  - intros row col Hin Hstate.
    destruct (mat_get_value_in _ _ _ Hwf Hin) as [_ [v Hv]].
    destruct (idx_lt _ _ _ Hwf Hin) as [Hi _].
    rewrite (mat_get_state_in _ _ _ v) in Hstate by assumption.
    rewrite (mat_get_tsize_in _ _ _ v) by assumption.
    injection Hstate as Hstate. f_equal.
    unfold grid_ok, cells in Hok.
    eapply Forall_lookup_1 in Hok; [apply Hok, Hstate|].
    apply lookup_take_Some. split; [exact Hv|]. unfold idx. lia.
  - intros row col Hin.
    destruct (mat_get_value_in _ _ _ Hwf Hin) as [_ [v Hv]].
    exists (put mat row col (cell_set_state STATE_NONE v)).
    split; [apply mat_set_state_in; assumption|].
    assert (Hv' : data (put mat row col (cell_set_state STATE_NONE v))
                    !! idx (put mat row col (cell_set_state STATE_NONE v)) row col
                  = Some (cell_set_state STATE_NONE v)).
    { rewrite idx_put. apply lookup_put_eq; assumption. }
    rewrite (mat_get_state_in _ _ _ _ (wf_put _ _ _ _ Hwf) Hin Hv').
    rewrite (mat_get_tsize_in _ _ _ _ (wf_put _ _ _ _ Hwf) Hin Hv').
    rewrite state_cell_set_state, tsize_cell_set_state. split; reflexivity.
Qed.

Lemma none_cells_have_no_tsize_witness :
  mat_get_tsize (Matrix [32; 32; 32; 32] 2 2 0 (F32.make 1 (-4))) 1 1 = Some 0.
Proof.
  destruct (none_cells_have_no_tsize (fun n => Z.of_nat n mod 97)
              (Matrix [32; 32; 32; 32] 2 2 0 (F32.make 1 (-4)))) as [Hinv _].
  - intros n. cbv beta. unfold RAND_MAX.
    pose proof (Z.mod_pos_bound (Z.of_nat n) 97 ltac:(lia)). lia.
  - apply (reach_fill _ (Matrix [0; 1023; 65535; 7] 2 2 0 (F32.make 1 (-4)))
                      0%nat _ 4%nat).
    + unfold wf. cbn [rows cols data length]. lia.
    + vm_compute. reflexivity.
  - apply Hinv; [unfold in_grid; cbn [rows cols]; lia|reflexivity].
Defined.

(** * Further properties of the code *)

(** ** The cell word and its fields *)

Lemma val_new_of_fields (v : Z) :
  val_new (val_get_ascii v) (val_get_state v) (val_get_tsize v) = uint16 v.
Proof.
  rewrite val_new_fields, val_get_ascii_arith, val_get_state_arith,
    val_get_tsize_arith.
  unfold uint16. change (2 ^ 16) with 65536.
  Z.div_mod_to_equations. lia.
Qed.

(** X1: the three fields of a cell word determine it.  Packing the character,
    the state and the tail size read from any word gives that word back
    (reduced to sixteen bits), so two words with the same three fields are the
    same word: the layout has no unused bit. *)
Theorem val_fields_determine_word (v w : Z) :
  val_new (val_get_ascii v) (val_get_state v) (val_get_tsize v) = uint16 v /\
  (val_get_ascii v = val_get_ascii w -> val_get_state v = val_get_state w ->
   val_get_tsize v = val_get_tsize w -> uint16 v = uint16 w).
Proof.
  split; [apply val_new_of_fields|].
  intros Ha Hs Ht.
  rewrite <- (val_new_of_fields v), <- (val_new_of_fields w). congruence.
Qed.

(** ** Reading and writing cells of the grid *)

Section Cells.

Implicit Types (mat : matrix_s) (row col v : Z).

Lemma mat_get_ascii_in mat row col v :
  wf mat -> in_grid mat row col -> data mat !! idx mat row col = Some v ->
  mat_get_ascii mat row col = Some (val_get_ascii v).
Proof.
  intros Hwf Hin Hv. unfold mat_get_ascii.
  destruct (mat_get_value_in _ _ _ Hwf Hin) as [-> _]. rewrite Hv. reflexivity.
Qed.

Lemma in_grid_put mat row col w r c :
  in_grid (put mat row col w) r c <-> in_grid mat r c.
Proof. reflexivity. Qed.

(** Reading a cell of the grid after one cell has been replaced. *)
Lemma mat_get_value_put mat row col w r c :
  wf mat -> in_grid mat row col -> in_grid mat r c ->
  mat_get_value (put mat row col w) r c =
    if decide (r = row /\ c = col) then Some w else mat_get_value mat r c.
Proof.
  intros Hwf Hin Hrc.
  destruct (mat_get_value_in _ _ _ (wf_put _ row col w Hwf) Hrc) as [-> _].
  rewrite idx_put.
  destruct (decide (r = row /\ c = col)) as [[-> ->]|Hne].
  - apply lookup_put_eq; assumption.
  - destruct (mat_get_value_in _ _ _ Hwf Hrc) as [-> _].
    apply lookup_put_ne. intros Heq.
    apply idx_inj in Heq; [tauto|assumption|assumption].
Qed.

End Cells.

(** X2: inside the grid [mat_set_value] followed by [mat_get_value] on
    the same cell returns the value written, reduced to sixteen bits; every
    other cell of the grid reads as before, and the shape, [drop_count] and
    the size of the buffer are unchanged. *)
Theorem mat_value_roundtrip (mat : matrix_s) (row col value : Z) :
  wf mat -> in_grid mat row col ->
  exists mat',
    mat_set_value mat row col value = Some mat' /\
    rows mat' = rows mat /\ cols mat' = cols mat /\
    drop_count mat' = drop_count mat /\ drop_ratio mat' = drop_ratio mat /\
    length (data mat') = length (data mat) /\
    mat_get_value mat' row col = Some (uint16 value) /\
    forall r c, in_grid mat r c -> r <> row \/ c <> col ->
      mat_get_value mat' r c = mat_get_value mat r c.
Proof.
  intros Hwf Hin.
  exists (put mat row col (uint16 value)).
  split; [apply mat_set_value_in; assumption|].
  repeat (split; [reflexivity|]).
  split; [cbn [put set_data data]; apply length_insert|].
  split.
  - rewrite mat_get_value_put by assumption.
    rewrite decide_True by auto. reflexivity.
  - intros r c Hrc Hne. rewrite mat_get_value_put by assumption.
    rewrite decide_False by tauto. reflexivity.
Qed.

Lemma mat_value_roundtrip_witness :
  exists mat',
    mat_set_value (Matrix [65; 322; 67; 68] 2 2 0 (F32.make 1 (-4))) 1 0 70000
      = Some mat' /\
    mat_get_value mat' 1 0 = Some 4464 /\
    mat_get_value mat' 0 1 = Some 322.
Proof.
  destruct (mat_value_roundtrip (Matrix [65; 322; 67; 68] 2 2 0 (F32.make 1 (-4)))
              1 0 70000)
    as (mat' & Hset & _ & _ & _ & _ & _ & Hget & Hother).
  - unfold wf. cbn [rows cols data length]. lia.
  - unfold in_grid. cbn [rows cols]. lia.
  - exists mat'. split; [exact Hset|]. split; [exact Hget|].
    rewrite Hother; [reflexivity|unfold in_grid; cbn [rows cols]; lia|lia].
Defined.

(** ** The field setters through the accessors *)

Section SetterFields.

Implicit Types (mat : matrix_s) (row col v : Z).

(** The three fields of a cell of the grid, read through the accessors, after
    the word of one cell has been replaced by a function of its old word. *)
Lemma fields_put mat row col v w r c :
  wf mat -> in_grid mat row col -> in_grid mat r c ->
  data mat !! idx mat row col = Some v ->
  (mat_get_ascii (put mat row col w) r c =
     if decide (r = row /\ c = col) then Some (val_get_ascii w)
     else mat_get_ascii mat r c) /\
  (mat_get_state (put mat row col w) r c =
     if decide (r = row /\ c = col) then Some (val_get_state w)
     else mat_get_state mat r c) /\
  (mat_get_tsize (put mat row col w) r c =
     if decide (r = row /\ c = col) then Some (val_get_tsize w)
     else mat_get_tsize mat r c).
Proof.
  intros Hwf Hin Hrc Hv.
  unfold mat_get_ascii, mat_get_state, mat_get_tsize.
  rewrite mat_get_value_put by assumption.
  destruct (decide (r = row /\ c = col)); repeat split; reflexivity.
Qed.

End SetterFields.

(** X3: [mat_set_state] on a cell of the grid.  The state read back is
    the two low bits of the argument, the character is kept, and the tail size
    is reset to 0 when the argument (as a [uint8_t]) is [STATE_NONE] and kept
    otherwise; no other cell changes. *)
Theorem mat_set_state_fields (mat : matrix_s) (row col s : Z) :
  wf mat -> in_grid mat row col ->
  exists mat',
    mat_set_state mat row col s = Some mat' /\
    rows mat' = rows mat /\ cols mat' = cols mat /\
    drop_count mat' = drop_count mat /\
    mat_get_state mat' row col = Some (s mod 4) /\
    mat_get_ascii mat' row col = mat_get_ascii mat row col /\
    mat_get_tsize mat' row col =
      (if s mod 256 =? STATE_NONE then Some 0 else mat_get_tsize mat row col) /\
    forall r c, in_grid mat r c -> r <> row \/ c <> col ->
      mat_get_value mat' r c = mat_get_value mat r c.
Proof.
  intros Hwf Hin.
  destruct (mat_get_value_in _ _ _ Hwf Hin) as [_ [v Hv]].
  exists (put mat row col (cell_set_state s v)).
  split; [apply mat_set_state_in; assumption|].
  repeat (split; [reflexivity|]).
  destruct (fields_put mat row col v (cell_set_state s v) row col Hwf Hin Hin Hv)
    as (Ha & Hs & Ht).
  rewrite decide_True in Ha, Hs, Ht by auto.
  split; [rewrite Hs, state_cell_set_state; reflexivity|].
  split.
  { rewrite Ha, ascii_cell_set_state.
    symmetry. apply mat_get_ascii_in; assumption. }
  split.
  { rewrite Ht, tsize_cell_set_state. unfold uint8. change (2 ^ 8) with 256.
    destruct (s mod 256 =? STATE_NONE); [reflexivity|].
    symmetry. apply mat_get_tsize_in; assumption. }
  intros r c Hrc Hne. rewrite mat_get_value_put by assumption.
  rewrite decide_False by tauto. reflexivity.
Qed.

Lemma mat_set_state_fields_witness :
  exists mat',
    mat_set_state (Matrix [65; 322; 3139; 68] 2 2 0 (F32.make 1 (-4))) 1 0 0
      = Some mat' /\
    mat_get_state mat' 1 0 = Some 0 /\
    mat_get_ascii mat' 1 0 = Some 67 /\
    mat_get_tsize mat' 1 0 = Some 0.
Proof.
  destruct (mat_set_state_fields
              (Matrix [65; 322; 3139; 68] 2 2 0 (F32.make 1 (-4))) 1 0 0)
    as (mat' & Hset & _ & _ & _ & Hs & Ha & Ht & _).
  - unfold wf. cbn [rows cols data length]. lia.
  - unfold in_grid. cbn [rows cols]. lia.
  - exists mat'. split; [exact Hset|]. split; [exact Hs|].
    split; [rewrite Ha; reflexivity|rewrite Ht; reflexivity].
Defined.

(** X4: [mat_set_ascii] and [mat_set_tsize] on a cell of the grid each
    change one field only.  The character read back is the argument reduced
    to eight bits, the tail size read back is the argument reduced to six
    bits; the other two fields of the cell and all other cells are kept. *)
Theorem mat_set_ascii_tsize_fields (mat : matrix_s) (row col a t : Z) :
  wf mat -> in_grid mat row col ->
  (exists mat',
     mat_set_ascii mat row col a = Some mat' /\
     rows mat' = rows mat /\ cols mat' = cols mat /\
     drop_count mat' = drop_count mat /\
     mat_get_ascii mat' row col = Some (a mod 256) /\
     mat_get_state mat' row col = mat_get_state mat row col /\
     mat_get_tsize mat' row col = mat_get_tsize mat row col /\
     forall r c, in_grid mat r c -> r <> row \/ c <> col ->
       mat_get_value mat' r c = mat_get_value mat r c) /\
  (exists mat',
     mat_set_tsize mat row col t = Some mat' /\
     rows mat' = rows mat /\ cols mat' = cols mat /\
     drop_count mat' = drop_count mat /\
     mat_get_tsize mat' row col = Some (t mod 64) /\
     mat_get_state mat' row col = mat_get_state mat row col /\
     mat_get_ascii mat' row col = mat_get_ascii mat row col /\
     forall r c, in_grid mat r c -> r <> row \/ c <> col ->
       mat_get_value mat' r c = mat_get_value mat r c).
Proof.
  intros Hwf Hin.
  destruct (mat_get_value_in _ _ _ Hwf Hin) as [_ [v Hv]].
  pose proof (mat_get_ascii_in _ _ _ _ Hwf Hin Hv) as Ha0.
  pose proof (mat_get_state_in _ _ _ _ Hwf Hin Hv) as Hs0.
  pose proof (mat_get_tsize_in _ _ _ _ Hwf Hin Hv) as Ht0.
  split.
  - exists (put mat row col (cell_set_ascii a v)).
    split; [apply mat_set_ascii_in; assumption|].
    repeat (split; [reflexivity|]).
    destruct (fields_put mat row col v (cell_set_ascii a v) row col Hwf Hin Hin Hv)
      as (Ha & Hs & Ht).
    rewrite decide_True in Ha, Hs, Ht by auto.
    split; [rewrite Ha, ascii_cell_set_ascii; reflexivity|].
    split; [rewrite Hs, state_cell_set_ascii; congruence|].
    split; [rewrite Ht, tsize_cell_set_ascii; congruence|].
    intros r c Hrc Hne. rewrite mat_get_value_put by assumption.
    rewrite decide_False by tauto. reflexivity.
  - exists (put mat row col (cell_set_tsize t v)).
    split; [apply mat_set_tsize_in; assumption|].
    repeat (split; [reflexivity|]).
    destruct (fields_put mat row col v (cell_set_tsize t v) row col Hwf Hin Hin Hv)
      as (Ha & Hs & Ht).
    rewrite decide_True in Ha, Hs, Ht by auto.
    split; [rewrite Ht, tsize_cell_set_tsize; reflexivity|].
    split; [rewrite Hs, state_cell_set_tsize; congruence|].
    split; [rewrite Ha, ascii_cell_set_tsize; congruence|].
    intros r c Hrc Hne. rewrite mat_get_value_put by assumption.
    rewrite decide_False by tauto. reflexivity.
Qed.

Lemma mat_set_ascii_tsize_fields_witness :
  (exists mat',
     mat_set_ascii (Matrix [65; 322; 3139; 68] 2 2 0 (F32.make 1 (-4))) 1 0 353
       = Some mat' /\
     mat_get_ascii mat' 1 0 = Some 97 /\
     mat_get_state mat' 1 0 = Some 0 /\ mat_get_tsize mat' 1 0 = Some 3) /\
  (exists mat',
     mat_set_tsize (Matrix [65; 322; 3139; 68] 2 2 0 (F32.make 1 (-4))) 1 0 70
       = Some mat' /\
     mat_get_tsize mat' 1 0 = Some 6 /\
     mat_get_state mat' 1 0 = Some 0 /\ mat_get_ascii mat' 1 0 = Some 67).
Proof.
  destruct (mat_set_ascii_tsize_fields
              (Matrix [65; 322; 3139; 68] 2 2 0 (F32.make 1 (-4))) 1 0 353 70)
    as [(m1 & Hset1 & _ & _ & _ & Ha1 & Hs1 & Ht1 & _)
        (m2 & Hset2 & _ & _ & _ & Ht2 & Hs2 & Ha2 & _)].
  - unfold wf. cbn [rows cols data length]. lia.
  - unfold in_grid. cbn [rows cols]. lia.
  - split.
    + exists m1. split; [exact Hset1|]. split; [exact Ha1|].
      split; [rewrite Hs1; reflexivity|rewrite Ht1; reflexivity].
    + exists m2. split; [exact Hset2|]. split; [exact Ht2|].
      split; [rewrite Hs2; reflexivity|rewrite Ha2; reflexivity].
Defined.

(** ** Random integers *)

(** X5: for [min <= max], [rand_int min max] takes one value of [rand()]
    and returns [min + rand() % (max + 1 - min)], which lies in [[min, max]],
    both ends included.  With [min = max + 1] the divisor is zero and the
    result is undefined. *)
Theorem rand_int_in_range (rand_seq : nat -> Z) (min max : Z) (k : nat) :
  (forall n, 0 <= rand_seq n <= RAND_MAX) ->
  min <= max ->
  rand_int rand_seq min max k
    = Some (min + rand_seq k mod (max + 1 - min), S k) /\
  min <= min + rand_seq k mod (max + 1 - min) <= max /\
  rand_int rand_seq (max + 1) max k = None.
Proof.
  intros Hrand Hle.
  assert (Hnone : rand_int rand_seq (max + 1) max k = None).
  { unfold rand_int, rand, c_rem. rewrite Z.sub_diag. reflexivity. }
  unfold rand_int, rand, c_rem.
  destruct (Z.eqb_spec (max + 1 - min) 0) as [H0|_]; [lia|].
  cbn [mbind option_bind].
  rewrite Z.rem_mod_nonneg by (try apply Hrand; lia).
  split; [reflexivity|]. split; [|exact Hnone].
  pose proof (Z.mod_pos_bound (rand_seq k) (max + 1 - min) ltac:(lia)). lia.
Qed.

Lemma rand_int_in_range_witness :
  rand_int (fun n => Z.of_nat n mod 97 + 60) 8 63 3 = Some (15, 4%nat) /\
  8 <= 15 <= 63 /\
  rand_int (fun n => Z.of_nat n mod 97 + 60) 64 63 3 = None.
Proof.
  apply (rand_int_in_range (fun n => Z.of_nat n mod 97 + 60) 8 63 3).
  - intros n. cbv beta. unfold RAND_MAX.
    pose proof (Z.mod_pos_bound (Z.of_nat n) 97 ltac:(lia)). lia.
  - lia.
Defined.

(** X6: for [max > 0], [rand_int_mincap min max] takes one value of
    [rand()] and returns the larger of [min] and [rand() % max].  The result
    is never below [min]; it is below [max] when [min < max], so [max] itself
    is never returned, and it is [min] whenever [max <= min].  With [max = 0]
    the result is undefined. *)
Theorem rand_int_mincap_range (rand_seq : nat -> Z) (min max : Z) (k : nat) :
  (forall n, 0 <= rand_seq n <= RAND_MAX) ->
  0 < max ->
  exists x,
    rand_int_mincap rand_seq min max k = Some (x, S k) /\
    x = Z.max min (rand_seq k mod max) /\
    min <= x /\ (min < max -> x < max) /\ (max <= min -> x = min) /\
    rand_int_mincap rand_seq min 0 k = None.
Proof.
  intros Hrand Hmax. unfold rand_int_mincap, rand, c_rem.
  destruct (Z.eqb_spec max 0) as [H0|_]; [lia|].
  cbn [mbind option_bind].
  rewrite Z.rem_mod_nonneg by (try apply Hrand; lia).
  pose proof (Z.mod_pos_bound (rand_seq k) max Hmax) as Hb.
  set (r := rand_seq k mod max) in *. clearbody r.
  eexists. split; [reflexivity|].
  split; [destruct (Z.ltb_spec r min); lia|].
  split; [destruct (Z.ltb_spec r min); lia|].
  split; [destruct (Z.ltb_spec r min); lia|].
  split; [destruct (Z.ltb_spec r min); lia|reflexivity].
Qed.

Lemma rand_int_mincap_range_witness :
  exists x,
    rand_int_mincap (fun n => Z.of_nat n mod 7 * 125) 32 126 1 = Some (x, 2%nat) /\
    x = Z.max 32 ((fun n => Z.of_nat n mod 7 * 125) 1%nat mod 126) /\
    32 <= x /\ (32 < 126 -> x < 126) /\ (126 <= 32 -> x = 32) /\
    rand_int_mincap (fun n => Z.of_nat n mod 7 * 125) 32 0 1 = None.
Proof.
  apply (rand_int_mincap_range (fun n => Z.of_nat n mod 7 * 125) 32 126 1).
  - intros n. cbv beta. unfold RAND_MAX.
    pose proof (Z.mod_pos_bound (Z.of_nat n) 7 ltac:(lia)). lia.
  - lia.
Defined.

(** ** Tail colours, in general *)

Lemma ceil_div_mono (a b d : Z) : 0 < d -> a <= b -> ceil_div a d <= ceil_div b d.
Proof.
  intros Hd Hab. unfold ceil_div.
  pose proof (Z.div_le_mono (- b) (- a) d Hd ltac:(lia)). lia.
Qed.

(** X7: the colour of a tail cell.  For a tail of length [tsize <= 63] and
    a step [1 <= tnext <= tsize], the single-precision computation of
    [mat_put_cell_tail] gives exactly [ceil ((NUM_COLORS - 1) * tnext / tsize)].
    The index lies in [[1, NUM_COLORS - 1]], so a tail cell never takes the
    colour of the drop; it does not decrease with [tnext], and the last cell of
    a full tail has the last colour.  With [tsize = 0] the quotient is not a
    number or infinite and the conversion to [int] is undefined. *)
Theorem tail_color_formula (tsize tnext : Z) :
  1 <= tnext <= tsize -> tsize <= TSIZE_MAX ->
  tail_color tsize tnext = Some (ceil_div ((NUM_COLORS - 1) * tnext) tsize) /\
  1 <= ceil_div ((NUM_COLORS - 1) * tnext) tsize <= NUM_COLORS - 1 /\
  (tnext = tsize -> ceil_div ((NUM_COLORS - 1) * tnext) tsize = NUM_COLORS - 1) /\
  (forall tnext', tnext <= tnext' <= tsize ->
     exists color', tail_color tsize tnext' = Some color' /\
                    ceil_div ((NUM_COLORS - 1) * tnext) tsize <= color') /\
  (forall n, 0 <= n < 2 ^ 64 -> tail_color 0 n = None).
Proof.
  intros Hi HL. set (color := ceil_div ((NUM_COLORS - 1) * tnext) tsize).
  split; [apply tail_color_exact; assumption|].
  assert (Hrange : 1 <= color <= NUM_COLORS - 1).
  { destruct (tail_color_range tsize tnext Hi HL) as (c & Hc & Hr).
    rewrite tail_color_exact in Hc by assumption.
    injection Hc as <-. exact Hr. }
  split; [exact Hrange|]. split.
  { intros ->. unfold color, ceil_div. change (NUM_COLORS - 1) with 5.
    replace (- (5 * tsize)) with ((- 5) * tsize) by lia.
    rewrite Z.div_mul by lia. reflexivity. }
  split.
  - intros tnext' Hi'. eexists. split; [apply tail_color_exact; lia|].
    apply ceil_div_mono; [lia|]. change (NUM_COLORS - 1) with 5. lia.
  - intros n Hn. unfold tail_color.
    change (F32.of_Z 0) with (S754_zero false).
    destruct (of_Z_class n Hn) as [[s ->]|(m & e & ->)]; reflexivity.
Qed.

Lemma tail_color_formula_witness :
  tail_color 8 3 = Some (ceil_div ((NUM_COLORS - 1) * 3) 8) /\
  1 <= ceil_div ((NUM_COLORS - 1) * 3) 8 <= NUM_COLORS - 1 /\
  (3 = 8 -> ceil_div ((NUM_COLORS - 1) * 3) 8 = NUM_COLORS - 1) /\
  (forall tnext', 3 <= tnext' <= 8 ->
     exists color', tail_color 8 tnext' = Some color' /\
                    ceil_div ((NUM_COLORS - 1) * 3) 8 <= color') /\
  (forall n, 0 <= n < 2 ^ 64 -> tail_color 0 n = None).
Proof.
  apply (tail_color_formula 8 3); unfold TSIZE_MAX; lia.
Defined.

(** ** Clamping *)

Section Compare.

Lemma SFcompare_antisym (x y : spec_float) (c : comparison) :
  SFcompare x y = Some c -> SFcompare y x = Some (CompOpp c).
Proof.
  destruct x as [sx|sx| |sx mx ex], y as [sy|sy| |sy my ey];
    cbn [SFcompare]; intros H; try discriminate H;
    injection H as <-;
    try (destruct sx; reflexivity); try (destruct sy; reflexivity);
    try (destruct sx, sy; reflexivity).
  rewrite (Z.compare_antisym ex ey).
  change (PosDef.Pos.compare_cont Eq my mx) with (Pos.compare_cont (CompOpp Eq) my mx).
  rewrite <- (Pos.compare_cont_antisym mx my Eq).
  destruct sx, sy; cbn [CompOpp]; try reflexivity;
    destruct (ex ?= ey); cbn [CompOpp]; reflexivity.
Qed.

Lemma SFcompare_refl (x : spec_float) :
  x <> S754_nan -> SFcompare x x = Some Eq.
Proof.
  destruct x as [s|s| |s m e]; intros Hx; cbn [SFcompare]; try congruence.
  - destruct s; reflexivity.
  - rewrite Z.compare_refl, Pos.compare_cont_refl. destruct s; reflexivity.
Qed.

Lemma SFleb_not_nan (x y : spec_float) :
  SFleb x y = true -> x <> S754_nan /\ y <> S754_nan.
Proof.
  unfold SFleb. destruct x, y; cbn [SFcompare]; intros H;
    try discriminate H; split; discriminate.
Qed.

End Compare.

Lemma cap_float_inside (val min max : spec_float) :
  SFleb min val = true -> SFleb val max = true -> cap_float val min max = val.
Proof.
  intros Hlo Hhi. unfold cap_float, SFltb, SFgtb.
  unfold SFleb in Hlo, Hhi.
  destruct (SFcompare min val) as [c|] eqn:Hc; [|discriminate Hlo].
  rewrite (SFcompare_antisym _ _ _ Hc).
  destruct (SFcompare val max) as [[| |]|]; try discriminate Hhi;
    destruct c; try discriminate Hlo; reflexivity.
Qed.

Lemma cap_float_range (val min max : spec_float) :
  SFleb min max = true -> val <> S754_nan ->
  SFleb min (cap_float val min max) = true /\
  SFleb (cap_float val min max) max = true.
Proof.
  intros Hmm Hv. destruct (SFleb_not_nan _ _ Hmm) as [Hmin Hmax].
  pose proof (SFcompare_refl min Hmin) as Hrmin.
  pose proof (SFcompare_refl max Hmax) as Hrmax.
  unfold cap_float, SFltb, SFgtb.
  destruct (SFcompare val min) as [c|] eqn:Hc.
  2:{ destruct val, min; cbn [SFcompare] in Hc; congruence. }
  destruct (SFcompare val max) as [c'|] eqn:Hc'.
  2:{ destruct val, max; cbn [SFcompare] in Hc'; congruence. }
  destruct c.
  - destruct c'.
    + unfold SFleb. rewrite (SFcompare_antisym _ _ _ Hc), Hc'. auto.
    + unfold SFleb. rewrite (SFcompare_antisym _ _ _ Hc), Hc'. auto.
    + split; [exact Hmm|]. unfold SFleb. rewrite Hrmax. reflexivity.
  - split; [|exact Hmm]. unfold SFleb. rewrite Hrmin. reflexivity.
  - destruct c'.
    + unfold SFleb. rewrite (SFcompare_antisym _ _ _ Hc), Hc'. auto.
    + unfold SFleb. rewrite (SFcompare_antisym _ _ _ Hc), Hc'. auto.
    + split; [exact Hmm|]. unfold SFleb. rewrite Hrmax. reflexivity.
Qed.

(** X8: [cap_float] with [min <= max].  Every value that is a number ends
    up in [[min, max]]; a value that is not a number is left as it is, since
    both comparisons fail; a value already in the range is unchanged, and
    capping twice is capping once. *)
Theorem cap_float_clamps (val min max : spec_float) :
  SFleb min max = true ->
  (val <> S754_nan ->
     SFleb min (cap_float val min max) = true /\
     SFleb (cap_float val min max) max = true) /\
  cap_float S754_nan min max = S754_nan /\
  cap_float (cap_float val min max) min max = cap_float val min max /\
  (SFleb min val = true -> SFleb val max = true -> cap_float val min max = val).
Proof.
  intros Hmm.
  split; [apply cap_float_range, Hmm|]. split; [reflexivity|].
  split; [|apply cap_float_inside].
  destruct val as [s|s| |s m e]; try reflexivity;
    apply cap_float_inside; apply cap_float_range; try exact Hmm; discriminate.
Qed.

Lemma cap_float_clamps_witness :
  SFleb (F32.make 1 (-4)) (cap_float (F32.make 3 0) (F32.make 1 (-4)) (F32.make 1 0)) = true /\
  SFleb (cap_float (F32.make 3 0) (F32.make 1 (-4)) (F32.make 1 0)) (F32.make 1 0) = true.
Proof.
  destruct (cap_float_clamps (F32.make 3 0) (F32.make 1 (-4)) (F32.make 1 0))
    as [H _].
  - vm_compute. reflexivity.
  - apply H. vm_compute. discriminate.
Defined.

(** ** Placing a drop, cell by cell *)

(** Case analysis on every comparison of the goal, closing the cases that
    arithmetic settles. *)
Ltac bool_cases :=
  repeat first
    [ match goal with |- context [?a <=? ?b] => destruct (Z.leb_spec a b) end
    | match goal with |- context [?a <? ?b] => destruct (Z.ltb_spec a b) end
    | match goal with |- context [?a =? ?b] => destruct (Z.eqb_spec a b) end ];
  cbn [andb orb negb]; try lia; try reflexivity.

Section Trace.

Variables (col tsize : Z).

Lemma add_drop_loop_cells (n : nat) : forall (mat : matrix_s) (i row : Z),
  wf mat -> 0 <= col < cols mat -> 0 <= i -> tsize <= TSIZE_MAX ->
  i + Z.of_nat n = tsize + 1 ->
  exists mat',
    add_drop_loop n mat i row col tsize = Some mat' /\
    rows mat' = rows mat /\ cols mat' = cols mat /\
    drop_ratio mat' = drop_ratio mat /\
    length (data mat') = length (data mat) /\
    drop_count mat' =
      (if (i =? 0) && (0 <? Z.of_nat n) && (0 <=? row) && (row <? rows mat)
       then size_t (drop_count mat + 1) else drop_count mat) /\
    (forall j : nat,
       (forall r, 0 <= r < rows mat -> j <> idx mat r col) ->
       data mat' !! j = data mat !! j) /\
    (forall r v, 0 <= r < rows mat -> data mat !! idx mat r col = Some v ->
       data mat' !! idx mat r col =
         Some (if (r <=? row) && (row - r <? Z.of_nat n)
               then trace_cell tsize (i + (row - r)) v else v)).
Proof.
  induction n as [|n IH]; intros mat i row Hwf Hcol Hi Hts Hn.
  - exists mat. cbn [add_drop_loop]. split; [reflexivity|].
    repeat (split; [reflexivity|]).
    split.
    { rewrite andb_false_r. reflexivity. }
    split; [reflexivity|].
    intros r v Hr Hv. rewrite Hv. f_equal.
    destruct (Z.leb_spec r row); [|reflexivity]. cbn [andb].
    destruct (Z.ltb_spec (row - r) (Z.of_nat 0)); [lia|reflexivity].
  - pose proof Hwf as (Hrows & Hcols & Hlen).
    rewrite add_drop_loop_S.
    destruct (Z.ltb_spec row 0) as [Hneg|Hpos].
    { exists mat. split; [reflexivity|]. repeat (split; [reflexivity|]).
      split.
      { destruct (Z.leb_spec 0 row); [lia|].
        rewrite andb_false_r. reflexivity. }
      split; [reflexivity|].
      intros r v Hr Hv. rewrite Hv. f_equal.
      destruct (Z.leb_spec r row); [lia|reflexivity]. }
    destruct (Z.leb_spec (rows mat) row) as [Hhigh|Hlow].
    { destruct (IH mat (i + 1) (row - 1))
        as (mat' & Hrun & Hr' & Hc' & Hdr & Hlen' & Hdc & Hframe & Hcells);
        [exact Hwf|exact Hcol|lia|exact Hts|lia|].
      exists mat'. split; [exact Hrun|].
      repeat (split; [assumption|]).
      split.
      { rewrite Hdc. destruct (Z.eqb_spec (i + 1) 0); [lia|].
        destruct (Z.ltb_spec row (rows mat)); [lia|].
        rewrite andb_false_r. reflexivity. }
      split; [exact Hframe|].
      intros r v Hr Hv. rewrite (Hcells r v Hr Hv). f_equal.
      bool_cases. f_equal. lia. }
    assert (Hin : in_grid mat row col) by (unfold in_grid; lia).
    destruct (mat_get_value_in _ _ _ Hwf Hin) as [_ [v0 Hv0]].
    (* the cell written in this iteration and the matrix it leaves *)
    assert (Hstep : exists mat1,
               (if i =? 0 then
                  mat ← mat_put_cell_drop mat row col tsize;
                  add_drop_loop n (set_drop_count (size_t (drop_count mat + 1)) mat)
                                (i + 1) (row - 1) col tsize
                else
                  mat ← mat_put_cell_tail mat row col tsize i;
                  add_drop_loop n mat (i + 1) (row - 1) col tsize)
               = add_drop_loop n mat1 (i + 1) (row - 1) col tsize /\
               data mat1 = data (put mat row col (trace_cell tsize i v0)) /\
               rows mat1 = rows mat /\ cols mat1 = cols mat /\
               drop_ratio mat1 = drop_ratio mat /\
               drop_count mat1 =
                 (if i =? 0 then size_t (drop_count mat + 1) else drop_count mat)).
    { unfold trace_cell. destruct (Z.eqb_spec i 0) as [->|Hne].
      - rewrite (mat_put_cell_drop_in _ _ _ _ v0) by assumption.
        cbn [mbind option_bind].
        eexists. split; [reflexivity|]. repeat split; reflexivity.
      - rewrite (mat_put_cell_tail_in _ _ _ _ _
                   (ceil_div ((NUM_COLORS - 1) * i) tsize) v0);
          [|exact Hwf|exact Hin|exact Hv0|apply tail_color_exact; lia].
        cbn [mbind option_bind].
        eexists. split; [reflexivity|]. repeat split; reflexivity. }
    destruct Hstep as (mat1 & -> & Hd1 & Hr1 & Hc1 & Hdr1 & Hdc1).
    assert (Hwf1 : wf mat1).
    { unfold wf. rewrite Hr1, Hc1, Hd1. cbn [put set_data data].
      rewrite length_insert. exact Hwf. }
    assert (Hidx : forall r c, idx mat1 r c = idx mat r c)
      by (intros; apply idx_cols; exact Hc1).
    destruct (IH mat1 (i + 1) (row - 1))
      as (mat' & Hrun & Hr' & Hc' & Hdr & Hlen' & Hdc & Hframe & Hcells);
      [exact Hwf1|lia|lia|exact Hts|lia|].
    rewrite Hr1 in *. rewrite Hc1 in *.
    setoid_rewrite Hidx in Hframe. setoid_rewrite Hidx in Hcells.
    exists mat'. split; [exact Hrun|].
    split; [exact Hr'|]. split; [exact Hc'|]. split; [congruence|].
    split.
    { rewrite Hlen', Hd1. cbn [put set_data data]. apply length_insert. }
    split.
    { rewrite Hdc, Hdc1. destruct (Z.eqb_spec (i + 1) 0); [lia|].
      cbn [andb].
      destruct (Z.ltb_spec 0 (Z.of_nat (S n))); [|lia].
      destruct (Z.leb_spec 0 row); [|lia].
      destruct (Z.ltb_spec row (rows mat)); [|lia].
      rewrite !andb_true_r. reflexivity. }
    split.
    { intros j Hj. rewrite (Hframe j Hj), Hd1.
      apply lookup_put_ne. apply Hj. lia. }
    intros r v Hr Hv.
    destruct (Z.eq_dec r row) as [->|Hne].
    + rewrite (Hcells row (trace_cell tsize i v0) Hr).
      2:{ rewrite Hd1. apply lookup_put_eq; assumption. }
      rewrite Hv0 in Hv. injection Hv as <-. f_equal.
      destruct (Z.leb_spec row (row - 1)); [lia|]. cbn [andb].
      destruct (Z.leb_spec row row); [|lia]. cbn [andb].
      destruct (Z.ltb_spec (row - row) (Z.of_nat (S n))); [|lia].
      f_equal. lia.
    + rewrite (Hcells r v Hr).
      2:{ rewrite Hd1, lookup_put_ne; [exact Hv|].
          apply idx_ne_row; lia. }
      f_equal.
      bool_cases. f_equal. lia.
Qed.

Lemma mat_add_drop_cells (mat : matrix_s) (row : Z) :
  wf mat -> 0 <= col < cols mat -> 0 <= tsize <= TSIZE_MAX ->
  exists mat',
    mat_add_drop mat row col tsize = Some mat' /\
    rows mat' = rows mat /\ cols mat' = cols mat /\
    drop_ratio mat' = drop_ratio mat /\
    length (data mat') = length (data mat) /\
    drop_count mat' =
      (if (0 <=? row) && (row <? rows mat)
       then size_t (drop_count mat + 1) else drop_count mat) /\
    (forall j : nat,
       (forall r, 0 <= r < rows mat -> j <> idx mat r col) ->
       data mat' !! j = data mat !! j) /\
    (forall r v, 0 <= r < rows mat -> data mat !! idx mat r col = Some v ->
       data mat' !! idx mat r col =
         Some (if (r <=? row) && (row - r <=? tsize)
               then trace_cell tsize (row - r) v else v)).
Proof.
  intros Hwf Hcol Hts. unfold mat_add_drop.
  destruct (add_drop_loop_cells (Z.to_nat (tsize + 1)) mat 0 row)
    as (mat' & Hrun & Hr' & Hc' & Hdr & Hlen' & Hdc & Hframe & Hcells);
    [exact Hwf|exact Hcol|lia|lia|lia|].
  exists mat'. split; [exact Hrun|].
  repeat (split; [assumption|]).
  split.
  { rewrite Hdc. change (0 =? 0) with true. cbn [andb].
    destruct (Z.ltb_spec 0 (Z.of_nat (Z.to_nat (tsize + 1)))); [|lia].
    reflexivity. }
  split; [exact Hframe|].
  intros r v Hr Hv. rewrite (Hcells r v Hr Hv). f_equal.
  rewrite Z2Nat.id by lia.
  destruct (r <=? row); [|reflexivity]. cbn [andb].
  destruct (Z.ltb_spec (row - r) (tsize + 1));
    destruct (Z.leb_spec (row - r) tsize); try lia; reflexivity.
Qed.

End Trace.

(** Reading a cell of [mat'], a matrix of the shape of [mat], through the
    accessors. *)
Lemma get_cell (mat mat' : matrix_s) (r c w : Z) :
  wf mat -> rows mat' = rows mat -> cols mat' = cols mat ->
  length (data mat') = length (data mat) ->
  in_grid mat r c -> data mat' !! idx mat r c = Some w ->
  mat_get_value mat' r c = Some w /\
  mat_get_state mat' r c = Some (val_get_state w) /\
  mat_get_tsize mat' r c = Some (val_get_tsize w) /\
  mat_get_ascii mat' r c = Some (val_get_ascii w).
Proof.
  intros Hwf Hr Hc Hlen Hin Hw.
  assert (Hwf' : wf mat') by (unfold wf; rewrite Hr, Hc, Hlen; exact Hwf).
  assert (Hin' : in_grid mat' r c) by (unfold in_grid; rewrite Hr, Hc; exact Hin).
  assert (Hget : mat_get_value mat' r c = Some w).
  { destruct (mat_get_value_in _ _ _ Hwf' Hin') as [-> _].
    rewrite (idx_cols mat) by exact Hc. exact Hw. }
  unfold mat_get_state, mat_get_tsize, mat_get_ascii. rewrite Hget.
  repeat split; reflexivity.
Qed.

Lemma get_cell_same (mat : matrix_s) (r c w : Z) :
  wf mat -> in_grid mat r c -> data mat !! idx mat r c = Some w ->
  mat_get_value mat r c = Some w /\
  mat_get_state mat r c = Some (val_get_state w) /\
  mat_get_tsize mat r c = Some (val_get_tsize w) /\
  mat_get_ascii mat r c = Some (val_get_ascii w).
Proof. intros Hwf Hin Hw. apply (get_cell mat mat); auto. Qed.

Lemma ascii_trace_cell (tsize i v : Z) :
  val_get_ascii (trace_cell tsize i v) = val_get_ascii v.
Proof.
  unfold trace_cell. destruct (i =? 0);
    [apply ascii_drop_cell|apply ascii_tail_cell].
Qed.

(** A cell of the grid outside column [col] lies at none of the positions of
    that column. *)
Lemma idx_off_column (mat : matrix_s) (r c col : Z) :
  wf mat -> in_grid mat r c -> 0 <= col < cols mat -> c <> col ->
  forall r', 0 <= r' < rows mat -> idx mat r c <> idx mat r' col.
Proof.
  intros Hwf Hin Hcol Hne r' Hr'. apply idx_ne_col; try assumption.
  unfold in_grid. lia.
Qed.

(** X9: [mat_add_drop] at a cell [(row, col)] of the grid with a tail
    length [tsize <= 63].  The cell becomes a DROP cell holding [tsize]; the
    cell [i] rows above, for [1 <= i <= tsize] and as far as the grid reaches,
    becomes a TAIL cell with colour [ceil ((NUM_COLORS - 1) * i / tsize)];
    cells of other columns, cells below the drop and cells above the tail keep
    their word; every cell keeps its character; [drop_count] grows by one. *)
Theorem mat_add_drop_trace (mat : matrix_s) (row col tsize : Z) :
  wf mat -> in_grid mat row col -> 0 <= tsize <= TSIZE_MAX ->
  exists mat',
    mat_add_drop mat row col tsize = Some mat' /\
    rows mat' = rows mat /\ cols mat' = cols mat /\
    drop_ratio mat' = drop_ratio mat /\
    drop_count mat' = size_t (drop_count mat + 1) /\
    mat_get_state mat' row col = Some STATE_DROP /\
    mat_get_tsize mat' row col = Some tsize /\
    (forall i, 1 <= i <= tsize -> i <= row ->
       mat_get_state mat' (row - i) col = Some STATE_TAIL /\
       mat_get_tsize mat' (row - i) col
         = Some (ceil_div ((NUM_COLORS - 1) * i) tsize)) /\
    (forall r c, in_grid mat r c -> c <> col \/ row < r \/ r < row - tsize ->
       mat_get_value mat' r c = mat_get_value mat r c) /\
    (forall r c, in_grid mat r c ->
       mat_get_ascii mat' r c = mat_get_ascii mat r c).
Proof.
  intros Hwf Hin Hts. pose proof Hin as [Hrow Hcol].
  destruct (mat_add_drop_cells col tsize mat row Hwf Hcol Hts)
    as (mat' & Hrun & Hr' & Hc' & Hdr & Hlen' & Hdc & Hframe & Hcells).
  exists mat'. split; [exact Hrun|].
  split; [exact Hr'|]. split; [exact Hc'|]. split; [exact Hdr|].
  split.
  { rewrite Hdc. destruct (Z.leb_spec 0 row); [|lia].
    destruct (Z.ltb_spec row (rows mat)); [reflexivity|lia]. }
  assert (Hcell : forall r, 0 <= r < rows mat ->
            exists v, data mat !! idx mat r col = Some v /\
                      data mat' !! idx mat r col =
                        Some (if (r <=? row) && (row - r <=? tsize)
                              then trace_cell tsize (row - r) v else v)).
  { intros r Hr.
    assert (Hinr : in_grid mat r col) by (unfold in_grid; lia).
    destruct (mat_get_value_in _ _ _ Hwf Hinr) as [_ [v Hv]].
    exists v. split; [exact Hv|]. apply Hcells; assumption. }
  split; [|split; [|split; [|split]]].
  - destruct (Hcell row Hrow) as (v & Hv & Hv').
    destruct (get_cell mat mat' row col _ Hwf Hr' Hc' Hlen' Hin Hv')
      as (_ & -> & _ & _).
    rewrite Z.leb_refl, Z.sub_diag. cbn [andb].
    destruct (Z.leb_spec 0 tsize); [|lia].
    unfold trace_cell. change (0 =? 0) with true. cbv iota.
    rewrite state_drop_cell. reflexivity.
  - destruct (Hcell row Hrow) as (v & Hv & Hv').
    destruct (get_cell mat mat' row col _ Hwf Hr' Hc' Hlen' Hin Hv')
      as (_ & _ & -> & _).
    rewrite Z.leb_refl, Z.sub_diag. cbn [andb].
    destruct (Z.leb_spec 0 tsize); [|lia].
    unfold trace_cell. change (0 =? 0) with true. cbv iota.
    rewrite tsize_drop_cell. f_equal. apply Z.mod_small.
    unfold TSIZE_MAX in Hts. lia.
  - intros i Hi Hirow.
    assert (Hri : 0 <= row - i < rows mat) by lia.
    assert (Hini : in_grid mat (row - i) col) by (unfold in_grid; lia).
    destruct (Hcell (row - i) Hri) as (v & Hv & Hv').
    destruct (get_cell mat mat' (row - i) col _ Hwf Hr' Hc' Hlen' Hini Hv')
      as (_ & -> & -> & _).
    destruct (Z.leb_spec (row - i) row); [|lia]. cbn [andb].
    replace (row - (row - i)) with i by lia.
    destruct (Z.leb_spec i tsize); [|lia].
    unfold trace_cell. destruct (Z.eqb_spec i 0); [lia|].
    rewrite state_tail_cell, tsize_tail_cell. split; [reflexivity|].
    f_equal. apply Z.mod_small.
    destruct (tail_color_range tsize i) as (c & Hc & Hrange);
      [lia|lia|].
    rewrite tail_color_exact in Hc by lia. injection Hc as <-.
    change (NUM_COLORS - 1) with 5 in *. lia.
  - intros r c Hrc Hout.
    destruct (mat_get_value_in _ _ _ Hwf Hrc) as [Hget [v Hv]].
    rewrite Hget, Hv.
    apply (get_cell mat mat' r c v Hwf Hr' Hc' Hlen' Hrc).
    destruct (Z.eq_dec c col) as [->|Hne].
    + destruct Hrc as [Hr _]. rewrite (Hcells r v Hr Hv). f_equal.
      bool_cases.
    + rewrite Hframe; [exact Hv|].
      apply idx_off_column; assumption.
  - intros r c Hrc.
    destruct (mat_get_value_in _ _ _ Hwf Hrc) as [_ [v Hv]].
    destruct (get_cell_same mat r c v Hwf Hrc Hv) as (_ & _ & _ & ->).
    destruct (Z.eq_dec c col) as [->|Hne].
    + destruct Hrc as [Hr Hc0].
      assert (Hrc : in_grid mat r col) by (split; assumption).
      pose proof (Hcells r v Hr Hv) as Hv'.
      destruct (get_cell mat mat' r col _ Hwf Hr' Hc' Hlen' Hrc Hv')
        as (_ & _ & _ & ->).
      f_equal. destruct ((r <=? row) && (row - r <=? tsize)); [|reflexivity].
      apply ascii_trace_cell.
    + assert (Hv' : data mat' !! idx mat r c = Some v).
      { rewrite Hframe; [exact Hv|]. apply idx_off_column; assumption. }
      destruct (get_cell mat mat' r c _ Hwf Hr' Hc' Hlen' Hrc Hv')
        as (_ & _ & _ & ->). reflexivity.
Qed.

Lemma mat_add_drop_trace_witness :
  exists mat',
    mat_add_drop (Matrix (replicate 12 65) 3 4 0 (F32.make 1 (-4))) 2 1 8
      = Some mat' /\
    drop_count mat' = 1 /\
    mat_get_state mat' 2 1 = Some STATE_DROP /\
    mat_get_tsize mat' 2 1 = Some 8 /\
    mat_get_state mat' 0 1 = Some STATE_TAIL /\
    mat_get_tsize mat' 0 1 = Some 2 /\
    mat_get_value mat' 3 1 = Some 65.
Proof.
  destruct (mat_add_drop_trace (Matrix (replicate 12 65) 3 4 0 (F32.make 1 (-4)))
              2 1 8)
    as (mat' & Hrun & _ & _ & _ & Hdc & Hs & Ht & Htail & Hrest & _).
  - unfold wf. cbn [rows cols data length replicate]. lia.
  - unfold in_grid. cbn [rows cols]. lia.
  - unfold TSIZE_MAX. lia.
  - exists mat'. split; [exact Hrun|]. split; [exact Hdc|].
    split; [exact Hs|]. split; [exact Ht|].
    destruct (Htail 2) as [Hs2 Ht2]; [lia|lia|].
    split; [exact Hs2|]. split; [exact Ht2|].
    rewrite Hrest; [reflexivity|unfold in_grid; cbn [rows cols]; lia|lia].
Defined.

(** X10: [mat_add_drop] with the drop outside the grid.  With a negative
    row the matrix is returned as it is.  With a row at or below the bottom
    edge no DROP cell is written and [drop_count] is unchanged, yet the part
    of the tail that reaches into the grid is drawn: the cell of row [r] with
    [row - r <= tsize] becomes a TAIL cell of colour
    [ceil ((NUM_COLORS - 1) * (row - r) / tsize)]. *)
Theorem mat_add_drop_off_grid (mat : matrix_s) (row col tsize : Z) :
  wf mat -> 0 <= col < cols mat -> 0 <= tsize <= TSIZE_MAX ->
  (row < 0 -> mat_add_drop mat row col tsize = Some mat) /\
  (rows mat <= row ->
   exists mat',
     mat_add_drop mat row col tsize = Some mat' /\
     rows mat' = rows mat /\ cols mat' = cols mat /\
     drop_count mat' = drop_count mat /\
     (forall r, 0 <= r < rows mat -> row - r <= tsize ->
        mat_get_state mat' r col = Some STATE_TAIL /\
        mat_get_tsize mat' r col
          = Some (ceil_div ((NUM_COLORS - 1) * (row - r)) tsize)) /\
     (forall r c, in_grid mat r c -> c <> col \/ r < row - tsize ->
        mat_get_value mat' r c = mat_get_value mat r c)).
Proof.
  intros Hwf Hcol Hts. split.
  - intros Hneg. unfold mat_add_drop.
    replace (Z.to_nat (tsize + 1)) with (S (Z.to_nat tsize)) by lia.
    rewrite add_drop_loop_S.
    destruct (Z.ltb_spec row 0); [reflexivity|lia].
  - intros Hhigh.
    destruct (mat_add_drop_cells col tsize mat row Hwf Hcol Hts)
      as (mat' & Hrun & Hr' & Hc' & Hdr & Hlen' & Hdc & Hframe & Hcells).
    exists mat'. split; [exact Hrun|].
    split; [exact Hr'|]. split; [exact Hc'|].
    split.
    { rewrite Hdc. destruct (Z.ltb_spec row (rows mat)); [lia|].
      rewrite andb_false_r. reflexivity. }
    split.
    + intros r Hr Hreach.
      assert (Hinr : in_grid mat r col) by (unfold in_grid; lia).
      destruct (mat_get_value_in _ _ _ Hwf Hinr) as [_ [v Hv]].
      pose proof (Hcells r v Hr Hv) as Hv'.
      destruct (get_cell mat mat' r col _ Hwf Hr' Hc' Hlen' Hinr Hv')
        as (_ & -> & -> & _).
      destruct (Z.leb_spec r row); [|lia]. cbn [andb].
      destruct (Z.leb_spec (row - r) tsize); [|lia].
      unfold trace_cell. destruct (Z.eqb_spec (row - r) 0); [lia|].
      rewrite state_tail_cell, tsize_tail_cell. split; [reflexivity|].
      f_equal. apply Z.mod_small.
      destruct (tail_color_range tsize (row - r)) as (c & Hc & Hrange);
        [lia|lia|].
      rewrite tail_color_exact in Hc by lia. injection Hc as <-.
      change (NUM_COLORS - 1) with 5 in *. lia.
    + intros r c Hrc Hout.
      destruct (mat_get_value_in _ _ _ Hwf Hrc) as [Hget [v Hv]].
      rewrite Hget, Hv.
      apply (get_cell mat mat' r c v Hwf Hr' Hc' Hlen' Hrc).
      destruct (Z.eq_dec c col) as [->|Hne].
      * destruct Hrc as [Hr _]. rewrite (Hcells r v Hr Hv). f_equal.
        bool_cases.
      * rewrite Hframe; [exact Hv|].
        apply idx_off_column; assumption.
Qed.

Lemma mat_add_drop_off_grid_witness :
  mat_add_drop (Matrix (replicate 12 65) 3 4 7 (F32.make 1 (-4))) (-1) 1 8
    = Some (Matrix (replicate 12 65) 3 4 7 (F32.make 1 (-4))) /\
  exists mat',
    mat_add_drop (Matrix (replicate 12 65) 3 4 7 (F32.make 1 (-4))) 5 1 8
      = Some mat' /\
    drop_count mat' = 7 /\
    mat_get_state mat' 3 1 = Some STATE_TAIL /\
    mat_get_tsize mat' 3 1 = Some 2.
Proof.
  destruct (mat_add_drop_off_grid
              (Matrix (replicate 12 65) 3 4 7 (F32.make 1 (-4))) (-1) 1 8)
    as [Hneg _];
    [unfold wf; cbn [rows cols data length replicate]; lia
    |cbn [cols]; lia|unfold TSIZE_MAX; lia|].
  split; [apply Hneg; lia|].
  destruct (mat_add_drop_off_grid
              (Matrix (replicate 12 65) 3 4 7 (F32.make 1 (-4))) 5 1 8)
    as [_ Hhigh];
    [unfold wf; cbn [rows cols data length replicate]; lia
    |cbn [cols]; lia|unfold TSIZE_MAX; lia|].
  destruct Hhigh as (mat' & Hrun & _ & _ & Hdc & Htail & _); [cbn [rows]; lia|].
  exists mat'. split; [exact Hrun|]. split; [exact Hdc|].
  apply (Htail 3); cbn [rows]; lia.
Defined.

(** ** Moving a column, cell by cell *)

Lemma snoc_of_length {A : Type} (vs : list A) (n : nat) :
  length vs = S n -> exists vs' v, vs = vs' ++ [v] /\ length vs' = n.
Proof.
  destruct vs as [|x vs] using rev_ind; [discriminate|].
  rewrite length_app. cbn [length]. intros H.
  exists vs, x. split; [reflexivity|lia].
Qed.

Section MovCells.

Variable col : Z.

Lemma mov_cell_step (mat : matrix_s) (row v : Z) :
  wf mat -> in_grid mat row col ->
  data mat !! idx mat row col = Some v ->
  exists mat1,
    (forall (A : Type) (k : matrix_s -> option A),
       (mat_set_state mat (row + 1) col (val_get_state v) ≫= fun m =>
        mat_set_tsize m (row + 1) col (val_get_tsize v) ≫= fun m =>
        mat_set_state m row col STATE_NONE ≫= fun m =>
        mat_set_tsize m row col 0 ≫= k) = k mat1) /\
    rows mat1 = rows mat /\ cols mat1 = cols mat /\
    drop_count mat1 = drop_count mat /\ drop_ratio mat1 = drop_ratio mat /\
    length (data mat1) = length (data mat) /\
    data mat1 !! idx mat row col = Some (cleared_cell v) /\
    (forall v1, row + 1 < rows mat ->
       data mat !! idx mat (row + 1) col = Some v1 ->
       data mat1 !! idx mat (row + 1) col
         = Some (moved_cell (val_get_state v) (val_get_tsize v) v1)) /\
    (forall j : nat, j <> idx mat row col ->
       (row + 1 < rows mat -> j <> idx mat (row + 1) col) ->
       data mat1 !! j = data mat !! j).
Proof.
  intros Hwf Hin Hv. pose proof Hwf as (Hrows & Hcols & Hlen).
  destruct Hin as [Hrow Hcol].
  assert (Hin : in_grid mat row col) by (split; assumption).
  set (st := val_get_state v). set (ts := val_get_tsize v).
  destruct (Z.lt_ge_cases (row + 1) (rows mat)) as [Hlt|Hge].
  - assert (Hin1 : in_grid mat (row + 1) col) by (unfold in_grid; lia).
    destruct (mat_get_value_in _ _ _ Hwf Hin1) as [_ [v1 Hv1]].
    assert (Hne : idx mat (row + 1) col <> idx mat row col)
      by (apply idx_ne_row; lia).
    pose (m1 := put mat (row + 1) col (moved_cell st ts v1)).
    assert (Hwf1 : wf m1) by (apply wf_put, Hwf).
    assert (Hv' : data m1 !! idx m1 row col = Some v).
    { unfold m1. rewrite idx_put, lookup_put_ne by congruence. exact Hv. }
    exists (put m1 row col (cleared_cell v)). split.
    { intros A k.
      rewrite (mat_set_state_in _ _ _ _ v1) by assumption.
      cbn [mbind option_bind].
      rewrite (mat_set_tsize_in _ _ _ _ (cell_set_state st v1));
        [|apply wf_put, Hwf|exact Hin1
         |rewrite idx_put; apply lookup_put_eq; assumption].
      cbn [mbind option_bind]. rewrite put_put.
      fold (moved_cell st ts v1). fold m1.
      rewrite (mat_set_state_in m1 _ _ _ v) by assumption.
      cbn [mbind option_bind].
      rewrite (mat_set_tsize_in _ _ _ _ (cell_set_state STATE_NONE v));
        [|apply wf_put, Hwf1|exact Hin
         |rewrite idx_put; apply lookup_put_eq; assumption].
      rewrite put_put. reflexivity. }
    repeat (split; [reflexivity|]).
    split; [cbn [put set_data data m1]; rewrite !length_insert; reflexivity|].
    split.
    { change (idx mat row col) with (idx m1 row col).
      apply lookup_put_eq; assumption. }
    split.
    { intros w _ Hw. rewrite Hv1 in Hw. injection Hw as <-.
      rewrite lookup_put_ne by exact Hne.
      apply lookup_put_eq; assumption. }
    intros j Hj Hj1.
    rewrite lookup_put_ne by exact Hj.
    apply lookup_put_ne. apply Hj1. exact Hlt.
  - exists (put mat row col (cleared_cell v)). split.
    { intros A k.
      rewrite mat_set_state_out by lia. cbn [mbind option_bind].
      rewrite mat_set_tsize_out by lia. cbn [mbind option_bind].
      rewrite (mat_set_state_in _ _ _ _ v) by assumption.
      cbn [mbind option_bind].
      rewrite (mat_set_tsize_in _ _ _ _ (cell_set_state STATE_NONE v));
        [|apply wf_put, Hwf|exact Hin
         |rewrite idx_put; apply lookup_put_eq; assumption].
      rewrite put_put. reflexivity. }
    repeat (split; [reflexivity|]).
    split; [cbn [put set_data data]; apply length_insert|].
    split; [apply lookup_put_eq; assumption|].
    split; [intros; lia|].
    intros j Hj _. apply lookup_put_ne. exact Hj.
Qed.

Lemma mov_col_loop_cells (n : nat) :
  forall (mat : matrix_s) (l : mov_locals) (vs : list Z),
  wf mat -> 0 <= col < cols mat -> Z.of_nat n <= rows mat ->
  length vs = n ->
  (forall r : nat, (r < n)%nat ->
     data mat !! idx mat (Z.of_nat r) col = vs !! r) ->
  exists mat',
    mov_col_loop n mat col l = Some (mat', mov_locals_scan l vs) /\
    rows mat' = rows mat /\ cols mat' = cols mat /\
    drop_count mat' = drop_count mat /\ drop_ratio mat' = drop_ratio mat /\
    length (data mat') = length (data mat) /\
    (n = 0%nat -> mat' = mat) /\
    (forall j : nat,
       (forall r, 0 <= r <= Z.of_nat n -> r < rows mat -> j <> idx mat r col) ->
       data mat' !! j = data mat !! j) /\
    (forall v, vs !! 0%nat = Some v ->
       data mat' !! idx mat 0 col = Some (vacated v)) /\
    (forall (r : nat) u v, (r < n)%nat -> Z.of_nat r + 1 < rows mat ->
       vs !! r = Some u ->
       data mat !! idx mat (Z.of_nat r + 1) col = Some v ->
       data mat' !! idx mat (Z.of_nat r + 1) col
         = Some (landed u (if (S r <? n)%nat then vacated v else v))).
Proof.
  induction n as [|n IH]; intros mat l vs Hwf Hcol Hn Hlen Hvs.
  - destruct vs; [|discriminate Hlen].
    exists mat. cbn [mov_col_loop mov_locals_scan foldr].
    split; [reflexivity|]. repeat (split; [reflexivity|]).
    split; [intros v Hv; discriminate Hv|]. intros; lia.
  - pose proof Hwf as (Hrows & Hcols & Hdlen).
    destruct (snoc_of_length vs n Hlen) as (vs' & vn & -> & Hlen').
    assert (Hvn : data mat !! idx mat (Z.of_nat n) col = Some vn).
    { rewrite (Hvs n) by lia.
      rewrite lookup_app_r by lia. rewrite Hlen', Nat.sub_diag. reflexivity. }
    assert (Hvs' : forall r : nat, (r < n)%nat ->
                     data mat !! idx mat (Z.of_nat r) col = vs' !! r).
    { intros r Hr. rewrite (Hvs r) by lia. apply lookup_app_l. lia. }
    clear Hvs.
    set (row := Z.of_nat n) in *.
    assert (Hrowdef : row = Z.of_nat n) by reflexivity.
    assert (Hrow : 0 <= row < rows mat) by lia.
    assert (Hin : in_grid mat row col) by (unfold in_grid; lia).
    assert (Hscan : mov_locals_scan l (vs' ++ [vn])
                    = mov_locals_scan (mov_locals_step l vn) vs').
    { unfold mov_locals_scan. rewrite foldr_app. reflexivity. }
    rewrite Hscan.
    destruct (mat_get_value_in _ _ _ Hwf Hin) as [Hget _].
    cbn [mov_col_loop]. fold row. rewrite Hget, Hvn. cbn [mbind option_bind].
    unfold mov_locals_step at 1.
    destruct (Z.eqb_spec (val_get_state vn) STATE_NONE) as [Hnone|Hsome].
    + (* the cell is empty: nothing moves *)
      assert (Hvac : vacated vn = vn).
      { unfold vacated. rewrite Hnone. reflexivity. }
      destruct (IH mat (MovLocals (tail_size l) (tail_seen l) (val_get_state vn)) vs')
        as (mat' & Hrun & Hr' & Hc' & Hdc & Hdr & Hlen2 & Hn0 & Hframe & Htop
            & Hcells);
        [exact Hwf|exact Hcol|lia|exact Hlen'|exact Hvs'|].
      exists mat'. split; [exact Hrun|].
      repeat (split; [assumption|]).
      split; [discriminate|].
      split.
      { intros j Hj. apply Hframe. intros r Hr Hr2. apply Hj; lia. }
      split.
      { intros v Hv. destruct n as [|n'].
        - rewrite (Hn0 eq_refl). destruct vs'; [|discriminate Hlen'].
          cbn in Hv. injection Hv as <-. rewrite Hvac. exact Hvn.
        - apply Htop. rewrite lookup_app_l in Hv; [exact Hv|lia]. }
      intros r u v Hr Hr1 Hu Hv.
      destruct (Nat.eq_dec r n) as [->|Hne].
      * rewrite lookup_app_r in Hu by lia.
        rewrite Hlen', Nat.sub_diag in Hu. injection Hu as <-.
        unfold landed. rewrite Hnone. change (STATE_NONE =? STATE_NONE) with true.
        cbv iota. rewrite Nat.ltb_irrefl.
        rewrite Hframe; [exact Hv|].
        intros r Hr0 Hr2. apply idx_ne_row; lia.
      * rewrite lookup_app_l in Hu by lia.
        rewrite (Hcells r u v) by (assumption || lia). f_equal. f_equal.
        destruct (Nat.ltb_spec (S r) n); destruct (Nat.ltb_spec (S r) (S n));
          try lia; try reflexivity.
        assert (Z.of_nat r + 1 = row) as Heq by lia.
        rewrite Heq, Hvn in Hv. injection Hv as <-. symmetry. exact Hvac.
    + (* the cell moves down one row *)
      assert (Hvac : vacated vn = cleared_cell vn).
      { unfold vacated. destruct (Z.eqb_spec (val_get_state vn) STATE_NONE);
          [contradiction|reflexivity]. }
      set (l1 := if val_get_state vn =? STATE_DROP
                 then MovLocals (val_get_tsize vn) 0 (val_get_state vn)
                 else if (val_get_state vn =? STATE_TAIL) && (0 <? tail_size l)
                      then MovLocals (tail_size l) (uint8 (tail_seen l + 1))
                                     (val_get_state vn)
                      else MovLocals (tail_size l) (tail_seen l)
                                     (val_get_state vn)).
      destruct (mov_cell_step mat row vn Hwf Hin Hvn)
        as (mat1 & Hrun1 & Hr1 & Hc1 & Hdc1 & Hdr1 & Hlen1 & Hclr & Hmoved
            & Hframe1).
      assert (Hwf1 : wf mat1).
      { unfold wf. rewrite Hr1, Hc1, Hlen1. exact Hwf. }
      assert (Hidx : forall r c, idx mat1 r c = idx mat r c)
        by (intros; apply idx_cols; exact Hc1).
      destruct (IH mat1 l1 vs')
        as (mat' & Hrun & Hr' & Hc' & Hdc & Hdr & Hlen2 & Hn0 & Hframe & Htop
            & Hcells);
        [exact Hwf1|lia|lia|exact Hlen'| |].
      { intros r Hr. rewrite Hidx, Hframe1; [apply Hvs'; exact Hr| |intros _];
          apply idx_ne_row; lia. }
      rewrite Hr1 in *. rewrite Hc1 in *.
      setoid_rewrite Hidx in Hframe. setoid_rewrite Hidx in Htop.
      setoid_rewrite Hidx in Hcells.
      exists mat'. split.
      { etransitivity; [|exact Hrun].
        apply (Hrun1 _ (fun m => mov_col_loop n m col l1)). }
      split; [exact Hr'|]. split; [exact Hc'|].
      split; [congruence|]. split; [congruence|]. split; [congruence|].
      split; [discriminate|].
      split.
      { intros j Hj. rewrite Hframe.
        - apply Hframe1; [apply Hj; lia|intros Hlt; apply Hj; lia].
        - intros r Hr0 Hr2. apply Hj; lia. }
      split.
      { intros v Hv. destruct n as [|n'].
        - rewrite (Hn0 eq_refl). destruct vs'; [|discriminate Hlen'].
          cbn in Hv. injection Hv as <-. rewrite Hvac. exact Hclr.
        - apply Htop. rewrite lookup_app_l in Hv; [exact Hv|lia]. }
      intros r u v Hr Hr2 Hu Hv.
      destruct (Nat.eq_dec r n) as [->|Hne].
      * rewrite lookup_app_r in Hu by lia.
        rewrite Hlen', Nat.sub_diag in Hu. injection Hu as <-.
        unfold landed.
        destruct (Z.eqb_spec (val_get_state vn) STATE_NONE); [contradiction|].
        rewrite Nat.ltb_irrefl.
        rewrite Hframe; [apply Hmoved; [lia|exact Hv]|].
        intros r Hr0 Hr3. apply idx_ne_row; lia.
      * rewrite lookup_app_l in Hu by lia.
        destruct (Nat.ltb_spec (S r) (S n)) as [_|]; [|lia].
        destruct (Nat.lt_ge_cases (S r) n) as [Hlt|Hge].
        -- rewrite (Hcells r u v); [|lia|lia|exact Hu|].
           ++ destruct (Nat.ltb_spec (S r) n); [reflexivity|lia].
           ++ rewrite Hframe1; [exact Hv| |intros _]; apply idx_ne_row; lia.
        -- assert (Z.of_nat r + 1 = row) as Heq by lia.
           rewrite Heq in Hv. rewrite Hvn in Hv. injection Hv as <-.
           rewrite (Hcells r u (cleared_cell vn));
             [|lia|lia|exact Hu|rewrite Heq; exact Hclr].
           destruct (Nat.ltb_spec (S r) n); [lia|].
           rewrite Hvac. reflexivity.
Qed.

End MovCells.

Lemma column_length (mat : matrix_s) (col : Z) :
  length (column mat col) = Z.to_nat (rows mat).
Proof. unfold column. rewrite length_fmap, length_seq. reflexivity. Qed.

Lemma column_lookup (mat : matrix_s) (col : Z) (r : nat) :
  wf mat -> 0 <= col < cols mat -> (r < Z.to_nat (rows mat))%nat ->
  data mat !! idx mat (Z.of_nat r) col = column mat col !! r.
Proof.
  intros Hwf Hcol Hr. unfold column.
  rewrite list_lookup_fmap, lookup_seq_lt by exact Hr.
  cbn [fmap option_fmap option_map Nat.add].
  assert (Hin : in_grid mat (Z.of_nat r) col) by (unfold in_grid; lia).
  destruct (mat_get_value_in _ _ _ Hwf Hin) as [_ [v ->]]. reflexivity.
Qed.

Lemma mov_locals_step_bounds (l : mov_locals) (v : Z) :
  0 <= tail_size l <= 63 -> 0 <= tail_seen l ->
  0 <= tail_size (mov_locals_step l v) <= 63 /\
  0 <= tail_seen (mov_locals_step l v) /\
  state (mov_locals_step l v) = val_get_state v.
Proof.
  intros Hts Hseen. unfold mov_locals_step.
  pose proof (val_get_tsize_range v).
  destruct (val_get_state v =? STATE_NONE); [cbn; lia|].
  destruct (val_get_state v =? STATE_DROP); [cbn; lia|].
  destruct ((val_get_state v =? STATE_TAIL) && (0 <? tail_size l)); cbn; [|lia].
  split; [lia|]. split; [|reflexivity].
  unfold uint8. apply Z.mod_pos_bound. lia.
Qed.

Lemma mov_locals_scan_bounds (vs : list Z) (l : mov_locals) :
  0 <= tail_size l <= 63 -> 0 <= tail_seen l ->
  0 <= tail_size (mov_locals_scan l vs) <= 63 /\
  0 <= tail_seen (mov_locals_scan l vs).
Proof.
  intros Hts Hseen. induction vs as [|v vs IH]; [cbn; lia|].
  cbn [mov_locals_scan foldr]. fold (mov_locals_scan l vs).
  destruct IH as [IH1 IH2].
  destruct (mov_locals_step_bounds (mov_locals_scan l vs) v IH1 IH2) as (? & ? & _).
  auto.
Qed.

Lemma mov_locals_scan_state (v : Z) (vs : list Z) (l : mov_locals) :
  state (mov_locals_scan l (v :: vs)) = val_get_state v.
Proof.
  cbn [mov_locals_scan foldr]. unfold mov_locals_step.
  destruct (val_get_state v =? STATE_NONE); [reflexivity|].
  destruct (val_get_state v =? STATE_DROP); [reflexivity|].
  destruct ((val_get_state v =? STATE_TAIL) && _); reflexivity.
Qed.

Section MovColumn.

Variable col : Z.

Lemma mat_mov_col_cells (mat : matrix_s) :
  wf mat -> 0 <= col < cols mat ->
  exists mat' vb v0,
    data mat !! idx mat (rows mat - 1) col = Some vb /\
    data mat !! idx mat 0 col = Some v0 /\
    mat_mov_col mat col
      = Some (mat', if val_get_state vb =? STATE_DROP then 1 else 0) /\
    rows mat' = rows mat /\ cols mat' = cols mat /\
    drop_count mat' = drop_count mat /\ drop_ratio mat' = drop_ratio mat /\
    length (data mat') = length (data mat) /\
    (forall j : nat,
       (forall r, 0 <= r < rows mat -> j <> idx mat r col) ->
       data mat' !! j = data mat !! j) /\
    data mat' !! idx mat 0 col
      = Some (top_cell (mov_locals_scan (MovLocals 0 0 STATE_NONE)
                                        (column mat col)) v0) /\
    (forall r u v, 0 <= r -> r + 1 < rows mat ->
       data mat !! idx mat r col = Some u ->
       data mat !! idx mat (r + 1) col = Some v ->
       data mat' !! idx mat (r + 1) col = Some (landed u (vacated v))).
Proof.
  intros Hwf Hcol. pose proof Hwf as (Hrows & Hcols & Hlen).
  assert (Hinb : in_grid mat (rows mat - 1) col) by (unfold in_grid; lia).
  assert (Hin0 : in_grid mat 0 col) by (unfold in_grid; lia).
  destruct (mat_get_value_in _ _ _ Hwf Hinb) as [Hgetb [vb Hvb]].
  destruct (mat_get_value_in _ _ _ Hwf Hin0) as [_ [v0 Hv0]].
  set (l0 := MovLocals 0 0 STATE_NONE).
  destruct (mov_col_loop_cells col (Z.to_nat (rows mat)) mat l0 (column mat col))
    as (mat1 & Hrun & Hr1 & Hc1 & Hdc1 & Hdr1 & Hlen1 & _ & Hframe1 & Htop1
        & Hcells1);
    [exact Hwf|exact Hcol|lia|apply column_length
    |intros r Hr; apply column_lookup; assumption|].
  set (l := mov_locals_scan l0 (column mat col)) in *.
  assert (Hcol0 : column mat col !! 0%nat = Some v0).
  { rewrite <- (column_lookup mat col 0) by (assumption || lia). exact Hv0. }
  assert (Hstate : state l = val_get_state v0).
  { unfold l. destruct (column mat col) as [|w ws]; [discriminate Hcol0|].
    injection Hcol0 as ->. apply mov_locals_scan_state. }
  destruct (mov_locals_scan_bounds (column mat col) l0) as [Hts Hseen];
    [cbn; lia|cbn; lia|]. fold l in Hts, Hseen.
  specialize (Htop1 v0 Hcol0).
  assert (Hwf1 : wf mat1) by (unfold wf; rewrite Hr1, Hc1, Hlen1; exact Hwf).
  assert (Hin1 : in_grid mat1 0 col) by (unfold in_grid; lia).
  assert (Hidx : forall r c, idx mat1 r c = idx mat r c)
    by (intros; apply idx_cols; exact Hc1).
  assert (Hshift : forall r u v, 0 <= r -> r + 1 < rows mat ->
            data mat !! idx mat r col = Some u ->
            data mat !! idx mat (r + 1) col = Some v ->
            data mat1 !! idx mat (r + 1) col = Some (landed u (vacated v))).
  { intros r u v Hr Hr1' Hu Hv.
    specialize (Hcells1 (Z.to_nat r) u v).
    rewrite Z2Nat.id in Hcells1 by lia.
    rewrite Hcells1; [|lia|lia| |exact Hv].
    - destruct (Nat.ltb_spec (S (Z.to_nat r)) (Z.to_nat (rows mat))); [reflexivity|lia].
    - rewrite <- column_lookup by (assumption || lia).
      rewrite Z2Nat.id by lia. exact Hu. }
  exists (if negb (state l =? STATE_NONE) && (tail_seen l <? tail_size l)
          then put mat1 0 col (top_cell l v0) else mat1), vb, v0.
  split; [exact Hvb|]. split; [exact Hv0|]. split.
  { unfold mat_mov_col, mat_get_state. rewrite Hgetb, Hvb.
    cbn [fmap option_fmap option_map mbind option_bind].
    change (MovLocals 0 0 STATE_NONE) with l0. rewrite Hrun.
    cbn [mbind option_bind]. unfold top_cell.
    destruct (negb (state l =? STATE_NONE) && (tail_seen l <? tail_size l)) eqn:Hput;
      [|reflexivity].
    apply andb_true_iff in Hput as [_ Hlt]. apply Z.ltb_lt in Hlt.
    rewrite (mat_put_cell_tail_in mat1 0 col _ _
               (ceil_div ((NUM_COLORS - 1) * (tail_seen l + 1)) (tail_size l))
               (vacated v0));
      [reflexivity|exact Hwf1|exact Hin1|rewrite Hidx; exact Htop1|].
    apply tail_color_exact; unfold TSIZE_MAX; lia. }
  destruct (negb (state l =? STATE_NONE) && (tail_seen l <? tail_size l)) eqn:Hput.
  - cbn [put set_data rows cols drop_count drop_ratio data].
    split; [exact Hr1|]. split; [exact Hc1|]. split; [exact Hdc1|].
    split; [exact Hdr1|]. split; [rewrite length_insert; exact Hlen1|].
    split.
    { intros j Hj. rewrite list_lookup_insert_ne.
      - apply Hframe1. intros r Hr Hr2. apply Hj. lia.
      - rewrite Hidx. intros Heq. apply (Hj 0); [lia|]. congruence. }
    split.
    { rewrite Hidx. apply list_lookup_insert_eq.
      eapply lookup_lt_Some. exact Htop1. }
    intros r u v Hr Hr2 Hu Hv.
    rewrite list_lookup_insert_ne; [apply Hshift; assumption|].
    rewrite Hidx. apply idx_ne_row; lia.
  - split; [exact Hr1|]. split; [exact Hc1|]. split; [exact Hdc1|].
    split; [exact Hdr1|]. split; [exact Hlen1|].
    split.
    { intros j Hj. apply Hframe1. intros r Hr Hr2. apply Hj. lia. }
    split.
    { unfold top_cell. rewrite Hput. exact Htop1. }
    exact Hshift.
Qed.

End MovColumn.

Section MovedFields.

Implicit Types (u v w : Z) (l : mov_locals).

Lemma state_vacated v : val_get_state (vacated v) = STATE_NONE.
Proof.
  unfold vacated. destruct (Z.eqb_spec (val_get_state v) STATE_NONE);
    [assumption|apply state_cleared_cell].
Qed.

Lemma tsize_vacated v :
  val_get_tsize (vacated v)
    = if val_get_state v =? STATE_NONE then val_get_tsize v else 0.
Proof.
  unfold vacated. destruct (val_get_state v =? STATE_NONE); [reflexivity|].
  unfold cleared_cell. apply tsize_cell_set_tsize.
Qed.

Lemma ascii_vacated v : val_get_ascii (vacated v) = val_get_ascii v.
Proof.
  unfold vacated. destruct (val_get_state v =? STATE_NONE); [reflexivity|].
  unfold cleared_cell. rewrite ascii_cell_set_tsize. apply ascii_cell_set_state.
Qed.

Lemma vacated_none v : val_get_state v = STATE_NONE -> vacated v = v.
Proof. intros H. unfold vacated. rewrite H. reflexivity. Qed.

Lemma state_landed u w :
  val_get_state (landed u w)
    = if val_get_state u =? STATE_NONE then val_get_state w else val_get_state u.
Proof.
  unfold landed. destruct (val_get_state u =? STATE_NONE); [reflexivity|].
  apply state_moved_cell, val_get_state_range.
Qed.

Lemma tsize_landed u w :
  val_get_tsize (landed u w)
    = if val_get_state u =? STATE_NONE then val_get_tsize w else val_get_tsize u.
Proof.
  unfold landed. destruct (val_get_state u =? STATE_NONE); [reflexivity|].
  unfold moved_cell. rewrite tsize_cell_set_tsize.
  apply Z.mod_small, val_get_tsize_range.
Qed.

Lemma ascii_landed u w : val_get_ascii (landed u w) = val_get_ascii w.
Proof.
  unfold landed. destruct (val_get_state u =? STATE_NONE); [reflexivity|].
  unfold moved_cell. rewrite ascii_cell_set_tsize. apply ascii_cell_set_state.
Qed.

Lemma state_landed_vacated u v :
  val_get_state (landed u (vacated v)) = val_get_state u.
Proof.
  rewrite state_landed, state_vacated.
  destruct (Z.eqb_spec (val_get_state u) STATE_NONE); congruence.
Qed.

Lemma ascii_top_cell l v : val_get_ascii (top_cell l v) = val_get_ascii v.
Proof.
  unfold top_cell.
  destruct (negb (state l =? STATE_NONE) && (tail_seen l <? tail_size l)).
  - rewrite ascii_tail_cell. apply ascii_vacated.
  - apply ascii_vacated.
Qed.

Lemma state_top_cell l v :
  val_get_state (top_cell l v)
    = if negb (state l =? STATE_NONE) && (tail_seen l <? tail_size l)
      then STATE_TAIL else STATE_NONE.
Proof.
  unfold top_cell.
  destruct (negb (state l =? STATE_NONE) && (tail_seen l <? tail_size l)).
  - apply state_tail_cell.
  - apply state_vacated.
Qed.

End MovedFields.

(** X11: [mat_mov_col] on a column of a well-formed matrix.  It returns 1
    when the bottom cell of the column is a DROP cell and 0 otherwise.  Every
    cell below the top takes the state of the cell above it, and its tail size
    when that cell is not NONE; the top cell ends as NONE or TAIL, and is
    untouched when it was NONE.  Characters do not move: every cell of the
    grid keeps its character, and cells of other columns keep their word.
    Neither the shape nor [drop_count] changes. *)
Theorem mat_mov_col_shifts (mat : matrix_s) (col : Z) :
  wf mat -> 0 <= col < cols mat ->
  exists mat',
    mat_mov_col mat col = Some (mat', drop_at mat (rows mat - 1) col) /\
    rows mat' = rows mat /\ cols mat' = cols mat /\
    drop_count mat' = drop_count mat /\ drop_ratio mat' = drop_ratio mat /\
    (forall r, 0 < r < rows mat ->
       mat_get_state mat' r col = mat_get_state mat (r - 1) col) /\
    (forall r, 0 < r < rows mat ->
       mat_get_state mat (r - 1) col <> Some STATE_NONE ->
       mat_get_tsize mat' r col = mat_get_tsize mat (r - 1) col) /\
    (mat_get_state mat' 0 col = Some STATE_NONE \/
     mat_get_state mat' 0 col = Some STATE_TAIL) /\
    (mat_get_state mat 0 col = Some STATE_NONE ->
     mat_get_value mat' 0 col = mat_get_value mat 0 col) /\
    (forall r c, in_grid mat r c ->
       mat_get_ascii mat' r c = mat_get_ascii mat r c) /\
    (forall r c, in_grid mat r c -> c <> col ->
       mat_get_value mat' r c = mat_get_value mat r c).
Proof.
  intros Hwf Hcol. pose proof Hwf as (Hrows & Hcols & Hlen).
  destruct (mat_mov_col_cells col mat Hwf Hcol)
    as (mat' & vb & v0 & Hvb & Hv0 & Hrun & Hr' & Hc' & Hdc & Hdr & Hlen'
        & Hframe & Htop & Hshift).
  assert (Hinb : in_grid mat (rows mat - 1) col) by (unfold in_grid; lia).
  assert (Hin0 : in_grid mat 0 col) by (unfold in_grid; lia).
  exists mat'. split.
  { rewrite Hrun. rewrite (drop_at_in mat _ _ vb) by assumption. reflexivity. }
  split; [exact Hr'|]. split; [exact Hc'|]. split; [exact Hdc|].
  split; [exact Hdr|].
  assert (Hrow : forall r, 0 < r < rows mat ->
            exists u v, data mat !! idx mat (r - 1) col = Some u /\
                        data mat !! idx mat r col = Some v /\
                        data mat' !! idx mat r col = Some (landed u (vacated v))).
  { intros r Hr.
    assert (Hinu : in_grid mat (r - 1) col) by (unfold in_grid; lia).
    assert (Hinv : in_grid mat r col) by (unfold in_grid; lia).
    destruct (mat_get_value_in _ _ _ Hwf Hinu) as [_ [u Hu]].
    destruct (mat_get_value_in _ _ _ Hwf Hinv) as [_ [v Hv]].
    exists u, v. split; [exact Hu|]. split; [exact Hv|].
    specialize (Hshift (r - 1) u v).
    replace (r - 1 + 1) with r in Hshift by lia.
    apply Hshift; [lia|lia|exact Hu|exact Hv]. }
  split; [|split; [|split; [|split; [|split]]]].
  - intros r Hr. destruct (Hrow r Hr) as (u & v & Hu & Hv & Hv').
    assert (Hinu : in_grid mat (r - 1) col) by (unfold in_grid; lia).
    assert (Hinv : in_grid mat r col) by (unfold in_grid; lia).
    destruct (get_cell mat mat' r col _ Hwf Hr' Hc' Hlen' Hinv Hv')
      as (_ & -> & _ & _).
    destruct (get_cell_same mat (r - 1) col u Hwf Hinu Hu) as (_ & -> & _ & _).
    rewrite state_landed_vacated. reflexivity.
  - intros r Hr Hsome. destruct (Hrow r Hr) as (u & v & Hu & Hv & Hv').
    assert (Hinu : in_grid mat (r - 1) col) by (unfold in_grid; lia).
    assert (Hinv : in_grid mat r col) by (unfold in_grid; lia).
    destruct (get_cell mat mat' r col _ Hwf Hr' Hc' Hlen' Hinv Hv')
      as (_ & _ & -> & _).
    destruct (get_cell_same mat (r - 1) col u Hwf Hinu Hu) as (_ & Hs & -> & _).
    rewrite tsize_landed.
    destruct (Z.eqb_spec (val_get_state u) STATE_NONE) as [Hnone|_];
      [|reflexivity].
    exfalso. apply Hsome. rewrite Hs, Hnone. reflexivity.
  - destruct (get_cell mat mat' 0 col _ Hwf Hr' Hc' Hlen' Hin0 Htop)
      as (_ & -> & _ & _).
    rewrite state_top_cell.
    destruct (negb _ && _); auto.
  - intros Hnone.
    destruct (get_cell_same mat 0 col v0 Hwf Hin0 Hv0) as (-> & Hs & _ & _).
    rewrite Hs in Hnone. injection Hnone as Hnone.
    apply (get_cell mat mat' 0 col _ Hwf Hr' Hc' Hlen' Hin0).
    rewrite Htop. f_equal. unfold top_cell.
    assert (Hcol0 : column mat col !! 0%nat = Some v0).
    { rewrite <- (column_lookup mat col 0) by (assumption || lia). exact Hv0. }
    destruct (column mat col) as [|w ws]; [discriminate Hcol0|].
    injection Hcol0 as ->. rewrite mov_locals_scan_state, Hnone.
    change (STATE_NONE =? STATE_NONE) with true. cbn [negb andb].
    apply vacated_none, Hnone.
  - intros r c Hrc.
    destruct (mat_get_value_in _ _ _ Hwf Hrc) as [_ [v Hv]].
    destruct (get_cell_same mat r c v Hwf Hrc Hv) as (_ & _ & _ & ->).
    destruct (Z.eq_dec c col) as [->|Hne].
    + destruct (Z.eq_dec r 0) as [->|Hr0].
      * rewrite Hv0 in Hv. injection Hv as <-.
        destruct (get_cell mat mat' 0 col _ Hwf Hr' Hc' Hlen' Hin0 Htop)
          as (_ & _ & _ & ->).
        rewrite ascii_top_cell. reflexivity.
      * destruct Hrc as [Hr Hc0].
        destruct (Hrow r) as (u & v' & Hu & Hv2 & Hv'); [lia|].
        rewrite Hv in Hv2. injection Hv2 as <-.
        assert (Hinv : in_grid mat r col) by (split; assumption).
        destruct (get_cell mat mat' r col _ Hwf Hr' Hc' Hlen' Hinv Hv')
          as (_ & _ & _ & ->).
        rewrite ascii_landed, ascii_vacated. reflexivity.
    + assert (Hv' : data mat' !! idx mat r c = Some v).
      { rewrite Hframe; [exact Hv|]. apply idx_off_column; assumption. }
      destruct (get_cell mat mat' r c _ Hwf Hr' Hc' Hlen' Hrc Hv')
        as (_ & _ & _ & ->). reflexivity.
  - intros r c Hrc Hne.
    destruct (mat_get_value_in _ _ _ Hwf Hrc) as [Hget [v Hv]].
    rewrite Hget, Hv.
    apply (get_cell mat mat' r c v Hwf Hr' Hc' Hlen' Hrc).
    rewrite Hframe; [exact Hv|]. apply idx_off_column; assumption.
Qed.

Lemma mat_mov_col_shifts_witness :
  exists mat',
    mat_mov_col (Matrix [65; 66; 1601; 67; 2369; 68] 2 3 1 (F32.make 1 (-4))) 0
      = Some (mat', 1) /\
    mat_get_state mat' 2 0 = Some STATE_TAIL /\
    mat_get_ascii mat' 2 0 = Some 65.
Proof.
  destruct (mat_mov_col_shifts
              (Matrix [65; 66; 1601; 67; 2369; 68] 2 3 1 (F32.make 1 (-4))) 0)
    as (mat' & Hrun & _ & _ & _ & _ & Hs & _ & _ & _ & Ha & _).
  - unfold wf. cbn [rows cols data length]. lia.
  - cbn [cols]. lia.
  - exists mat'. split; [exact Hrun|]. split.
    + rewrite (Hs 2); [reflexivity|cbn [rows]; lia].
    + rewrite Ha; [reflexivity|unfold in_grid; cbn [rows cols]; lia].
Defined.

Section Scan.

Lemma mov_locals_scan_app (l : mov_locals) (vs ws : list Z) :
  mov_locals_scan l (vs ++ ws) = mov_locals_scan (mov_locals_scan l ws) vs.
Proof. unfold mov_locals_scan. apply foldr_app. Qed.

Lemma mov_locals_scan_cons (l : mov_locals) (v : Z) (vs : list Z) :
  mov_locals_scan l (v :: vs) = mov_locals_step (mov_locals_scan l vs) v.
Proof. reflexivity. Qed.

Lemma mov_locals_step_drop (l : mov_locals) (v : Z) :
  val_get_state v = STATE_DROP ->
  mov_locals_step l v = MovLocals (val_get_tsize v) 0 STATE_DROP.
Proof. intros H. unfold mov_locals_step. rewrite H. reflexivity. Qed.

(** Tail cells above a drop are counted, one by one, as long as the drop has
    a tail. *)
Lemma mov_locals_scan_tails (vs : list Z) (size seen st : Z) :
  Forall (fun v => val_get_state v = STATE_TAIL) vs ->
  0 <= seen -> seen + Z.of_nat (length vs) < 256 ->
  mov_locals_scan (MovLocals size seen st) vs
    = MovLocals size
        (if 0 <? size then seen + Z.of_nat (length vs) else seen)
        (match vs with [] => st | _ :: _ => STATE_TAIL end).
Proof.
  intros Hall Hseen. induction Hall as [|v vs Hv Hall IH]; intros Hlen.
  - cbn [mov_locals_scan foldr length]. rewrite Z.add_0_r.
    destruct (0 <? size); reflexivity.
  - rewrite mov_locals_scan_cons, IH by (cbn [length] in Hlen; lia).
    unfold mov_locals_step. rewrite Hv. cbn [tail_size tail_seen].
    change (STATE_TAIL =? STATE_NONE) with false.
    change (STATE_TAIL =? STATE_DROP) with false.
    change (STATE_TAIL =? STATE_TAIL) with true. cbv iota. cbn [andb].
    destruct (0 <? size); [|reflexivity].
    f_equal. unfold uint8. cbn [length] in *. rewrite Z.mod_small by lia. lia.
Qed.

End Scan.

(** X12: tails grow from the top of the grid.  When the DROP cell of row
    [d < 256] has tail length [t] and all cells above it in its column are
    TAIL cells, [mat_mov_col] moves the drop to row [d + 1] with the same tail
    length, and the top cell becomes a TAIL cell of colour
    [ceil ((NUM_COLORS - 1) * (d + 1) / t)] as long as the tail is shorter
    than [t]; once [d >= t] the top cell is left NONE. *)
Theorem tail_grows_at_top (mat : matrix_s) (col d t : Z) :
  wf mat -> 0 <= col < cols mat -> 0 <= d < rows mat -> d < 256 ->
  mat_get_state mat d col = Some STATE_DROP ->
  mat_get_tsize mat d col = Some t ->
  (forall r, 0 <= r < d -> mat_get_state mat r col = Some STATE_TAIL) ->
  exists mat' dropped,
    mat_mov_col mat col = Some (mat', dropped) /\
    (d + 1 < rows mat ->
     mat_get_state mat' (d + 1) col = Some STATE_DROP /\
     mat_get_tsize mat' (d + 1) col = Some t) /\
    (d < t ->
     mat_get_state mat' 0 col = Some STATE_TAIL /\
     mat_get_tsize mat' 0 col
       = Some (ceil_div ((NUM_COLORS - 1) * (d + 1)) t) /\
     1 <= ceil_div ((NUM_COLORS - 1) * (d + 1)) t <= NUM_COLORS - 1) /\
    (t <= d -> mat_get_state mat' 0 col = Some STATE_NONE).
Proof.
  intros Hwf Hcol Hd Hd256 Hdrop Htsize Htails.
  pose proof Hwf as (Hrows & Hcols & Hlen).
  destruct (mat_mov_col_cells col mat Hwf Hcol)
    as (mat' & vb & v0 & _ & Hv0 & Hrun & Hr' & Hc' & _ & _ & Hlen'
        & _ & Htop & Hshift).
  assert (Hind : in_grid mat d col) by (unfold in_grid; lia).
  assert (Hin0 : in_grid mat 0 col) by (unfold in_grid; lia).
  destruct (mat_get_value_in _ _ _ Hwf Hind) as [_ [vd Hvd]].
  destruct (get_cell_same mat d col vd Hwf Hind Hvd) as (_ & Hs & Ht & _).
  rewrite Hs in Hdrop. injection Hdrop as Hdrop.
  rewrite Ht in Htsize. injection Htsize as Htsize.
  pose proof (val_get_tsize_range vd) as Htr. rewrite Htsize in Htr.
  (* the locals after the loop *)
  assert (Hcold : column mat col !! Z.to_nat d = Some vd).
  { rewrite <- column_lookup by (assumption || lia).
    rewrite Z2Nat.id by lia. exact Hvd. }
  assert (Hscan : mov_locals_scan (MovLocals 0 0 STATE_NONE) (column mat col)
                  = MovLocals t (if 0 <? t then d else 0)
                              (if d =? 0 then STATE_DROP else STATE_TAIL)).
  { rewrite <- (take_drop_middle _ _ _ Hcold).
    rewrite mov_locals_scan_app, mov_locals_scan_cons.
    rewrite mov_locals_step_drop by exact Hdrop. rewrite Htsize.
    assert (Htake : length (take (Z.to_nat d) (column mat col)) = Z.to_nat d).
    { rewrite length_take, column_length. lia. }
    rewrite mov_locals_scan_tails.
    - rewrite Htake, Z2Nat.id by lia. f_equal.
      destruct (take (Z.to_nat d) (column mat col)) eqn:Heq;
        cbn [length] in Htake.
      + destruct (Z.eqb_spec d 0); [reflexivity|lia].
      + destruct (Z.eqb_spec d 0); [lia|reflexivity].
    - apply Forall_lookup. intros i v Hv.
      apply lookup_take_Some in Hv as [Hv Hi].
      rewrite <- column_lookup in Hv by (assumption || lia).
      assert (Hini : in_grid mat (Z.of_nat i) col) by (unfold in_grid; lia).
      destruct (get_cell_same mat _ col v Hwf Hini Hv) as (_ & Hsi & _ & _).
      rewrite Htails in Hsi by lia. congruence.
    - lia.
    - rewrite Htake. lia. }
  rewrite Hscan in Htop.
  destruct (get_cell mat mat' 0 col _ Hwf Hr' Hc' Hlen' Hin0 Htop)
    as (_ & Hs0 & Ht0 & _).
  exists mat', (if val_get_state vb =? STATE_DROP then 1 else 0).
  split; [exact Hrun|]. split; [|split].
  - intros Hd1.
    assert (Hin1 : in_grid mat (d + 1) col) by (unfold in_grid; lia).
    destruct (mat_get_value_in _ _ _ Hwf Hin1) as [_ [v1 Hv1]].
    pose proof (Hshift d vd v1 ltac:(lia) Hd1 Hvd Hv1) as Hv'.
    destruct (get_cell mat mat' (d + 1) col _ Hwf Hr' Hc' Hlen' Hin1 Hv')
      as (_ & -> & -> & _).
    rewrite state_landed_vacated, tsize_landed, Hdrop.
    change (STATE_DROP =? STATE_NONE) with false. cbv iota.
    split; [reflexivity|congruence].
  - intros Hdt.
    destruct (tail_color_range t (d + 1)) as (c & Hc & Hrange);
      [lia|unfold TSIZE_MAX; lia|].
    rewrite tail_color_exact in Hc by (unfold TSIZE_MAX; lia).
    injection Hc as <-.
    assert (Hcond : negb ((if d =? 0 then STATE_DROP else STATE_TAIL) =? STATE_NONE)
                    && ((if 0 <? t then d else 0) <? t) = true).
    { destruct (Z.ltb_spec 0 t); [|lia].
      destruct (Z.ltb_spec d t); [|lia].
      destruct (d =? 0); reflexivity. }
    rewrite Hs0, Ht0. unfold top_cell. cbn [state tail_seen tail_size].
    rewrite Hcond.
    destruct (Z.ltb_spec 0 t); [|lia].
    rewrite state_tail_cell, tsize_tail_cell.
    split; [reflexivity|]. split; [|exact Hrange].
    f_equal. apply Z.mod_small. change (NUM_COLORS - 1) with 5 in *. lia.
  - intros Htd. rewrite Hs0, state_top_cell. cbn [state tail_seen tail_size].
    destruct (Z.ltb_spec 0 t).
    + destruct (Z.ltb_spec d t); [lia|]. rewrite andb_false_r. reflexivity.
    + destruct (Z.ltb_spec 0 t); [lia|]. rewrite andb_false_r. reflexivity.
Qed.

Lemma tail_grows_at_top_witness :
  exists mat' dropped,
    mat_mov_col (Matrix [577; 66; 2369; 67; 65; 68] 2 3 1 (F32.make 1 (-4))) 0
      = Some (mat', dropped) /\
    mat_get_state mat' 0 0 = Some STATE_TAIL /\
    mat_get_tsize mat' 0 0 = Some 5.
Proof.
  destruct (tail_grows_at_top
              (Matrix [577; 66; 2369; 67; 65; 68] 2 3 1 (F32.make 1 (-4))) 0 1 2)
    as (mat' & dropped & Hrun & _ & Hgrow & _).
  - unfold wf. cbn [rows cols data length]. lia.
  - cbn [cols]. lia.
  - cbn [rows]. lia.
  - lia.
  - reflexivity.
  - reflexivity.
  - intros r Hr. assert (r = 0) as -> by lia. reflexivity.
  - exists mat', dropped. split; [exact Hrun|].
    destruct Hgrow as (Hs & Ht & _); [lia|]. split; [exact Hs|exact Ht].
Defined.

(** ** Properties kept by placing and moving *)

Section Stable.

Variable rand_seq : nat -> Z.
Hypothesis rand_range : forall n, 0 <= rand_seq n <= RAND_MAX.

Variable I : matrix_s -> Prop.
Hypothesis I_wf : forall mat, I mat -> wf mat.
Hypothesis I_count : forall mat n, I mat -> I (set_drop_count n mat).
Hypothesis I_add : forall mat row col tsize mat',
  I mat -> 0 <= col < cols mat -> 0 <= tsize <= TSIZE_MAX ->
  mat_add_drop mat row col tsize = Some mat' -> I mat'.
Hypothesis I_mov : forall mat col mat' dropped,
  I mat -> 0 <= col < cols mat ->
  mat_mov_col mat col = Some (mat', dropped) -> I mat'.

Lemma spawn_loop_stable (n : nat) : forall mat k mat' k',
  I mat -> spawn_loop rand_seq n mat k = Some (mat', k') -> I mat'.
Proof.
  induction n as [|n IH]; intros mat k mat' k' HI Hrun.
  - cbn [spawn_loop] in Hrun. injection Hrun as <- _. exact HI.
  - pose proof (I_wf _ HI) as (Hrows & Hcols & _).
    cbn [spawn_loop] in Hrun.
    destruct (rand_int_range rand_seq rand_range 0 (cols mat - 1) k)
      as (col & Hc & Hcol); [lia|].
    rewrite Hc in Hrun. cbn [mbind option_bind] in Hrun.
    destruct (rand_int_range rand_seq rand_range TSIZE_MIN TSIZE_MAX (S k))
      as (ts & Ht & Hts); [unfold TSIZE_MIN, TSIZE_MAX; lia|].
    rewrite Ht in Hrun. cbn [mbind option_bind] in Hrun.
    destruct (mat_add_drop mat 0 col ts) as [mat1|] eqn:Hadd;
      [|discriminate Hrun].
    cbn [mbind option_bind] in Hrun.
    apply (IH mat1 _ _ _) in Hrun; [exact Hrun|].
    apply (I_add mat 0 col ts); [exact HI|lia|unfold TSIZE_MIN in Hts; lia|exact Hadd].
Qed.

Lemma rain_loop_stable (n : nat) : forall mat k mat' k',
  I mat -> rain_loop rand_seq n mat k = Some (mat', k') -> I mat'.
Proof.
  induction n as [|n IH]; intros mat k mat' k' HI Hrun.
  - cbn [rain_loop] in Hrun. injection Hrun as <- _. exact HI.
  - pose proof (I_wf _ HI) as (Hrows & Hcols & _).
    cbn [rain_loop] in Hrun.
    destruct (rand_int_range rand_seq rand_range 0 (cols mat - 1) k)
      as (col & Hc & Hcol); [lia|].
    rewrite Hc in Hrun. cbn [mbind option_bind] in Hrun.
    destruct (rand_int_range rand_seq rand_range 0 (rows mat - 1) (S k))
      as (row & Hr & Hrow); [lia|].
    rewrite Hr in Hrun. cbn [mbind option_bind] in Hrun.
    destruct (rand_int_range rand_seq rand_range TSIZE_MIN TSIZE_MAX (S (S k)))
      as (ts & Ht & Hts); [unfold TSIZE_MIN, TSIZE_MAX; lia|].
    rewrite Ht in Hrun. cbn [mbind option_bind] in Hrun.
    destruct (mat_add_drop mat row col ts) as [mat1|] eqn:Hadd;
      [|discriminate Hrun].
    cbn [mbind option_bind] in Hrun.
    apply (IH mat1 _ _ _) in Hrun; [exact Hrun|].
    apply (I_add mat row col ts); [exact HI|lia|unfold TSIZE_MIN in Hts; lia|exact Hadd].
Qed.

Lemma advance_loop_stable (n : nat) : forall mat col mat',
  I mat -> 0 <= col -> col + Z.of_nat n = cols mat ->
  advance_loop n mat col = Some mat' -> I mat'.
Proof.
  induction n as [|n IH]; intros mat col mat' HI Hcol Hn Hrun.
  - cbn [advance_loop] in Hrun. injection Hrun as <-. exact HI.
  - cbn [advance_loop] in Hrun.
    destruct (mat_mov_col_cells col mat (I_wf _ HI))
      as (mat1 & vb & v0 & _ & _ & Hmov & _ & Hc1 & _); [lia|].
    rewrite Hmov in Hrun. cbn [mbind option_bind] in Hrun.
    apply IH in Hrun; [exact Hrun| |lia|cbn [set_drop_count cols]; lia].
    apply I_count. eapply I_mov; [exact HI| |exact Hmov]. lia.
Qed.

Lemma mat_update_spawn_stable mat k mat' k' :
  I mat -> mat_update_spawn rand_seq mat k = Some (mat', k') -> I mat'.
Proof.
  intros HI Hrun. unfold mat_update_spawn in Hrun.
  destruct (drops_to_add mat) as [to_add|]; [|discriminate Hrun].
  cbn [mbind option_bind] in Hrun.
  eapply spawn_loop_stable; eassumption.
Qed.

Lemma mat_update_advance_stable mat mat' :
  I mat -> mat_update_advance mat = Some mat' -> I mat'.
Proof.
  intros HI Hrun. unfold mat_update_advance in Hrun.
  pose proof (I_wf _ HI) as (_ & Hcols & _).
  eapply advance_loop_stable; [exact HI| | |exact Hrun]; lia.
Qed.

Lemma mat_update_stable mat k mat' k' :
  I mat -> mat_update rand_seq mat k = Some (mat', k') -> I mat'.
Proof.
  intros HI Hrun. unfold mat_update in Hrun.
  destruct (mat_update_spawn rand_seq mat k) as [[mat1 k1]|] eqn:Hspawn;
    [|discriminate Hrun].
  cbn [mbind option_bind] in Hrun.
  destruct (mat_update_advance mat1) as [mat2|] eqn:Hadv; [|discriminate Hrun].
  cbn [mbind option_bind] in Hrun. injection Hrun as <- _.
  eapply mat_update_advance_stable; [|exact Hadv].
  eapply mat_update_spawn_stable; eassumption.
Qed.

Lemma mat_rain_stable mat k mat' k' :
  I mat -> mat_rain rand_seq mat k = Some (mat', k') -> I mat'.
Proof.
  intros HI Hrun. unfold mat_rain in Hrun.
  destruct (F32.to_int _) as [num|]; [|discriminate Hrun].
  cbn [mbind option_bind] in Hrun.
  eapply rain_loop_stable; eassumption.
Qed.

End Stable.

(** ** Characters *)

Section Chars.

Implicit Types (mat : matrix_s).

Lemma same_chars_refl mat : same_chars mat mat.
Proof. repeat split. Qed.

Lemma same_chars_trans m1 m2 m3 :
  same_chars m1 m2 -> same_chars m2 m3 -> same_chars m1 m3.
Proof.
  intros (Hr1 & Hc1 & H1) (Hr2 & Hc2 & H2).
  split; [congruence|]. split; [congruence|].
  intros r c Hin. rewrite H2, H1; [reflexivity|exact Hin|].
  unfold in_grid in *. rewrite Hr1, Hc1. exact Hin.
Qed.

Lemma same_chars_set_drop_count mat0 mat n :
  same_chars mat0 mat -> same_chars mat0 (set_drop_count n mat).
Proof. intros H. exact H. Qed.

(** A matrix of the shape of [mat] whose cells have the characters of the
    cells of [mat]. *)
Lemma same_chars_cells mat mat' :
  wf mat -> rows mat' = rows mat -> cols mat' = cols mat ->
  length (data mat') = length (data mat) ->
  (forall r c v, in_grid mat r c -> data mat !! idx mat r c = Some v ->
     exists v', data mat' !! idx mat r c = Some v' /\
                val_get_ascii v' = val_get_ascii v) ->
  wf mat' /\ same_chars mat mat'.
Proof.
  intros Hwf Hr Hc Hlen Hcells.
  split; [unfold wf; rewrite Hr, Hc, Hlen; exact Hwf|].
  split; [exact Hr|]. split; [exact Hc|].
  intros r c Hin.
  destruct (mat_get_value_in _ _ _ Hwf Hin) as [_ [v Hv]].
  destruct (Hcells r c v Hin Hv) as (v' & Hv' & Ha).
  destruct (get_cell mat mat' r c v' Hwf Hr Hc Hlen Hin Hv') as (_ & _ & _ & ->).
  destruct (get_cell_same mat r c v Hwf Hin Hv) as (_ & _ & _ & ->).
  congruence.
Qed.

Lemma mat_add_drop_chars mat row col tsize mat' :
  wf mat -> 0 <= col < cols mat -> 0 <= tsize <= TSIZE_MAX ->
  mat_add_drop mat row col tsize = Some mat' ->
  wf mat' /\ same_chars mat mat'.
Proof.
  intros Hwf Hcol Hts Hrun.
  destruct (mat_add_drop_cells col tsize mat row Hwf Hcol Hts)
    as (m & Hrun' & Hr' & Hc' & _ & Hlen' & _ & Hframe & Hcells).
  rewrite Hrun' in Hrun. injection Hrun as <-.
  apply same_chars_cells; try assumption.
  intros r c v Hin Hv.
  destruct (Z.eq_dec c col) as [->|Hne].
  - destruct Hin as [Hr _]. rewrite (Hcells r v Hr Hv). eexists.
    split; [reflexivity|].
    destruct ((r <=? row) && (row - r <=? tsize)); [|reflexivity].
    apply ascii_trace_cell.
  - exists v. split; [|reflexivity].
    rewrite Hframe; [exact Hv|]. apply idx_off_column; assumption.
Qed.

Lemma mat_mov_col_chars mat col mat' dropped :
  wf mat -> 0 <= col < cols mat ->
  mat_mov_col mat col = Some (mat', dropped) ->
  wf mat' /\ same_chars mat mat'.
Proof.
  intros Hwf Hcol Hrun. pose proof Hwf as (Hrows & _ & _).
  destruct (mat_mov_col_cells col mat Hwf Hcol)
    as (m & vb & v0 & _ & Hv0 & Hrun' & Hr' & Hc' & _ & _ & Hlen'
        & Hframe & Htop & Hshift).
  rewrite Hrun' in Hrun. injection Hrun as <- _.
  apply same_chars_cells; try assumption.
  intros r c v Hin Hv.
  destruct (Z.eq_dec c col) as [->|Hne].
  - destruct (Z.eq_dec r 0) as [->|Hr0].
    + rewrite Hv0 in Hv. injection Hv as <-.
      eexists. split; [exact Htop|apply ascii_top_cell].
    + destruct Hin as [Hr Hc0].
      assert (Hinu : in_grid mat (r - 1) col) by (unfold in_grid; lia).
      destruct (mat_get_value_in _ _ _ Hwf Hinu) as [_ [u Hu]].
      specialize (Hshift (r - 1) u v).
      replace (r - 1 + 1) with r in Hshift by lia.
      eexists. split; [apply Hshift; [lia|lia|exact Hu|exact Hv]|].
      rewrite ascii_landed. apply ascii_vacated.
  - exists v. split; [|reflexivity].
    rewrite Hframe; [exact Hv|]. apply idx_off_column; assumption.
Qed.

End Chars.

Section CharsKept.

Variable rand_seq : nat -> Z.
Hypothesis rand_range : forall n, 0 <= rand_seq n <= RAND_MAX.
Variable mat0 : matrix_s.

Lemma keeps_chars_add mat row col tsize mat' :
  keeps_chars mat0 mat -> 0 <= col < cols mat -> 0 <= tsize <= TSIZE_MAX ->
  mat_add_drop mat row col tsize = Some mat' -> keeps_chars mat0 mat'.
Proof.
  intros [Hwf Hsame] Hcol Hts Hrun.
  destruct (mat_add_drop_chars _ _ _ _ _ Hwf Hcol Hts Hrun) as [Hwf' Hstep].
  split; [exact Hwf'|]. eapply same_chars_trans; eassumption.
Qed.

Lemma keeps_chars_mov mat col mat' dropped :
  keeps_chars mat0 mat -> 0 <= col < cols mat ->
  mat_mov_col mat col = Some (mat', dropped) -> keeps_chars mat0 mat'.
Proof.
  intros [Hwf Hsame] Hcol Hrun.
  destruct (mat_mov_col_chars _ _ _ _ Hwf Hcol Hrun) as [Hwf' Hstep].
  split; [exact Hwf'|]. eapply same_chars_trans; eassumption.
Qed.

Lemma keeps_chars_wf mat : keeps_chars mat0 mat -> wf mat.
Proof. intros [H _]. exact H. Qed.

Lemma keeps_chars_count mat n : keeps_chars mat0 mat -> keeps_chars mat0 (set_drop_count n mat).
Proof. intros H. exact H. Qed.

Lemma mat_update_chars mat k mat' k' :
  keeps_chars mat0 mat -> mat_update rand_seq mat k = Some (mat', k') -> keeps_chars mat0 mat'.
Proof.
  apply (mat_update_stable rand_seq rand_range (keeps_chars mat0) keeps_chars_wf
           keeps_chars_count keeps_chars_add keeps_chars_mov).
Qed.

Lemma mat_rain_chars mat k mat' k' :
  keeps_chars mat0 mat -> mat_rain rand_seq mat k = Some (mat', k') -> keeps_chars mat0 mat'.
Proof.
  apply (mat_rain_stable rand_seq rand_range (keeps_chars mat0) keeps_chars_wf
           keeps_chars_add).
Qed.

End CharsKept.

Section Runs.

Variable rand_seq : nat -> Z.
Hypothesis rand_range : forall n, 0 <= rand_seq n <= RAND_MAX.

Lemma mat_update_runs (mat : matrix_s) (k : nat) (to_add : Z) :
  wf mat -> drops_to_add mat = Some to_add ->
  exists mat',
    mat_update rand_seq mat k
      = Some (mat', (k + 2 * Z.to_nat (to_add + 1))%nat).
Proof.
  intros Hwf Hadd. unfold mat_update, mat_update_spawn.
  rewrite Hadd. cbn [mbind option_bind].
  destruct (spawn_loop_keeps rand_seq rand_range (Z.to_nat (to_add + 1)) mat k Hwf)
    as (mat1 & -> & Hok1).
  cbn [mbind option_bind].
  assert (Hwf1 : wf mat1) by (eapply keeps_ok_wf; eassumption).
  destruct (advance_loop_spec (Z.to_nat (cols mat1)) mat1 0 Hwf1)
    as (mat2 & Hadv & _);
    [lia|destruct Hwf1 as (_ & ? & _); lia|].
  unfold mat_update_advance. rewrite Hadv. cbn [mbind option_bind]. eauto.
Qed.

Lemma rain_loop_count (n : nat) : forall (mat : matrix_s) (k : nat),
  wf mat ->
  exists mat',
    rain_loop rand_seq n mat k = Some (mat', (k + 3 * n)%nat) /\
    drop_ratio mat' = drop_ratio mat /\
    size_t (drop_count mat') = size_t (drop_count mat + Z.of_nat n) /\
    ((0 < n)%nat -> drop_count mat' = size_t (drop_count mat')).
Proof.
  induction n as [|n IH]; intros mat k Hwf.
  - exists mat. cbn [rain_loop]. rewrite Nat.add_0_r.
    split; [reflexivity|]. split; [reflexivity|].
    split; [f_equal; lia|lia].
  - pose proof Hwf as (Hrows & Hcols & _). cbn [rain_loop].
    destruct (rand_int_range rand_seq rand_range 0 (cols mat - 1) k)
      as (col & -> & Hcol); [lia|].
    cbn [mbind option_bind].
    destruct (rand_int_range rand_seq rand_range 0 (rows mat - 1) (S k))
      as (row & -> & Hrow); [lia|].
    cbn [mbind option_bind].
    destruct (rand_int_range rand_seq rand_range TSIZE_MIN TSIZE_MAX (S (S k)))
      as (ts & -> & Hts); [unfold TSIZE_MIN, TSIZE_MAX; lia|].
    cbn [mbind option_bind].
    destruct (mat_add_drop_cells col ts mat row)
      as (mat1 & -> & Hr1 & Hc1 & Hdr1 & Hlen1 & Hdc1 & _);
      [exact Hwf|lia|unfold TSIZE_MIN in Hts; lia|].
    cbn [mbind option_bind].
    assert (Hwf1 : wf mat1) by (unfold wf; rewrite Hr1, Hc1, Hlen1; exact Hwf).
    destruct (IH mat1 (S (S (S k))) Hwf1) as (mat' & Hrun & Hdr & Hcount & Hred).
    exists mat'. split; [rewrite Hrun; f_equal; f_equal; lia|].
    split; [congruence|].
    assert (Hdc : drop_count mat1 = size_t (drop_count mat + 1)).
    { rewrite Hdc1. destruct (Z.leb_spec 0 row); [|lia].
      destruct (Z.ltb_spec row (rows mat)); [reflexivity|lia]. }
    assert (Hsum : size_t (drop_count mat')
                   = size_t (drop_count mat + Z.of_nat (S n))).
    { rewrite Hcount, Hdc, size_t_add_idemp. f_equal. lia. }
    split; [exact Hsum|].
    intros _. destruct n as [|n'].
    + cbn [rain_loop] in Hrun. injection Hrun as <- _.
      rewrite Hdc. unfold size_t. rewrite Z.mod_mod by lia. reflexivity.
    + apply Hred. lia.
Qed.

End Runs.

(** X13: a tick moves states, never characters.  On a well-formed matrix
    whose loop bound [drops_to_add] is defined, [mat_update] returns after
    two values of [rand()] per spawned drop, keeps the shape, and every cell
    of the grid holds the character it held before. *)
Theorem tick_keeps_characters (rand_seq : nat -> Z) (mat : matrix_s) (k : nat)
    (to_add : Z) :
  (forall n, 0 <= rand_seq n <= RAND_MAX) ->
  wf mat -> drops_to_add mat = Some to_add ->
  exists mat',
    mat_update rand_seq mat k
      = Some (mat', (k + 2 * Z.to_nat (to_add + 1))%nat) /\
    rows mat' = rows mat /\ cols mat' = cols mat /\
    forall r c, in_grid mat r c ->
      mat_get_ascii mat' r c = mat_get_ascii mat r c.
Proof.
  intros Hrand Hwf Hadd.
  destruct (mat_update_runs rand_seq Hrand mat k to_add Hwf Hadd) as (mat' & Hrun).
  exists mat'. split; [exact Hrun|].
  destruct (mat_update_chars rand_seq Hrand mat mat k mat' _
              (conj Hwf (same_chars_refl mat)) Hrun) as [_ Hsame].
  exact Hsame.
Qed.

Lemma tick_keeps_characters_witness :
  exists mat',
    mat_update (fun n => (5 + 16 * Z.of_nat n) mod 1024)
               (Matrix (replicate 48 65) 16 3 0 (F32.make 1 (-4))) 0
      = Some (mat', 4%nat) /\
    mat_get_ascii mat' 1 5 = Some 65.
Proof.
  destruct (tick_keeps_characters (fun n => (5 + 16 * Z.of_nat n) mod 1024)
              (Matrix (replicate 48 65) 16 3 0 (F32.make 1 (-4))) 0 1)
    as (mat' & Hrun & _ & _ & Hchars).
  - intros n. cbv beta. unfold RAND_MAX.
    pose proof (Z.mod_pos_bound (5 + 16 * Z.of_nat n) 1024 ltac:(lia)). lia.
  - unfold wf. cbn [rows cols data length replicate]. lia.
  - vm_compute. reflexivity.
  - exists mat'. split; [exact Hrun|].
    rewrite Hchars; [reflexivity|unfold in_grid; cbn [rows cols]; lia].
Defined.

(** X14: [mat_rain] on a well-formed matrix whose number of drops [num]
    is defined.  It returns after three values of [rand()] per drop, keeps
    the shape and the ratio, adds [num] to [drop_count] (modulo [2^64]; nothing
    when [num <= 0]), and every cell keeps its character. *)
Theorem mat_rain_drops (rand_seq : nat -> Z) (mat : matrix_s) (k : nat)
    (num : Z) :
  (forall n, 0 <= rand_seq n <= RAND_MAX) ->
  wf mat ->
  F32.to_int (F32.mul (F32.of_Z (cols mat * rows mat)) (drop_ratio mat))
    = Some num ->
  exists mat',
    mat_rain rand_seq mat k = Some (mat', (k + 3 * Z.to_nat num)%nat) /\
    rows mat' = rows mat /\ cols mat' = cols mat /\
    drop_ratio mat' = drop_ratio mat /\
    drop_count mat'
      = (if 0 <? num then size_t (drop_count mat + num) else drop_count mat) /\
    forall r c, in_grid mat r c ->
      mat_get_ascii mat' r c = mat_get_ascii mat r c.
Proof.
  intros Hrand Hwf Hnum.
  destruct (rain_loop_count rand_seq Hrand (Z.to_nat num) mat k Hwf)
    as (mat' & Hloop & Hdr & Hcount & Hred).
  assert (Hrun : mat_rain rand_seq mat k = Some (mat', (k + 3 * Z.to_nat num)%nat)).
  { unfold mat_rain. rewrite Hnum. exact Hloop. }
  exists mat'. split; [exact Hrun|].
  destruct (mat_rain_chars rand_seq Hrand mat mat k mat' _
              (conj Hwf (same_chars_refl mat)) Hrun) as [_ (Hr & Hc & Hsame)].
  split; [exact Hr|]. split; [exact Hc|]. split; [exact Hdr|].
  split; [|exact Hsame].
  destruct (Z.ltb_spec 0 num) as [Hpos|Hneg].
  - rewrite Hred by lia. rewrite Hcount. f_equal. lia.
  - replace (Z.to_nat num) with 0%nat in Hloop by lia.
    cbn [rain_loop] in Hloop. injection Hloop as <-. reflexivity.
Qed.

Lemma mat_rain_drops_witness :
  exists mat',
    mat_rain (fun n => (5 + 16 * Z.of_nat n) mod 1024)
             (Matrix (replicate 48 65) 16 3 0 (F32.make 1 (-4))) 0
      = Some (mat', 9%nat) /\
    drop_count mat' = 3 /\
    mat_get_ascii mat' 2 7 = Some 65.
Proof.
  destruct (mat_rain_drops (fun n => (5 + 16 * Z.of_nat n) mod 1024)
              (Matrix (replicate 48 65) 16 3 0 (F32.make 1 (-4))) 0 3)
    as (mat' & Hrun & _ & _ & _ & Hdc & Hchars).
  - intros n. cbv beta. unfold RAND_MAX.
    pose proof (Z.mod_pos_bound (5 + 16 * Z.of_nat n) 1024 ltac:(lia)). lia.
  - unfold wf. cbn [rows cols data length replicate]. lia.
  - vm_compute. reflexivity.
  - exists mat'. split; [exact Hrun|]. split; [exact Hdc|].
    rewrite Hchars; [reflexivity|unfold in_grid; cbn [rows cols]; lia].
Defined.

(** ** Cells that can be shown *)

Section Shown.

Lemma cell_shown_none (v : Z) : val_get_state v = STATE_NONE -> cell_shown v.
Proof. intros H. split; [auto|]. rewrite H. discriminate. Qed.

Lemma cell_shown_drop_cell (t v : Z) : cell_shown (drop_cell t v).
Proof.
  split; [rewrite state_drop_cell; auto|].
  rewrite state_drop_cell. discriminate.
Qed.

Lemma cell_shown_tail_cell (c v : Z) :
  1 <= c <= NUM_COLORS - 1 -> cell_shown (tail_cell c v).
Proof.
  intros Hc. split; [rewrite state_tail_cell; auto|]. intros _.
  rewrite tsize_tail_cell. change (NUM_COLORS - 1) with 5 in *.
  rewrite Z.mod_small; lia.
Qed.

Lemma cell_shown_trace_cell (tsize i v : Z) :
  0 <= i <= tsize -> tsize <= TSIZE_MAX -> cell_shown (trace_cell tsize i v).
Proof.
  intros Hi Hts. unfold trace_cell.
  destruct (Z.eqb_spec i 0); [apply cell_shown_drop_cell|].
  apply cell_shown_tail_cell.
  destruct (tail_color_range tsize i) as (c & Hc & Hrange); [lia|lia|].
  rewrite tail_color_exact in Hc by lia. injection Hc as <-. exact Hrange.
Qed.

Lemma cell_shown_landed (u v : Z) :
  cell_shown u -> cell_shown (landed u (vacated v)).
Proof.
  intros [Hs Ht]. split.
  - rewrite state_landed_vacated. exact Hs.
  - rewrite state_landed_vacated, tsize_landed. intros Htail.
    rewrite Htail. change (STATE_TAIL =? STATE_NONE) with false. cbv iota.
    apply Ht, Htail.
Qed.

Lemma cell_shown_top_cell (l : mov_locals) (v : Z) :
  0 <= tail_size l <= 63 -> 0 <= tail_seen l -> cell_shown (top_cell l v).
Proof.
  intros Hts Hseen. unfold top_cell.
  destruct (negb (state l =? STATE_NONE) && (tail_seen l <? tail_size l)) eqn:Hput.
  - apply andb_true_iff in Hput as [_ Hlt]. apply Z.ltb_lt in Hlt.
    apply cell_shown_tail_cell.
    destruct (tail_color_range (tail_size l) (tail_seen l + 1))
      as (c & Hc & Hrange); [lia|unfold TSIZE_MAX; lia|].
    rewrite tail_color_exact in Hc by (unfold TSIZE_MAX; lia).
    injection Hc as <-. exact Hrange.
  - apply cell_shown_none, state_vacated.
Qed.

Lemma cell_shown_same (v v' : Z) :
  same_state_tsize v v' -> cell_shown v -> cell_shown v'.
Proof. intros [Hs Ht] [H1 H2]. unfold cell_shown. rewrite Hs, Ht. auto. Qed.

(** A matrix of the shape of [mat] whose cells can all be shown. *)
Lemma shown_cells (mat mat' : matrix_s) :
  wf mat -> rows mat' = rows mat -> cols mat' = cols mat ->
  length (data mat') = length (data mat) ->
  (forall r c v, in_grid mat r c -> data mat !! idx mat r c = Some v ->
     exists v', data mat' !! idx mat r c = Some v' /\ cell_shown v') ->
  shown mat'.
Proof.
  intros Hwf Hr Hc Hlen Hcells.
  split; [unfold wf; rewrite Hr, Hc, Hlen; exact Hwf|].
  intros r c v' Hin Hv'.
  assert (Hin0 : in_grid mat r c) by (unfold in_grid in *; rewrite <- Hr, <- Hc; exact Hin).
  destruct (mat_get_value_in _ _ _ Hwf Hin0) as [_ [v Hv]].
  destruct (Hcells r c v Hin0 Hv) as (w & Hw & Hshown).
  rewrite (idx_cols mat) in Hv' by exact Hc. congruence.
Qed.

Lemma shown_wf (mat : matrix_s) : shown mat -> wf mat.
Proof. intros [H _]. exact H. Qed.

Lemma shown_count (mat : matrix_s) (n : Z) :
  shown mat -> shown (set_drop_count n mat).
Proof. intros H. exact H. Qed.

Lemma shown_add (mat : matrix_s) (row col tsize : Z) (mat' : matrix_s) :
  shown mat -> 0 <= col < cols mat -> 0 <= tsize <= TSIZE_MAX ->
  mat_add_drop mat row col tsize = Some mat' -> shown mat'.
Proof.
  intros [Hwf Hall] Hcol Hts Hrun.
  destruct (mat_add_drop_cells col tsize mat row Hwf Hcol Hts)
    as (m & Hrun' & Hr' & Hc' & _ & Hlen' & _ & Hframe & Hcells).
  rewrite Hrun' in Hrun. injection Hrun as <-.
  apply (shown_cells mat); try assumption.
  intros r c v Hin Hv.
  destruct (Z.eq_dec c col) as [->|Hne].
  - destruct Hin as [Hr Hc0]. rewrite (Hcells r v Hr Hv). eexists.
    split; [reflexivity|].
    destruct (Z.leb_spec r row); cbn [andb]; [|apply (Hall r col); [split|]; assumption].
    destruct (Z.leb_spec (row - r) tsize);
      [|apply (Hall r col); [split|]; assumption].
    apply cell_shown_trace_cell; lia.
  - exists v. split; [|apply (Hall r c); assumption].
    rewrite Hframe; [exact Hv|]. apply idx_off_column; assumption.
Qed.

Lemma shown_mov (mat : matrix_s) (col : Z) (mat' : matrix_s) (dropped : Z) :
  shown mat -> 0 <= col < cols mat ->
  mat_mov_col mat col = Some (mat', dropped) -> shown mat'.
Proof.
  intros [Hwf Hall] Hcol Hrun. pose proof Hwf as (Hrows & _ & _).
  destruct (mat_mov_col_cells col mat Hwf Hcol)
    as (m & vb & v0 & _ & Hv0 & Hrun' & Hr' & Hc' & _ & _ & Hlen'
        & Hframe & Htop & Hshift).
  rewrite Hrun' in Hrun. injection Hrun as <- _.
  apply (shown_cells mat); try assumption.
  intros r c v Hin Hv.
  destruct (Z.eq_dec c col) as [->|Hne].
  - destruct (Z.eq_dec r 0) as [->|Hr0].
    + eexists. split; [exact Htop|].
      destruct (mov_locals_scan_bounds (column mat col) (MovLocals 0 0 STATE_NONE))
        as [Hts Hseen]; [cbn; lia|cbn; lia|].
      apply cell_shown_top_cell; assumption.
    + destruct Hin as [Hr Hc0].
      assert (Hinu : in_grid mat (r - 1) col) by (unfold in_grid; lia).
      destruct (mat_get_value_in _ _ _ Hwf Hinu) as [_ [u Hu]].
      specialize (Hshift (r - 1) u v).
      replace (r - 1 + 1) with r in Hshift by lia.
      eexists. split; [apply Hshift; [lia|lia|exact Hu|exact Hv]|].
      apply cell_shown_landed. apply (Hall (r - 1) col); assumption.
  - exists v. split; [|apply (Hall r c); assumption].
    rewrite Hframe; [exact Hv|]. apply idx_off_column; assumption.
Qed.

End Shown.

Section ReachableShown.

Variable rand_seq : nat -> Z.
Hypothesis rand_range : forall n, 0 <= rand_seq n <= RAND_MAX.

Lemma mat_fill_shown (mat : matrix_s) (k : nat) (mat' : matrix_s) (k' : nat) :
  wf mat -> mat_fill rand_seq mat k = Some (mat', k') -> shown mat'.
Proof.
  intros Hwf Hrun.
  destruct (mat_fill_spec rand_seq mat k Hwf)
    as (m & Hrun' & Hr & Hc & _ & _ & Hlen & Hfill).
  rewrite Hrun' in Hrun. injection Hrun as <- _.
  apply (shown_cells mat); try assumption.
  intros r c v Hin Hv. rewrite Hfill.
  destruct (idx_lt _ _ _ Hwf Hin) as [Hi _].
  destruct (decide (0 <= idx mat r c < 0 + Z.to_nat (rows mat * cols mat))%nat)
    as [_|Hout].
  2:{ exfalso. apply Hout. unfold idx. lia. }
  rewrite Hv. eexists. split; [reflexivity|].
  apply cell_shown_none. unfold fill_cell.
  rewrite state_cell_set_ascii, state_cell_set_state. reflexivity.
Qed.

Lemma mat_glitch_shown (mat : matrix_s) (fraction : spec_float) (k : nat)
    (mat' : matrix_s) (k' : nat) :
  shown mat -> mat_glitch rand_seq mat fraction k = Some (mat', k') ->
  shown mat'.
Proof.
  intros [Hwf Hall] Hrun. unfold mat_glitch in Hrun.
  destruct (glitch_num mat fraction) as [num|]; [|discriminate Hrun].
  cbn [mbind option_bind] in Hrun.
  destruct (glitch_loop_spec rand_seq rand_range (Z.to_nat num) mat k Hwf)
    as (m & Hloop & Hr & Hc & _ & _ & Hsame & _).
  rewrite Hloop in Hrun. injection Hrun as <- _.
  apply (shown_cells mat); try assumption.
  - symmetry. eapply Forall2_length. exact Hsame.
  - intros r c v Hin Hv.
    destruct (Forall2_lookup_l _ _ _ _ _ Hsame Hv) as (v' & Hv' & Hstep).
    exists v'. split; [exact Hv'|].
    eapply cell_shown_same; [exact Hstep|]. apply (Hall r c); assumption.
Qed.

Lemma reachable_shown (mat : matrix_s) : reachable rand_seq mat -> shown mat.
Proof.
  induction 1 as [mat k mat' k' Hwf Hrun
                 |mat k mat' k' _ IH Hrun
                 |mat fraction k mat' k' _ IH Hrun
                 |mat k mat' k' _ IH Hrun
                 |mat mat' _ IH Hrun
                 |mat row col tsize mat' _ IH Hcol Hts Hrun].
  - eapply mat_fill_shown; eassumption.
  - eapply (mat_rain_stable rand_seq rand_range shown shown_wf shown_add);
      eassumption.
  - eapply mat_glitch_shown; eassumption.
  - eapply (mat_update_stable rand_seq rand_range shown shown_wf shown_count
              shown_add shown_mov); eassumption.
  - eapply (mat_update_advance_stable shown shown_wf shown_count shown_mov);
      eassumption.
  - eapply shown_add; eassumption.
Qed.

End ReachableShown.

(** X15: in every reachable matrix each cell of the grid has state NONE,
    DROP or TAIL, and a TAIL cell carries a colour index in
    [[1, NUM_COLORS - 1]], which is an index of [colors]. *)
Theorem reachable_cells_shown (rand_seq : nat -> Z) (mat : matrix_s) :
  (forall n, 0 <= rand_seq n <= RAND_MAX) ->
  reachable rand_seq mat ->
  forall row col, in_grid mat row col ->
    (mat_get_state mat row col = Some STATE_NONE \/
     mat_get_state mat row col = Some STATE_DROP \/
     mat_get_state mat row col = Some STATE_TAIL) /\
    (mat_get_state mat row col = Some STATE_TAIL ->
     exists color, mat_get_tsize mat row col = Some color /\
                   1 <= color <= NUM_COLORS - 1 /\
                   is_Some (colors !! Z.to_nat color)).
Proof.
  intros Hrand Hreach row col Hin.
  destruct (reachable_shown rand_seq Hrand mat Hreach) as [Hwf Hall].
  destruct (mat_get_value_in _ _ _ Hwf Hin) as [_ [v Hv]].
  destruct (get_cell_same mat row col v Hwf Hin Hv) as (_ & -> & -> & _).
  destruct (Hall row col v Hin Hv) as [Hs Ht]. split.
  - destruct Hs as [-> | [-> | ->]]; auto.
  - intros Htail. injection Htail as Htail. specialize (Ht Htail).
    exists (val_get_tsize v). split; [reflexivity|]. split; [exact Ht|].
    apply lookup_lt_is_Some. change (NUM_COLORS - 1) with 5 in Ht.
    cbn [colors length]. lia.
Qed.

Lemma reachable_cells_shown_witness :
  mat_get_state (Matrix [2625; 3394; 67] 1 3 1 (F32.make 1 (-4))) 0 0
    = Some STATE_TAIL /\
  (exists color,
     mat_get_tsize (Matrix [2625; 3394; 67] 1 3 1 (F32.make 1 (-4))) 0 0
       = Some color /\
     1 <= color <= NUM_COLORS - 1 /\
     is_Some (colors !! Z.to_nat color)) /\
  (mat_get_state (Matrix [2625; 3394; 67] 1 3 1 (F32.make 1 (-4))) 1 0
     = Some STATE_NONE \/
   mat_get_state (Matrix [2625; 3394; 67] 1 3 1 (F32.make 1 (-4))) 1 0
     = Some STATE_DROP \/
   mat_get_state (Matrix [2625; 3394; 67] 1 3 1 (F32.make 1 (-4))) 1 0
     = Some STATE_TAIL).
Proof.
  assert (Hrand : forall n : nat, 0 <= 65 + Z.of_nat n mod 26 <= RAND_MAX).
  { intros n. unfold RAND_MAX.
    pose proof (Z.mod_pos_bound (Z.of_nat n) 26 ltac:(lia)). lia. }
  assert (Hreach : reachable (fun n => 65 + Z.of_nat n mod 26)
                     (Matrix [2625; 3394; 67] 1 3 1 (F32.make 1 (-4)))).
  { apply (reach_add_drop _ (Matrix [65; 66; 67] 1 3 0 (F32.make 1 (-4))) 1 0 3).
    - apply (reach_fill _ (Matrix [0; 1023; 65535] 1 3 0 (F32.make 1 (-4)))
                        0%nat _ 3%nat).
      + unfold wf. cbn [rows cols data length]. lia.
      + vm_compute. reflexivity.
    - cbn [cols]. lia.
    - unfold TSIZE_MAX. lia.
    - vm_compute. reflexivity. }
  pose proof (reachable_cells_shown (fun n => 65 + Z.of_nat n mod 26)
                (Matrix [2625; 3394; 67] 1 3 1 (F32.make 1 (-4)))
                Hrand Hreach) as Hcells.
  split; [vm_compute; reflexivity|]. split.
  - destruct (Hcells 0 0) as [_ Ht]; [unfold in_grid; cbn [rows cols]; lia|].
    apply Ht. vm_compute. reflexivity.
  - destruct (Hcells 1 0) as [Hs _]; [unfold in_grid; cbn [rows cols]; lia|].
    exact Hs.
Defined.

(** ** Printing *)

Section Print.

Lemma load_lookup (mat : matrix_s) (i : Z) :
  0 <= i -> load mat i = data mat !! Z.to_nat i.
Proof. intros Hi. unfold load. destruct (Z.ltb_spec i 0); [lia|reflexivity]. Qed.

Lemma print_loop_chunks (n : nat) :
  forall (mat : matrix_s) (i : Z) (chunks : list (list Z)),
  0 <= i ->
  length chunks = n ->
  Forall2 (fun v chunk => print_cell v = Some chunk)
          (take n (drop (Z.to_nat i) (data mat))) chunks ->
  print_loop n mat i = Some (concat chunks).
Proof.
  induction n as [|n IH]; intros mat i chunks Hi Hlen Hall.
  - destruct chunks; [reflexivity|discriminate Hlen].
  - destruct chunks as [|chunk chunks]; [discriminate Hlen|].
    destruct (drop (Z.to_nat i) (data mat)) as [|v vs] eqn:Hdrop;
      [inversion Hall|].
    cbn [take] in Hall. apply Forall2_cons in Hall as [Hv Hall].
    assert (Hload : load mat i = Some v).
    { rewrite load_lookup by exact Hi.
      rewrite <- (Nat.add_0_r (Z.to_nat i)), <- lookup_drop, Hdrop. reflexivity. }
    assert (Hnext : drop (Z.to_nat (i + 1)) (data mat) = vs).
    { replace (Z.to_nat (i + 1)) with (Z.to_nat i + 1)%nat by lia.
      rewrite <- drop_drop, Hdrop. reflexivity. }
    cbn [print_loop]. rewrite Hload. cbn [mbind option_bind].
    rewrite Hv. cbn [mbind option_bind].
    rewrite (IH mat (i + 1) chunks); [reflexivity|lia| |].
    + cbn [length] in Hlen. lia.
    + rewrite Hnext. exact Hall.
Qed.

End Print.

Section PrintGrid.

Lemma concat_replicate_singleton {A : Type} (n : nat) (x : A) :
  concat (replicate n [x]) = replicate n x.
Proof. induction n as [|n IH]; [reflexivity|]. cbn. rewrite IH. reflexivity. Qed.

Lemma size_cells (mat : matrix_s) :
  wf mat -> size_t (cols mat * rows mat) = rows mat * cols mat.
Proof.
  intros (Hrows & Hcols & _). unfold size_t.
  rewrite Z.mod_small; [lia|].
  change (2 ^ 64) with (2 ^ 16 * 2 ^ 16 * 2 ^ 32). nia.
Qed.

Lemma length_cells (mat : matrix_s) :
  wf mat -> length (cells mat) = Z.to_nat (rows mat * cols mat).
Proof.
  intros (_ & _ & Hlen). unfold cells. rewrite length_take. lia.
Qed.

Lemma mat_print_chunks (mat : matrix_s) (chunks : list (list Z)) :
  wf mat ->
  Forall2 (fun v chunk => print_cell v = Some chunk) (cells mat) chunks ->
  mat_print mat = Some (concat chunks).
Proof.
  intros Hwf Hall. unfold mat_print. rewrite size_cells by exact Hwf.
  apply print_loop_chunks; [lia| |exact Hall].
  rewrite <- (Forall2_length _ _ _ Hall). apply length_cells, Hwf.
Qed.

(** Every position among the first [rows * cols] of the buffer is the
    position of a cell of the grid. *)
Lemma grid_position (mat : matrix_s) (j : nat) :
  wf mat -> (j < Z.to_nat (rows mat * cols mat))%nat ->
  in_grid mat (Z.of_nat j / cols mat) (Z.of_nat j mod cols mat) /\
  idx mat (Z.of_nat j / cols mat) (Z.of_nat j mod cols mat) = j.
Proof.
  intros (Hrows & Hcols & _) Hj.
  pose proof (Z.div_mod (Z.of_nat j) (cols mat) ltac:(lia)) as Hdm.
  pose proof (Z.mod_pos_bound (Z.of_nat j) (cols mat) ltac:(lia)) as Hm.
  assert (Hq : 0 <= Z.of_nat j / cols mat) by (apply Z.div_pos; lia).
  assert (Hq' : Z.of_nat j / cols mat < rows mat).
  { apply Z.div_lt_upper_bound; lia. }
  split; [unfold in_grid; lia|].
  unfold idx, mat_idx. lia.
Qed.

Lemma print_loop_defined (n : nat) :
  forall (mat : matrix_s) (i : Z) (out : list Z) (j : nat) (v : Z),
  0 <= i -> print_loop n mat i = Some out -> (j < n)%nat ->
  data mat !! (Z.to_nat i + j)%nat = Some v -> is_Some (print_cell v).
Proof.
  induction n as [|n IH]; intros mat i out j v Hi Hrun Hj Hv; [lia|].
  cbn [print_loop] in Hrun. rewrite load_lookup in Hrun by exact Hi.
  destruct (data mat !! Z.to_nat i) as [v0|] eqn:Hv0; [|discriminate Hrun].
  cbn [mbind option_bind] in Hrun.
  destruct (print_cell v0) as [chunk|] eqn:Hchunk; [|discriminate Hrun].
  cbn [mbind option_bind] in Hrun.
  destruct (print_loop n mat (i + 1)) as [rest|] eqn:Hrest; [|discriminate Hrun].
  destruct j as [|j].
  - rewrite Nat.add_0_r, Hv0 in Hv. injection Hv as <-. eauto.
  - apply (IH mat (i + 1) rest j v); [lia|exact Hrest|lia|].
    replace (Z.to_nat (i + 1) + j)%nat with (Z.to_nat i + S j)%nat by lia.
    exact Hv.
Qed.

End PrintGrid.

Section PrintShown.

(** What [mat_print] writes for a cell it can show. *)
Lemma print_cell_shown (v : Z) :
  cell_shown v ->
  exists chunk,
    print_cell v = Some chunk /\
    ((val_get_state v = STATE_NONE /\ chunk = [32]) \/
     (val_get_state v = STATE_DROP /\
      chunk = color_fg 231 ++ [val_get_ascii v]) \/
     (val_get_state v = STATE_TAIL /\
      exists color,
        colors !! Z.to_nat (val_get_tsize v) = Some color /\
        chunk = color_fg color ++ [val_get_ascii v])).
Proof.
  intros [Hs Ht]. unfold print_cell.
  destruct Hs as [Hs | [Hs | Hs]]; rewrite Hs.
  - eexists. split; [reflexivity|]. left. auto.
  - eexists. split; [reflexivity|]. right. left. auto.
  - specialize (Ht Hs). change (NUM_COLORS - 1) with 5 in Ht.
    change (STATE_TAIL =? STATE_NONE) with false.
    change (STATE_TAIL =? STATE_DROP) with false.
    change (STATE_TAIL =? STATE_TAIL) with true. cbv iota.
    destruct (colors !! Z.to_nat (val_get_tsize v)) as [color|] eqn:Hcolor.
    + eexists. split; [reflexivity|]. right. right. eauto.
    + apply lookup_ge_None in Hcolor. cbn [colors length] in Hcolor. lia.
Qed.

Lemma cells_shown (mat : matrix_s) (j : nat) (v : Z) :
  shown mat -> cells mat !! j = Some v -> cell_shown v.
Proof.
  intros [Hwf Hall] Hv. unfold cells in Hv.
  apply lookup_take_Some in Hv as [Hv Hj].
  destruct (grid_position mat j Hwf Hj) as [Hin Hidx].
  apply (Hall _ _ v Hin). rewrite Hidx. exact Hv.
Qed.

Lemma mat_print_shown (mat : matrix_s) :
  shown mat ->
  mat_print mat
    = Some (concat ((fun v => default [] (print_cell v)) <$> cells mat)).
Proof.
  intros Hshown. apply mat_print_chunks; [apply Hshown|].
  apply Forall2_fmap_r, Forall_Forall2_diag, Forall_lookup.
  intros j v Hv.
  destruct (print_cell_shown v (cells_shown mat j v Hshown Hv))
    as (chunk & Hchunk & _).
  unfold compose. rewrite Hchunk. reflexivity.
Qed.

End PrintShown.

(** X16: a freshly filled matrix prints as a blank screen.  [mat_fill]
    on a well-formed matrix returns after one value of [rand()] per cell, and
    [mat_print] of the result writes [rows * cols] spaces and nothing else:
    the characters drawn by [mat_fill] stay hidden until a drop passes. *)
Theorem filled_screen_is_blank (rand_seq : nat -> Z) (mat : matrix_s) (k : nat) :
  wf mat ->
  exists mat',
    mat_fill rand_seq mat k
      = Some (mat', (k + Z.to_nat (rows mat * cols mat))%nat) /\
    mat_print mat' = Some (replicate (Z.to_nat (rows mat * cols mat)) 32).
Proof.
  intros Hwf.
  destruct (mat_fill_spec rand_seq mat k Hwf)
    as (mat' & Hrun & Hr & Hc & _ & _ & Hlen & Hfill).
  exists mat'. split; [exact Hrun|].
  assert (Hwf' : wf mat') by (unfold wf; rewrite Hr, Hc, Hlen; exact Hwf).
  rewrite <- concat_replicate_singleton.
  apply mat_print_chunks; [exact Hwf'|].
  apply Forall2_same_length_lookup_2.
  - rewrite length_cells, length_replicate, Hr, Hc by exact Hwf'. reflexivity.
  - intros i v chunk Hv Hchunk.
    apply lookup_replicate in Hchunk as [-> Hi].
    unfold cells in Hv. apply lookup_take_Some in Hv as [Hv _].
    rewrite Hfill in Hv.
    destruct (decide (0 <= i < 0 + Z.to_nat (rows mat * cols mat))%nat); [|lia].
    destruct (data mat !! i) as [w|]; [|discriminate Hv].
    injection Hv as <-. unfold print_cell, fill_cell.
    rewrite state_cell_set_ascii, state_cell_set_state. reflexivity.
Qed.

Lemma filled_screen_is_blank_witness :
  exists mat',
    mat_fill (fun n => Z.of_nat n * 40)
             (Matrix [0; 1023; 65535; 7] 2 2 0 (F32.make 1 (-4))) 0
      = Some (mat', 4%nat) /\
    mat_print mat' = Some [32; 32; 32; 32].
Proof.
  apply (filled_screen_is_blank (fun n => Z.of_nat n * 40)
           (Matrix [0; 1023; 65535; 7] 2 2 0 (F32.make 1 (-4))) 0).
  unfold wf. cbn [rows cols data length]. lia.
Defined.

(** X17: [mat_print] on a reachable matrix is defined and writes one
    chunk of bytes per cell, in row-major order: a space for a NONE cell, the
    escape sequence of colour 231 and the character for a DROP cell, the
    escape sequence of the tail colour [colors[t]], [1 <= t <= NUM_COLORS - 1],
    and the character for a TAIL cell. *)
Theorem mat_print_reachable (rand_seq : nat -> Z) (mat : matrix_s) :
  (forall n, 0 <= rand_seq n <= RAND_MAX) ->
  reachable rand_seq mat ->
  exists chunks,
    mat_print mat = Some (concat chunks) /\
    length chunks = Z.to_nat (rows mat * cols mat) /\
    forall row col, in_grid mat row col ->
      exists chunk a,
        chunks !! idx mat row col = Some chunk /\
        mat_get_ascii mat row col = Some a /\
        ((mat_get_state mat row col = Some STATE_NONE /\ chunk = [32]) \/
         (mat_get_state mat row col = Some STATE_DROP /\
          chunk = color_fg 231 ++ [a]) \/
         (mat_get_state mat row col = Some STATE_TAIL /\
          exists t color,
            mat_get_tsize mat row col = Some t /\ 1 <= t <= NUM_COLORS - 1 /\
            colors !! Z.to_nat t = Some color /\
            chunk = color_fg color ++ [a])).
Proof.
  intros Hrand Hreach.
  pose proof (reachable_shown rand_seq Hrand mat Hreach) as Hshown.
  pose proof Hshown as [Hwf Hall].
  exists ((fun v => default [] (print_cell v)) <$> cells mat).
  split; [apply mat_print_shown, Hshown|]. split.
  - rewrite length_fmap. apply length_cells, Hwf.
  - intros row col Hin.
    destruct (mat_get_value_in _ _ _ Hwf Hin) as [_ [v Hv]].
    destruct (idx_lt _ _ _ Hwf Hin) as [Hi _].
    assert (Hcv : cells mat !! idx mat row col = Some v).
    { unfold cells. apply lookup_take_Some. split; [exact Hv|].
      unfold idx. lia. }
    destruct (get_cell_same mat row col v Hwf Hin Hv) as (_ & -> & -> & ->).
    pose proof (cells_shown mat _ v Hshown Hcv) as Hv_shown.
    destruct (print_cell_shown v Hv_shown) as (chunk & Hchunk & Hcases).
    exists chunk, (val_get_ascii v).
    split.
    { rewrite list_lookup_fmap, Hcv. cbn [fmap option_fmap option_map].
      rewrite Hchunk. reflexivity. }
    split; [reflexivity|].
    destruct Hcases as [[Hs ->] | [[Hs ->] | (Hs & color & Hcolor & ->)]].
    + left. rewrite Hs. auto.
    + right. left. rewrite Hs. auto.
    + right. right. rewrite Hs. split; [reflexivity|].
      exists (val_get_tsize v), color.
      split; [reflexivity|]. split; [|auto].
      apply Hv_shown. exact Hs.
Qed.

Lemma mat_print_reachable_witness :
  exists chunks,
    mat_print (Matrix [2625; 3394; 67] 1 3 1 (F32.make 1 (-4)))
      = Some (concat chunks) /\
    length chunks = 3%nat /\
    chunks !! 0%nat = Some (color_fg 41 ++ [65]) /\
    chunks !! 1%nat = Some (color_fg 231 ++ [66]) /\
    chunks !! 2%nat = Some [32].
Proof.
  assert (Hrand : forall n : nat, 0 <= 65 + Z.of_nat n mod 26 <= RAND_MAX).
  { intros n. unfold RAND_MAX.
    pose proof (Z.mod_pos_bound (Z.of_nat n) 26 ltac:(lia)). lia. }
  assert (Hreach : reachable (fun n => 65 + Z.of_nat n mod 26)
                     (Matrix [2625; 3394; 67] 1 3 1 (F32.make 1 (-4)))).
  { apply (reach_add_drop _ (Matrix [65; 66; 67] 1 3 0 (F32.make 1 (-4))) 1 0 3).
    - apply (reach_fill _ (Matrix [0; 1023; 65535] 1 3 0 (F32.make 1 (-4)))
                        0%nat _ 3%nat).
      + unfold wf. cbn [rows cols data length]. lia.
      + vm_compute. reflexivity.
    - cbn [cols]. lia.
    - unfold TSIZE_MAX. lia.
    - vm_compute. reflexivity. }
  destruct (mat_print_reachable (fun n => 65 + Z.of_nat n mod 26)
              (Matrix [2625; 3394; 67] 1 3 1 (F32.make 1 (-4))) Hrand Hreach)
    as (chunks & Hrun & Hlen & Hcells).
  exists chunks. split; [exact Hrun|]. split; [exact Hlen|].
  split; [|split].
  - destruct (Hcells 0 0) as (chunk & a & Hc & Ha & Hcases);
      [unfold in_grid; cbn [rows cols]; lia|].
    change (idx _ 0 0) with 0%nat in Hc. rewrite Hc. f_equal.
    vm_compute in Ha. injection Ha as <-.
    destruct Hcases as [[Hs _]|[[Hs _]|(_ & t & color & Ht & _ & Hcol & ->)]];
      [vm_compute in Hs; discriminate Hs|vm_compute in Hs; discriminate Hs|].
    vm_compute in Ht. injection Ht as <-.
    vm_compute in Hcol. injection Hcol as <-. reflexivity.
  - destruct (Hcells 1 0) as (chunk & a & Hc & Ha & Hcases);
      [unfold in_grid; cbn [rows cols]; lia|].
    change (idx _ 1 0) with 1%nat in Hc. rewrite Hc. f_equal.
    vm_compute in Ha. injection Ha as <-.
    destruct Hcases as [[Hs _]|[[_ ->]|(Hs & _)]];
      [vm_compute in Hs; discriminate Hs|reflexivity
      |vm_compute in Hs; discriminate Hs].
  - destruct (Hcells 2 0) as (chunk & a & Hc & Ha & Hcases);
      [unfold in_grid; cbn [rows cols]; lia|].
    change (idx _ 2 0) with 2%nat in Hc. rewrite Hc. f_equal.
    destruct Hcases as [[_ ->]|[[Hs _]|(Hs & _)]];
      [reflexivity|vm_compute in Hs; discriminate Hs
      |vm_compute in Hs; discriminate Hs].
Defined.

(** X18: [mat_print] reads [colors] at the tail size of a TAIL cell
    without a check: on a well-formed matrix with a TAIL cell whose tail size
    is [NUM_COLORS] or more the read is out of bounds and the result is
    undefined. *)
Theorem mat_print_needs_palette (mat : matrix_s) (row col t : Z) :
  wf mat -> in_grid mat row col ->
  mat_get_state mat row col = Some STATE_TAIL ->
  mat_get_tsize mat row col = Some t ->
  NUM_COLORS <= t ->
  mat_print mat = None.
Proof.
  intros Hwf Hin Hs Ht Hbig.
  destruct (mat_get_value_in _ _ _ Hwf Hin) as [_ [v Hv]].
  destruct (get_cell_same mat row col v Hwf Hin Hv) as (_ & Hs' & Ht' & _).
  rewrite Hs' in Hs. injection Hs as Hs. rewrite Ht' in Ht. injection Ht as Ht.
  destruct (idx_lt _ _ _ Hwf Hin) as [Hi _].
  destruct (mat_print mat) as [out|] eqn:Hrun; [|reflexivity].
  exfalso. unfold mat_print in Hrun. rewrite size_cells in Hrun by exact Hwf.
  destruct (print_loop_defined _ mat 0 out (idx mat row col) v ltac:(lia) Hrun)
    as [chunk Hchunk]; [unfold idx; lia|exact Hv|].
  unfold print_cell in Hchunk. rewrite Hs in Hchunk.
  change (STATE_TAIL =? STATE_NONE) with false in Hchunk.
  change (STATE_TAIL =? STATE_DROP) with false in Hchunk.
  change (STATE_TAIL =? STATE_TAIL) with true in Hchunk. cbv iota in Hchunk.
  rewrite Ht in Hchunk.
  assert (Hnone : colors !! Z.to_nat t = None).
  { apply lookup_ge_None. change NUM_COLORS with 6 in Hbig.
    cbn [colors length]. lia. }
  rewrite Hnone in Hchunk. discriminate Hchunk.
Qed.

Lemma mat_print_needs_palette_witness :
  mat_print (Matrix [65; 6721; 67; 68] 2 2 0 (F32.make 1 (-4))) = None.
Proof.
  apply (mat_print_needs_palette
           (Matrix [65; 6721; 67; 68] 2 2 0 (F32.make 1 (-4))) 0 1 6).
  - unfold wf. cbn [rows cols data length]. lia.
  - unfold in_grid. cbn [rows cols]. lia.
  - reflexivity.
  - reflexivity.
  - reflexivity.
Defined.

(** ** Start-up and empty grids *)

Section Startup.

Variable rand_seq : nat -> Z.

Lemma count_drops_none (mat : matrix_s) :
  wf mat ->
  (forall r c, in_grid mat r c -> mat_get_state mat r c = Some STATE_NONE) ->
  count_drops mat = 0.
Proof.
  intros Hwf Hnone. pose proof Hwf as (Hrows & Hcols & _).
  unfold count_drops. apply sum_range_zero. intros r Hr.
  unfold row_drops. apply sum_range_zero. intros c Hc.
  unfold drop_at, is_drop.
  rewrite Hnone by (unfold in_grid; lia).
  rewrite bool_decide_eq_false_2; [reflexivity|discriminate].
Qed.

Lemma mat_fill_states (mat : matrix_s) (k : nat) :
  wf mat ->
  exists mat',
    mat_fill rand_seq mat k
      = Some (mat', (k + Z.to_nat (rows mat * cols mat))%nat) /\
    wf mat' /\ rows mat' = rows mat /\ cols mat' = cols mat /\
    drop_count mat' = drop_count mat /\ drop_ratio mat' = drop_ratio mat /\
    forall r c, in_grid mat r c -> mat_get_state mat' r c = Some STATE_NONE.
Proof.
  intros Hwf.
  destruct (mat_fill_spec rand_seq mat k Hwf)
    as (mat' & Hrun & Hr & Hc & Hdc & Hdr & Hlen & Hfill).
  exists mat'. split; [exact Hrun|].
  assert (Hwf' : wf mat') by (unfold wf; rewrite Hr, Hc, Hlen; exact Hwf).
  repeat (split; [assumption|]).
  intros r c Hin.
  destruct (mat_get_value_in _ _ _ Hwf Hin) as [_ [v Hv]].
  destruct (idx_lt _ _ _ Hwf Hin) as [Hi _].
  assert (Hv' : data mat' !! idx mat r c
                = Some (fill_cell (ascii_of_rand (rand_seq (k + (idx mat r c - 0))%nat)) v)).
  { rewrite Hfill.
    destruct (decide (0 <= idx mat r c < 0 + Z.to_nat (rows mat * cols mat))%nat)
      as [_|Hout]; [rewrite Hv; reflexivity|].
    exfalso. apply Hout. unfold idx. lia. }
  destruct (get_cell mat mat' r c _ Hwf Hr Hc Hlen Hin Hv') as (_ & -> & _ & _).
  unfold fill_cell. rewrite state_cell_set_ascii, state_cell_set_state.
  reflexivity.
Qed.

End Startup.

(** X19: the start-up sequence of [main].  [mat_init] with a buffer of at
    least [rows * cols] cells followed by [mat_fill] gives a matrix of the
    requested shape and ratio in which every cell is NONE, [drop_count] is 0
    and the grid holds no DROP cell: the counter is exact before the first
    tick. *)
Theorem startup_grid_has_no_drops (rand_seq : nat -> Z) (mat : matrix_s)
    (nrows ncols : Z) (ratio : spec_float) (block : list Z) (k : nat) :
  0 < nrows < 2 ^ 16 -> 0 < ncols < 2 ^ 16 ->
  nrows * ncols <= Z.of_nat (length block) ->
  exists mat1 mat2,
    mat_init mat nrows ncols ratio (Some block) = (0, mat1) /\
    mat_fill rand_seq mat1 k
      = Some (mat2, (k + Z.to_nat (nrows * ncols))%nat) /\
    rows mat2 = nrows /\ cols mat2 = ncols /\ drop_ratio mat2 = ratio /\
    drop_count mat2 = 0 /\ count_drops mat2 = 0 /\
    forall r c, in_grid mat2 r c -> mat_get_state mat2 r c = Some STATE_NONE.
Proof.
  intros Hrows Hcols Hlen.
  assert (Hwf1 : wf (Matrix block ncols nrows 0 ratio)).
  { unfold wf. cbn [rows cols data]. auto. }
  destruct (mat_fill_states rand_seq (Matrix block ncols nrows 0 ratio) k Hwf1)
    as (mat2 & Hrun & Hwf2 & Hr & Hc & Hdc & Hdr & Hnone).
  cbn [rows cols drop_count drop_ratio] in *.
  exists (Matrix block ncols nrows 0 ratio), mat2.
  split.
  { unfold mat_init, uint16. rewrite !Z.mod_small by lia. reflexivity. }
  split; [exact Hrun|].
  repeat (split; [assumption|]).
  assert (Hnone' : forall r c, in_grid mat2 r c ->
                     mat_get_state mat2 r c = Some STATE_NONE).
  { intros r c Hin. apply Hnone. unfold in_grid in *. cbn [rows cols].
    rewrite <- Hr, <- Hc. exact Hin. }
  split; [apply count_drops_none; assumption|exact Hnone'].
Qed.

Lemma startup_grid_has_no_drops_witness :
  exists mat1 mat2,
    mat_init (Matrix [] 0 0 0 S754_nan) 2 3 (F32.make 1 (-4))
             (Some (replicate 24 65535)) = (0, mat1) /\
    mat_fill (fun n => Z.of_nat n * 40) mat1 0 = Some (mat2, 6%nat) /\
    drop_count mat2 = 0 /\ count_drops mat2 = 0.
Proof.
  destruct (startup_grid_has_no_drops (fun n => Z.of_nat n * 40)
              (Matrix [] 0 0 0 S754_nan) 2 3 (F32.make 1 (-4))
              (replicate 24 65535) 0)
    as (mat1 & mat2 & Hinit & Hfill & _ & _ & _ & Hdc & Hcount & _).
  - lia.
  - lia.
  - cbn [length replicate]. lia.
  - exists mat1, mat2. auto.
Defined.

(** X20: when the allocation fails, [mat_init] returns -1 and leaves the
    old dimensions with no buffer.  On a matrix that had cells, a following
    [mat_fill] or [mat_print] reads through the null buffer and is
    undefined. *)
Theorem failed_init_leaves_no_buffer (rand_seq : nat -> Z) (mat : matrix_s)
    (nrows ncols : Z) (ratio : spec_float) (k : nat) :
  0 < rows mat < 2 ^ 16 -> 0 < cols mat < 2 ^ 16 ->
  exists mat',
    mat_init mat nrows ncols ratio None = (-1, mat') /\
    rows mat' = rows mat /\ cols mat' = cols mat /\ data mat' = [] /\
    mat_fill rand_seq mat' k = None /\
    mat_print mat' = None.
Proof.
  intros Hrows Hcols. exists (set_data [] mat).
  split; [reflexivity|]. repeat (split; [reflexivity|]).
  split.
  - unfold mat_fill. cbn [rows set_data].
    destruct (Z.to_nat (rows mat)) as [|n] eqn:Hn; [lia|].
    cbn [fill_rows cols set_data].
    destruct (Z.to_nat (cols mat)) as [|m] eqn:Hm; [lia|].
    cbn [fill_cols]. unfold mat_set_state at 1, mat_get_value.
    cbn [rows cols set_data].
    destruct (Z.leb_spec (rows mat) 0); [lia|].
    destruct (Z.leb_spec (cols mat) 0); [lia|].
    unfold load. cbn. reflexivity.
  - unfold mat_print. cbn [rows cols set_data].
    assert (Hsize : size_t (cols mat * rows mat) = cols mat * rows mat).
    { unfold size_t. apply Z.mod_small.
      change (2 ^ 64) with (2 ^ 16 * 2 ^ 16 * 2 ^ 32). nia. }
    rewrite Hsize.
    destruct (Z.to_nat (cols mat * rows mat)) as [|n] eqn:Hn; [nia|].
    cbn [print_loop]. unfold load. cbn. reflexivity.
Qed.

Lemma failed_init_leaves_no_buffer_witness :
  exists mat',
    mat_init (Matrix [65; 66; 67; 68] 2 2 0 (F32.make 1 (-4))) 3 3
             (F32.make 1 (-4)) None = (-1, mat') /\
    rows mat' = 2 /\ cols mat' = 2 /\ data mat' = [] /\
    mat_fill (fun n => Z.of_nat n) mat' 0 = None /\
    mat_print mat' = None.
Proof.
  apply (failed_init_leaves_no_buffer (fun n => Z.of_nat n)
           (Matrix [65; 66; 67; 68] 2 2 0 (F32.make 1 (-4))) 3 3
           (F32.make 1 (-4)) 0); cbn [rows cols]; lia.
Defined.

Section Empty.

Variable rand_seq : nat -> Z.

Lemma fill_rows_no_columns (n : nat) : forall (mat : matrix_s) (r : Z) (k : nat),
  cols mat <= 0 -> fill_rows rand_seq n mat r k = Some (mat, k).
Proof.
  induction n as [|n IH]; intros mat r k Hc; [reflexivity|].
  cbn [fill_rows]. replace (Z.to_nat (cols mat)) with 0%nat by lia.
  cbn [fill_cols mbind option_bind]. apply IH, Hc.
Qed.

Lemma to_size_t_nonneg (x : spec_float) (z : Z) :
  F32.to_size_t x = Some z -> 0 <= z.
Proof.
  unfold F32.to_size_t, F32.in_range.
  destruct (F32.trunc x) as [t|]; [|discriminate].
  cbn [mbind option_bind].
  destruct (Z.leb_spec 0 t) as [Hle|Hgt]; cbn [andb]; [|discriminate].
  destruct (t <=? 2 ^ 64 - 1); [|discriminate].
  intros Heq. injection Heq as <-. exact Hle.
Qed.

Lemma drops_to_add_no_rows (mat : matrix_s) :
  rows mat = 0 -> drops_to_add mat = None.
Proof.
  intros Hr. unfold drops_to_add, drops_missing.
  destruct (drops_desired mat) as [desired|]; [|reflexivity].
  cbn [mbind option_bind]. rewrite Hr.
  assert (Hm : 0 <= size_t (desired - drop_count mat) < 2 ^ 64)
    by (unfold size_t; apply Z.mod_pos_bound; lia).
  change (F32.of_Z 0) with (S754_zero false).
  destruct (of_Z_class _ Hm) as [[s ->]|(m & e & ->)]; reflexivity.
Qed.

End Empty.

(** X21: a grid with no rows or no columns.  [mat_fill] leaves it as it
    is and draws nothing, [mat_print] writes nothing, [mat_glitch] with a
    finite fraction does nothing; [mat_update] is undefined: with no rows the
    loop bound is the conversion of a quotient by zero, with no columns the
    first spawn takes a remainder modulo zero. *)
Theorem empty_grid_behaviour (rand_seq : nat -> Z) (mat : matrix_s) (k : nat) :
  rows mat = 0 \/ cols mat = 0 ->
  mat_fill rand_seq mat k = Some (mat, k) /\
  mat_print mat = Some [] /\
  (forall s, mat_glitch rand_seq mat (S754_zero s) k = Some (mat, k)) /\
  (forall s m e, mat_glitch rand_seq mat (S754_finite s m e) k = Some (mat, k)) /\
  mat_update rand_seq mat k = None.
Proof.
  intros Hempty.
  assert (Hsize : rows mat * cols mat = 0) by (destruct Hempty as [-> | ->]; lia).
  split; [|split; [|split; [|split]]].
  - unfold mat_fill. destruct Hempty as [Hr|Hc].
    + rewrite Hr. reflexivity.
    + apply fill_rows_no_columns. lia.
  - unfold mat_print. rewrite Z.mul_comm, Hsize. reflexivity.
  - intros s. unfold mat_glitch, glitch_num. rewrite Hsize. reflexivity.
  - intros s m e. unfold mat_glitch, glitch_num. rewrite Hsize. reflexivity.
  - unfold mat_update, mat_update_spawn.
    destruct (drops_to_add mat) as [to_add|] eqn:Hadd; [|reflexivity].
    cbn [mbind option_bind].
    destruct Hempty as [Hr|Hc].
    + rewrite drops_to_add_no_rows in Hadd by exact Hr. discriminate Hadd.
    + assert (Hpos : 0 <= to_add).
      { unfold drops_to_add in Hadd.
        destruct (drops_missing mat); [|discriminate Hadd].
        cbn [mbind option_bind] in Hadd. eapply to_size_t_nonneg, Hadd. }
      replace (Z.to_nat (to_add + 1)) with (S (Z.to_nat to_add)) by lia.
      cbn [spawn_loop]. unfold rand_int, rand, c_rem. rewrite Hc.
      reflexivity.
Qed.

Lemma empty_grid_behaviour_witness :
  mat_fill (fun n => Z.of_nat n) (Matrix [] 80 0 0 (F32.make 1 (-4))) 7
    = Some (Matrix [] 80 0 0 (F32.make 1 (-4)), 7%nat) /\
  mat_update (fun n => Z.of_nat n) (Matrix [] 80 0 0 (F32.make 1 (-4))) 7 = None.
Proof.
  destruct (empty_grid_behaviour (fun n => Z.of_nat n)
              (Matrix [] 80 0 0 (F32.make 1 (-4))) 7) as (Hfill & _ & _ & _ & Hupd).
  - left. reflexivity.
  - split; [exact Hfill|exact Hupd].
Defined.

(** ** Counting drops *)

Section Counting.

Lemma sum_range_point (f g : Z -> Z) (n : nat) : forall lo x0,
  lo <= x0 < lo + Z.of_nat n ->
  (forall x, lo <= x < lo + Z.of_nat n -> x <> x0 -> g x = f x) ->
  sum_range g lo n = sum_range f lo n - f x0 + g x0.
Proof.
  induction n as [|n IH]; intros lo x0 Hx0 Hsame; [lia|].
  cbn [sum_range].
  destruct (Z.eq_dec x0 lo) as [->|Hne].
  - rewrite (sum_range_ext g f n (lo + 1)); [lia|].
    intros x Hx. apply Hsame; lia.
  - rewrite (IH (lo + 1) x0); [|lia|intros x Hx Hxne; apply Hsame; lia].
    rewrite (Hsame lo); lia.
Qed.

(** Replacing the word of one cell changes the number of DROP cells by what
    the cell contributes before and after. *)
Lemma count_drops_put (mat : matrix_s) (r0 c0 v w : Z) :
  wf mat -> in_grid mat r0 c0 -> data mat !! idx mat r0 c0 = Some v ->
  count_drops (put mat r0 c0 w)
    = count_drops mat
      - (if val_get_state v =? STATE_DROP then 1 else 0)
      + (if val_get_state w =? STATE_DROP then 1 else 0).
Proof.
  intros Hwf Hin Hv. pose proof Hwf as (Hrows & Hcols & _).
  pose proof Hin as [Hr0 Hc0].
  assert (Hwf' : wf (put mat r0 c0 w)) by (apply wf_put, Hwf).
  assert (Hother : forall r c, in_grid mat r c -> r <> r0 \/ c <> c0 ->
            drop_at (put mat r0 c0 w) r c = drop_at mat r c).
  { intros r c Hrc Hne.
    destruct (mat_get_value_in _ _ _ Hwf Hrc) as [_ [u Hu]].
    rewrite (drop_at_in mat r c u) by assumption.
    apply drop_at_in; [exact Hwf'|exact Hrc|].
    rewrite idx_put, lookup_put_ne; [exact Hu|].
    intros Heq. apply idx_inj in Heq; [|assumption|assumption]. lia. }
  unfold count_drops. cbn [rows put set_data].
  rewrite (sum_range_point (row_drops mat) (row_drops (put mat r0 c0 w))
             (Z.to_nat (rows mat)) 0 r0); [|lia|].
  - assert (Hrow : row_drops (put mat r0 c0 w) r0
                   = row_drops mat r0
                     - (if val_get_state v =? STATE_DROP then 1 else 0)
                     + (if val_get_state w =? STATE_DROP then 1 else 0)).
    { unfold row_drops. cbn [cols put set_data].
      rewrite (sum_range_point (drop_at mat r0) (drop_at (put mat r0 c0 w) r0)
                 (Z.to_nat (cols mat)) 0 c0); [|lia|].
      - rewrite (drop_at_in mat r0 c0 v) by assumption.
        rewrite (drop_at_in (put mat r0 c0 w) r0 c0 w);
          [lia|exact Hwf'|exact Hin|].
        rewrite idx_put. apply lookup_put_eq; assumption.
      - intros c Hc Hne. apply Hother; [unfold in_grid; lia|lia]. }
    lia.
  - intros r Hr Hne. unfold row_drops. cbn [cols put set_data].
    apply sum_range_ext. intros c Hc. apply Hother; [unfold in_grid; lia|lia].
Qed.

Variable rand_seq : nat -> Z.
Hypothesis rand_range : forall n, 0 <= rand_seq n <= RAND_MAX.

Lemma spawn_loop_counts (n : nat) : forall (mat : matrix_s) (k : nat),
  wf mat ->
  exists mat',
    spawn_loop rand_seq n mat k = Some (mat', (k + 2 * n)%nat) /\
    count_drops mat <= count_drops mat' <= count_drops mat + Z.of_nat n.
Proof.
  induction n as [|n IH]; intros mat k Hwf.
  - exists mat. cbn [spawn_loop]. rewrite Nat.add_0_r.
    split; [reflexivity|lia].
  - pose proof Hwf as (Hrows & Hcols & _). cbn [spawn_loop].
    destruct (rand_int_range rand_seq rand_range 0 (cols mat - 1) k)
      as (col & -> & Hcol); [lia|].
    cbn [mbind option_bind].
    destruct (rand_int_range rand_seq rand_range TSIZE_MIN TSIZE_MAX (S k))
      as (ts & -> & Hts); [unfold TSIZE_MIN, TSIZE_MAX; lia|].
    cbn [mbind option_bind].
    assert (Hin : in_grid mat 0 col) by (unfold in_grid; lia).
    destruct (mat_get_value_in _ _ _ Hwf Hin) as [_ [v Hv]].
    rewrite (mat_add_drop_top mat col ts v);
      [|exact Hwf|lia|unfold TSIZE_MIN in Hts; lia|exact Hv].
    cbn [mbind option_bind].
    set (mat1 := set_drop_count _ (put mat 0 col (drop_cell ts v))).
    assert (Hwf1 : wf mat1) by (apply wf_put, Hwf).
    assert (Hc1 : count_drops mat1
                  = count_drops mat
                    - (if val_get_state v =? STATE_DROP then 1 else 0) + 1).
    { change (count_drops mat1)
        with (count_drops (put mat 0 col (drop_cell ts v))).
      rewrite (count_drops_put mat 0 col v) by assumption.
      rewrite state_drop_cell. reflexivity. }
    destruct (IH mat1 (S (S k)) Hwf1) as (mat' & Hrun & Hcount).
    exists mat'. split; [rewrite Hrun; f_equal; f_equal; lia|].
    destruct (val_get_state v =? STATE_DROP); lia.
Qed.

End Counting.

(** X22: [drop_count] drifts upwards only.  When [drop_count] is at least
    the number of DROP cells before a tick (and does not wrap around), it is
    so after the tick, and the excess of [drop_count] over the number of DROP
    cells does not shrink. *)
Theorem tick_never_undercounts (rand_seq : nat -> Z) (mat : matrix_s) (k : nat)
    (to_add : Z) :
  (forall n, 0 <= rand_seq n <= RAND_MAX) ->
  wf mat -> drops_to_add mat = Some to_add ->
  count_drops mat <= drop_count mat ->
  drop_count mat + to_add + 1 < 2 ^ 64 ->
  exists mat',
    mat_update rand_seq mat k
      = Some (mat', (k + 2 * Z.to_nat (to_add + 1))%nat) /\
    count_drops mat' <= drop_count mat' /\
    drop_count mat - count_drops mat <= drop_count mat' - count_drops mat'.
Proof.
  intros Hrand Hwf Hadd Hle Hsmall.
  assert (Hpos : 0 <= to_add).
  { unfold drops_to_add in Hadd.
    destruct (drops_missing mat); [|discriminate Hadd].
    cbn [mbind option_bind] in Hadd. eapply to_size_t_nonneg, Hadd. }
  pose proof (count_drops_nonneg mat) as Hc0.
  set (n := Z.to_nat (to_add + 1)).
  destruct (spawn_loop_spec rand_seq Hrand n mat k Hwf)
    as (mat1 & Hspawn & Hr1 & Hc1 & _ & Hlen1 & Hdc1 & Hred1 & _).
  destruct (spawn_loop_counts rand_seq Hrand n mat k Hwf)
    as (m1 & Hspawn' & Hcount1).
  rewrite Hspawn in Hspawn'. injection Hspawn' as <-.
  assert (Hwf1 : wf mat1) by (unfold wf; rewrite Hr1, Hc1, Hlen1; exact Hwf).
  assert (Hdc : drop_count mat1 = drop_count mat + (to_add + 1)).
  { rewrite Hred1 by (unfold n; lia). rewrite Hdc1.
    unfold size_t, n. rewrite Z2Nat.id by lia. apply Z.mod_small.
    clear - Hle Hsmall Hpos Hc0. lia. }
  destruct (advance_counts mat1 Hwf1)
    as (mat2 & Hadv & _ & _ & _ & Hdc2 & _ & Hcount2).
  pose proof (count_drops_nonneg mat2) as Hc2.
  exists mat2. split.
  { unfold mat_update, mat_update_spawn. rewrite Hadd.
    cbn [mbind option_bind]. fold n. rewrite Hspawn.
    cbn [mbind option_bind]. rewrite Hadv. reflexivity. }
  assert (Hn : Z.of_nat n = to_add + 1) by (unfold n; lia).
  assert (Hb : 0 <= row_drops mat1 (rows mat1 - 1)).
  { unfold row_drops. apply sum_range_nonneg. intros c.
    unfold drop_at. destruct (is_drop mat1 (rows mat1 - 1) c); lia. }
  assert (Hexact : drop_count mat2
                   = drop_count mat1 - row_drops mat1 (rows mat1 - 1)).
  { rewrite Hdc2. unfold size_t. apply Z.mod_small.
    clear - Hb Hdc Hn Hcount1 Hcount2 Hc2 Hle Hsmall Hpos Hc0. lia. }
  clear - Hexact Hdc Hn Hcount1 Hcount2 Hc2 Hle Hsmall Hpos Hc0. lia.
Qed.

Lemma tick_never_undercounts_witness :
  exists mat',
    mat_update (fun n => (5 + 16 * Z.of_nat n) mod 1024)
               (Matrix (replicate 48 65) 16 3 0 (F32.make 1 (-4))) 0
      = Some (mat', 4%nat) /\
    count_drops mat' <= drop_count mat'.
Proof.
  destruct (tick_never_undercounts (fun n => (5 + 16 * Z.of_nat n) mod 1024)
              (Matrix (replicate 48 65) 16 3 0 (F32.make 1 (-4))) 0 1)
    as (mat' & Hrun & Hle & _).
  - intros n. cbv beta. unfold RAND_MAX.
    pose proof (Z.mod_pos_bound (5 + 16 * Z.of_nat n) 1024 ltac:(lia)). lia.
  - unfold wf. cbn [rows cols data length replicate]. lia.
  - vm_compute. reflexivity.
  - vm_compute. discriminate.
  - cbn [drop_count]. lia.
  - exists mat'. split; [exact Hrun|exact Hle].
Defined.

(** ** The factors of the command line *)

(** X23: the factors [main] works with.  After defaulting and capping,
    each of speed, drops and error that is a number lies in its range
    [[MIN, MAX]].  A speed or error left at zero takes its default; a drops
    factor left at zero ends at [DROPS_FACTOR_MIN], the single-precision 0.01,
    because the default [DROPS_FACTOR_DEF], the single-precision 0.0001, lies
    below the range and is capped. *)
Theorem main_options_capped (opts : Opts.options_s) (now : Z) :
  (Opts.speed opts <> S754_nan ->
   SFleb (F64.to_float SPEED_FACTOR_MIN) (Opts.speed (main_options opts now)) = true /\
   SFleb (Opts.speed (main_options opts now)) (F64.to_float SPEED_FACTOR_MAX) = true) /\
  (Opts.drops opts <> S754_nan ->
   SFleb (F64.to_float DROPS_FACTOR_MIN) (Opts.drops (main_options opts now)) = true /\
   SFleb (Opts.drops (main_options opts now)) (F64.to_float DROPS_FACTOR_MAX) = true) /\
  (Opts.error opts <> S754_nan ->
   SFleb (F64.to_float ERROR_FACTOR_MIN) (Opts.error (main_options opts now)) = true /\
   SFleb (Opts.error (main_options opts now)) (F64.to_float ERROR_FACTOR_MAX) = true) /\
  (is_zero (Opts.speed opts) = true ->
   Opts.speed (main_options opts now) = F64.to_float SPEED_FACTOR_DEF) /\
  (is_zero (Opts.error opts) = true ->
   Opts.error (main_options opts now) = F64.to_float ERROR_FACTOR_DEF) /\
  (is_zero (Opts.drops opts) = true ->
   Opts.drops (main_options opts now) = F64.to_float DROPS_FACTOR_MIN /\
   F64.to_float DROPS_FACTOR_MIN = S754_finite false 10737418 (-30) /\
   F64.to_float DROPS_FACTOR_DEF = S754_finite false 13743895 (-37)).
Proof.
  assert (Hcap : forall x def min max,
            SFleb min max = true -> def <> S754_nan -> x <> S754_nan ->
            SFleb min (cap_float (if is_zero x then def else x) min max) = true /\
            SFleb (cap_float (if is_zero x then def else x) min max) max = true).
  { intros x def min max Hmm Hdef Hx. apply cap_float_range; [exact Hmm|].
    destruct (is_zero x); assumption. }
  split; [|split; [|split; [|split; [|split]]]].
  - intros Hx. cbn [main_options Opts.speed].
    apply Hcap; [vm_compute; reflexivity|vm_compute; discriminate|exact Hx].
  - intros Hx. cbn [main_options Opts.drops].
    apply Hcap; [vm_compute; reflexivity|vm_compute; discriminate|exact Hx].
  - intros Hx. cbn [main_options Opts.error].
    apply Hcap; [vm_compute; reflexivity|vm_compute; discriminate|exact Hx].
  - intros Hz. cbn [main_options Opts.speed]. rewrite Hz.
    vm_compute. reflexivity.
  - intros Hz. cbn [main_options Opts.error]. rewrite Hz.
    vm_compute. reflexivity.
  - intros Hz. cbn [main_options Opts.drops]. rewrite Hz.
    split; [vm_compute; reflexivity|]. split; vm_compute; reflexivity.
Qed.

Lemma main_options_capped_witness :
  Opts.drops (main_options
                (Opts.Options (F32.make 5 0) (S754_zero false) (F32.make 1 (-10))
                              0 0 false false false) 1700000000)
    = S754_finite false 10737418 (-30) /\
  SFleb (Opts.speed (main_options
                (Opts.Options (F32.make 5 0) (S754_zero false) (F32.make 1 (-10))
                              0 0 false false false) 1700000000))
        (F64.to_float SPEED_FACTOR_MAX) = true.
Proof.
  destruct (main_options_capped
              (Opts.Options (F32.make 5 0) (S754_zero false) (F32.make 1 (-10))
                            0 0 false false false) 1700000000)
    as (Hspeed & _ & _ & _ & _ & Hdrops).
  split.
  - destruct Hdrops as (Hd & Hv & _); [reflexivity|]. rewrite Hd. exact Hv.
  - apply Hspeed. vm_compute. discriminate.
Defined.

(** ** The delay between frames *)

Section Shift.

Variable M : Z.

Lemma shifted_step (j : Z) (mrs : shr_record) :
  0 <= j -> shifted M j mrs -> shifted M (j + 1) (shr_1 mrs).
Proof.
  intros Hj (Hm & t & HM & Ht & Hs).
  destruct mrs as [m r s]. cbn [shr_m shr_r shr_s] in *.
  assert (Hp : 0 < 2 ^ j) by (apply Z.pow_pos_nonneg; lia).
  assert (Hr0 : j = 0 -> r = false).
  { intros ->. change (2 ^ 0) with 1 in *. destruct r; [cbn [Z.b2z] in HM; lia|reflexivity]. }
  assert (Hev : exists h, Z.b2z r * 2 ^ j = 2 * h /\ 0 <= h /\ (r = true -> 0 < h) /\ (r = false -> h = 0)).
  { destruct r; cbn [Z.b2z].
    - destruct (Z.eq_dec j 0) as [->|Hne]; [specialize (Hr0 eq_refl); discriminate|].
      exists (2 ^ (j - 1)).
      assert (0 < 2 ^ (j - 1)) by (apply Z.pow_pos_nonneg; lia).
      replace j with (1 + (j - 1)) at 1 by lia.
      rewrite Z.pow_add_r by lia. change (2 ^ 1) with 2.
      repeat split; try lia; try discriminate.
    - exists 0. repeat split; try lia; try discriminate. }
  destruct Hev as (h & Hh & Hh0 & Hh1 & Hh2).
  assert (Hstep : exists m' b, shr_1 {| shr_m := m; shr_r := r; shr_s := s |}
                    = {| shr_m := m'; shr_r := b; shr_s := r || s |}
                    /\ m = 2 * m' + Z.b2z b /\ 0 <= m').
  { destruct m as [|[p|p|]|p]; cbn [shr_1]; try lia.
    - exists 0, false. repeat split; cbn; lia.
    - exists (Z.pos p), true. repeat split; cbn [Z.b2z]; lia.
    - exists (Z.pos p), false. repeat split; cbn [Z.b2z]; lia.
    - exists 0, true. repeat split; cbn [Z.b2z]; lia. }
  destruct Hstep as (m' & b & -> & Hmb & Hm').
  unfold shifted. cbn [shr_m shr_r shr_s].
  rewrite Z.pow_add_r by lia. change (2 ^ 1) with 2.
  split; [exact Hm'|]. exists (h + t).
  split; [|split].
  - subst m. rewrite HM.
    replace ((2 * (2 * m' + Z.b2z b) + Z.b2z r) * 2 ^ j)
      with ((2 * m' + Z.b2z b) * (2 ^ j * 2) + Z.b2z r * 2 ^ j) by ring.
    rewrite Hh. ring.
  - destruct r; cbn [Z.b2z] in Hh; clear - Hh Ht Hh0 Hp; lia.
  - rewrite orb_true_iff. split.
    + intros [Hr|Hs']; [specialize (Hh1 Hr); lia|apply Hs in Hs'; lia].
    + intros Hpos. destruct r; [left; reflexivity|right].
      apply Hs. specialize (Hh2 eq_refl). lia.
Qed.

Lemma iter_pos_steps {A : Type} (f : A -> A) (P : Z -> A -> Prop) :
  (forall j x, 0 <= j -> P j x -> P (j + 1) (f x)) ->
  forall n j x, 0 <= j -> P j x -> P (j + Z.pos n) (SpecFloat.iter_pos f n x).
Proof.
  intros Hf. induction n as [n IH|n IH|]; intros j x Hj Hx;
    cbn [SpecFloat.iter_pos].
  - replace (j + Z.pos n~1) with (j + 1 + Z.pos n + Z.pos n) by lia.
    apply IH; [lia|]. apply IH; [lia|]. apply Hf; assumption.
  - replace (j + Z.pos n~0) with (j + Z.pos n + Z.pos n) by lia.
    apply IH; [lia|]. apply IH; assumption.
  - apply Hf; assumption.
Qed.

Lemma shifted_iter (k : positive) :
  0 <= M ->
  shifted M (Z.pos k) (SpecFloat.iter_pos shr_1 k (shr_record_of_loc M loc_Exact)).
Proof.
  intros HM.
  change (Z.pos k) with (0 + Z.pos k).
  apply (iter_pos_steps shr_1 (shifted M)); [intros; apply shifted_step; assumption|lia|].
  unfold shifted. cbn [shr_record_of_loc shr_m shr_r shr_s Z.b2z].
  split; [exact HM|]. exists 0. change (2 ^ 0) with 1.
  repeat split; try lia; try discriminate.
Qed.

(** Rounding to nearest after the shift is monotone against the points
    [T * 2^k]. *)
Lemma shifted_round (k : Z) (mrs : shr_record) :
  0 <= k -> shifted M k mrs ->
  (forall T, (2 * T - 1) * 2 ^ k < 2 * M ->
             T <= round_nearest_even (shr_m mrs) (loc_of_shr_record mrs)) /\
  (forall T, 2 * M < (2 * T + 1) * 2 ^ k ->
             round_nearest_even (shr_m mrs) (loc_of_shr_record mrs) <= T).
Proof.
  intros Hk (Hm & t & HM & Ht & Hs).
  assert (Hp : 0 < 2 ^ k) by (apply Z.pow_pos_nonneg; lia).
  destruct mrs as [m r s]. cbn [shr_m shr_r shr_s] in *.
  pose proof (round_nearest_even_le m
                (loc_of_shr_record {| shr_m := m; shr_r := r; shr_s := s |})) as Hr.
  split; intros T HT.
  - destruct (Z.le_gt_cases T m) as [|Hlt]; [lia|].
    assert (r = true /\ 0 < t /\ m = T - 1) as (-> & Htp & ->).
    { destruct r; cbn [Z.b2z] in HM; [split; [reflexivity|]|exfalso]; nia. }
    apply Hs in Htp. subst s. cbn. lia.
  - destruct (Z.le_gt_cases (m + 1) T) as [|Hlt]; [lia|].
    assert (r = false /\ m = T) as (-> & ->).
    { destruct r; cbn [Z.b2z] in HM; [exfalso|split; [reflexivity|]]; nia. }
    destruct s; cbn; lia.
Qed.

End Shift.

(** Rounding a mantissa of [d] bits, [d] above 24: [d - 24] bits are shifted
    out and the rest is rounded to nearest. *)
Lemma binary_round_aux_shift (M e d : Z) :
  24 < d -> 2 ^ (d - 1) <= M < 2 ^ d -> -149 <= e + (d - 24) <= 103 ->
  exists f m1,
    binary_round_aux F32.prec F32.emax false M e loc_Exact = f /\
    F32.trunc f = Some (scaled_floor m1 (e + (d - 24))) /\
    (forall T, (2 * T - 1) * 2 ^ (d - 24) < 2 * M -> T <= m1) /\
    (forall T, 2 * M < (2 * T + 1) * 2 ^ (d - 24) -> m1 <= T).
Proof.
  intros Hd HM He. unfold binary_round_aux.
  assert (H0 : 0 < 2 ^ (d - 1)) by (apply Z.pow_pos_nonneg; lia).
  unfold shr_fexp at 1.
  rewrite (Zdigits2_eq M d) by lia.
  unfold fexp, emin, F32.prec, F32.emax.
  replace (Z.max (d + e - 24) (3 - 128 - 24) - e) with (d - 24) by lia.
  destruct (d - 24) as [|k|k] eqn:Hk; try lia.
  cbn [shr].
  pose proof (shifted_iter M k ltac:(lia)) as Hsh.
  set (mrs := SpecFloat.iter_pos shr_1 k (shr_record_of_loc M loc_Exact)) in *.
  destruct (shifted_round M (Z.pos k) mrs ltac:(lia) Hsh) as [Hlo Hhi].
  set (m1 := round_nearest_even (shr_m mrs) (loc_of_shr_record mrs)) in *.
  assert (Hp : 0 < 2 ^ Z.pos k) by (apply Z.pow_pos_nonneg; lia).
  assert (Hpow : 2 ^ d = 2 ^ 24 * 2 ^ Z.pos k).
  { rewrite <- Z.pow_add_r by lia. f_equal. lia. }
  assert (Hpow1 : 2 * 2 ^ (d - 1) = 2 ^ d).
  { rewrite <- (Z.pow_succ_r 2 (d - 1)) by lia. f_equal. lia. }
  assert (Hm1 : 2 ^ 23 <= m1 <= 2 ^ 24).
  { split.
    - apply Hlo. change (2 ^ 23) with 8388608. change (2 ^ 24) with 16777216 in Hpow.
      clear - HM Hpow Hpow1 Hp. nia.
    - apply Hhi. change (2 ^ 24) with 16777216 in *.
      clear - HM Hpow Hpow1 Hp. nia. }
  destruct (round_finish m1 (e + Z.pos k)) as (f & Hf & Ht & _); [exact Hm1|lia|].
  exists f, m1. split; [exact Hf|]. split; [exact Ht|]. split; assumption.
Qed.

Lemma in_range_inside (lo hi z : Z) :
  lo <= z <= hi -> F32.in_range lo hi z = Some z.
Proof.
  intros H. unfold F32.in_range.
  destruct (Z.leb_spec lo z); [|lia]. destruct (Z.leb_spec z hi); [|lia].
  reflexivity.
Qed.

(** The single-precision values between the least and the greatest speed
    factor. *)
Lemma speed_shape (speed : spec_float) :
  valid_binary F32.prec F32.emax speed = true ->
  SFleb (F64.to_float SPEED_FACTOR_MIN) speed = true ->
  SFleb speed (F64.to_float SPEED_FACTOR_MAX) = true ->
  exists m e,
    speed = S754_finite false m e /\
    2 ^ 23 <= Z.pos m < 2 ^ 24 /\ -30 <= e <= -23 /\
    (e = -30 -> 10737418 <= Z.pos m) /\
    (e = -23 -> Z.pos m = 8388608).
Proof.
  assert (Hmin : F64.to_float SPEED_FACTOR_MIN = S754_finite false 10737418 (-30))
    by (vm_compute; reflexivity).
  assert (Hmax : F64.to_float SPEED_FACTOR_MAX = S754_finite false 8388608 (-23))
    by (vm_compute; reflexivity).
  rewrite Hmin, Hmax. clear Hmin Hmax.
  intros Hv Hlo Hhi.
  destruct speed as [s|s| |s m e]; try (destruct s; discriminate).
  - discriminate.
  - destruct s; [discriminate|].
    unfold SFleb in Hlo, Hhi. cbn [SFcompare] in Hlo, Hhi.
    assert (He : -30 <= e <= -23 /\ (e = -30 -> 10737418 <= Z.pos m) /\
                 (e = -23 -> Z.pos m <= 8388608)).
    { destruct (Z.compare_spec (-30) e) as [E1|E1|E1];
        destruct (Z.compare_spec e (-23)) as [E2|E2|E2];
        try discriminate; try lia;
        (split; [lia|]); split; intros E; try lia.
      - change (Pos.compare_cont Eq 10737418 m) with (Pos.compare 10737418 m) in Hlo.
        destruct (Pos.compare_spec 10737418 m); try discriminate; lia.
      - change (Pos.compare_cont Eq m 8388608) with (Pos.compare m 8388608) in Hhi.
        destruct (Pos.compare_spec m 8388608); try discriminate; lia. }
    destruct He as (He & He30 & He23).
    cbn [valid_binary] in Hv. unfold bounded in Hv.
    apply andb_true_iff in Hv as [Hc _].
    unfold canonical_mantissa, fexp, emin, F32.prec, F32.emax in Hc.
    apply Z.eqb_eq in Hc.
    pose proof (digits2_pos_bounds m) as Hd.
    assert (Hdig : Z.pos (digits2_pos m) = 24) by lia.
    rewrite Hdig in Hd. change (24 - 1) with 23 in Hd.
    exists m, e. split; [reflexivity|]. split; [exact Hd|]. split; [exact He|].
    split; [exact He30|]. intros H23. specialize (He23 H23).
    change (2 ^ 23) with 8388608 in Hd. lia.
Qed.

(** In the range of the speed factor the product [90000000 * speed] lies
    between [900000] and [90000000]. *)
Lemma main_delay_inside (speed : spec_float) :
  valid_binary F32.prec F32.emax speed = true ->
  SFleb (F64.to_float SPEED_FACTOR_MIN) speed = true ->
  SFleb speed (F64.to_float SPEED_FACTOR_MAX) = true ->
  exists less,
    F32.to_int (F32.mul (F32.of_Z 90000000) speed) = Some less /\
    900000 <= less <= 90000000.
Proof.
  intros Hv Hlo Hhi.
  destruct (speed_shape speed Hv Hlo Hhi) as (m & e & -> & Hm & He & He30 & He23).
  assert (Hof : F32.of_Z 90000000 = S754_finite false 11250000 3)
    by (vm_compute; reflexivity).
  rewrite Hof. unfold F32.mul. cbn [SFmul xorb].
  rewrite Pos2Z.inj_mul.
  change (2 ^ 23) with 8388608 in Hm. change (2 ^ 24) with 16777216 in Hm.
  set (M := Z.pos 11250000 * Z.pos m).
  assert (HM : 2 ^ 46 <= M < 2 ^ 48).
  { unfold M. change (2 ^ 46) with 70368744177664.
    change (2 ^ 48) with 281474976710656. lia. }
  assert (Hcases : exists d, (d = 47 \/ d = 48) /\ 2 ^ (d - 1) <= M < 2 ^ d).
  { destruct (Z.lt_ge_cases M (2 ^ 47)).
    - exists 47. split; [left; reflexivity|]. change (47 - 1) with 46. lia.
    - exists 48. split; [right; reflexivity|]. change (48 - 1) with 47. lia. }
  destruct Hcases as (d & Hd & HMd).
  destruct (binary_round_aux_shift M (3 + e) d) as (f & m1 & Hf & Ht & Hlo1 & Hhi1);
    [lia|exact HMd|lia|].
  rewrite Hf. unfold F32.to_int. rewrite Ht. cbn [mbind option_bind].
  assert (Hb : 900000 <= scaled_floor m1 (3 + e + (d - 24)) <= 90000000).
  { assert (Hes : e = -30 \/ e = -29 \/ e = -28 \/ e = -27 \/ e = -26 \/
                  e = -25 \/ e = -24 \/ e = -23) by lia.
    unfold M in *. clear Hf Ht HM Hv Hlo Hhi Hof.
    destruct Hd as [-> | ->];
      [change (2 ^ (47 - 24)) with 8388608 in *;
       change (2 ^ (47 - 1)) with 70368744177664 in *;
       change (2 ^ 47) with 140737488355328 in *
      |change (2 ^ (48 - 24)) with 16777216 in *;
       change (2 ^ (48 - 1)) with 140737488355328 in *;
       change (2 ^ 48) with 281474976710656 in *];
      destruct Hes as [->|[->|[->|[->|[->|[->|[->| ->]]]]]]];
      unfold scaled_floor;
      match goal with
      | |- context [0 <=? ?c] =>
          let c' := eval vm_compute in c in
          change c with c';
          let b := eval vm_compute in (0 <=? c') in
          change (0 <=? c') with b; cbv iota;
          first
            [ lazymatch b with true => idtac end;
              let p := eval vm_compute in (2 ^ c') in
              change (2 ^ c') with p;
              let tl := eval vm_compute in (900000 / p) in
              let tu := eval vm_compute in (90000000 / p) in
              pose proof (fun H => Hlo1 tl H) as Hl; pose proof (fun H => Hhi1 tu H) as Hu
            | let p := eval vm_compute in (2 ^ (- c')) in
              change (2 ^ (- c')) with p;
              let tl := eval vm_compute in (900000 * p) in
              let tu := eval vm_compute in (90000000 * p) in
              pose proof (fun H => Hlo1 tl H) as Hl; pose proof (fun H => Hhi1 tu H) as Hu ]
      end;
      try specialize (He30 eq_refl); try specialize (He23 eq_refl);
      clear Hlo1 Hhi1;
      (assert (Hl' := Hl ltac:(lia)); assert (Hu' := Hu ltac:(lia));
       clear - Hl' Hu';
       first [lia
             |split; [apply Z.div_le_lower_bound|apply Z.div_le_upper_bound]; lia]). }
  rewrite in_range_inside by (change (2 ^ 31) with 2147483648; lia).
  eexists. split; [reflexivity|exact Hb].
Qed.

Lemma cap_float_cases (val min max : spec_float) :
  cap_float val min max = min \/ cap_float val min max = max \/
  cap_float val min max = val.
Proof.
  unfold cap_float. destruct (SFltb val min); [left; reflexivity|].
  destruct (SFgtb val max); [right; left; reflexivity|right; right; reflexivity].
Qed.

(** X27: the delay between two frames.  Whatever speed factor the command
    line gives, as long as it is a single-precision number, [main] computes
    a delay that is defined and lies between 10 and 99.1 milliseconds: the
    product [90000000 * speed], rounded to single precision and truncated,
    lies between 900000 and 90000000 once the speed is capped.  A speed left
    at zero gives 91 milliseconds. *)
Theorem main_delay_range (opts : Opts.options_s) (now : Z) :
  valid_binary F32.prec F32.emax (Opts.speed opts) = true ->
  Opts.speed opts <> S754_nan ->
  exists ns,
    main_delay (Opts.speed (main_options opts now)) = Some ns /\
    10000000 <= ns <= 99100000 /\
    (is_zero (Opts.speed opts) = true -> ns = 91000000).
Proof.
  intros Hv Hn. cbn [main_options Opts.speed].
  set (speed := if is_zero (Opts.speed opts)
                then F64.to_float SPEED_FACTOR_DEF else Opts.speed opts).
  assert (Hv' : valid_binary F32.prec F32.emax speed = true).
  { unfold speed. destruct (is_zero (Opts.speed opts)); [vm_compute; reflexivity|exact Hv]. }
  assert (Hn' : speed <> S754_nan).
  { unfold speed. destruct (is_zero (Opts.speed opts)); [vm_compute; discriminate|exact Hn]. }
  destruct (cap_float_range speed (F64.to_float SPEED_FACTOR_MIN)
              (F64.to_float SPEED_FACTOR_MAX)) as [Hlo Hhi];
    [vm_compute; reflexivity|exact Hn'|].
  assert (Hvc : valid_binary F32.prec F32.emax
                  (cap_float speed (F64.to_float SPEED_FACTOR_MIN)
                     (F64.to_float SPEED_FACTOR_MAX)) = true).
  { destruct (cap_float_cases speed (F64.to_float SPEED_FACTOR_MIN)
                (F64.to_float SPEED_FACTOR_MAX)) as [-> | [-> | ->]];
      [vm_compute; reflexivity|vm_compute; reflexivity|exact Hv']. }
  destruct (main_delay_inside _ Hvc Hlo Hhi) as (less & Hless & Hb).
  assert (Hns : main_delay (cap_float speed (F64.to_float SPEED_FACTOR_MIN)
                             (F64.to_float SPEED_FACTOR_MAX))
                = Some (100000000 - less)).
  { unfold main_delay. rewrite Hless. cbn [mbind option_bind].
    apply in_range_inside. change (2 ^ 31) with 2147483648. lia. }
  exists (100000000 - less). split; [exact Hns|]. split; [lia|].
  intros Hz. unfold speed in Hns. rewrite Hz in Hns.
  assert (Hdef : main_delay (cap_float (F64.to_float SPEED_FACTOR_DEF)
                               (F64.to_float SPEED_FACTOR_MIN)
                               (F64.to_float SPEED_FACTOR_MAX)) = Some 91000000)
    by (vm_compute; reflexivity).
  rewrite Hdef in Hns. injection Hns as Hns. lia.
Qed.

Lemma main_delay_range_witness :
  exists ns,
    main_delay (Opts.speed (main_options
                  (Opts.Options (F32.make 1 (-1)) (S754_zero false) (F32.make 1 (-10))
                                0 0 false false false) 1700000000)) = Some ns /\
    10000000 <= ns <= 99100000.
Proof.
  destruct (main_delay_range
              (Opts.Options (F32.make 1 (-1)) (S754_zero false) (F32.make 1 (-10))
                            0 0 false false false) 1700000000)
    as (ns & Hrun & Hb & _).
  - vm_compute. reflexivity.
  - vm_compute. discriminate.
  - exists ns. split; [exact Hrun|exact Hb].
Defined.

(** ** The main loop *)

Lemma drops_to_add_shape (mat mat' : matrix_s) :
  rows mat' = rows mat -> cols mat' = cols mat ->
  drop_count mat' = drop_count mat -> drop_ratio mat' = drop_ratio mat ->
  drops_to_add mat' = drops_to_add mat.
Proof.
  intros Hr Hc Hdc Hdr. unfold drops_to_add, drops_missing, drops_desired.
  rewrite Hr, Hc, Hdc, Hdr. reflexivity.
Qed.

(** X24: one iteration of the main loop on a reachable matrix.  When the
    number of glitches and the loop bound of the spawn phase are defined, the
    iteration returns: it writes the cursor-home sequence and the frame of the
    matrix as it was, takes three values of [rand()] per glitch and two per
    spawned drop, and leaves a reachable matrix of the same shape. *)
Theorem main_iteration_runs (rand_seq : nat -> Z) (error : spec_float)
    (mat : matrix_s) (k : nat) (num to_add : Z) :
  (forall n, 0 <= rand_seq n <= RAND_MAX) ->
  reachable rand_seq mat ->
  glitch_num mat error = Some num ->
  drops_to_add mat = Some to_add ->
  exists frame mat',
    mat_print mat = Some frame /\
    main_iteration rand_seq error mat k
      = Some ([27; 91; 72] ++ frame, mat',
              (k + 3 * Z.to_nat num + 2 * Z.to_nat (to_add + 1))%nat) /\
    reachable rand_seq mat' /\
    rows mat' = rows mat /\ cols mat' = cols mat.
Proof.
  intros Hrand Hreach Hnum Hadd.
  destruct (reachable_shown rand_seq Hrand mat Hreach) as [Hwf Hall].
  (* the frame *)
  pose proof (mat_print_shown mat (conj Hwf Hall)) as Hframe.
  set (frame := concat ((fun v => default [] (print_cell v)) <$> cells mat)) in *.
  (* the glitch *)
  destruct (glitch_loop_spec rand_seq Hrand (Z.to_nat num) mat k Hwf)
    as (mat1 & Hloop & Hr1 & Hc1 & Hdc1 & Hdr1 & Hsame & _).
  assert (Hglitch : mat_glitch rand_seq mat error k
                    = Some (mat1, (k + 3 * Z.to_nat num)%nat)).
  { unfold mat_glitch. rewrite Hnum. exact Hloop. }
  assert (Hreach1 : reachable rand_seq mat1)
    by (eapply reach_glitch; eassumption).
  assert (Hwf1 : wf mat1).
  { unfold wf. rewrite Hr1, Hc1, <- (Forall2_length _ _ _ Hsame). exact Hwf. }
  (* the tick *)
  assert (Hadd1 : drops_to_add mat1 = Some to_add).
  { rewrite (drops_to_add_shape mat mat1) by assumption. exact Hadd. }
  destruct (mat_update_runs rand_seq Hrand mat1 (k + 3 * Z.to_nat num) to_add
              Hwf1 Hadd1) as (mat2 & Hupd).
  destruct (mat_update_keeps rand_seq Hrand mat1 _ mat2 _ Hwf1 Hupd)
    as (Hr2 & Hc2 & _).
  exists frame, mat2. split; [exact Hframe|]. split.
  { unfold main_iteration, cli_clear. rewrite Hframe.
    cbn [mbind option_bind]. rewrite Hglitch. cbn [mbind option_bind].
    rewrite Hupd. reflexivity. }
  split; [eapply reach_update; eassumption|].
  split; congruence.
Qed.

Lemma main_iteration_runs_witness :
  exists frame mat',
    mat_print (Matrix [32; 32; 32; 32] 2 2 0 (F32.make 1 (-4))) = Some frame /\
    main_iteration (fun n => Z.of_nat n mod 97) (F32.make 1 (-1))
                   (Matrix [32; 32; 32; 32] 2 2 0 (F32.make 1 (-4))) 0
      = Some ([27; 91; 72] ++ frame, mat', 8%nat).
Proof.
  destruct (main_iteration_runs (fun n => Z.of_nat n mod 97) (F32.make 1 (-1))
              (Matrix [32; 32; 32; 32] 2 2 0 (F32.make 1 (-4))) 0 2 0)
    as (frame & mat' & Hprint & Hrun & _).
  - intros n. cbv beta. unfold RAND_MAX.
    pose proof (Z.mod_pos_bound (Z.of_nat n) 97 ltac:(lia)). lia.
  - apply (reach_fill _ (Matrix [0; 1023; 65535; 7] 2 2 0 (F32.make 1 (-4)))
                      0%nat _ 4%nat).
    + unfold wf. cbn [rows cols data length]. lia.
    + vm_compute. reflexivity.
  - vm_compute. reflexivity.
  - vm_compute. reflexivity.
  - exists frame, mat'. split; [exact Hprint|exact Hrun].
Defined.

(** X25: [mat_idx] is a bijection between the cells of the grid and the
    first [rows * cols] positions of the buffer: the position of a cell lies
    below [rows * cols] and gives back the row as quotient and the column as
    remainder by [cols]; two cells with the same position are the same cell;
    and every position below [rows * cols] is the position of a cell. *)
Theorem grid_cells_are_buffer_positions (mat : matrix_s) :
  wf mat ->
  (forall row col, in_grid mat row col ->
     0 <= mat_idx mat row col < rows mat * cols mat /\
     mat_idx mat row col / cols mat = row /\
     mat_idx mat row col mod cols mat = col) /\
  (forall row col row' col', in_grid mat row col -> in_grid mat row' col' ->
     mat_idx mat row col = mat_idx mat row' col' -> row = row' /\ col = col') /\
  (forall i, 0 <= i < rows mat * cols mat ->
     in_grid mat (i / cols mat) (i mod cols mat) /\
     mat_idx mat (i / cols mat) (i mod cols mat) = i).
Proof.
  intros Hwf. pose proof Hwf as (Hrows & Hcols & _).
  split; [|split].
  - intros row col [Hr Hc]. unfold mat_idx.
    split; [nia|]. split.
    + rewrite Z.div_add_l by lia. rewrite Z.div_small by lia. lia.
    + rewrite Z.add_comm, Z.mod_add by lia. apply Z.mod_small. lia.
  - intros row col row' col' [Hr Hc] [Hr' Hc'] Heq. unfold mat_idx in Heq.
    assert (row = row') by nia. subst. lia.
  - intros i Hi.
    destruct (grid_position mat (Z.to_nat i) Hwf ltac:(lia)) as [Hin Hidx].
    rewrite Z2Nat.id in Hin, Hidx by lia.
    split; [exact Hin|]. unfold idx in Hidx.
    apply Z2Nat.inj in Hidx; [exact Hidx| |lia].
    destruct Hin as [Hr Hc]. unfold mat_idx. nia.
Qed.

Lemma grid_cells_are_buffer_positions_witness :
  mat_idx (Matrix (replicate 12 65) 3 4 0 (F32.make 1 (-4))) 2 1 / 3 = 2 /\
  mat_idx (Matrix (replicate 12 65) 3 4 0 (F32.make 1 (-4))) 2 1 mod 3 = 1.
Proof.
  destruct (grid_cells_are_buffer_positions
              (Matrix (replicate 12 65) 3 4 0 (F32.make 1 (-4)))) as (Hpos & _ & _).
  - unfold wf. cbn [rows cols data length replicate]. lia.
  - destruct (Hpos 2 1) as (_ & Hq & Hm);
      [unfold in_grid; cbn [rows cols]; lia|].
    split; [exact Hq|exact Hm].
Defined.

(** ** Printable characters *)

Section Printable.

Variable rand_seq : nat -> Z.
Hypothesis rand_range : forall n, 0 <= rand_seq n <= RAND_MAX.

Lemma ascii_of_rand_range (r : Z) : ASCII_MIN <= ascii_of_rand r < ASCII_MAX.
Proof.
  destruct (ascii_of_rand_clamp r) as [_ Hr].
  pose proof (ascii_of_rand_below_max r). lia.
Qed.

Lemma printable_same_chars (mat mat' : matrix_s) :
  printable mat -> wf mat' -> same_chars mat mat' -> printable mat'.
Proof.
  intros [Hwf Hall] Hwf' (Hr & Hc & Hsame). split; [exact Hwf'|].
  intros r c Hin.
  assert (Hin0 : in_grid mat r c)
    by (unfold in_grid in *; rewrite <- Hr, <- Hc; exact Hin).
  rewrite Hsame by exact Hin0. apply Hall, Hin0.
Qed.

Lemma printable_wf (mat : matrix_s) : printable mat -> wf mat.
Proof. intros [H _]. exact H. Qed.

Lemma printable_count (mat : matrix_s) (n : Z) :
  printable mat -> printable (set_drop_count n mat).
Proof. intros H. exact H. Qed.

Lemma printable_add (mat : matrix_s) (row col tsize : Z) (mat' : matrix_s) :
  printable mat -> 0 <= col < cols mat -> 0 <= tsize <= TSIZE_MAX ->
  mat_add_drop mat row col tsize = Some mat' -> printable mat'.
Proof.
  intros Hp Hcol Hts Hrun.
  destruct (mat_add_drop_chars _ _ _ _ _ (printable_wf _ Hp) Hcol Hts Hrun).
  eapply printable_same_chars; eassumption.
Qed.

Lemma printable_mov (mat : matrix_s) (col : Z) (mat' : matrix_s) (dropped : Z) :
  printable mat -> 0 <= col < cols mat ->
  mat_mov_col mat col = Some (mat', dropped) -> printable mat'.
Proof.
  intros Hp Hcol Hrun.
  destruct (mat_mov_col_chars _ _ _ _ (printable_wf _ Hp) Hcol Hrun).
  eapply printable_same_chars; eassumption.
Qed.

Lemma printable_set_ascii (mat : matrix_s) (row col r : Z) (mat' : matrix_s) :
  printable mat -> in_grid mat row col ->
  mat_set_ascii mat row col (ascii_of_rand r) = Some mat' -> printable mat'.
Proof.
  intros [Hwf Hall] Hin Hrun.
  destruct (mat_get_value_in _ _ _ Hwf Hin) as [_ [v Hv]].
  rewrite (mat_set_ascii_in mat row col _ v Hwf Hin Hv) in Hrun.
  injection Hrun as <-. split; [apply wf_put, Hwf|].
  intros r0 c0 Hin0.
  destruct (fields_put mat row col v (cell_set_ascii (ascii_of_rand r) v)
              r0 c0 Hwf Hin Hin0 Hv) as (-> & _ & _).
  destruct (decide (r0 = row /\ c0 = col)) as [_|_]; [|apply Hall, Hin0].
  eexists. split; [reflexivity|]. rewrite ascii_cell_set_ascii.
  pose proof (ascii_of_rand_range r) as Hr. unfold ASCII_MIN, ASCII_MAX in *.
  rewrite Z.mod_small; lia.
Qed.

Lemma glitch_loop_printable (n : nat) : forall mat k mat' k',
  printable mat -> glitch_loop rand_seq n mat k = Some (mat', k') ->
  printable mat'.
Proof.
  induction n as [|n IH]; intros mat k mat' k' Hp Hrun.
  - cbn [glitch_loop] in Hrun. injection Hrun as <- _. exact Hp.
  - pose proof (printable_wf _ Hp) as (Hrows & Hcols & _).
    cbn [glitch_loop] in Hrun. unfold rand in Hrun.
    destruct (c_rem_rand rand_seq rand_range k (rows mat)) as [Hr Hrow]; [lia|].
    rewrite Hr in Hrun. cbn [mbind option_bind] in Hrun.
    destruct (c_rem_rand rand_seq rand_range (S k) (cols mat)) as [Hc Hcol];
      [lia|].
    rewrite Hc in Hrun. cbn [mbind option_bind] in Hrun.
    rewrite rand_ascii_eq in Hrun. cbn [mbind option_bind] in Hrun.
    destruct (mat_set_ascii mat _ _ _) as [mat1|] eqn:Hset; [|discriminate Hrun].
    cbn [mbind option_bind] in Hrun.
    apply IH in Hrun; [exact Hrun|].
    eapply printable_set_ascii; [exact Hp| |exact Hset].
    unfold in_grid. lia.
Qed.

Lemma mat_fill_printable (mat : matrix_s) (k : nat) (mat' : matrix_s) (k' : nat) :
  wf mat -> mat_fill rand_seq mat k = Some (mat', k') -> printable mat'.
Proof.
  intros Hwf Hrun.
  destruct (mat_fill_spec rand_seq mat k Hwf)
    as (m & Hrun' & Hr & Hc & _ & _ & Hlen & Hfill).
  rewrite Hrun' in Hrun. injection Hrun as <- _.
  assert (Hwf' : wf m) by (unfold wf; rewrite Hr, Hc, Hlen; exact Hwf).
  split; [exact Hwf'|]. intros r c Hin.
  assert (Hin0 : in_grid mat r c)
    by (unfold in_grid in *; rewrite <- Hr, <- Hc; exact Hin).
  destruct (mat_get_value_in _ _ _ Hwf Hin0) as [_ [v Hv]].
  destruct (idx_lt _ _ _ Hwf Hin0) as [Hi _].
  assert (Hv' : data m !! idx mat r c
                = Some (fill_cell (ascii_of_rand (rand_seq (k + (idx mat r c - 0))%nat)) v)).
  { rewrite Hfill.
    destruct (decide (0 <= idx mat r c < 0 + Z.to_nat (rows mat * cols mat))%nat)
      as [_|Hout]; [rewrite Hv; reflexivity|].
    exfalso. apply Hout. unfold idx. lia. }
  destruct (get_cell mat m r c _ Hwf Hr Hc Hlen Hin0 Hv') as (_ & _ & _ & ->).
  eexists. split; [reflexivity|]. unfold fill_cell.
  rewrite ascii_cell_set_ascii.
  pose proof (ascii_of_rand_range (rand_seq (k + (idx mat r c - 0))%nat)) as Hr0.
  unfold ASCII_MIN, ASCII_MAX in *. rewrite Z.mod_small; lia.
Qed.

Lemma reachable_printable (mat : matrix_s) :
  reachable rand_seq mat -> printable mat.
Proof.
  induction 1 as [mat k mat' k' Hwf Hrun
                 |mat k mat' k' _ IH Hrun
                 |mat fraction k mat' k' _ IH Hrun
                 |mat k mat' k' _ IH Hrun
                 |mat mat' _ IH Hrun
                 |mat row col tsize mat' _ IH Hcol Hts Hrun].
  - eapply mat_fill_printable; eassumption.
  - eapply (mat_rain_stable rand_seq rand_range printable printable_wf
              printable_add); eassumption.
  - unfold mat_glitch in Hrun.
    destruct (glitch_num mat fraction) as [num|]; [|discriminate Hrun].
    cbn [mbind option_bind] in Hrun.
    eapply glitch_loop_printable; eassumption.
  - eapply (mat_update_stable rand_seq rand_range printable printable_wf
              printable_count printable_add printable_mov); eassumption.
  - eapply (mat_update_advance_stable printable printable_wf printable_count
              printable_mov); eassumption.
  - eapply printable_add; eassumption.
Qed.

End Printable.

(** X26: in every reachable matrix each cell of the grid holds a
    character in [[ASCII_MIN, ASCII_MAX - 1]], that is from the space to the
    closing brace: [mat_fill] and [mat_glitch] write such characters only, and
    rain and ticks keep characters. *)
Theorem reachable_characters_printable (rand_seq : nat -> Z) (mat : matrix_s) :
  (forall n, 0 <= rand_seq n <= RAND_MAX) ->
  reachable rand_seq mat ->
  forall row col, in_grid mat row col ->
    exists a, mat_get_ascii mat row col = Some a /\
              ASCII_MIN <= a < ASCII_MAX.
Proof.
  intros Hrand Hreach.
  destruct (reachable_printable rand_seq Hrand mat Hreach) as [_ Hall].
  exact Hall.
Qed.

Lemma reachable_characters_printable_witness :
  exists a,
    mat_get_ascii (Matrix [32; 32; 32; 32] 2 2 0 (F32.make 1 (-4))) 1 1 = Some a /\
    ASCII_MIN <= a < ASCII_MAX.
Proof.
  apply (reachable_characters_printable (fun n => Z.of_nat n mod 97)
           (Matrix [32; 32; 32; 32] 2 2 0 (F32.make 1 (-4)))).
  - intros n. cbv beta. unfold RAND_MAX.
    pose proof (Z.mod_pos_bound (Z.of_nat n) 97 ltac:(lia)). lia.
  - apply (reach_fill _ (Matrix [0; 1023; 65535; 7] 2 2 0 (F32.make 1 (-4)))
                      0%nat _ 4%nat).
    + unfold wf. cbn [rows cols data length]. lia.
    + vm_compute. reflexivity.
  - unfold in_grid. cbn [rows cols]. lia.
Defined.
